(** * AskERP chat widget: the conversation turn engine and its renderer

    A shallow embedding of [askerp/public/js/chat_widget.js]: the
    markdown renderer ([renderMarkdown], [escapeHtml]) over JavaScript
    strings, and the event-driven turn engine ([sendMessage], the
    [chat_start] handlers, [startPolling]/[poll], [finishStreaming],
    [startNewChat], [loadSession], [loadSuggestions]) over an explicit
    widget state, with the pending backend calls and timers of the
    browser's event loop made explicit. *)

From Stdlib Require Import String Ascii.
From Stdlib Require Import List NArith ZArith Bool Lia Arith.
Import ListNotations.

(** ** JavaScript strings *)

Module JsString.

(** A JavaScript string is a sequence of UTF-16 code units. *)
Definition char := N.
Definition jsstring := list char.

(** ASCII literals of the source, as code units. *)
Definition lit (s : string) : jsstring :=
  map N_of_ascii (list_ascii_of_string s).

Definition NL : char := 10%N.
Definition QUOTE : char := 34%N.

Definition char_eqb (a b : char) : bool := N.eqb a b.

Definition in_range (lo hi c : char) : bool := (N.leb lo c && N.leb c hi)%bool.

(** ECMAScript LineTerminator: LF, CR, LS, PS. *)
Definition is_line_terminator (c : char) : bool :=
  (char_eqb c 10 || char_eqb c 13 || char_eqb c 8232 || char_eqb c 8233)%N%bool.

(** ECMAScript WhiteSpace and LineTerminator: what [\s] matches and what
    [String.prototype.trim] strips. *)
Definition is_space (c : char) : bool :=
  (in_range 9 13 c || char_eqb c 32 || char_eqb c 160 || char_eqb c 5760
   || in_range 8192 8202 c || char_eqb c 8232 || char_eqb c 8233
   || char_eqb c 8239 || char_eqb c 8287 || char_eqb c 12288
   || char_eqb c 65279)%N%bool.

(** [\w] and [\d]. *)
Definition is_digit (c : char) : bool := (in_range 48 57 c)%N.
Definition is_word (c : char) : bool :=
  (in_range 97 122 c || in_range 65 90 c || is_digit c || char_eqb c 95)%N%bool.

Fixpoint trim_start (s : jsstring) : jsstring :=
  match s with
  | c :: t => if is_space c then trim_start t else s
  | [] => []
  end.

(** [s.trim()] *)
Definition trim (s : jsstring) : jsstring :=
  rev (trim_start (rev (trim_start s))).

(** [s.split(sep)] for a one-unit separator: never the empty array. *)
Fixpoint split (sep : char) (s : jsstring) : list jsstring :=
  match s with
  | [] => [[]]
  | c :: t =>
      if char_eqb c sep then [] :: split sep t
      else match split sep t with
           | w :: ws => (c :: w) :: ws
           | [] => [[c]]
           end
  end.

(** [s.substring(0, n)] *)
Definition substring0 (n : nat) (s : jsstring) : jsstring := firstn n s.

(** A value is truthy unless it is the empty string. *)
Definition nonempty (s : jsstring) : bool :=
  match s with [] => false | _ => true end.

End JsString.
Import JsString.

(** ** Regular expressions, as the engine of the browser runs them

    A backtracking matcher in continuation-passing style, after the
    ECMAScript pattern semantics: greedy and lazy quantifiers, capture
    groups, and the [^] and [$] assertions with or without the [m] flag. *)

Module Regex.

Inductive regex : Type :=
| Eps
| Chr (p : char -> bool)
| Seq (r1 r2 : regex)
| Alt (r1 r2 : regex)
| Star (greedy : bool) (r : regex)
| Group (i : nat) (r : regex)
| Bol
| Eol.

(** Derived forms. *)
Definition Plus (greedy : bool) (r : regex) : regex := Seq r (Star greedy r).
Definition Opt (r : regex) : regex := Alt r Eps.
Definition Lit1 (c : char) : regex := Chr (char_eqb c).
Fixpoint Lits (s : jsstring) : regex :=
  match s with
  | [] => Eps
  | [c] => Lit1 c
  | c :: t => Seq (Lit1 c) (Lits t)
  end.
Definition Str (s : string) : regex := Lits (lit s).
Definition Dot : regex := Chr (fun c => negb (is_line_terminator c)).
Definition AnyChar : regex := Chr (fun _ => true).
Definition NotChr (c : char) : regex := Chr (fun x => negb (char_eqb x c)).

(** The matcher's state: the input already passed (most recent unit
    first), the input still ahead, and the captures so far. *)
Record mstate : Type := MState {
  passed : jsstring;
  ahead : jsstring;
  caps : list (nat * jsstring)
}.

Definition set_cap (i : nat) (s : jsstring) (x : mstate) : mstate :=
  MState (passed x) (ahead x) ((i, s) :: caps x).

Fixpoint get_cap (i : nat) (cs : list (nat * jsstring)) : jsstring :=
  match cs with
  | [] => []
  | (j, s) :: t => if Nat.eqb i j then s else get_cap i t
  end.

(** The units consumed between state [x] and a later state [y]. *)
Definition between (x y : mstate) : jsstring :=
  firstn (length (ahead x) - length (ahead y)) (ahead x).

Definition at_bol (multiline : bool) (x : mstate) : bool :=
  match passed x with
  | [] => true
  | c :: _ => multiline && is_line_terminator c
  end.

Definition at_eol (multiline : bool) (x : mstate) : bool :=
  match ahead x with
  | [] => true
  | c :: _ => multiline && is_line_terminator c
  end.

Definition orelse (a b : option mstate) : option mstate :=
  match a with Some _ => a | None => b end.

(** The loop of a quantifier [r*] or [r*?]: an iteration that consumes
    nothing is rejected, so at most one iteration per unit ahead. *)
Fixpoint star_loop (body : mstate -> (mstate -> option mstate) -> option mstate)
    (g : bool) (k : mstate -> option mstate) (n : nat) (x : mstate)
    {struct n} : option mstate :=
  match n with
  | O => k x
  | S n' =>
      let again :=
        body x (fun y =>
          if Nat.ltb (List.length (ahead y)) (List.length (ahead x))
          then star_loop body g k n' y else None) in
      if g then orelse again (k x) else orelse (k x) again
  end.

Fixpoint run (ml : bool) (r : regex) (x : mstate)
    (k : mstate -> option mstate) {struct r} : option mstate :=
  match r with
  | Eps => k x
  | Chr p =>
      match ahead x with
      | c :: t => if p c then k (MState (c :: passed x) t (caps x)) else None
      | [] => None
      end
  | Seq a b => run ml a x (fun y => run ml b y k)
  | Alt a b => orelse (run ml a x k) (run ml b x k)
  | Star g a => star_loop (run ml a) g k (S (List.length (ahead x))) x
  | Group i a => run ml a x (fun y => k (set_cap i (between x y) y))
  | Bol => if at_bol ml x then k x else None
  | Eol => if at_eol ml x then k x else None
  end.

(** One match attempt at the current position. *)
Definition match_here (ml : bool) (r : regex) (before after : jsstring)
  : option mstate :=
  run ml r (MState before after []) Some.

(** [re.test(s)], for a pattern without the [g] flag: is there a match
    at some position. *)
Fixpoint test_from (ml : bool) (r : regex) (before after : jsstring) : bool :=
  match match_here ml r before after with
  | Some _ => true
  | None =>
      match after with
      | [] => false
      | c :: t => test_from ml r (c :: before) t
      end
  end.
Definition test (ml : bool) (r : regex) (s : jsstring) : bool :=
  test_from ml r [] s.

(** What a replacement sees: the matched text and the captures. *)
Record found : Type := Found { whole : jsstring; groups : list (nat * jsstring) }.
Definition grp (i : nat) (m : found) : jsstring := get_cap i (groups m).

(** [s.replace(re, f)] for a pattern with the [g] flag: matches are
    searched left to right, each search starting where the previous match
    ended (one unit further after an empty match); the text between
    matches is copied. [skip] counts units of the current match still to
    be passed over. *)
Fixpoint replace_from (ml : bool) (r : regex) (f : found -> jsstring)
    (skip : nat) (before after : jsstring) : jsstring :=
  match skip with
  | S n =>
      match after with
      | c :: t => replace_from ml r f n (c :: before) t
      | [] => []
      end
  | O =>
      match match_here ml r before after with
      | Some y =>
          let w := between (MState before after []) y in
          f (Found w (caps y)) ++
          match after with
          | c :: t =>
              match length w with
              | O => c :: replace_from ml r f 0 (c :: before) t
              | S n => replace_from ml r f n (c :: before) t
              end
          | [] => []
          end
      | None =>
          match after with
          | c :: t => c :: replace_from ml r f 0 (c :: before) t
          | [] => []
          end
      end
  end.

Definition replace_all (ml : bool) (r : regex) (f : found -> jsstring)
    (s : jsstring) : jsstring :=
  replace_from ml r f 0 [] s.

End Regex.
Import Regex.

(** ** The markdown renderer *)

Module Markdown.

Definition Cat (rs : list regex) : regex := fold_right Seq Eps rs.
Definition Alts (r : regex) (rs : list regex) : regex := fold_left Alt rs r.
Definition C (s : string) : char :=
  match lit s with c :: _ => c | [] => 0%N end.

(** [escapeHtml]: the text is stored as the text content of a fresh
    element and read back as markup; the browser's serialisation of a text
    node rewrites [&], [<], [>] and the no-break space. *)
Definition escape_char (c : char) : jsstring :=
  if char_eqb c (C "&") then lit "&amp;"
  else if char_eqb c (C "<") then lit "&lt;"
  else if char_eqb c (C ">") then lit "&gt;"
  else if char_eqb c 160%N then lit "&nbsp;"
  else [c].

Definition escapeHtml (str : jsstring) : jsstring := flat_map escape_char str.

(** The fence pattern: three backticks, a captured run of word
    characters, a line feed, a captured lazy run of any units, three
    backticks; flag g. *)
Definition re_fence : regex :=
  Cat [Str "```"; Group 1 (Star true (Chr is_word)); Lit1 NL;
       Group 2 (Star false AnyChar); Str "```"].

(** "/`([^`]+)`/g" *)
Definition re_inline : regex :=
  Cat [Lit1 (C "`"); Group 1 (Plus true (NotChr (C "`"))); Lit1 (C "`")].

(** "/((?:\|[^\n]+\|\n?)+)/g" *)
Definition re_table : regex :=
  Group 1 (Plus true (Cat [Lit1 (C "|"); Plus true (NotChr NL);
                           Lit1 (C "|"); Opt (Lit1 NL)])).

(** "/^\|[\s-:|]+\|$/" *)
Definition re_separator : regex :=
  Cat [Bol; Lit1 (C "|");
       Plus true (Chr (fun c => is_space c || char_eqb c (C "-")
                                || char_eqb c (C ":") || char_eqb c (C "|")));
       Lit1 (C "|"); Eol].

(** "/^### (.+)$/gm" and "/^## (.+)$/gm" *)
Definition re_h3 : regex := Cat [Bol; Str "### "; Group 1 (Plus true Dot); Eol].
Definition re_h2 : regex := Cat [Bol; Str "## "; Group 1 (Plus true Dot); Eol].

(** "/\*\*(.+?)\*\*/g" and "/\*(.+?)\*/g" *)
Definition re_bold : regex := Cat [Str "**"; Group 1 (Plus false Dot); Str "**"].
Definition re_italic : regex :=
  Cat [Lit1 (C "*"); Group 1 (Plus false Dot); Lit1 (C "*")].

(** "/^[-•] (.+)$/gm"; the bullet is U+2022. *)
Definition re_ul_item : regex :=
  Cat [Bol; Chr (fun c => char_eqb c (C "-") || char_eqb c 8226%N);
       Lit1 (C " "); Group 1 (Plus true Dot); Eol].

(** "/((?:<li>.*<\/li>\n?)+)/g" *)
Definition re_li_run : regex :=
  Group 1 (Plus true (Cat [Str "<li>"; Star true Dot; Str "</li>";
                           Opt (Lit1 NL)])).

(** "/^\d+\. (.+)$/gm" *)
Definition re_ol_item : regex :=
  Cat [Bol; Plus true (Chr is_digit); Lit1 (C "."); Lit1 (C " ");
       Group 1 (Plus true Dot); Eol].

(** "/^> (.+)$/gm" *)
Definition re_quote : regex := Cat [Bol; Str "> "; Group 1 (Plus true Dot); Eol].

(** "/^---+$/gm" *)
Definition re_hr : regex := Cat [Bol; Str "--"; Plus true (Lit1 (C "-")); Eol].

(** "/\[([^\]]+)\]\(([^)]+)\)/g" *)
Definition re_link : regex :=
  Cat [Lit1 (C "["); Group 1 (Plus true (NotChr (C "]"))); Lit1 (C "]");
       Lit1 (C "("); Group 2 (Plus true (NotChr (C ")"))); Lit1 (C ")")].

(** "/\n\n/g" and "/\n/g" *)
Definition re_nlnl : regex := Cat [Lit1 NL; Lit1 NL].
Definition re_nl : regex := Lit1 NL.

(** "/<p><(h[23]|table|ul|ol|pre|blockquote|hr)/g" and
    "/<\/(h[23]|table|ul|ol|pre|blockquote)><\/p>/g" *)
Definition re_h23 : regex :=
  Cat [Lit1 (C "h"); Chr (fun c => char_eqb c (C "2") || char_eqb c (C "3"))].
Definition re_open_block : regex :=
  Cat [Str "<p><";
       Group 1 (Alts re_h23 [Str "table"; Str "ul"; Str "ol"; Str "pre";
                             Str "blockquote"; Str "hr"])].
Definition re_close_block : regex :=
  Cat [Str "</";
       Group 1 (Alts re_h23 [Str "table"; Str "ul"; Str "ol"; Str "pre";
                             Str "blockquote"]);
       Str "></p>"].

(** The replacement function of the table pass. *)
Definition table_cells (tag : jsstring) (row : jsstring) : jsstring :=
  let cells := filter (fun c => nonempty (trim c)) (split (C "|") row) in
  flat_map (fun cell =>
    lit "<" ++ tag ++ lit ">" ++ trim cell ++ lit "</" ++ tag ++ lit ">") cells.

Fixpoint table_rows (i : nat) (rows : list jsstring) : jsstring :=
  match rows with
  | [] => []
  | row :: rest =>
      (if test false re_separator row then []
       else lit "<tr>"
            ++ table_cells (match i with O => lit "th" | S _ => lit "td" end) row
            ++ lit "</tr>")
      ++ table_rows (S i) rest
  end.

Definition render_table (table : jsstring) : jsstring :=
  let rows := filter (fun r => nonempty (trim r)) (split NL (trim table)) in
  if Nat.ltb (List.length rows) 2 then table
  else lit "<table>" ++ table_rows 0 rows ++ lit "</table>".

(** The passes of [renderMarkdown], in the order of the source. *)
Definition pass_fence : jsstring -> jsstring :=
  replace_all false re_fence
    (fun m => lit "<pre><code>" ++ grp 2 m ++ lit "</code></pre>").
Definition pass_inline : jsstring -> jsstring :=
  replace_all false re_inline (fun m => lit "<code>" ++ grp 1 m ++ lit "</code>").
Definition pass_table : jsstring -> jsstring :=
  replace_all false re_table (fun m => render_table (whole m)).
Definition pass_h3 : jsstring -> jsstring :=
  replace_all true re_h3 (fun m => lit "<h3>" ++ grp 1 m ++ lit "</h3>").
Definition pass_h2 : jsstring -> jsstring :=
  replace_all true re_h2 (fun m => lit "<h2>" ++ grp 1 m ++ lit "</h2>").
Definition pass_bold : jsstring -> jsstring :=
  replace_all false re_bold (fun m => lit "<strong>" ++ grp 1 m ++ lit "</strong>").
Definition pass_italic : jsstring -> jsstring :=
  replace_all false re_italic (fun m => lit "<em>" ++ grp 1 m ++ lit "</em>").
Definition pass_ul_item : jsstring -> jsstring :=
  replace_all true re_ul_item (fun m => lit "<li>" ++ grp 1 m ++ lit "</li>").
Definition pass_li_run : jsstring -> jsstring :=
  replace_all false re_li_run (fun m => lit "<ul>" ++ grp 1 m ++ lit "</ul>").
Definition pass_ol_item : jsstring -> jsstring :=
  replace_all true re_ol_item (fun m => lit "<li>" ++ grp 1 m ++ lit "</li>").
Definition pass_quote : jsstring -> jsstring :=
  replace_all true re_quote
    (fun m => lit "<blockquote>" ++ grp 1 m ++ lit "</blockquote>").
Definition pass_hr : jsstring -> jsstring :=
  replace_all true re_hr (fun _ => lit "<hr>").
Definition pass_link : jsstring -> jsstring :=
  replace_all false re_link
    (fun m => lit "<a href=" ++ [QUOTE] ++ grp 2 m ++ [QUOTE]
              ++ lit " target=" ++ [QUOTE] ++ lit "_blank" ++ [QUOTE]
              ++ lit " rel=" ++ [QUOTE] ++ lit "noopener" ++ [QUOTE]
              ++ lit ">" ++ grp 1 m ++ lit "</a>").
Definition pass_paragraph : jsstring -> jsstring :=
  replace_all false re_nlnl (fun _ => lit "</p><p>").
Definition pass_break : jsstring -> jsstring :=
  replace_all false re_nl (fun _ => lit "<br>").
Definition pass_open_block : jsstring -> jsstring :=
  replace_all false re_open_block (fun m => lit "<" ++ grp 1 m).
Definition pass_close_block : jsstring -> jsstring :=
  replace_all false re_close_block (fun m => lit "</" ++ grp 1 m ++ lit ">").

Definition passes : list (jsstring -> jsstring) :=
  [pass_fence; pass_inline; pass_table; pass_h3; pass_h2; pass_bold;
   pass_italic; pass_ul_item; pass_li_run; pass_ol_item; pass_quote;
   pass_hr; pass_link; pass_paragraph; pass_break; pass_open_block;
   pass_close_block].

(** [renderMarkdown(text)] for a string; the empty string is falsy. *)
Definition renderMarkdown (text : jsstring) : jsstring :=
  match text with
  | [] => []
  | _ => fold_left (fun html pass => pass html) passes (escapeHtml text)
  end.

End Markdown.
Import Markdown.


(** ** The widget: state, page elements, and the browser's event loop *)

Module Widget.

(** A text-valued property of a JavaScript object: absent ([undefined] or
    [null]) or a string. It is truthy when it is a non-empty string. *)
Definition text := option jsstring.

Definition truthy (t : text) : bool :=
  match t with Some (_ :: _) => true | _ => false end.

(** [a || b] *)
Definition or_else (a b : text) : text := if truthy a then a else b.

Definition text_str (t : text) : jsstring :=
  match t with Some s => s | None => [] end.

(** [__("...")]: the message itself when no translation is loaded. *)
Definition tr (s : string) : jsstring := lit s.

Inductive role : Type := user | assistant.

Definition is_assistant (r : role) : bool :=
  match r with assistant => true | user => false end.

Record message : Type := Message { msg_role : role; msg_content : text }.

(** The [state] object of the widget (the fields the turn engine uses). *)
Record state : Type := State {
  sessionId : text;
  messages : list message;
  isStreaming : bool;
  streamId : text;
  pollTimer : option nat
}.

(** A message bubble: its markup and the raw text of its action bar, if
    it has one. *)
Record bubble : Type := Bubble {
  b_role : role;
  b_html : jsstring;
  b_actions : text
}.

(** The children of the messages container. *)
Inductive child : Type := Welcome | Msg (b : nat) | Typing.

Record chip : Type := Chip { chip_label : jsstring; chip_fill : jsstring }.

(** The page elements the engine reads and writes. Bubbles are kept by
    identity: a bubble removed from the container is still the bubble a
    polling loop holds. *)
Record dom : Type := Dom {
  input_value : jsstring;
  send_disabled : bool;
  typingIndicator : option text;
  children : list child;
  bubbles : list bubble;
  suggestions : list chip;
  error_text : jsstring;
  error_visible : bool
}.

(** Backend requests. [loop] in [stream_poll] names the activation of
    [startPolling] that issued the request; it is not transmitted. *)
Inductive request : Type :=
| chat_start (message : jsstring) (session_id : text)
| stream_poll (loop : nat) (stream_id : text) (last_length : option N)
| get_suggestions (last_query last_response : text)
| get_session (session_id : text)
| close_session (session_id : text).

(** The variables closed over by one activation of [startPolling]. *)
Record poll_env : Type := Env {
  lastLength : option N;
  assistantBubble : option nat
}.

(** Calls awaiting their reply, and timers awaiting their expiry. *)
Inductive call : Type := CStart | CPoll (loop : nat) | CSuggest | CSession.
Inductive timer : Type := TPoll (loop : nat) | THide.

(** What the browser holds for the widget, and what the widget has sent
    out: [calls] lists every backend request and [alerts] every message
    put in the error banner, oldest first. *)
Record runtime : Type := Runtime {
  envs : list poll_env;
  pending : list (nat * call);
  timers : list (nat * timer);
  next_id : nat;
  calls : list request;
  alerts : list jsstring
}.

Record world : Type := World { st : state; ui : dom; rt : runtime }.

(** *** Field updates *)

Definition upd_st (f : state -> state) (w : world) : world :=
  World (f (st w)) (ui w) (rt w).
Definition upd_ui (f : dom -> dom) (w : world) : world :=
  World (st w) (f (ui w)) (rt w).
Definition upd_rt (f : runtime -> runtime) (w : world) : world :=
  World (st w) (ui w) (f (rt w)).

Definition set_sessionId (v : text) (s : state) : state :=
  State v (messages s) (isStreaming s) (streamId s) (pollTimer s).
Definition set_messages (v : list message) (s : state) : state :=
  State (sessionId s) v (isStreaming s) (streamId s) (pollTimer s).
Definition set_isStreaming (v : bool) (s : state) : state :=
  State (sessionId s) (messages s) v (streamId s) (pollTimer s).
Definition set_streamId (v : text) (s : state) : state :=
  State (sessionId s) (messages s) (isStreaming s) v (pollTimer s).
Definition set_pollTimer (v : option nat) (s : state) : state :=
  State (sessionId s) (messages s) (isStreaming s) (streamId s) v.

Definition set_input_value (v : jsstring) (d : dom) : dom :=
  Dom v (send_disabled d) (typingIndicator d) (children d) (bubbles d)
      (suggestions d) (error_text d) (error_visible d).
Definition set_send_disabled (v : bool) (d : dom) : dom :=
  Dom (input_value d) v (typingIndicator d) (children d) (bubbles d)
      (suggestions d) (error_text d) (error_visible d).
Definition set_typingIndicator (v : option text) (d : dom) : dom :=
  Dom (input_value d) (send_disabled d) v (children d) (bubbles d)
      (suggestions d) (error_text d) (error_visible d).
Definition set_children (v : list child) (d : dom) : dom :=
  Dom (input_value d) (send_disabled d) (typingIndicator d) v (bubbles d)
      (suggestions d) (error_text d) (error_visible d).
Definition set_bubbles (v : list bubble) (d : dom) : dom :=
  Dom (input_value d) (send_disabled d) (typingIndicator d) (children d) v
      (suggestions d) (error_text d) (error_visible d).
Definition set_suggestions (v : list chip) (d : dom) : dom :=
  Dom (input_value d) (send_disabled d) (typingIndicator d) (children d)
      (bubbles d) v (error_text d) (error_visible d).
Definition set_error (t : jsstring) (v : bool) (d : dom) : dom :=
  Dom (input_value d) (send_disabled d) (typingIndicator d) (children d)
      (bubbles d) (suggestions d) t v.

Definition set_envs (v : list poll_env) (r : runtime) : runtime :=
  Runtime v (pending r) (timers r) (next_id r) (calls r) (alerts r).
Definition set_pending (v : list (nat * call)) (r : runtime) : runtime :=
  Runtime (envs r) v (timers r) (next_id r) (calls r) (alerts r).
Definition set_timers (v : list (nat * timer)) (r : runtime) : runtime :=
  Runtime (envs r) (pending r) v (next_id r) (calls r) (alerts r).
Definition add_alert (msg : jsstring) (r : runtime) : runtime :=
  Runtime (envs r) (pending r) (timers r) (next_id r) (calls r) (alerts r ++ [msg]).

Fixpoint update_at {A : Type} (i : nat) (f : A -> A) (l : list A) : list A :=
  match l, i with
  | [], _ => []
  | a :: t, O => f a :: t
  | a :: t, S j => a :: update_at j f t
  end.

(** *** The browser: calls and timers *)

(** [frappe.call] with handlers: the request goes out and its handlers
    wait under a fresh identifier. *)
Definition issue (r : request) (c : call) (w : world) : world :=
  upd_rt (fun x => Runtime (envs x) (pending x ++ [(next_id x, c)]) (timers x)
                           (S (next_id x)) (calls x ++ [r]) (alerts x)) w.

(** [frappe.call] without handlers. *)
Definition notify (r : request) (w : world) : world :=
  upd_rt (fun x => Runtime (envs x) (pending x) (timers x) (next_id x)
                           (calls x ++ [r]) (alerts x)) w.

(** [setTimeout]: returns the new timer's identifier. *)
Definition setTimeout (t : timer) (w : world) : nat * world :=
  (next_id (rt w),
   upd_rt (fun x => Runtime (envs x) (pending x) (timers x ++ [(next_id x, t)])
                            (S (next_id x)) (calls x) (alerts x)) w).

(** [clearTimeout] *)
Definition drop {A : Type} (id : nat) (l : list (nat * A)) : list (nat * A) :=
  filter (fun p => negb (Nat.eqb (fst p) id)) l.

(** [clearTimeout] *)
Definition clearTimeout (id : nat) (w : world) : world :=
  upd_rt (fun x => set_timers (drop id (timers x)) x) w.

Definition get_env (e : nat) (w : world) : poll_env :=
  nth e (envs (rt w)) (Env (Some 0%N) None).

Definition set_env (e : nat) (v : poll_env) (w : world) : world :=
  upd_rt (fun x => set_envs (update_at e (fun _ => v) (envs x)) x) w.

(** *** Messages and indicators *)

(** [renderMarkdown] applied to a property that may be absent. *)
Definition renderMarkdown_arg (content : text) : jsstring :=
  match content with Some s => renderMarkdown s | None => [] end.

Fixpoint remove_welcome (cs : list child) : list child :=
  match cs with
  | [] => []
  | Welcome :: t => t
  | c :: t => c :: remove_welcome t
  end.

Definition is_typing (c : child) : bool :=
  match c with Typing => true | _ => false end.

(** [addMessage(role, content)]: returns the new bubble. *)
Definition addMessage (r : role) (content : text) (w : world) : nat * world :=
  let id := List.length (bubbles (ui w)) in
  let html := if is_assistant r then renderMarkdown_arg content
              else escapeHtml (text_str content) in
  let bar := if is_assistant r && truthy content then content else None in
  let w := upd_ui (fun d => set_children (remove_welcome (children d) ++ [Msg id]) d) w in
  let w := upd_ui (fun d => set_bubbles (bubbles d ++ [Bubble r html bar]) d) w in
  (id, upd_st (fun s => set_messages (messages s ++ [Message r content]) s) w).

Definition removeTyping (w : world) : world :=
  match typingIndicator (ui w) with
  | Some _ =>
      let w := upd_ui (fun d =>
                 set_children (filter (fun c => negb (is_typing c)) (children d)) d) w in
      upd_ui (set_typingIndicator None) w
  | None => w
  end.

(** [showTyping(statusText)]: a tool status, or the default indicator. *)
Definition showTyping (statusText : text) (w : world) : world :=
  let w := removeTyping w in
  let w := upd_ui (set_typingIndicator
                     (Some (if truthy statusText then statusText else None))) w in
  upd_ui (fun d => set_children (children d ++ [Typing]) d) w.

Definition showWelcome (w : world) : world :=
  upd_ui (fun d => set_children (children d ++ [Welcome]) d) w.

(** [showError(msg)]: the banner is shown and hidden again 8 s later. *)
Definition showError (msg : jsstring) (w : world) : world :=
  let w := upd_ui (set_error msg true) w in
  let w := upd_rt (add_alert msg) w in
  snd (setTimeout THide w).

(** *** Suggestions *)

Record suggestion : Type := Suggestion { s_label : jsstring; s_query : text }.

(** [loadSuggestions(lastQuery, lastResponse)]; the screen context sent
    along comes from the router and is left out. *)
Definition loadSuggestions (lastQuery lastResponse : text) (w : world) : world :=
  issue (get_suggestions
           (or_else lastQuery None)
           (if truthy lastResponse
            then Some (substring0 300 (text_str lastResponse)) else None))
        CSuggest w.

Definition renderSuggestions (l : list suggestion) (w : world) : world :=
  let w := upd_ui (set_suggestions []) w in
  match l with
  | [] => w
  | _ =>
      upd_ui (set_suggestions
        (map (fun s => Chip (s_label s)
                            (if truthy (s_query s) then text_str (s_query s)
                             else s_label s))
             (firstn 4 l))) w
  end.

Definition showClarificationChips (options : list jsstring) (w : world) : world :=
  let w := upd_ui (set_suggestions []) w in
  upd_ui (set_suggestions (map (fun opt => Chip opt opt) options)) w.

(** *** Ending a turn *)

Definition finishStreaming (errorMsg : text) (w : world) : world :=
  let w := removeTyping w in
  let w := upd_st (set_isStreaming false) w in
  let w := upd_st (set_streamId None) w in
  let w := upd_ui (set_send_disabled false) w in
  let w := match pollTimer (st w) with
           | Some id => upd_st (set_pollTimer None) (clearTimeout id w)
           | None => w
           end in
  let w := if truthy errorMsg then showError (text_str errorMsg) w else w in
  loadSuggestions None None w.

(** *** The polling loop *)

(** The body of a [stream_poll] reply; flags are read for their
    truthiness. *)
Record poll_data : Type := PollData {
  tool_status : text;
  delta : bool;
  text_of : text;
  text_length : option N;
  done : bool;
  poll_error : text;
  session_title : text
}.

(** [poll()] of the activation [e] of [startPolling]. *)
Definition poll (e : nat) (w : world) : world :=
  if negb (truthy (streamId (st w))) then w
  else issue (stream_poll e (streamId (st w)) (lastLength (get_env e w)))
             (CPoll e) w.

Definition startPolling (w : world) : world :=
  let e := List.length (envs (rt w)) in
  let w := upd_rt (fun x => set_envs (envs x ++ [Env (Some 0%N) None]) x) w in
  poll e w.

Definition set_html (b : option nat) (html : jsstring) (w : world) : world :=
  match b with
  | Some i =>
      upd_ui (fun d => set_bubbles
        (update_at i (fun x => Bubble (b_role x) html (b_actions x)) (bubbles d)) d) w
  | None => w
  end.

(** The action bar is added to the bubble's message unless it has one. *)
Definition add_actions (b : nat) (rawText : text) (w : world) : world :=
  upd_ui (fun d => set_bubbles
    (update_at b (fun x =>
       match b_actions x with
       | None => Bubble (b_role x) (b_html x) rawText
       | Some _ => x
       end) (bubbles d)) d) w.

(** [state.messages.filter(m => m.role === r).pop()] *)
Definition last_with (r : role) (ms : list message) : option message :=
  last (map Some (filter (fun m => Bool.eqb (is_assistant (msg_role m)) (is_assistant r)) ms))
       None.

Definition content_or_null (m : option message) : text :=
  match m with Some x => msg_content x | None => None end.

(** The [callback] of [stream_poll], block by block. *)

(** Show tool status. *)
Definition show_tool_status (data : poll_data) (w : world) : world :=
  if truthy (tool_status data) && negb (done data)
  then showTyping (tool_status data) w else w.

(** Append new text: the full text is rendered again into the loop's
    bubble and the watermark moves to the reported length. *)
Definition append_new_text (e : nat) (data : poll_data) (w : world) : world :=
  if delta data then
    let w := removeTyping w in
    let w := match assistantBubble (get_env e w) with
             | None =>
                 let (b, w') := addMessage assistant (Some []) w in
                 set_env e (Env (lastLength (get_env e w')) (Some b)) w'
             | Some _ => w
             end in
    let w := set_html (assistantBubble (get_env e w))
                      (renderMarkdown_arg (text_of data)) w in
    set_env e (Env (text_length data) (assistantBubble (get_env e w))) w
  else w.

(** The last message of the stream, when the reply is [done]. *)
Definition settle_message (e : nat) (data : poll_data) (w : world) : world :=
  if truthy (poll_error data) then
    match assistantBubble (get_env e w) with
    | None => snd (addMessage assistant (poll_error data) w)
    | Some _ => w
    end
  else
    match assistantBubble (get_env e w) with
    | None => if truthy (text_of data)
              then snd (addMessage assistant (text_of data) w) else w
    | Some b => if truthy (text_of data)
                then add_actions b (text_of data) w else w
    end.

(** Refresh suggestions from the last question and the last answer. *)
Definition refresh_suggestions (w : world) : world :=
  let lastQ := last_with user (messages (st w)) in
  let lastA := last_with assistant (messages (st w)) in
  loadSuggestions (content_or_null lastQ) (content_or_null lastA) w.

Definition stream_done (e : nat) (data : poll_data) (w : world) : world :=
  let w := removeTyping w in
  let w := settle_message e data w in
  let w := upd_st (set_isStreaming false) w in
  let w := upd_st (set_streamId None) w in
  let w := upd_ui (set_send_disabled false) w in
  refresh_suggestions w.

(** Continue polling, 300 ms from now. *)
Definition continue_polling (e : nat) (w : world) : world :=
  let (id, w') := setTimeout (TPoll e) w in
  upd_st (set_pollTimer (Some id)) w'.

Definition on_poll (e : nat) (r : option poll_data) (w : world) : world :=
  match r with
  | None => finishStreaming (Some (tr "Stream connection lost.")) w
  | Some data =>
      let w := show_tool_status data w in
      let w := append_new_text e data w in
      if done data then stream_done e data w else continue_polling e w
  end.

(** The [error] handler of [stream_poll]. *)
Definition on_poll_error (w : world) : world :=
  finishStreaming (Some (tr "Connection error. Please try again.")) w.

(** *** Sending *)

(** The body of a [chat_start] reply. *)
Record start_data : Type := StartData {
  needs_clarification : bool;
  session_id_of : text;
  clarification_question : text;
  clarification_options : option (list jsstring);
  budget_exceeded : bool;
  start_error : text;
  stream_id_of : text
}.

Definition sendMessage (w : world) : world :=
  let text := trim (input_value (ui w)) in
  if negb (nonempty text) || isStreaming (st w) then w
  else
    let w := snd (addMessage user (Some text) w) in
    let w := upd_ui (set_input_value []) w in
    let w := upd_ui (set_send_disabled true) w in
    let w := showTyping None w in
    let w := upd_ui (set_suggestions []) w in
    let w := upd_st (set_isStreaming true) w in
    issue (chat_start text (or_else (sessionId (st w)) None)) CStart w.

(** The [callback] of [chat_start]; [None] is a reply without a body. *)
Definition on_chat_start (r : option start_data) (w : world) : world :=
  match r with
  | None => finishStreaming (Some (tr "Something went wrong. Please try again.")) w
  | Some data =>
      if needs_clarification data then
        let w := removeTyping w in
        let w := upd_st (set_isStreaming false) w in
        let w := upd_ui (set_send_disabled false) w in
        let w := upd_st (set_sessionId (session_id_of data)) w in
        let w := snd (addMessage assistant (clarification_question data) w) in
        match clarification_options data with
        | Some options => showClarificationChips options w
        | None => w
        end
      else if budget_exceeded data then
        finishStreaming (or_else (start_error data)
                                 (Some (tr "Monthly budget exceeded."))) w
      else if truthy (start_error data) then
        finishStreaming (start_error data) w
      else
        let w := upd_st (set_streamId (stream_id_of data)) w in
        let w := upd_st (set_sessionId (session_id_of data)) w in
        startPolling w
  end.

(** The [error] handler of [chat_start]; [err_message] is [err.message]. *)
Definition on_chat_start_error (err_message : text) (w : world) : world :=
  finishStreaming
    (or_else err_message (Some (tr "Failed to connect to AI. Please try again."))) w.

(** *** Sessions *)

Definition loadSession (sessionId : text) (w : world) : world :=
  issue (get_session sessionId) CSession w.

(** The [callback] of [get_session]; [None] is a reply without messages. *)
Definition on_session (r : option (list message)) (w : world) : world :=
  match r with
  | Some msgs =>
      let w := upd_ui (set_children []) w in
      fold_left (fun w m => snd (addMessage (msg_role m) (msg_content m) w)) msgs w
  | None => w
  end.

Definition startNewChat (w : world) : world :=
  let w := if truthy (sessionId (st w))
           then notify (close_session (sessionId (st w))) w else w in
  let w := upd_st (set_sessionId None) w in
  let w := upd_st (set_messages []) w in
  let w := upd_ui (set_children []) w in
  let w := showWelcome w in
  loadSuggestions None None w.

(** The [callback] of [get_suggestions]. *)
Definition on_suggestions (r : option (list suggestion)) (w : world) : world :=
  match r with
  | Some l => renderSuggestions l w
  | None => w
  end.

(** A chip's [onclick]. *)
Definition click_chip (c : chip) (w : world) : world :=
  sendMessage (upd_ui (set_input_value (chip_fill c)) w).

(** [updateContext]: the page changed or the panel was opened. *)
Definition updateContext (w : world) : world := loadSuggestions None None w.

(** *** Start of the widget *)

Definition blank : world :=
  World (State None [] false None None)
        (Dom [] false None [] [] [] [] false)
        (Runtime [] [] [] 1 [] []).

(** The [callback] of [chat_status] in [init], for an enabled user:
    [active] is the backend's active session, [saved_open] and
    [saved_session] what [restoreState] finds in local storage. *)
Definition boot (active : text) (saved_open : bool) (saved_session : text) : world :=
  let w := upd_st (set_sessionId (or_else active None)) blank in
  let w := showWelcome w in
  let w := if saved_open then updateContext w else w in
  let w := if truthy saved_session && negb (truthy (sessionId (st w)))
           then upd_st (set_sessionId saved_session) w else w in
  let w := loadSuggestions None None w in
  if truthy (sessionId (st w)) then loadSession (sessionId (st w)) w else w.

(** *** The event loop *)

Inductive event : Type :=
| Edit (value : jsstring)
| Submit
| ClickChip (n : nat)
| NewChat
| ContextChange
| StartReply (id : nat) (r : option start_data)
| StartFail (id : nat) (err_message : text)
| PollReply (id : nat) (r : option poll_data)
| PollFail (id : nat)
| SuggestReply (id : nat) (r : option (list suggestion))
| SessionReply (id : nat) (r : option (list message))
| Expire (id : nat).

Fixpoint lookup {A : Type} (id : nat) (l : list (nat * A)) : option A :=
  match l with
  | [] => None
  | (j, a) :: t => if Nat.eqb j id then Some a else lookup id t
  end.

(** The reply to the call [id] arrives: its handlers are released. *)
Definition answer (id : nat) (w : world) : option (call * world) :=
  match lookup id (pending (rt w)) with
  | Some c => Some (c, upd_rt (fun x => set_pending (drop id (pending x)) x) w)
  | None => None
  end.

(** The timer [id] fires and is gone. *)
Definition expired (id : nat) (w : world) : world :=
  upd_rt (fun x => set_timers (drop id (timers x)) x) w.

(** One turn of the event loop; [None] when the event cannot happen. *)
Definition step (w : world) (ev : event) : option world :=
  match ev with
  | Edit v => Some (upd_ui (set_input_value v) w)
  | Submit => Some (sendMessage w)
  | ClickChip n =>
      match nth_error (suggestions (ui w)) n with
      | Some c => Some (click_chip c w)
      | None => None
      end
  | NewChat => Some (startNewChat w)
  | ContextChange => Some (updateContext w)
  | StartReply id r =>
      match answer id w with
      | Some (CStart, w') => Some (on_chat_start r w')
      | _ => None
      end
  | StartFail id m =>
      match answer id w with
      | Some (CStart, w') => Some (on_chat_start_error m w')
      | _ => None
      end
  | PollReply id r =>
      match answer id w with
      | Some (CPoll e, w') => Some (on_poll e r w')
      | _ => None
      end
  | PollFail id =>
      match answer id w with
      | Some (CPoll _, w') => Some (on_poll_error w')
      | _ => None
      end
  | SuggestReply id r =>
      match answer id w with
      | Some (CSuggest, w') => Some (on_suggestions r w')
      | _ => None
      end
  | SessionReply id r =>
      match answer id w with
      | Some (CSession, w') => Some (on_session r w')
      | _ => None
      end
  | Expire id =>
      match lookup id (timers (rt w)) with
      | Some (TPoll e) => Some (poll e (expired id w))
      | Some THide => Some (upd_ui (fun d => set_error (error_text d) false d)
                                   (expired id w))
      | None => None
      end
  end.

Fixpoint run_events (w : world) (evs : list event) : option world :=
  match evs with
  | [] => Some w
  | ev :: rest =>
      match step w ev with
      | Some w' => run_events w' rest
      | None => None
      end
  end.

End Widget.
Import Widget.


(** ** Sharing and copying a reply *)

Module Share.

(** *** [encodeURIComponent]

    Units of the unreserved set stay as they are; every other code
    point is written as the percent escapes of its UTF-8 octets; a
    surrogate without its partner is a [URIError] ([None]). *)

Definition is_alpha (c : char) : bool :=
  (in_range 65 90 c || in_range 97 122 c)%N.

Definition uri_unreserved (c : char) : bool :=
  is_alpha c || is_digit c || existsb (char_eqb c) (lit "-_.!~*'()").

Definition is_high_surrogate (c : char) : bool := (in_range 55296 56319 c)%N.
Definition is_low_surrogate (c : char) : bool := (in_range 56320 57343 c)%N.

Definition code_point (hi lo : char) : N :=
  ((hi - 55296) * 1024 + (lo - 56320) + 65536)%N.

Definition utf8 (cp : N) : list N :=
  (if cp <? 128 then [cp]
   else if cp <? 2048 then [192 + cp / 64; 128 + cp mod 64]
   else if cp <? 65536 then
     [224 + cp / 4096; 128 + (cp / 64) mod 64; 128 + cp mod 64]
   else [240 + cp / 262144; 128 + (cp / 4096) mod 64;
         128 + (cp / 64) mod 64; 128 + cp mod 64])%N.

Definition hex_digit (n : N) : char :=
  (if n <? 10 then 48 + n else 55 + n)%N.

Definition percent (octet : N) : jsstring :=
  [C "%"; hex_digit (octet / 16); hex_digit (octet mod 16)].

Definition escape (cp : N) : jsstring := flat_map percent (utf8 cp).

Fixpoint encodeURIComponent (s : jsstring) : option jsstring :=
  match s with
  | [] => Some []
  | c :: t =>
      if uri_unreserved c then option_map (cons c) (encodeURIComponent t)
      else if is_low_surrogate c then None
      else if is_high_surrogate c then
        match t with
        | d :: t' =>
            if is_low_surrogate d
            then option_map (app (escape (code_point c d))) (encodeURIComponent t')
            else None
        | [] => None
        end
      else option_map (app (escape c)) (encodeURIComponent t)
  end.

(** *** The share buttons *)

(** What a click on a share button does to the page. *)
Inductive effect : Type :=
| Nothing
| Open (url target features : jsstring)
| Navigate (url : jsstring)
| URIError.

(** [text.length > 1800 ? text.substring(0, 1800) + "..." : text] *)
Definition truncated (s : jsstring) : jsstring :=
  if Nat.ltb 1800 (List.length s) then substring0 1800 s ++ lit "..." else s.

Definition shareViaWhatsApp (t : text) : effect :=
  if negb (truthy t) then Nothing
  else match encodeURIComponent (truncated (text_str t)) with
       | Some e => Open (lit "https://wa.me/?text=" ++ e) (lit "_blank")
                        (lit "noopener,noreferrer")
       | None => URIError
       end.

Definition shareViaEmail (t : text) : effect :=
  if negb (truthy t) then Nothing
  else
    let subject := tr "Business Insight from AskERP" in
    match encodeURIComponent subject with
    | None => URIError
    | Some es =>
        match encodeURIComponent (truncated (text_str t)) with
        | Some eb => Navigate (lit "mailto:?subject=" ++ es ++ lit "&body=" ++ eb)
        | None => URIError
        end
    end.

(** *** The copy button's feedback *)

(** What a copy button shows. *)
Inductive glyph : Type := CopyIcon | CheckIcon.

(** A copy button: its content, its success class, and the content each
    pending feedback timer will put back. The timers all wait 1500 ms,
    so they fire in the order they were set. *)
Record button : Type := Button {
  shown : glyph;
  success : bool;
  restores : list glyph
}.

Definition showCopyFeedback (b : button) : button :=
  Button CheckIcon true (restores b ++ [shown b]).

(** The oldest feedback timer fires. *)
Definition feedback_expires (b : button) : button :=
  match restores b with
  | original :: rest => Button original false rest
  | [] => b
  end.

(** A fresh copy button of [buildMessageActions]. *)
Definition copy_button : button := Button CopyIcon false [].

End Share.

(** ** The page the user is on *)

Module Context.

Fixpoint same_string (a b : jsstring) : bool :=
  match a, b with
  | [], [] => true
  | x :: a', y :: b' => char_eqb x y && same_string a' b'
  | _, _ => false
  end.

(** [route[i] || null] *)
Definition item (i : nat) (route : list jsstring) : text :=
  match nth_error route i with
  | Some s => if nonempty s then Some s else None
  | None => None
  end.

Record context : Type := Ctx { doctype : text; name : text; label : jsstring }.

(** [detectContext()], on what [frappe.get_route()] returns ([None]: no
    route). The labels are those of the source with their arguments
    filled in. *)
Definition detectContext (route : option (list jsstring)) : context :=
  match route with
  | None | Some [] => Ctx None None (tr "Dashboard")
  | Some ((view :: _) as r) =>
      let doctype := item 1 r in
      let name := item 2 r in
      if same_string view (lit "Form") && truthy doctype && truthy name then
        Ctx doctype name (text_str doctype ++ lit ": " ++ text_str name)
      else if same_string view (lit "List") && truthy doctype then
        Ctx doctype None (text_str doctype ++ lit " List")
      else if same_string view (lit "Report") && truthy doctype then
        Ctx doctype None (lit "Report: " ++ text_str doctype)
      else if same_string view (lit "modules") then
        Ctx None None (tr "Modules")
      else
        Ctx doctype name (if truthy doctype then text_str doctype else tr "Home")
  end.

(** What [updateContext] and [buildWidget] write in the header:
    [ctx.label || __("Ask me anything")]. *)
Definition header_text (route : option (list jsstring)) : jsstring :=
  let l := label (detectContext route) in
  if nonempty l then l else tr "Ask me anything".

End Context.

(** ** The screen context of a suggestions request *)

Module Screen.

Section Lowercase.

(** [String.prototype.toLowerCase], whose table is the browser's. *)
Variable toLowerCase : jsstring -> jsstring.

(** "/\s+/g" *)
Definition re_spaces : regex := Plus true (Chr is_space).

(** The [screen_context] argument of [loadSuggestions]:
    [ctx.doctype ? ctx.doctype.toLowerCase().replace(/\s+/g, "_") : "dashboard"]. *)
Definition screen_context (route : option (list jsstring)) : jsstring :=
  let ctx := Context.detectContext route in
  if truthy (Context.doctype ctx)
  then replace_all false re_spaces (fun _ => lit "_")
                   (toLowerCase (text_str (Context.doctype ctx)))
  else lit "dashboard".

End Lowercase.

End Screen.

(** ** The panel: open, closed, fullscreen, and what is kept across
    page loads *)

Module Panel.

(** A [classList]: an ordered set of tokens. *)
Definition classes := list string.

Definition contains (t : string) (l : classes) : bool :=
  existsb (String.eqb t) l.
Definition add (t : string) (l : classes) : classes :=
  if contains t l then l else l ++ [t].
Definition remove (t : string) (l : classes) : classes :=
  filter (fun x => negb (String.eqb t x)) l.
(** [classList.toggle(t, force)] *)
Definition toggle (t : string) (force : bool) (l : classes) : classes :=
  if force then add t l else remove t l.

(** The object [saveState] writes; the two flags are read back for
    their truthiness. *)
Record saved : Type := Saved {
  saved_isOpen : bool;
  saved_isFullscreen : bool;
  saved_sessionId : text
}.

(** What local storage holds under the widget's key: nothing, text that
    does not parse to an object, or a saved object. *)
Inductive stored : Type := Empty | Unreadable | Json (s : saved).

(** The widget on a page: the turn engine's world, the panel flags of
    [state], the class lists of the panel and of the launcher bubble,
    and local storage ([writable]: whether [setItem] succeeds). *)
Record page : Type := Page {
  engine : world;
  isOpen : bool;
  isFullscreen : bool;
  enabled : bool;
  panel : classes;
  launcher : classes;
  storage : stored;
  writable : bool
}.

Definition on_engine (f : world -> world) (p : page) : page :=
  Page (f (engine p)) (isOpen p) (isFullscreen p) (enabled p) (panel p)
       (launcher p) (storage p) (writable p).
Definition set_isOpen (v : bool) (p : page) : page :=
  Page (engine p) v (isFullscreen p) (enabled p) (panel p) (launcher p)
       (storage p) (writable p).
Definition set_isFullscreen (v : bool) (p : page) : page :=
  Page (engine p) (isOpen p) v (enabled p) (panel p) (launcher p)
       (storage p) (writable p).
Definition on_panel (f : classes -> classes) (p : page) : page :=
  Page (engine p) (isOpen p) (isFullscreen p) (enabled p) (f (panel p))
       (launcher p) (storage p) (writable p).
Definition on_launcher (f : classes -> classes) (p : page) : page :=
  Page (engine p) (isOpen p) (isFullscreen p) (enabled p) (panel p)
       (f (launcher p)) (storage p) (writable p).
Definition set_storage (v : stored) (p : page) : page :=
  Page (engine p) (isOpen p) (isFullscreen p) (enabled p) (panel p)
       (launcher p) v (writable p).

(** [saveState()]: a blocked store is ignored. *)
Definition saveState (p : page) : page :=
  if writable p
  then set_storage (Json (Saved (isOpen p) (isFullscreen p)
                                (sessionId (st (engine p))))) p
  else p.

Definition openPanel (p : page) : page :=
  let p := set_isOpen true p in
  let p := on_panel (add "askerp-open") p in
  let p := on_launcher (add "askerp-hidden") p in
  let p := on_launcher (remove "askerp-pulse") p in
  let p := on_engine updateContext p in
  saveState p.

Definition closePanel (p : page) : page :=
  let p := set_isOpen false p in
  let p := set_isFullscreen false p in
  let p := on_panel (fun l => remove "askerp-fullscreen" (remove "askerp-open" l)) p in
  let p := on_launcher (remove "askerp-hidden") p in
  saveState p.

Definition togglePanel (p : page) : page :=
  if isOpen p then closePanel p else openPanel p.

Definition toggleFullscreen (p : page) : page :=
  let p := set_isFullscreen (negb (isFullscreen p)) p in
  let p := on_panel (toggle "askerp-fullscreen" (isFullscreen p)) p in
  saveState p.

(** [restoreState()]: text that does not parse throws and is ignored;
    an empty store reads as an object without fields. *)
Definition restoreState (p : page) : page :=
  match storage p with
  | Json s =>
      let p := if saved_isOpen s then
                 let p := openPanel p in
                 if saved_isFullscreen s
                 then on_panel (add "askerp-fullscreen") (set_isFullscreen true p)
                 else p
               else p in
      if truthy (saved_sessionId s) && negb (truthy (sessionId (st (engine p))))
      then on_engine (upd_st (set_sessionId (saved_sessionId s))) p
      else p
  | Empty | Unreadable => p
  end.

(** The [callback] of [chat_status] in [init], for an enabled user on a
    freshly loaded page: [buildWidget], [restoreState],
    [loadSuggestions], and [loadSession] when there is a session. *)
Definition init (active : text) (store : stored) (can_write : bool) : page :=
  let w := upd_st (set_sessionId (or_else active None)) blank in
  let w := showWelcome w in
  let p := Page w false false true ["askerp-panel"%string]
                ["askerp-bubble"%string; "askerp-pulse"%string] store can_write in
  let p := restoreState p in
  let p := on_engine (loadSuggestions None None) p in
  if truthy (sessionId (st (engine p)))
  then on_engine (loadSession (sessionId (st (engine p)))) p
  else p.

(** What the user does with the panel, besides the events of the turn
    engine: the launcher bubble and the minimize button toggle the
    panel, as does Ctrl+Shift+A. *)
Inductive action : Type :=
| ClickLauncher
| ClickMinimize
| ClickClose
| ClickMaximize
| Shortcut
| Engine (ev : event).

Definition act (p : page) (a : action) : option page :=
  match a with
  | ClickLauncher | ClickMinimize => Some (togglePanel p)
  | ClickClose => Some (closePanel p)
  | ClickMaximize => Some (toggleFullscreen p)
  | Shortcut => Some (if enabled p then togglePanel p else p)
  | Engine ev =>
      match step (engine p) ev with
      | Some w => Some (on_engine (fun _ => w) p)
      | None => None
      end
  end.

Fixpoint run_actions (p : page) (l : list action) : option page :=
  match l with
  | [] => Some p
  | a :: rest =>
      match act p a with
      | Some p' => run_actions p' rest
      | None => None
      end
  end.

End Panel.

(** ** The notions the properties are stated with *)

(** *** Outcomes of a submission *)

(** What the [chat_start] call can yield: its [callback] with a reply
    ([None]: no reply or no body), or its [error] handler. *)
Inductive outcome : Type :=
| Replied (r : option start_data)
| Failed (err_message : text).

Definition handle (o : outcome) (w : world) : world :=
  match o with
  | Replied r => on_chat_start r w
  | Failed m => on_chat_start_error m w
  end.

(** The three terminal actions, read off the world [w] in which the
    outcome arrives and the world [w'] its handler leaves. *)
Definition clarification_shown (w w' : world) : Prop :=
  exists q, messages (st w') = messages (st w) ++ [Message assistant q].

Definition error_surfaced (w w' : world) : Prop :=
  exists msg, alerts (rt w') = alerts (rt w) ++ [msg]
              /\ error_text (ui w') = msg /\ error_visible (ui w') = true.

Definition streaming_started (w w' : world) : Prop :=
  exists e, calls (rt w') =
            calls (rt w) ++ [stream_poll e (streamId (st w')) (Some 0%N)].

Definition exactly_one (a b c : Prop) : Prop :=
  (a /\ ~ b /\ ~ c) \/ (~ a /\ b /\ ~ c) \/ (~ a /\ ~ b /\ c).

(** The classification in the words of the specification, in its
    priority order. *)
Inductive verdict : Type := Errored | Clarification | Streaming.

Definition classification (o : outcome) : verdict :=
  match o with
  | Failed _ => Errored
  | Replied None => Errored
  | Replied (Some data) =>
      if needs_clarification data then Clarification
      else if budget_exceeded data then Errored
      else if truthy (start_error data) then Errored
      else Streaming
  end.

(** A reply classified as a stream carries a stream identifier. *)
Definition names_its_stream (o : outcome) : bool :=
  match o, classification o with
  | Replied (Some data), Streaming => truthy (stream_id_of data)
  | _, _ => true
  end.

(** *** The end of a turn *)

Definition turn_ended (w w' : world) : Prop :=
  isStreaming (st w') = false
  /\ streamId (st w') = None
  /\ send_disabled (ui w') = false
  /\ exists q a, calls (rt w') = calls (rt w) ++ [get_suggestions q a].

(** *** The watermark of a polling loop *)

(** The [last_length] values sent by the loop [e], oldest first. *)
Definition sent (e : nat) (cs : list request) : list (option N) :=
  flat_map (fun r =>
    match r with
    | stream_poll e' _ n => if Nat.eqb e' e then [n] else []
    | _ => []
    end) cs.

(** The [text_length] the event [ev] reports to the loop [e] in the
    world [w]: that of a reply with a truthy [delta]. *)
Definition report (e : nat) (w : world) (ev : event) : list (option N) :=
  match ev with
  | PollReply id (Some data) =>
      match lookup id (pending (rt w)) with
      | Some (CPoll e') =>
          if Nat.eqb e' e && delta data then [text_length data] else []
      | _ => []
      end
  | _ => []
  end.

Fixpoint reports (e : nat) (w : world) (evs : list event) : list (option N) :=
  match evs with
  | [] => []
  | ev :: rest =>
      match step w ev with
      | Some w' => report e w ev ++ reports e w' rest
      | None => []
      end
  end.

(** Every entry is a number, at least [lo] and at least each earlier one. *)
Fixpoint nondecreasing_from (lo : N) (l : list (option N)) : Prop :=
  match l with
  | [] => True
  | Some n :: t => (lo <= n)%N /\ nondecreasing_from n t
  | None :: _ => False
  end.

(** Starts at 0 and never decreases. *)
Definition watermark_ok (l : list (option N)) : Prop :=
  match l with
  | [] => True
  | first :: t => first = Some 0%N /\ nondecreasing_from 0 t
  end.

(** *** The submission gate *)

Definition in_flight_call (p : nat * call) : bool :=
  match snd p with CStart | CPoll _ => true | _ => false end.
Definition in_flight_timer (p : nat * timer) : bool :=
  match snd p with TPoll _ => true | THide => false end.
Definition awaits_start (p : nat * call) : bool :=
  match snd p with CStart => true | _ => false end.

(** The submission, poll replies and poll timers a turn is waiting for. *)
Definition in_flight (w : world) : nat :=
  List.length (filter in_flight_call (pending (rt w)))
  + List.length (filter in_flight_timer (timers (rt w))).

(** What every operation keeps: at most one such item is awaited; with
    the gate open none is, and there is no handle; while the submission
    is awaited there is no handle yet. *)
Definition gate_inv (w : world) : Prop :=
  in_flight w <= 1
  /\ (isStreaming (st w) = false -> streamId (st w) = None /\ in_flight w = 0)
  /\ (existsb awaits_start (pending (rt w)) = true -> streamId (st w) = None).


(** *** A turn that nothing ends *)

(** The gate is closed, the send button is disabled, and neither a
    submission, a poll reply nor a poll timer is awaited. *)
Definition stalled (w : world) : Prop :=
  isStreaming (st w) = true
  /\ send_disabled (ui w) = true
  /\ in_flight w = 0.

(** The flag and the handle written together: one is set exactly when
    the other is. *)
Definition set_together (w : world) : Prop :=
  isStreaming (st w) = true <-> streamId (st w) <> None.

(** Timers [t'] left of the timers [t]: no poll timer is new. *)
Definition quieter (t t' : list (nat * timer)) : Prop :=
  List.length (filter in_flight_timer t') <= List.length (filter in_flight_timer t)
  /\ forall id e, In (id, TPoll e) t' -> In (id, TPoll e) t.

(** Numbers that climb from [lo] without passing [hi]. *)
Fixpoint climbs (lo hi : N) (l : list (option N)) : Prop :=
  match l with
  | [] => (lo <= hi)%N
  | Some n :: t => (lo <= n)%N /\ climbs n hi t
  | None :: _ => False
  end.

Definition watermark (e : nat) (w : world) : N :=
  match lastLength (get_env e w) with Some n => n | None => 0%N end.

(** What every operation keeps of the loop [e]: its watermark is a
    number; what it has sent starts at 0 and climbs up to the watermark;
    and before its first request nothing of it is awaited. *)
Definition loop_inv (e : nat) (w : world) : Prop :=
  lastLength (get_env e w) <> None
  /\ match sent e (calls (rt w)) with
     | [] => watermark e w = 0%N
             /\ (forall id, ~ In (id, CPoll e) (pending (rt w)))
             /\ (forall id, ~ In (id, TPoll e) (timers (rt w)))
     | first :: t => first = Some 0%N /\ climbs 0 (watermark e w) t
     end.

(** The part of the world the gate and the loops depend on. *)
Definition core (w : world) : bool * text * runtime :=
  (isStreaming (st w), streamId (st w), rt w).

(** [w'] differs from [w] at most in the page, the messages and the
    variables of the loop [e]. *)
Definition same_but_loop (e : nat) (w w' : world) : Prop :=
  isStreaming (st w') = isStreaming (st w)
  /\ streamId (st w') = streamId (st w)
  /\ pending (rt w') = pending (rt w)
  /\ timers (rt w') = timers (rt w)
  /\ calls (rt w') = calls (rt w)
  /\ alerts (rt w') = alerts (rt w)
  /\ List.length (envs (rt w')) = List.length (envs (rt w))
  /\ forall e', e' <> e -> get_env e' w' = get_env e' w.

(** Calls [p'] left of the calls [p]: no awaited submission or poll is
    new. *)
Definition fewer_calls (p p' : list (nat * call)) : Prop :=
  List.length (filter in_flight_call p') <= List.length (filter in_flight_call p)
  /\ forall id c, In (id, c) p' -> in_flight_call (id, c) = true -> In (id, c) p.

(** [w'] has the gate, the loops and the polls sent of [w], and awaits
    nothing that [w] does not. *)
Definition calmer (w w' : world) : Prop :=
  isStreaming (st w') = isStreaming (st w)
  /\ streamId (st w') = streamId (st w)
  /\ envs (rt w') = envs (rt w)
  /\ (forall e, sent e (calls (rt w')) = sent e (calls (rt w)))
  /\ fewer_calls (pending (rt w)) (pending (rt w'))
  /\ quieter (timers (rt w)) (timers (rt w')).

(** [w'] has the variables and the polls sent of the loop [e] as [w]
    has them, and awaits nothing of that loop that [w] does not. *)
Definition loop_calmer (e : nat) (w w' : world) : Prop :=
  get_env e w' = get_env e w
  /\ sent e (calls (rt w')) = sent e (calls (rt w))
  /\ (forall id, In (id, CPoll e) (pending (rt w')) -> In (id, CPoll e) (pending (rt w)))
  /\ (forall id, In (id, TPoll e) (timers (rt w')) -> In (id, TPoll e) (timers (rt w))).

(** *** Plain text for the renderer *)

(** Units no inline or block pattern starts with or stops at. *)
Definition calm (c : char) : bool :=
  negb (char_eqb c (C "`") || char_eqb c (C "|") || char_eqb c (C "*")
        || char_eqb c (C "[") || is_line_terminator c).

(** A first unit that opens no heading, list item or rule. *)
Definition opens_no_block (s : jsstring) : bool :=
  match s with
  | [] => true
  | c :: _ => negb (char_eqb c (C "#") || char_eqb c (C "-")
                    || char_eqb c 8226%N || is_digit c)
  end.

Definition is_prefix (a b : jsstring) : Prop := exists rest, b = a ++ rest.

(** Markup no pattern starts with or stops at: what escaping makes of
    calm text. *)
Definition quiet (c : char) : bool := calm c && negb (char_eqb c (C "<")).

(** A first unit that also opens no quotation. *)
Definition opens_nothing (s : jsstring) : bool :=
  opens_no_block s
  && match s with [] => true | c :: _ => negb (char_eqb c (C ">")) end.

(** The class of the unit every match of [r] must begin with, when the
    pattern shows one. *)
Fixpoint first_class (r : regex) : option (char -> bool) :=
  match r with
  | Chr q => Some q
  | Seq a b => match a with Bol => first_class b | _ => first_class a end
  | Group _ a => first_class a
  | _ => None
  end.

Fixpoint starts_with (needle hay : jsstring) : bool :=
  match needle, hay with
  | [], _ => true
  | c :: n', d :: h' => char_eqb c d && starts_with n' h'
  | _ :: _, [] => false
  end.

(** [hay.includes(needle)] *)
Fixpoint occurs (needle hay : jsstring) : bool :=
  starts_with needle hay
  || match hay with
     | [] => false
     | _ :: h' => occurs needle h'
     end.

(** *** Matching with more text behind *)

(** The state [x] with the text [D] behind its input. *)
Definition ext (D : jsstring) (x : mstate) : mstate :=
  MState (passed x) (ahead x ++ D) (caps x).

(** [lands ml r x y]: the pattern [r], started in [x], can hand the
    state [y] to what follows it. *)
Inductive lands (ml : bool) : regex -> mstate -> mstate -> Prop :=
| lands_eps (x : mstate) : lands ml Eps x x
| lands_chr (p : char -> bool) (x : mstate) (c : char) (t : jsstring) :
    ahead x = c :: t -> p c = true ->
    lands ml (Chr p) x (MState (c :: passed x) t (caps x))
| lands_seq (a b : regex) (x y z : mstate) :
    lands ml a x y -> lands ml b y z -> lands ml (Seq a b) x z
| lands_alt_l (a b : regex) (x y : mstate) :
    lands ml a x y -> lands ml (Alt a b) x y
| lands_alt_r (a b : regex) (x y : mstate) :
    lands ml b x y -> lands ml (Alt a b) x y
| lands_star_stop (g : bool) (a : regex) (x : mstate) : lands ml (Star g a) x x
| lands_star_more (g : bool) (a : regex) (x y z : mstate) :
    lands ml a x y -> lands ml (Star g a) y z -> lands ml (Star g a) x z
| lands_group (i : nat) (a : regex) (x y : mstate) :
    lands ml a x y -> lands ml (Group i a) x (set_cap i (between x y) y)
| lands_bol (x : mstate) : at_bol ml x = true -> lands ml Bol x x
| lands_eol (x : mstate) : at_eol ml x = true -> lands ml Eol x x.

(** Can [r] match without taking a unit. *)
Fixpoint nullable (r : regex) : bool :=
  match r with
  | Eps | Bol | Eol | Star _ _ => true
  | Chr _ => false
  | Seq a b => nullable a && nullable b
  | Alt a b => nullable a || nullable b
  | Group _ a => nullable a
  end.

(** The classes of the unit a match of [r] can end with. *)
Fixpoint last_set (r : regex) : list (char -> bool) :=
  match r with
  | Chr p => [p]
  | Seq a b => last_set b ++ (if nullable b then last_set a else [])
  | Alt a b => last_set a ++ last_set b
  | Star _ a => last_set a
  | Group _ a => last_set a
  | Eps | Bol | Eol => []
  end.

(** The classes of all the units a match of [r] can take. *)
Fixpoint all_set (r : regex) : list (char -> bool) :=
  match r with
  | Chr p => [p]
  | Seq a b => all_set a ++ all_set b
  | Alt a b => all_set a ++ all_set b
  | Star _ a => all_set a
  | Group _ a => all_set a
  | Eps | Bol | Eol => []
  end.

Fixpoint no_eol (r : regex) : bool :=
  match r with
  | Eol => false
  | Seq a b => no_eol a && no_eol b
  | Alt a b => no_eol a && no_eol b
  | Star _ a => no_eol a
  | Group _ a => no_eol a
  | Eps | Chr _ | Bol => true
  end.

(** The end of the input and the start of [D] are the same to [$]. *)
Definition eol_safe (ml : bool) (D : jsstring) : bool :=
  match D with
  | [] => true
  | d :: _ => ml && is_line_terminator d
  end.

(** [k], for states that have at least [D] ahead. *)
Definition guard (D : jsstring) (k : mstate -> option mstate) (z : mstate)
  : option mstate :=
  if Nat.leb (List.length D) (List.length (ahead z)) then k z else None.

(** No unit of [D] is in one of the classes [ps]. *)
Definition avoids (ps : list (char -> bool)) (D : jsstring) : bool :=
  forallb (fun d => negb (existsb (fun p => p d) ps)) D.

(** *** Text behind completed structure *)

(** Text that completes nothing: no backtick, pipe, asterisk, closing
    parenthesis or line terminator. *)
Definition settled (c : char) : bool :=
  negb (char_eqb c (C "`") || char_eqb c (C "|") || char_eqb c (C "*")
        || char_eqb c (C ")") || is_line_terminator c).

(** What escaping makes of such text: markup no match ends with. *)
Definition still (c : char) : bool :=
  settled c && negb (char_eqb c (C "<") || char_eqb c (C ">")).

(** The last unit of a text is [c]. *)
Definition ends_with (c : char) (s : jsstring) : Prop :=
  exists s', s = s' ++ [c].

(** The last unit of [s] is a pipe: the text ends where a table row
    does. *)
Definition ends_row (s : jsstring) : bool :=
  match rev s with
  | c :: _ => char_eqb c (C "|")
  | [] => false
  end.

(** A report with a heading, a table, a list item with inline code and a
    fenced block, separated by blank lines. *)
Definition report_text : jsstring :=
  lit "## Sales" ++ [NL; NL]
  ++ lit "| item | qty |" ++ [NL] ++ lit "|---|---|" ++ [NL]
  ++ lit "| tea | 100 |" ++ [NL; NL]
  ++ lit "- first `x`" ++ [NL; NL]
  ++ lit "```" ++ [NL] ++ lit "a = 1" ++ [NL] ++ lit "```".

(** *** Scenarios *)

Definition start_stream (stream session : string) : option start_data :=
  Some (StartData false (Some (lit session)) None None false None
                  (Some (lit stream))).

Definition delta_reply (t : jsstring) (n : N) : option poll_data :=
  Some (PollData None true (Some t) (Some n) false None None).

Definition final_reply (t : jsstring) : option poll_data :=
  Some (PollData None false (Some t) None true None None).

(** A user has submitted a question and the reply is awaited. *)
Definition asked : list event :=
  [Edit (lit "What are today's sales?"); Submit].

(** Scenario A up to its second delta. *)
Definition streaming_A : list event :=
  asked ++
  [StartReply 2 (start_stream "s1" "sess1");
   PollReply 3 (delta_reply (lit "Today's") 7);
   Expire 4;
   PollReply 5 (delta_reply (lit "Today's sales: **100**") 23)].

(** Scenario A in full. *)
Definition scenario_A : list event :=
  streaming_A ++
  [Expire 6; PollReply 7 (final_reply (lit "Today's sales: **100**"))].

(** Scenario D: a new chat is opened while the first poll is awaited. *)
Definition scenario_D : list event :=
  asked ++
  [StartReply 2 (start_stream "s1" "sess1");
   NewChat;
   PollReply 3 (delta_reply (lit "Today's") 7)].

(** A reply with a session but no stream identifier. *)
Definition reply_without_stream : option start_data :=
  Some (StartData false (Some (lit "sess1")) None None false None None).

(** A reply that asks for a clarification. *)
Definition clarifying_reply : option start_data :=
  Some (StartData true (Some (lit "sess1")) (Some (lit "Which company?"))
                  None false None None).

(** A [stream_poll] reply whose body has none of the fields. *)
Definition poll_body_without_fields : option poll_data :=
  Some (PollData None false None None false None None).

Definition world_after (evs : list event) : world :=
  match run_events (boot None false None) evs with
  | Some w => w
  | None => blank
  end.

(** *** Shared text *)

(** A string of 16-bit code units. *)
Definition code_units (s : jsstring) : Prop := Forall (fun c => (c < 65536)%N) s.

(** Units that stand for themselves in a URI component, and the percent
    sign of an escape. *)
Definition uri_safe (c : char) : bool :=
  Share.uri_unreserved c || char_eqb c (C "%").

(** Every surrogate is half of a pair: well-formed UTF-16. *)
Fixpoint well_paired (s : jsstring) : bool :=
  match s with
  | [] => true
  | c :: t =>
      if Share.is_low_surrogate c then false
      else if Share.is_high_surrogate c then
        match t with
        | d :: t' => Share.is_low_surrogate d && well_paired t'
        | [] => false
        end
      else well_paired t
  end.

(** *** The panel *)

(** The class lists say what the flags say. *)
Definition mirrors (p : Panel.page) : Prop :=
  Panel.contains "askerp-open" (Panel.panel p) = Panel.isOpen p
  /\ Panel.contains "askerp-hidden" (Panel.launcher p) = Panel.isOpen p
  /\ Panel.contains "askerp-fullscreen" (Panel.panel p) = Panel.isFullscreen p
  /\ (Panel.isOpen p = true -> Panel.contains "askerp-pulse" (Panel.launcher p) = false).

(** *** What the page shows *)

Definition is_welcome (c : child) : bool :=
  match c with Welcome => true | _ => false end.
Definition is_msg (c : child) : bool :=
  match c with Msg _ => true | _ => false end.

Definition how_many {A : Type} (f : A -> bool) (l : list A) : nat :=
  List.length (filter f l).

(** The messages container holds at most one typing indicator, and none
    unless the widget's variable refers to one; at most one welcome
    card, and none beside a message. *)
Definition tidy (d : dom) : Prop :=
  how_many is_typing (children d) <= 1
  /\ (typingIndicator d = None -> how_many is_typing (children d) = 0)
  /\ how_many is_welcome (children d) <= 1
  /\ (how_many is_welcome (children d) = 1 -> how_many is_msg (children d) = 0).

(** The send button is disabled exactly while a turn is in flight, and
    outside a turn there is no typing indicator. *)
Definition face_inv (w : world) : Prop :=
  send_disabled (ui w) = isStreaming (st w)
  /\ (isStreaming (st w) = false -> typingIndicator (ui w) = None).

Definition shows (w : world) : Prop := face_inv w /\ tidy (ui w).

(** *** What is sent to the backend *)

(** [null] or a string that is not empty. *)
Definition sound (t : text) : bool :=
  match t with None => true | Some s => nonempty s end.

Definition well_formed (r : request) : bool :=
  match r with
  | chat_start m s => nonempty m && sound s
  | stream_poll _ sid _ => truthy sid
  | get_suggestions q a =>
      sound q && sound a && Nat.leb (List.length (text_str a)) 300
  | get_session s => truthy s
  | close_session s => truthy s
  end.

Definition sends_ok (w : world) : Prop :=
  forallb well_formed (calls (rt w)) = true.

(** *** Identifiers of calls and timers *)

(** Every awaited call and every timer has an identifier of its own,
    below the next one to be handed out. *)
Definition fresh (r : runtime) : Prop :=
  (forall id c, In (id, c) (pending r) -> id < next_id r)
  /\ (forall id t, In (id, t) (timers r) -> id < next_id r)
  /\ NoDup (map fst (pending r))
  /\ NoDup (map fst (timers r)).

(** The calls and timers awaited, and the next identifier. *)
Definition traffic (r : runtime) : list (nat * call) * list (nat * timer) * nat :=
  (pending r, timers r, next_id r).

(** A live stream handle has exactly one request or timer outstanding. *)
Definition live (w : world) : Prop :=
  truthy (streamId (st w)) = true -> in_flight w = 1.

(** *** What a user typed *)

(** Markup without a unit that opens or closes a tag. *)
Definition inert (s : jsstring) : bool :=
  forallb (fun c => negb (char_eqb c (C "<") || char_eqb c (C ">"))) s.

(** The bubbles of the user hold inert markup, and the bubble a polling
    loop writes to is one of the assistant. *)
Definition bubbles_ok (w : world) : Prop :=
  (forall i b, nth_error (bubbles (ui w)) i = Some b ->
               b_role b = user -> inert (b_html b) = true)
  /\ (forall e i, assistantBubble (get_env e w) = Some i ->
                  exists b, nth_error (bubbles (ui w)) i = Some b
                            /\ b_role b = assistant).

(** *** Links *)

(** A text without the unit [c]. *)
Definition without (c : char) (s : jsstring) : bool :=
  forallb (fun x => negb (char_eqb x c)) s.
(** The markup the link pass writes. *)
Definition anchor (address label : jsstring) : jsstring :=
  lit "<a href=" ++ [QUOTE] ++ address ++ [QUOTE]
  ++ lit " target=" ++ [QUOTE] ++ lit "_blank" ++ [QUOTE]
  ++ lit " rel=" ++ [QUOTE] ++ lit "noopener" ++ [QUOTE]
  ++ lit ">" ++ label ++ lit "</a>".

(** *** The error banner *)

(** The identifier kept in [state.pollTimer] is one that was handed out,
    and not that of a timer that hides the banner. *)
Definition poll_timer_ok (w : world) : Prop :=
  forall i, pollTimer (st w) = Some i ->
            i < next_id (rt w) /\ ~ In (i, THide) (timers (rt w)).

(** While the banner is shown, a timer that hides it is pending. *)
Definition banner_goes (w : world) : Prop :=
  error_visible (ui w) = true -> exists id, In (id, THide) (timers (rt w)).

Definition alarm_inv (w : world) : Prop :=
  fresh (rt w) /\ poll_timer_ok w /\ banner_goes w.

(** [w'] has the banner, the timers and the poll timer's identifier of
    [w], and at most more identifiers handed out. *)
Definition hands_out (w w' : world) : Prop :=
  error_visible (ui w') = error_visible (ui w)
  /\ timers (rt w') = timers (rt w)
  /\ pollTimer (st w') = pollTimer (st w)
  /\ next_id (rt w) <= next_id (rt w').

(** ** Proofs *)

(** The renderer is not unfolded while reasoning about the engine. *)
#[local] Opaque renderMarkdown escapeHtml trim.

Ltac open_all w :=
  let sid := fresh "sid" in let ms := fresh "ms" in
  let streaming := fresh "streaming" in let strm := fresh "strm" in
  let pt := fresh "pt" in
  let iv := fresh "iv" in let sd := fresh "sd" in let ti := fresh "ti" in
  let ch := fresh "ch" in let bs := fresh "bs" in let sg := fresh "sg" in
  let et := fresh "et" in let ev := fresh "ev" in
  let en := fresh "en" in let pe := fresh "pe" in let tm := fresh "tm" in
  let ni := fresh "ni" in let cs := fresh "cs" in let al := fresh "al" in
  destruct w as [[sid ms streaming strm pt] [iv sd ti ch bs sg et ev]
                 [en pe tm ni cs al]].

(** *** Lists updated in place *)

Lemma length_update_at {A : Type} (f : A -> A) (l : list A) (i : nat) :
  List.length (update_at i f l) = List.length l.
Proof.
  revert i; induction l as [|a t IH]; intros [|j]; simpl; auto.
Qed.

Lemma nth_update_at_same {A : Type} (f : A -> A) (d : A) (l : list A) (i : nat) :
  i < List.length l -> nth i (update_at i f l) d = f (nth i l d).
Proof.
  revert i; induction l as [|a t IH]; intros [|j] H; simpl in *; try lia; auto.
  apply IH; lia.
Qed.

Lemma nth_update_at_other {A : Type} (f : A -> A) (d : A) (l : list A) (i j : nat) :
  i <> j -> nth i (update_at j f l) d = nth i l d.
Proof.
  revert i j; induction l as [|a t IH]; intros [|i] [|j] H; simpl; auto; try lia.
Qed.

Lemma nth_update_at {A : Type} (f : A -> A) (d : A) (l : list A) (i j : nat) :
  nth i (update_at j f l) d =
  if Nat.eqb i j && Nat.ltb i (List.length l) then f (nth i l d) else nth i l d.
Proof.
  destruct (Nat.eqb i j) eqn:E; simpl.
  - apply Nat.eqb_eq in E. subst j.
    destruct (Nat.ltb i (List.length l)) eqn:L.
    + apply Nat.ltb_lt in L. apply nth_update_at_same. exact L.
    + apply Nat.ltb_ge in L. clear -L. revert i L.
      induction l as [|a t IH]; intros [|i] L; simpl in *; auto; try lia.
      apply IH. lia.
  - apply Nat.eqb_neq in E. apply nth_update_at_other. exact E.
Qed.

Lemma app_one_neq {A : Type} (l : list A) (x : A) : l <> l ++ [x].
Proof.
  intro H. apply (f_equal (@List.length A)) in H.
  rewrite length_app in H. simpl in H. lia.
Qed.

(** *** The end of a turn *)

Lemma finishStreaming_ends (m : text) (w : world) :
  turn_ended w (finishStreaming m w).
Proof.
  open_all w. unfold turn_ended, finishStreaming, removeTyping, loadSuggestions.
  destruct ti, pt, (truthy m); simpl; repeat split; eauto.
Qed.

(** *** The gate *)

(** C2. A call of [sendMessage] whose input trims to the empty string, or
    that is made while a turn is in flight, changes nothing: no message,
    no request, no field. *)
Theorem sendMessage_gate_closed (w : world) :
  nonempty (trim (input_value (ui w))) = false \/ isStreaming (st w) = true ->
  sendMessage w = w /\ step w Submit = Some w.
Proof.
  intros H.
  assert (E : sendMessage w = w).
  { unfold sendMessage. destruct H as [H|H]; rewrite H; simpl; auto.
    rewrite orb_true_r. reflexivity. }
  split; [exact E | simpl; rewrite E; reflexivity].
Qed.

Lemma sendMessage_gate_closed_witness :
  sendMessage (world_after asked) = world_after asked
  /\ step (world_after asked) Submit = Some (world_after asked).
Proof.
  apply sendMessage_gate_closed. right. vm_compute. reflexivity.
Defined.

(** *** The outcome of a submission *)

Lemma finishStreaming_surfaces (m : text) (w : world) :
  truthy m = true ->
  let w' := finishStreaming m w in
  error_surfaced w w'
  /\ messages (st w') = messages (st w)
  /\ calls (rt w') = calls (rt w) ++ [get_suggestions None None].
Proof.
  intros Hm w'. subst w'. open_all w.
  unfold error_surfaced, finishStreaming, removeTyping, loadSuggestions, showError.
  rewrite Hm. destruct ti, pt; simpl; (split; [exists (text_str m); auto | auto]).
Qed.

Lemma or_else_default_truthy (a : text) (s : string) :
  truthy (Some (tr s)) = true -> truthy (or_else a (Some (tr s))) = true.
Proof.
  intros H. unfold or_else. destruct (truthy a) eqn:E; [exact E | exact H].
Qed.

Lemma errored_outcome_surfaces (o : outcome) (w : world) :
  classification o = Errored ->
  let w' := handle o w in
  error_surfaced w w'
  /\ messages (st w') = messages (st w)
  /\ calls (rt w') = calls (rt w) ++ [get_suggestions None None].
Proof.
  intros Hc. destruct o as [[data|]|m]; simpl in *.
  - unfold on_chat_start.
    destruct (needs_clarification data); [discriminate|].
    destruct (budget_exceeded data).
    + apply finishStreaming_surfaces. apply or_else_default_truthy. reflexivity.
    + destruct (truthy (start_error data)) eqn:E; [|discriminate].
      apply finishStreaming_surfaces. exact E.
  - apply finishStreaming_surfaces. reflexivity.
  - apply finishStreaming_surfaces. apply or_else_default_truthy. reflexivity.
Qed.

Lemma clarification_outcome_shows (data : start_data) (w : world) :
  needs_clarification data = true ->
  let w' := on_chat_start (Some data) w in
  messages (st w') =
    messages (st w) ++ [Message assistant (clarification_question data)]
  /\ alerts (rt w') = alerts (rt w)
  /\ calls (rt w') = calls (rt w)
  /\ isStreaming (st w') = false
  /\ sessionId (st w') = session_id_of data.
Proof.
  intros Hc w'. subst w'. unfold on_chat_start. rewrite Hc.
  open_all w. unfold removeTyping, addMessage, showClarificationChips.
  destruct ti, (clarification_options data); simpl; auto.
Qed.

Lemma stream_outcome_starts (data : start_data) (w : world) :
  classification (Replied (Some data)) = Streaming ->
  truthy (stream_id_of data) = true ->
  let w' := on_chat_start (Some data) w in
  calls (rt w') =
    calls (rt w) ++ [stream_poll (List.length (envs (rt w)))
                                 (stream_id_of data) (Some 0%N)]
  /\ messages (st w') = messages (st w)
  /\ alerts (rt w') = alerts (rt w)
  /\ streamId (st w') = stream_id_of data
  /\ sessionId (st w') = session_id_of data.
Proof.
  intros Hc Hs w'. subst w'. simpl in Hc. unfold on_chat_start.
  destruct (needs_clarification data); [discriminate|].
  destruct (budget_exceeded data); [discriminate|].
  destruct (truthy (start_error data)); [discriminate|].
  open_all w. unfold startPolling, poll. simpl. rewrite Hs. simpl.
  unfold get_env. simpl. rewrite nth_middle. simpl. auto.
Qed.

(** Where a reply that is classified as a stream names its stream, the
    classification holds. Whatever the [chat_start] call yields: exactly
    one of a clarification shown, an error surfaced and streaming started
    happens, and it is the one the priority order (no body, then
    [needs_clarification], then [budget_exceeded], then [error], else a
    stream) selects; a failed call and a reply without a body are errors;
    the clarification shown is the reply's question, stored as the
    assistant's message; a started stream has adopted the reply's stream
    and session identifiers. *)
Theorem submission_has_one_outcome (o : outcome) (w : world) :
  names_its_stream o = true ->
  let w' := handle o w in
  exactly_one (clarification_shown w w') (error_surfaced w w')
              (streaming_started w w')
  /\ match classification o with
     | Errored => error_surfaced w w'
     | Clarification =>
         clarification_shown w w'
         /\ exists data, o = Replied (Some data)
                         /\ messages (st w')
                            = messages (st w)
                              ++ [Message assistant (clarification_question data)]
                         /\ sessionId (st w') = session_id_of data
     | Streaming =>
         streaming_started w w'
         /\ exists data, o = Replied (Some data)
                         /\ streamId (st w') = stream_id_of data
                         /\ sessionId (st w') = session_id_of data
     end.
Proof.
  intros Hn w'. subst w'.
  destruct (classification o) eqn:Hc.
  - (* an error *)
    destruct (errored_outcome_surfaces o w Hc) as [He [Hm Hcs]].
    split; [|exact He].
    right; left. split; [|split; [exact He|]].
    + intros [q Hq]. rewrite Hm in Hq. exact (app_one_neq _ _ Hq).
    + intros [e He']. rewrite Hcs in He'.
      apply app_inv_head in He'. discriminate.
  - (* a clarification *)
    destruct o as [[data|]|m]; simpl in Hc; try discriminate.
    change (handle (Replied (Some data)) w) with (on_chat_start (Some data) w).
    assert (Hnc : needs_clarification data = true).
    { destruct (needs_clarification data); [reflexivity|].
      destruct (budget_exceeded data); [discriminate|].
      destruct (truthy (start_error data)); discriminate. }
    destruct (clarification_outcome_shows data w Hnc) as [Hm [Ha [Hcs [_ Hsess]]]].
    assert (Hshown : clarification_shown w (on_chat_start (Some data) w)).
    { exists (clarification_question data). exact Hm. }
    split; [|split; [exact Hshown | exists data; auto]].
    left. split; [exact Hshown|split].
    + intros [msg [Hmsg _]]. rewrite Ha in Hmsg.
      exact (app_one_neq _ _ Hmsg).
    + intros [e He]. rewrite Hcs in He.
      exact (app_one_neq _ _ He).
  - (* a stream *)
    destruct o as [[data|]|m]; simpl in Hc; try discriminate.
    change (handle (Replied (Some data)) w) with (on_chat_start (Some data) w).
    assert (Hs : truthy (stream_id_of data) = true).
    { unfold names_its_stream in Hn. simpl in Hn.
      destruct (needs_clarification data); [discriminate|].
      destruct (budget_exceeded data); [discriminate|].
      destruct (truthy (start_error data)); [discriminate|]. exact Hn. }
    assert (Hc' : classification (Replied (Some data)) = Streaming) by exact Hc.
    destruct (stream_outcome_starts data w Hc' Hs) as [Hcs [Hm [Ha [Hid Hsess]]]].
    assert (Hstarted : streaming_started w (on_chat_start (Some data) w)).
    { exists (List.length (envs (rt w))). rewrite Hid. exact Hcs. }
    split.
    + right; right. split; [|split; [|exact Hstarted]].
      * intros [q Hq]. rewrite Hm in Hq. exact (app_one_neq _ _ Hq).
      * intros [msg [Hmsg _]]. rewrite Ha in Hmsg.
        exact (app_one_neq _ _ Hmsg).
    + split; [exact Hstarted|]. exists data. auto.
Qed.

Lemma submission_has_one_outcome_witness :
  let w := world_after asked in
  let w' := handle (Replied (start_stream "s1" "sess1")) w in
  names_its_stream (Replied (start_stream "s1" "sess1")) = true
  /\ exactly_one (clarification_shown w w') (error_surfaced w w')
                 (streaming_started w w')
  /\ streaming_started w w'.
Proof.
  intros w w'.
  destruct (submission_has_one_outcome (Replied (start_stream "s1" "sess1")) w
              eq_refl) as [H1 [H2 _]].
  split; [reflexivity|]. split; [exact H1 | exact H2].
Defined.

(** *** A new chat during a stream *)

(** A scheduled poll that finds no stream handle sends nothing and
    changes nothing: the timer that fired is the only thing gone. And
    [startNewChat] leaves the handle, the streaming flag, the loops and
    the timers as they are. *)
Lemma poll_needs_a_handle (e : nat) (w : world) :
  (truthy (streamId (st w)) = false ->
   poll e w = w
   /\ forall id, lookup id (timers (rt w)) = Some (TPoll e) ->
                 step w (Expire id) = Some (expired id w))
  /\ streamId (st (startNewChat w)) = streamId (st w)
  /\ isStreaming (st (startNewChat w)) = isStreaming (st w)
  /\ envs (rt (startNewChat w)) = envs (rt w)
  /\ timers (rt (startNewChat w)) = timers (rt w).
Proof.
  split.
  - intros H.
    assert (P : forall x, streamId (st x) = streamId (st w) -> poll e x = x).
    { intros x Hx. unfold poll. rewrite Hx, H. reflexivity. }
    split; [apply P; reflexivity|].
    intros id L. simpl. rewrite L. rewrite P; reflexivity.
  - open_all w. unfold startNewChat, loadSuggestions, showWelcome, notify.
    destruct sid as [[|c sid]|]; simpl; auto.
Qed.

(** C3 fails on the code. In scenario D the new chat leaves the handle
    [s1] in place (for every world, [startNewChat] keeps the handle and
    the streaming flag); the poll reply that arrives next appends the
    assistant's placeholder to the emptied message list, shows its bubble
    in the new chat, advances the watermark to 7 and schedules the next
    poll. *)
Theorem new_chat_does_not_stop_the_stream :
  (forall w, streamId (st (startNewChat w)) = streamId (st w)
             /\ isStreaming (st (startNewChat w)) = isStreaming (st w))
  /\ let w := world_after (asked ++ [StartReply 2 (start_stream "s1" "sess1")]) in
     let w1 := world_after (asked ++ [StartReply 2 (start_stream "s1" "sess1");
                                      NewChat]) in
     let w2 := world_after scenario_D in
     run_events (boot None false None) scenario_D = Some w2
     /\ step w NewChat = Some w1
     /\ streamId (st w) = Some (lit "s1")
     /\ streamId (st w1) = Some (lit "s1")
     /\ messages (st w1) = []
     /\ lastLength (get_env 0 w1) = Some 0%N
     /\ step w1 (PollReply 3 (delta_reply (lit "Today's") 7)) = Some w2
     /\ messages (st w2) = [Message assistant (Some [])]
     /\ children (ui w2) = [Msg 1]
     /\ lastLength (get_env 0 w2) = Some 7%N
     /\ timers (rt w2) = [(5, TPoll 0)]
     /\ isStreaming (st w2) = true.
Proof.
  split.
  - intros w. destruct (poll_needs_a_handle 0 w) as (_ & H1 & H2 & _). auto.
  - vm_compute. repeat split; reflexivity.
Qed.

(** *** Suggestions after a streamed reply *)

(** C9 fails on the code. At the end of scenario A the reply just
    produced is the text of the last delta, but the stored assistant
    message is the empty placeholder of the first delta: the suggestions
    are requested with the user's question and no response. *)
Theorem streamed_reply_is_not_passed_on :
  let w := world_after scenario_A in
  run_events (boot None false None) scenario_A = Some w
  /\ streamId (st w) = None
  /\ isStreaming (st w) = false
  /\ messages (st w) =
       [Message user (Some (lit "What are today's sales?"));
        Message assistant (Some [])]
  /\ map b_html (bubbles (ui w)) =
       [lit "What are today's sales?";
        lit "Today's sales: <strong>100</strong>"]
  /\ last (calls (rt w)) (get_suggestions None None) =
       get_suggestions (Some (lit "What are today's sales?")) None.
Proof.
  vm_compute. repeat split; reflexivity.
Qed.


(** *** What each handler does to the gate, the loops and the traffic *)

Lemma count_drop_le {A : Type} (f : nat * A -> bool) (id : nat) (l : list (nat * A)) :
  List.length (filter f (drop id l)) <= List.length (filter f l).
Proof.
  induction l as [|[j a] t IH]; simpl; [lia|].
  destruct (Nat.eqb j id); simpl; destruct (f (j, a)); simpl; lia.
Qed.

Lemma count_drop_lt {A : Type} (f : nat * A -> bool) (id : nat)
    (l : list (nat * A)) (a : A) :
  lookup id l = Some a -> f (id, a) = true ->
  List.length (filter f (drop id l)) < List.length (filter f l).
Proof.
  induction l as [|[j b] t IH]; simpl; [discriminate|].
  destruct (Nat.eqb j id) eqn:E; simpl.
  - intros H Hf. inversion H; subst. apply Nat.eqb_eq in E. subst.
    rewrite Hf. simpl. pose proof (count_drop_le f id t). lia.
  - intros H Hf. specialize (IH H Hf). destruct (f (j, b)); simpl; lia.
Qed.

Lemma in_drop {A : Type} (id : nat) (l : list (nat * A)) (p : nat * A) :
  In p (drop id l) -> In p l.
Proof. unfold drop. intros H. apply filter_In in H. tauto. Qed.

Lemma lookup_in {A : Type} (id : nat) (l : list (nat * A)) (a : A) :
  lookup id l = Some a -> In (id, a) l.
Proof.
  induction l as [|[j b] t IH]; simpl; [discriminate|].
  destruct (Nat.eqb j id) eqn:E.
  - intros H. inversion H; subst. apply Nat.eqb_eq in E. subst. auto.
  - auto.
Qed.

Lemma none_in_flight (l : list (nat * call)) :
  List.length (filter in_flight_call l) = 0 ->
  existsb awaits_start l = false
  /\ forall id e, ~ In (id, CPoll e) l.
Proof.
  induction l as [|[j c] t IH]; simpl; [auto|].
  unfold in_flight_call at 1, awaits_start at 1. simpl.
  destruct c; simpl; try discriminate; intros H; destruct (IH H) as [H1 H2];
    (split; [exact H1|]); intros id e [Hin|Hin]; try discriminate;
    exact (H2 id e Hin).
Qed.

Lemma quieter_refl (t : list (nat * timer)) : quieter t t.
Proof. split; auto. Qed.

Lemma quieter_drop (id : nat) (t : list (nat * timer)) : quieter t (drop id t).
Proof.
  split; [apply count_drop_le|]. intros i e H. exact (in_drop _ _ _ H).
Qed.

Lemma quieter_hide (id : nat) (t t' : list (nat * timer)) :
  quieter t t' -> quieter t (t' ++ [(id, THide)]).
Proof.
  intros [H1 H2]. split.
  - rewrite filter_app, length_app. simpl. lia.
  - intros i e H. apply in_app_or in H. destruct H as [H|[H|[]]]; [auto|discriminate].
Qed.

Lemma core_removeTyping (w : world) : core (removeTyping w) = core w.
Proof. open_all w. unfold removeTyping. destruct ti; reflexivity. Qed.

Lemma core_showTyping (s : text) (w : world) : core (showTyping s w) = core w.
Proof. open_all w. unfold showTyping, removeTyping. destruct ti; reflexivity. Qed.

Lemma core_addMessage (r : role) (c : text) (w : world) :
  core (snd (addMessage r c w)) = core w.
Proof. reflexivity. Qed.

Lemma core_set_html (b : option nat) (h : jsstring) (w : world) :
  core (set_html b h w) = core w.
Proof. destruct b; reflexivity. Qed.

Lemma core_add_actions (b : nat) (t : text) (w : world) :
  core (add_actions b t w) = core w.
Proof. reflexivity. Qed.

Lemma core_same (e : nat) (w w' : world) : core w' = core w -> same_but_loop e w w'.
Proof.
  unfold core, same_but_loop, get_env. intros H. injection H as H1 H2 H3.
  rewrite H3. repeat split; assumption || reflexivity.
Qed.

Lemma same_refl (e : nat) (w : world) : same_but_loop e w w.
Proof. unfold same_but_loop. repeat split; reflexivity. Qed.

Lemma same_trans (e : nat) (w1 w2 w3 : world) :
  same_but_loop e w1 w2 -> same_but_loop e w2 w3 -> same_but_loop e w1 w3.
Proof.
  unfold same_but_loop.
  intros (A1 & A2 & A3 & A4 & A5 & A6 & A7 & A8) (B1 & B2 & B3 & B4 & B5 & B6 & B7 & B8).
  repeat split; try congruence.
  intros e' He. rewrite B8, A8 by exact He. reflexivity.
Qed.

Lemma same_set_env (e : nat) (v : poll_env) (w : world) :
  same_but_loop e w (set_env e v w).
Proof.
  unfold same_but_loop, set_env, get_env. simpl.
  repeat split; try reflexivity.
  - apply length_update_at.
  - intros e' He. apply nth_update_at_other. exact He.
Qed.

Lemma get_env_set_env (e : nat) (v : poll_env) (w : world) :
  e < List.length (envs (rt w)) -> get_env e (set_env e v w) = v.
Proof.
  intros H. unfold get_env, set_env. simpl.
  rewrite nth_update_at_same by exact H. reflexivity.
Qed.

Lemma get_env_beyond (e : nat) (w : world) :
  List.length (envs (rt w)) <= e -> get_env e w = Env (Some 0%N) None.
Proof. intros H. unfold get_env. apply nth_overflow. exact H. Qed.

Lemma get_env_core (e : nat) (w w' : world) :
  core w' = core w -> get_env e w' = get_env e w.
Proof. unfold core, get_env. intros H. injection H as _ _ R. rewrite R. reflexivity. Qed.

Lemma show_tool_status_core (data : poll_data) (w : world) :
  core (show_tool_status data w) = core w.
Proof.
  unfold show_tool_status.
  destruct (truthy (tool_status data) && negb (done data));
    [apply core_showTyping | reflexivity].
Qed.

Lemma append_new_text_view (e : nat) (data : poll_data) (w : world) :
  let w' := append_new_text e data w in
  same_but_loop e w w'
  /\ (delta data = false -> w' = w)
  /\ (lastLength (get_env e w') = lastLength (get_env e w)
      \/ delta data = true /\ lastLength (get_env e w') = text_length data).
Proof.
  unfold append_new_text. destruct (delta data); cbv zeta.
  2:{ split; [apply same_refl|]. split; auto. }
  set (w1 := removeTyping w).
  assert (S1 : same_but_loop e w w1) by (apply core_same, core_removeTyping).
  assert (G1 : get_env e w1 = get_env e w) by (apply get_env_core, core_removeTyping).
  set (w2 := match assistantBubble (get_env e w1) with
             | Some _ => w1
             | None => _ end).
  assert (S2 : same_but_loop e w1 w2 /\ lastLength (get_env e w2) = lastLength (get_env e w1)).
  { subst w2. destruct (assistantBubble (get_env e w1)).
    - split; [apply same_refl | reflexivity].
    - destruct (addMessage assistant (Some []) w1) as [b w0] eqn:Hadd.
      assert (C0 : core w0 = core w1).
      { replace w0 with (snd (addMessage assistant (Some []) w1))
          by (rewrite Hadd; reflexivity). apply core_addMessage. }
      split.
      + eapply same_trans; [apply core_same, C0 | apply same_set_env].
      + destruct (Nat.lt_ge_cases e (List.length (envs (rt w0)))) as [L|L].
        * rewrite get_env_set_env by exact L. simpl.
          rewrite (get_env_core e _ _ C0). reflexivity.
        * rewrite !get_env_beyond; auto.
          -- unfold core in C0. injection C0 as _ _ R. rewrite <- R. exact L.
          -- unfold set_env. simpl. rewrite length_update_at. exact L. }
  destruct S2 as [S2 L2].
  set (w3 := set_html _ _ w2).
  assert (C3 : core w3 = core w2) by apply core_set_html.
  assert (S3 : same_but_loop e w2 w3) by (apply core_same, C3).
  set (v := Env _ _).
  assert (S4 : same_but_loop e w3 (set_env e v w3)) by apply same_set_env.
  split; [|split; [discriminate|]].
  - eapply same_trans; [exact S1|]. eapply same_trans; [exact S2|].
    eapply same_trans; [exact S3 | exact S4].
  - destruct (Nat.lt_ge_cases e (List.length (envs (rt w3)))) as [L|L].
    + right. split; [reflexivity|]. rewrite get_env_set_env by exact L. reflexivity.
    + left. rewrite get_env_beyond.
      * rewrite <- G1, <- L2, <- (get_env_core e _ _ C3).
        rewrite (get_env_beyond e w3) by exact L. reflexivity.
      * unfold set_env. simpl. rewrite length_update_at. exact L.
Qed.

Lemma settle_message_core (e : nat) (data : poll_data) (w : world) :
  core (settle_message e data w) = core w.
Proof.
  unfold settle_message.
  destruct (truthy (poll_error data)), (assistantBubble (get_env e w)),
    (truthy (text_of data)); reflexivity.
Qed.

Lemma finishStreaming_view (m : text) (w : world) :
  let w' := finishStreaming m w in
  isStreaming (st w') = false
  /\ streamId (st w') = None
  /\ envs (rt w') = envs (rt w)
  /\ (exists id, pending (rt w') = pending (rt w) ++ [(id, CSuggest)])
  /\ calls (rt w') = calls (rt w) ++ [get_suggestions None None]
  /\ quieter (timers (rt w)) (timers (rt w')).
Proof.
  open_all w.
  unfold finishStreaming, removeTyping, loadSuggestions, showError, clearTimeout.
  destruct ti, pt, (truthy m); simpl;
    repeat (split; [solve [eauto]|]);
    auto using quieter_refl, quieter_drop, quieter_hide.
Qed.

Lemma stream_done_view (e : nat) (data : poll_data) (w : world) :
  let w' := stream_done e data w in
  isStreaming (st w') = false
  /\ streamId (st w') = None
  /\ envs (rt w') = envs (rt w)
  /\ (exists id, pending (rt w') = pending (rt w) ++ [(id, CSuggest)])
  /\ (exists q a, calls (rt w') = calls (rt w) ++ [get_suggestions q a])
  /\ timers (rt w') = timers (rt w).
Proof.
  unfold stream_done. cbv zeta.
  set (w1 := settle_message e data (removeTyping w)).
  assert (C1 : core w1 = core w).
  { subst w1. rewrite settle_message_core. apply core_removeTyping. }
  unfold core in C1. injection C1 as _ _ R.
  unfold refresh_suggestions, loadSuggestions. simpl. rewrite R.
  repeat split; eauto.
Qed.

Lemma continue_polling_view (e : nat) (w : world) :
  let w' := continue_polling e w in
  isStreaming (st w') = isStreaming (st w)
  /\ streamId (st w') = streamId (st w)
  /\ envs (rt w') = envs (rt w)
  /\ pending (rt w') = pending (rt w)
  /\ calls (rt w') = calls (rt w)
  /\ exists id, timers (rt w') = timers (rt w) ++ [(id, TPoll e)].
Proof.
  unfold continue_polling, setTimeout. simpl. repeat split; eauto.
Qed.

Lemma poll_view (e : nat) (w : world) :
  let w' := poll e w in
  st w' = st w
  /\ envs (rt w') = envs (rt w)
  /\ timers (rt w') = timers (rt w)
  /\ ((pending (rt w') = pending (rt w) /\ calls (rt w') = calls (rt w))
      \/ (exists id, pending (rt w') = pending (rt w) ++ [(id, CPoll e)])
         /\ calls (rt w') =
            calls (rt w) ++ [stream_poll e (streamId (st w)) (lastLength (get_env e w))]).
Proof.
  open_all w. unfold poll. simpl.
  destruct (truthy strm); simpl; repeat (split; [reflexivity|]); eauto.
Qed.

Lemma on_poll_view (e : nat) (data : poll_data) (w : world) :
  let w' := on_poll e (Some data) w in
  List.length (envs (rt w')) = List.length (envs (rt w))
  /\ (forall e', e' <> e -> get_env e' w' = get_env e' w)
  /\ (lastLength (get_env e w') = lastLength (get_env e w)
      \/ delta data = true /\ lastLength (get_env e w') = text_length data)
  /\ (delta data = false -> get_env e w' = get_env e w)
  /\ alerts (rt w') = alerts (rt w)
  /\ if done data then
       isStreaming (st w') = false
       /\ streamId (st w') = None
       /\ (exists id, pending (rt w') = pending (rt w) ++ [(id, CSuggest)])
       /\ (exists q a, calls (rt w') = calls (rt w) ++ [get_suggestions q a])
       /\ timers (rt w') = timers (rt w)
     else
       isStreaming (st w') = isStreaming (st w)
       /\ streamId (st w') = streamId (st w)
       /\ pending (rt w') = pending (rt w)
       /\ calls (rt w') = calls (rt w)
       /\ exists id, timers (rt w') = timers (rt w) ++ [(id, TPoll e)].
Proof.
  unfold on_poll. cbv zeta.
  set (w1 := show_tool_status data w).
  assert (C1 : core w1 = core w) by apply show_tool_status_core.
  pose proof (core_same e _ _ C1) as S1.
  destruct (append_new_text_view e data w1) as (S2 & Hid & HL).
  set (w2 := append_new_text e data w1) in *.
  pose proof (same_trans e w w1 w2 S1 S2) as S.
  destruct S as (A1 & A2 & A3 & A4 & A5 & A6 & A7 & A8).
  assert (G : forall x, envs (rt x) = envs (rt w2) -> get_env e x = get_env e w2)
    by (intros x Hx; unfold get_env; rewrite Hx; reflexivity).
  assert (G' : forall x e', envs (rt x) = envs (rt w2) -> get_env e' x = get_env e' w2)
    by (intros x e' Hx; unfold get_env; rewrite Hx; reflexivity).
  assert (HL' : lastLength (get_env e w2) = lastLength (get_env e w)
                \/ delta data = true /\ lastLength (get_env e w2) = text_length data).
  { rewrite <- (get_env_core e _ _ C1). exact HL. }
  assert (Hid' : delta data = false -> get_env e w2 = get_env e w).
  { intros Hd. rewrite (Hid Hd). apply get_env_core, C1. }
  destruct (done data).
  - destruct (stream_done_view e data w2) as (B1 & B2 & B3 & B4 & B5 & B6).
    rewrite B3, (G _ B3), B6.
    split; [exact A7|]. split; [intros e' He; rewrite (G' _ e' B3); auto|].
    split; [exact HL'|]. split; [exact Hid'|].
    split.
    { unfold stream_done, refresh_suggestions, loadSuggestions. simpl.
      assert (C : core (settle_message e data (removeTyping w2)) = core w2).
      { rewrite settle_message_core. apply core_removeTyping. }
      unfold core in C. injection C as _ _ R. rewrite R. exact A6. }
    split; [exact B1|]. split; [exact B2|].
    split; [destruct B4 as [id B4]; exists id; rewrite B4, A3; reflexivity|].
    split; [destruct B5 as (q & a & B5); exists q, a; rewrite B5, A5; reflexivity|].
    exact A4.
  - destruct (continue_polling_view e w2) as (B1 & B2 & B3 & B4 & B5 & B6).
    rewrite B3, (G _ B3), B1, B2, B4, B5.
    split; [exact A7|]. split; [intros e' He; rewrite (G' _ e' B3); auto|].
    split; [exact HL'|]. split; [exact Hid'|].
    split; [unfold continue_polling, setTimeout; simpl; exact A6|].
    split; [exact A1|]. split; [exact A2|]. split; [exact A3|]. split; [exact A5|].
    destruct B6 as [id B6]. exists id. rewrite B6, A4. reflexivity.
Qed.

Lemma sendMessage_view (w : world) :
  let w' := sendMessage w in
  w' = w
  \/ (isStreaming (st w) = false
      /\ isStreaming (st w') = true
      /\ streamId (st w') = streamId (st w)
      /\ envs (rt w') = envs (rt w)
      /\ timers (rt w') = timers (rt w)
      /\ (exists id, pending (rt w') = pending (rt w) ++ [(id, CStart)])
      /\ exists m s, calls (rt w') = calls (rt w) ++ [chat_start m s]).
Proof.
  unfold sendMessage.
  destruct (negb (nonempty (trim (input_value (ui w))))); simpl; [left; reflexivity|].
  destruct (isStreaming (st w)) eqn:E; [left; reflexivity|].
  right. open_all w. unfold showTyping, removeTyping, addMessage, issue.
  destruct ti; simpl; repeat split; eauto.
Qed.

Lemma on_chat_start_view (r : option start_data) (w : world) :
  let w' := on_chat_start r w in
  (exists m, w' = finishStreaming m w)
  \/ (isStreaming (st w') = false
      /\ streamId (st w') = streamId (st w)
      /\ rt w' = rt w)
  \/ (isStreaming (st w') = isStreaming (st w)
      /\ envs (rt w') = envs (rt w) ++ [Env (Some 0%N) None]
      /\ timers (rt w') = timers (rt w)
      /\ ((pending (rt w') = pending (rt w) /\ calls (rt w') = calls (rt w))
          \/ (exists id, pending (rt w') =
                         pending (rt w) ++ [(id, CPoll (List.length (envs (rt w))))])
             /\ calls (rt w') =
                calls (rt w) ++ [stream_poll (List.length (envs (rt w)))
                                             (streamId (st w')) (Some 0%N)])).
Proof.
  unfold on_chat_start. destruct r as [data|]; [|left; eauto].
  destruct (needs_clarification data).
  { right; left. open_all w.
    unfold removeTyping, addMessage, showClarificationChips.
    destruct ti, (clarification_options data); simpl; auto. }
  destruct (budget_exceeded data); [left; eauto|].
  destruct (truthy (start_error data)); [left; eauto|].
  right; right. open_all w. unfold startPolling, poll. simpl.
  destruct (truthy (stream_id_of data)); simpl.
  - repeat (split; [reflexivity|]). right. split; [eauto|].
    unfold get_env. simpl. rewrite nth_middle. reflexivity.
  - repeat (split; [reflexivity|]). left. auto.
Qed.

Lemma sent_app (e : nat) (a b : list request) :
  sent e (a ++ b) = sent e a ++ sent e b.
Proof. unfold sent. apply flat_map_app. Qed.

Lemma fewer_refl (p : list (nat * call)) : fewer_calls p p.
Proof. split; auto. Qed.

Lemma fewer_drop (id : nat) (p : list (nat * call)) : fewer_calls p (drop id p).
Proof.
  split; [apply count_drop_le|]. intros i c H _. exact (in_drop _ _ _ H).
Qed.

Lemma fewer_suggest (id : nat) (p : list (nat * call)) (c : call) :
  in_flight_call (id, c) = false -> fewer_calls p (p ++ [(id, c)]).
Proof.
  intros Hc. split.
  - rewrite filter_app, length_app. simpl. rewrite Hc. simpl. lia.
  - intros i c' H Hf. apply in_app_or in H. destruct H as [H|[H|[]]]; [exact H|].
    inversion H; subst. congruence.
Qed.

Lemma calmer_refl (w : world) : calmer w w.
Proof.
  unfold calmer. repeat split; auto.
Qed.

Lemma calmer_trans (w1 w2 w3 : world) : calmer w1 w2 -> calmer w2 w3 -> calmer w1 w3.
Proof.
  unfold calmer, fewer_calls, quieter.
  intros (A1 & A2 & A3 & A4 & [A5 A5'] & [A6 A6']) (B1 & B2 & B3 & B4 & [B5 B5'] & [B6 B6']).
  repeat split; try congruence; try lia; eauto.
Qed.

Lemma calmer_core (w w' : world) : core w' = core w -> calmer w w'.
Proof.
  unfold core. intros H. injection H as H1 H2 H3.
  unfold calmer. rewrite H1, H2, H3. repeat split; auto.
Qed.

Lemma calmer_loadSuggestions (q a : text) (w : world) :
  calmer w (loadSuggestions q a w).
Proof.
  unfold calmer, loadSuggestions, issue. simpl.
  (split; [reflexivity|]); (split; [reflexivity|]); (split; [reflexivity|]). split; [|split; [|apply quieter_refl]].
  - intros e. rewrite sent_app. simpl. apply app_nil_r.
  - apply fewer_suggest. reflexivity.
Qed.

Lemma calmer_startNewChat (w : world) : calmer w (startNewChat w).
Proof.
  unfold startNewChat. cbv zeta.
  eapply calmer_trans; [|apply calmer_loadSuggestions].
  open_all w. unfold calmer, showWelcome, notify. simpl.
  destruct (truthy sid); simpl;
    (split; [reflexivity|]); (split; [reflexivity|]); (split; [reflexivity|]);
    (split; [|split; [apply fewer_refl | apply quieter_refl]]); intros e;
    rewrite ?sent_app; simpl; rewrite ?app_nil_r; reflexivity.
Qed.

Lemma core_on_session_fold (msgs : list message) (w : world) :
  core (fold_left (fun w m => snd (addMessage (msg_role m) (msg_content m) w)) msgs w)
  = core w.
Proof.
  revert w. induction msgs as [|m t IH]; intros w; simpl; [reflexivity|].
  rewrite IH. reflexivity.
Qed.

Lemma calmer_on_session (r : option (list message)) (w : world) :
  calmer w (on_session r w).
Proof.
  apply calmer_core. unfold on_session. destruct r as [msgs|]; [|reflexivity].
  rewrite core_on_session_fold. reflexivity.
Qed.

Lemma calmer_on_suggestions (r : option (list suggestion)) (w : world) :
  calmer w (on_suggestions r w).
Proof.
  apply calmer_core. unfold on_suggestions, renderSuggestions.
  destruct r as [[|x l]|]; reflexivity.
Qed.

Lemma calmer_answered (id : nat) (w : world) :
  calmer w (upd_rt (fun x => set_pending (drop id (pending x)) x) w).
Proof.
  unfold calmer. simpl. (split; [reflexivity|]); (split; [reflexivity|]); (split; [reflexivity|]).
  split; [intros e; reflexivity|].
  split; [apply fewer_drop | apply quieter_refl].
Qed.

Lemma calmer_expired (id : nat) (w : world) : calmer w (expired id w).
Proof.
  unfold calmer, expired. simpl. (split; [reflexivity|]); (split; [reflexivity|]); (split; [reflexivity|]).
  split; [intros e; reflexivity|].
  split; [apply fewer_refl | apply quieter_drop].
Qed.

(** *** The gate invariant *)

(** From here on the handlers are used through their views. *)
Arguments finishStreaming : simpl never.
Arguments on_poll : simpl never.
Arguments on_chat_start : simpl never.
Arguments sendMessage : simpl never.
Arguments poll : simpl never.
Arguments startNewChat : simpl never.
Arguments loadSuggestions : simpl never.
Arguments on_session : simpl never.
Arguments on_suggestions : simpl never.

Lemma count_calls_app (p : list (nat * call)) (id : nat) (c : call) :
  List.length (filter in_flight_call (p ++ [(id, c)])) =
  List.length (filter in_flight_call p)
  + match c with CStart | CPoll _ => 1 | _ => 0 end.
Proof. rewrite filter_app, length_app. destruct c; reflexivity. Qed.

Lemma count_timers_app (t : list (nat * timer)) (id : nat) (k : timer) :
  List.length (filter in_flight_timer (t ++ [(id, k)])) =
  List.length (filter in_flight_timer t)
  + match k with TPoll _ => 1 | THide => 0 end.
Proof. rewrite filter_app, length_app. destruct k; reflexivity. Qed.

Ltac count_in_flight :=
  rewrite ?count_calls_app, ?count_timers_app; cbv beta iota; lia.

Lemma awaits_start_in (p : list (nat * call)) :
  existsb awaits_start p = true -> exists id, In (id, CStart) p.
Proof.
  intros H. apply existsb_exists in H. destruct H as [[id c] [Hin Hc]].
  unfold awaits_start in Hc. simpl in Hc. destruct c; try discriminate.
  exists id. exact Hin.
Qed.

Lemma in_awaits_start (p : list (nat * call)) (id : nat) :
  In (id, CStart) p -> existsb awaits_start p = true.
Proof.
  intros H. apply existsb_exists. exists (id, CStart). split; [exact H | reflexivity].
Qed.

Lemma calmer_gate_inv (w w' : world) : calmer w w' -> gate_inv w -> gate_inv w'.
Proof.
  unfold calmer, gate_inv, in_flight, fewer_calls, quieter.
  intros (A1 & A2 & A3 & A4 & [A5 A5'] & [A6 A6']) (G1 & G2 & G3).
  split; [lia|]. split.
  - intros H. rewrite A1 in H. destruct (G2 H) as [H1 H2].
    split; [congruence | lia].
  - intros H. rewrite A2. apply G3.
    apply awaits_start_in in H. destruct H as [id H].
    apply (in_awaits_start _ id). apply A5'; [exact H | reflexivity].
Qed.

Lemma gate_inv_idle (w : world) :
  in_flight w = 0 -> streamId (st w) = None -> gate_inv w.
Proof.
  intros H0 Hs. unfold gate_inv. split; [lia|]. split; auto.
Qed.

Lemma finishStreaming_idle (m : text) (w : world) :
  in_flight w = 0 -> gate_inv (finishStreaming m w).
Proof.
  intros H0. destruct (finishStreaming_view m w) as (B1 & B2 & B3 & [id B4] & B5 & [B6 B6']).
  apply gate_inv_idle; [|exact B2].
  unfold in_flight in *. rewrite B4. count_in_flight.
Qed.

Lemma gate_inv_busy (w : world) :
  isStreaming (st w) = true ->
  in_flight w <= 1 ->
  existsb awaits_start (pending (rt w)) = false ->
  gate_inv w.
Proof.
  intros Hs H1 Ha. unfold gate_inv. split; [exact H1|]. split.
  - intros H. congruence.
  - intros H. congruence.
Qed.

Lemma existsb_awaits_poll (p : list (nat * call)) (id e : nat) :
  existsb awaits_start (p ++ [(id, CPoll e)]) = existsb awaits_start p.
Proof. rewrite existsb_app. simpl. apply orb_false_r. Qed.

Lemma poll_gate_inv (e : nat) (w : world) :
  in_flight w = 0 -> isStreaming (st w) = true -> gate_inv (poll e w).
Proof.
  intros H0 Hs. destruct (poll_view e w) as (B1 & B2 & B3 & B4).
  assert (Ha : existsb awaits_start (pending (rt w)) = false).
  { apply none_in_flight. unfold in_flight in H0. lia. }
  apply gate_inv_busy.
  - rewrite B1. exact Hs.
  - unfold in_flight in *. rewrite B3.
    destruct B4 as [[B4 _]|[[id B4] _]]; rewrite B4; [lia|].
    count_in_flight.
  - destruct B4 as [[B4 _]|[[id B4] _]]; rewrite B4; [exact Ha|].
    rewrite existsb_awaits_poll. exact Ha.
Qed.

Lemma sendMessage_gate_inv (w : world) : gate_inv w -> gate_inv (sendMessage w).
Proof.
  intros G. destruct (sendMessage_view w) as [E | (A1 & A2 & A3 & A4 & A5 & [id A6] & A7)].
  - rewrite E. exact G.
  - destruct G as (G1 & G2 & G3). destruct (G2 A1) as [Hs H0].
    unfold gate_inv, in_flight in *. rewrite A5, A6, A3, A2.
    split; [count_in_flight|]. split; [discriminate | auto].
Qed.

Lemma answer_spec (id : nat) (w : world) (c : call) (w0 : world) :
  answer id w = Some (c, w0) ->
  lookup id (pending (rt w)) = Some c
  /\ w0 = upd_rt (fun x => set_pending (drop id (pending x)) x) w.
Proof.
  unfold answer. destruct (lookup id (pending (rt w))) as [c'|]; [|discriminate].
  intros H. inversion H; subst. auto.
Qed.

Lemma answered_in_flight (id : nat) (c : call) (w : world) :
  gate_inv w ->
  lookup id (pending (rt w)) = Some c ->
  in_flight_call (id, c) = true ->
  let w0 := upd_rt (fun x => set_pending (drop id (pending x)) x) w in
  in_flight w0 = 0
  /\ isStreaming (st w0) = true
  /\ (c = CStart -> streamId (st w0) = None).
Proof.
  intros (G1 & G2 & G3) Hl Hc w0.
  pose proof (count_drop_lt in_flight_call id (pending (rt w)) c Hl Hc) as Hlt.
  assert (H0 : in_flight w0 = 0) by (unfold in_flight in *; simpl; lia).
  split; [exact H0|]. split.
  - simpl. destruct (isStreaming (st w)) eqn:E; [reflexivity|].
    destruct (G2 eq_refl) as [_ Hz]. unfold in_flight in Hz. lia.
  - intros ->. simpl. apply G3. apply (in_awaits_start _ id).
    apply lookup_in. exact Hl.
Qed.

Lemma on_chat_start_gate_inv (r : option start_data) (w : world) :
  in_flight w = 0 -> isStreaming (st w) = true -> streamId (st w) = None ->
  gate_inv (on_chat_start r w).
Proof.
  intros H0 Hs Hn.
  assert (Ha : existsb awaits_start (pending (rt w)) = false).
  { apply none_in_flight. unfold in_flight in H0. lia. }
  destruct (on_chat_start_view r w)
    as [[m E] | [(B1 & B2 & B3) | (B1 & B2 & B3 & B4)]].
  - rewrite E. apply finishStreaming_idle. exact H0.
  - apply gate_inv_idle; [|congruence].
    unfold in_flight in *. rewrite B3. exact H0.
  - apply gate_inv_busy.
    + congruence.
    + unfold in_flight in *. rewrite B3.
      destruct B4 as [[B4 _]|[[id B4] _]]; rewrite B4; [lia|].
      count_in_flight.
    + destruct B4 as [[B4 _]|[[id B4] _]]; rewrite B4; [exact Ha|].
      rewrite existsb_awaits_poll. exact Ha.
Qed.

Lemma on_poll_gate_inv (e : nat) (r : option poll_data) (w : world) :
  in_flight w = 0 -> isStreaming (st w) = true -> gate_inv (on_poll e r w).
Proof.
  intros H0 Hs.
  assert (Ha : existsb awaits_start (pending (rt w)) = false).
  { apply none_in_flight. unfold in_flight in H0. lia. }
  destruct r as [data|]; [|apply finishStreaming_idle; exact H0].
  destruct (on_poll_view e data w) as (_ & _ & _ & _ & _ & V).
  destruct (done data).
  - destruct V as (B1 & B2 & [id B3] & B4 & B5).
    apply gate_inv_idle; [|exact B2].
    unfold in_flight in *. rewrite B3, B5. count_in_flight.
  - destruct V as (B1 & B2 & B3 & B4 & [id B5]).
    apply gate_inv_busy.
    + congruence.
    + unfold in_flight in *. rewrite B3, B5. count_in_flight.
    + rewrite B3. exact Ha.
Qed.

Lemma step_gate_inv (w : world) (ev : event) (w' : world) :
  gate_inv w -> step w ev = Some w' -> gate_inv w'.
Proof.
  intros G H. destruct ev; simpl in H.
  - (* Edit *) inversion H; subst. eapply calmer_gate_inv; [|exact G].
    apply calmer_core. reflexivity.
  - (* Submit *) inversion H; subst. apply sendMessage_gate_inv. exact G.
  - (* ClickChip *)
    destruct (nth_error (suggestions (ui w)) n); [|discriminate].
    inversion H; subst. unfold click_chip. apply sendMessage_gate_inv.
    eapply calmer_gate_inv; [|exact G]. apply calmer_core. reflexivity.
  - (* NewChat *) inversion H; subst.
    eapply calmer_gate_inv; [apply calmer_startNewChat | exact G].
  - (* ContextChange *) inversion H; subst.
    eapply calmer_gate_inv; [apply calmer_loadSuggestions | exact G].
  - (* StartReply *)
    destruct (answer id w) as [[c w0]|] eqn:A; [|discriminate].
    destruct c; try discriminate. inversion H; subst.
    apply answer_spec in A. destruct A as [Hl ->].
    destruct (answered_in_flight id CStart w G Hl eq_refl) as (H0 & Hs & Hn).
    apply on_chat_start_gate_inv; auto.
  - (* StartFail *)
    destruct (answer id w) as [[c w0]|] eqn:A; [|discriminate].
    destruct c; try discriminate. inversion H; subst.
    apply answer_spec in A. destruct A as [Hl ->].
    destruct (answered_in_flight id CStart w G Hl eq_refl) as (H0 & Hs & Hn).
    apply finishStreaming_idle. exact H0.
  - (* PollReply *)
    destruct (answer id w) as [[c w0]|] eqn:A; [|discriminate].
    destruct c; try discriminate. inversion H; subst.
    apply answer_spec in A. destruct A as [Hl ->].
    destruct (answered_in_flight id (CPoll loop) w G Hl eq_refl) as (H0 & Hs & Hn).
    apply on_poll_gate_inv; auto.
  - (* PollFail *)
    destruct (answer id w) as [[c w0]|] eqn:A; [|discriminate].
    destruct c; try discriminate. inversion H; subst.
    apply answer_spec in A. destruct A as [Hl ->].
    destruct (answered_in_flight id (CPoll loop) w G Hl eq_refl) as (H0 & Hs & Hn).
    apply finishStreaming_idle. exact H0.
  - (* SuggestReply *)
    destruct (answer id w) as [[c w0]|] eqn:A; [|discriminate].
    destruct c; try discriminate. inversion H; subst.
    apply answer_spec in A. destruct A as [Hl ->].
    eapply calmer_gate_inv; [apply calmer_on_suggestions|].
    eapply calmer_gate_inv; [apply calmer_answered | exact G].
  - (* SessionReply *)
    destruct (answer id w) as [[c w0]|] eqn:A; [|discriminate].
    destruct c; try discriminate. inversion H; subst.
    apply answer_spec in A. destruct A as [Hl ->].
    eapply calmer_gate_inv; [apply calmer_on_session|].
    eapply calmer_gate_inv; [apply calmer_answered | exact G].
  - (* Expire *)
    destruct (lookup id (timers (rt w))) as [[e|]|] eqn:L; [| |discriminate];
      inversion H; subst.
    + pose proof (count_drop_lt in_flight_timer id (timers (rt w)) (TPoll e) L eq_refl) as Hlt.
      destruct G as (G1 & G2 & G3).
      assert (H0 : in_flight (expired id w) = 0)
        by (unfold in_flight, expired in *; simpl; lia).
      apply poll_gate_inv; [exact H0|].
      simpl. destruct (isStreaming (st w)) eqn:E; [reflexivity|].
      destruct (G2 eq_refl) as [_ Hz]. unfold in_flight in Hz. lia.
    + eapply calmer_gate_inv; [|eapply calmer_gate_inv; [apply calmer_expired | exact G]].
      apply calmer_core. reflexivity.
Qed.

Lemma loadSuggestions_gate_inv (q a : text) (w : world) :
  gate_inv w -> gate_inv (loadSuggestions q a w).
Proof. apply calmer_gate_inv, calmer_loadSuggestions. Qed.

Lemma boot_gate_inv (active : text) (saved_open : bool) (saved_session : text) :
  gate_inv (boot active saved_open saved_session).
Proof.
  unfold boot. cbv zeta.
  set (w1 := showWelcome _).
  assert (G1 : gate_inv w1).
  { apply gate_inv_idle; reflexivity. }
  set (w2 := if saved_open then updateContext w1 else w1).
  assert (G2 : gate_inv w2).
  { subst w2. destruct saved_open; [apply loadSuggestions_gate_inv|]; exact G1. }
  set (w3 := if truthy saved_session && negb (truthy (sessionId (st w2)))
             then upd_st (set_sessionId saved_session) w2 else w2).
  assert (G3 : gate_inv w3).
  { subst w3.
    destruct (truthy saved_session && negb (truthy (sessionId (st w2)))); [|exact G2].
    eapply calmer_gate_inv; [|exact G2]. apply calmer_core. reflexivity. }
  set (w4 := loadSuggestions None None w3).
  assert (G4 : gate_inv w4) by (apply loadSuggestions_gate_inv; exact G3).
  destruct (truthy (sessionId (st w4))); [|exact G4].
  eapply calmer_gate_inv; [|exact G4].
  unfold calmer, loadSession, issue. simpl.
  (split; [reflexivity|]); (split; [reflexivity|]); (split; [reflexivity|]).
  split; [|split; [|apply quieter_refl]].
  - intros e. rewrite sent_app. simpl. apply app_nil_r.
  - apply fewer_suggest. reflexivity.
Qed.

Lemma run_gate_inv (evs : list event) (w w' : world) :
  gate_inv w -> run_events w evs = Some w' -> gate_inv w'.
Proof.
  revert w. induction evs as [|ev rest IH]; intros w G H; simpl in H.
  - inversion H; subst. exact G.
  - destruct (step w ev) as [w1|] eqn:S; [|discriminate].
    apply (IH w1); [|exact H]. exact (step_gate_inv w ev w1 G S).
Qed.

(** *** The ends of a turn, and a reply that is not one *)

Lemma send_removeTyping (w : world) :
  send_disabled (ui (removeTyping w)) = send_disabled (ui w).
Proof. unfold removeTyping. destruct (typingIndicator (ui w)); reflexivity. Qed.

Lemma send_show_tool_status (data : poll_data) (w : world) :
  send_disabled (ui (show_tool_status data w)) = send_disabled (ui w).
Proof.
  unfold show_tool_status, showTyping.
  destruct (truthy (tool_status data) && negb (done data)); [|reflexivity].
  simpl. apply send_removeTyping.
Qed.

Lemma send_set_html (b : option nat) (h : jsstring) (w : world) :
  send_disabled (ui (set_html b h w)) = send_disabled (ui w).
Proof. destruct b; reflexivity. Qed.

Lemma send_append_new_text (e : nat) (data : poll_data) (w : world) :
  send_disabled (ui (append_new_text e data w)) = send_disabled (ui w).
Proof.
  unfold append_new_text. destruct (delta data); [|reflexivity]. cbv zeta.
  cbn [set_env upd_rt ui]. rewrite send_set_html.
  destruct (assistantBubble (get_env e (removeTyping w)));
    [apply send_removeTyping|].
  cbn [addMessage set_env upd_rt upd_ui upd_st ui send_disabled set_children set_bubbles].
  apply send_removeTyping.
Qed.

(** A poll reply that is not done keeps the turn and arms the next poll. *)
Lemma on_poll_goes_on (e : nat) (data : poll_data) (w : world) :
  done data = false ->
  let w' := on_poll e (Some data) w in
  isStreaming (st w') = isStreaming (st w)
  /\ streamId (st w') = streamId (st w)
  /\ send_disabled (ui w') = send_disabled (ui w)
  /\ calls (rt w') = calls (rt w)
  /\ exists id, pollTimer (st w') = Some id /\ In (id, TPoll e) (timers (rt w')).
Proof.
  intros Hd w'. pose proof (on_poll_view e data w) as V. cbv zeta in V.
  rewrite Hd in V. destruct V as (_ & _ & _ & _ & _ & V1 & V2 & _ & V4 & _).
  subst w'. split; [exact V1|]. split; [exact V2|].
  split; [|split; [exact V4|]].
  - unfold on_poll. rewrite Hd. cbv zeta. unfold continue_polling, setTimeout.
    cbn [upd_st upd_rt ui fst snd].
    rewrite send_append_new_text. apply send_show_tool_status.
  - unfold on_poll. rewrite Hd. cbv zeta. unfold continue_polling, setTimeout.
    cbn [upd_st upd_rt st rt pollTimer set_pollTimer timers].
    eexists. split; [reflexivity|]. apply in_or_app. right. left. reflexivity.
Qed.

Lemma on_poll_done_ends (e : nat) (data : poll_data) (w : world) :
  done data = true -> turn_ended w (on_poll e (Some data) w).
Proof.
  intros Hd. pose proof (on_poll_view e data w) as V. cbv zeta in V.
  rewrite Hd in V. destruct V as (_ & _ & _ & _ & _ & V1 & V2 & _ & V4 & _).
  split; [exact V1|]. split; [exact V2|]. split; [|exact V4].
  unfold on_poll. rewrite Hd. cbv zeta. reflexivity.
Qed.

(** C8, as the code has it. Every error path that ends a turn (a submit
    reply without a body, a failed submit, an exceeded budget, a reply
    with an error, a failed poll, a poll reply without a body, and a poll
    reply that is done, with an error or without) leaves the streaming
    flag cleared, the stream handle null, the send button enabled, and
    has requested fresh suggestions. A poll reply that has a body and is
    not done is no such path, whatever its other fields: the flag, the
    handle, the send button and the requests sent stay as they are, and
    the next poll is armed. *)
Theorem error_paths_end_the_turn (w : world) :
  turn_ended w (on_chat_start None w)
  /\ (forall m, turn_ended w (on_chat_start_error m w))
  /\ (forall sid q opts err strm,
        turn_ended w (on_chat_start
                        (Some (StartData false sid q opts true err strm)) w))
  /\ (forall sid q opts c msg strm,
        turn_ended w (on_chat_start
                        (Some (StartData false sid q opts false
                                         (Some (c :: msg)) strm)) w))
  /\ turn_ended w (on_poll_error w)
  /\ (forall e, turn_ended w (on_poll e None w))
  /\ (forall e tool dl txt len err title,
        turn_ended w (on_poll e (Some (PollData tool dl txt len true err title)) w))
  /\ (forall e tool dl txt len err title,
        let w' := on_poll e (Some (PollData tool dl txt len false err title)) w in
        isStreaming (st w') = isStreaming (st w)
        /\ streamId (st w') = streamId (st w)
        /\ send_disabled (ui w') = send_disabled (ui w)
        /\ calls (rt w') = calls (rt w)
        /\ exists id, pollTimer (st w') = Some id
                      /\ In (id, TPoll e) (timers (rt w'))).
Proof.
  repeat (split; [intros; apply finishStreaming_ends|]).
  split; intros.
  - apply on_poll_done_ends. reflexivity.
  - apply on_poll_goes_on. reflexivity.
Qed.

(** The claim C8 as stated fails for a malformed poll body: a reply
    whose body has none of the fields does not end the turn. The flag
    and the handle stay, the send button stays disabled, no suggestions
    are requested, and the next poll is armed. *)
Lemma poll_body_without_fields_keeps_the_turn :
  let w := world_after (asked ++ [StartReply 2 (start_stream "s1" "sess1")]) in
  let w' := world_after (asked ++ [StartReply 2 (start_stream "s1" "sess1");
                                   PollReply 3 poll_body_without_fields]) in
  step w (PollReply 3 poll_body_without_fields) = Some w'
  /\ ~ turn_ended w w'
  /\ isStreaming (st w') = true
  /\ streamId (st w') = Some (lit "s1")
  /\ send_disabled (ui w') = true
  /\ calls (rt w') = calls (rt w)
  /\ timers (rt w') = [(4, TPoll 0)].
Proof.
  intros w w'.
  split; [vm_compute; reflexivity|].
  split; [intros (H & _); vm_compute in H; discriminate|].
  vm_compute. repeat split; reflexivity.
Qed.

(** *** The flag and the handle *)

Lemma pending_start_in_flight (id : nat) (w : world) :
  gate_inv w ->
  lookup id (pending (rt w)) = Some CStart ->
  isStreaming (st w) = true /\ streamId (st w) = None.
Proof.
  intros G L.
  destruct (answered_in_flight id CStart w G L eq_refl) as (_ & Hs & Hn).
  split; [exact Hs | exact (Hn eq_refl)].
Qed.

(** C10, as the code has it. In every world the widget can reach from
    its start, through any sequence of user actions, replies, failures
    and timers: when the stream handle is non-null the streaming flag is
    set. The two are not written together on the way in: [sendMessage]
    sets the flag and leaves the handle null; the handle is set later,
    by the [chat_start] callback, while the flag is set. On the way out,
    [finishStreaming] and the done block of [poll] clear both in one
    block; the clarification exit clears the flag alone, the handle
    being null then. *)
Theorem handle_implies_gate_closed
    (active : text) (saved_open : bool) (saved_session : text)
    (evs : list event) (w : world) :
  run_events (boot active saved_open saved_session) evs = Some w ->
  (streamId (st w) <> None -> isStreaming (st w) = true)
  /\ (nonempty (trim (input_value (ui w))) = true ->
      isStreaming (st w) = false ->
      isStreaming (st (sendMessage w)) = true
      /\ streamId (st (sendMessage w)) = None)
  /\ (forall id data w',
        step w (StartReply id (Some data)) = Some w' ->
        classification (Replied (Some data)) = Streaming ->
        isStreaming (st w) = true /\ streamId (st w) = None
        /\ isStreaming (st w') = true /\ streamId (st w') = stream_id_of data)
  /\ (forall id data w',
        step w (StartReply id (Some data)) = Some w' ->
        needs_clarification data = true ->
        streamId (st w) = None
        /\ isStreaming (st w') = false /\ streamId (st w') = None)
  /\ (forall m, isStreaming (st (finishStreaming m w)) = false
                /\ streamId (st (finishStreaming m w)) = None)
  /\ (forall e tool dl txt len err title,
        let w' := on_poll e (Some (PollData tool dl txt len true err title)) w in
        isStreaming (st w') = false /\ streamId (st w') = None).
Proof.
  intros H.
  pose proof (run_gate_inv evs _ w (boot_gate_inv active saved_open saved_session) H)
    as G.
  assert (St : forall id r w', step w (StartReply id r) = Some w' ->
               isStreaming (st w) = true /\ streamId (st w) = None
               /\ w' = on_chat_start r
                         (upd_rt (fun x => set_pending (drop id (pending x)) x) w)).
  { intros id r w' S. simpl in S.
    destruct (answer id w) as [[c w0]|] eqn:A; [|discriminate].
    destruct c; try discriminate. inversion S; subst.
    apply answer_spec in A. destruct A as [Hl ->].
    destruct (pending_start_in_flight id w G Hl) as [Hs Hn]. auto. }
  split; [|split; [|split; [|split; [|split]]]].
  - intros Hs. destruct G as (_ & G2 & _).
    destruct (isStreaming (st w)) eqn:E; [reflexivity|].
    destruct (G2 eq_refl) as [Hn _]. contradiction.
  - intros Hi Hs. destruct G as (_ & G2 & _). destruct (G2 Hs) as [Hn _].
    destruct (sendMessage_view w) as [E | (_ & A2 & A3 & _)].
    + exfalso. unfold sendMessage in E. rewrite Hi, Hs in E. simpl in E.
      apply (f_equal (fun x => isStreaming (st x))) in E.
      rewrite Hs in E. revert E. clear. open_all w.
      unfold showTyping, removeTyping, addMessage, issue.
      destruct ti; simpl; discriminate.
    + split; [exact A2 | rewrite A3; exact Hn].
  - intros id data w' S Hc. destruct (St id _ w' S) as (Hs & Hn & ->).
    split; [exact Hs|]. split; [exact Hn|].
    simpl in Hc. unfold on_chat_start.
    destruct (needs_clarification data); [discriminate|].
    destruct (budget_exceeded data); [discriminate|].
    destruct (truthy (start_error data)); [discriminate|].
    cbv zeta.
    match goal with
    | |- isStreaming (st (startPolling ?x)) = _ /\ _ =>
        assert (E : st (startPolling x) = st x)
    end.
    { unfold startPolling. cbv zeta.
      match goal with |- st (poll ?e ?y) = _ => destruct (poll_view e y) as (P & _) end.
      rewrite P. reflexivity. }
    rewrite E. simpl. split; [exact Hs | reflexivity].
  - intros id data w' S Hc. destruct (St id _ w' S) as (Hs & Hn & ->).
    split; [exact Hn|].
    destruct (clarification_outcome_shows data
                (upd_rt (fun x => set_pending (drop id (pending x)) x) w) Hc)
      as (_ & _ & _ & Hf & _).
    split; [exact Hf|].
    destruct (on_chat_start_view (Some data)
                (upd_rt (fun x => set_pending (drop id (pending x)) x) w))
      as [[m E] | [(B1 & B2 & B3) | (B1 & _)]].
    + rewrite E. apply finishStreaming_view.
    + rewrite B2. exact Hn.
    + rewrite Hf in B1. simpl in B1. rewrite Hs in B1. discriminate.
  - intros m. destruct (finishStreaming_view m w) as (B1 & B2 & _). auto.
  - intros e tool dl txt len err title w'.
    destruct (on_poll_done_ends e (PollData tool dl txt len true err title) w eq_refl)
      as (B1 & B2 & _). auto.
Qed.

Lemma handle_implies_gate_closed_witness :
  exists w, run_events (boot None false None) streaming_A = Some w
            /\ streamId (st w) = Some (lit "s1")
            /\ isStreaming (st w) = true.
Proof.
  exists (world_after streaming_A).
  assert (H : run_events (boot None false None) streaming_A
              = Some (world_after streaming_A)) by (vm_compute; reflexivity).
  split; [exact H|]. split; [vm_compute; reflexivity|].
  destruct (handle_implies_gate_closed None false None streaming_A _ H) as (G & _).
  apply G. vm_compute. discriminate.
Defined.

(** The claim C10 as stated fails: the flag and the handle are not set
    together. After a submission the flag is set and the handle is null
    until the reply arrives; and a reply that asks for a clarification
    clears the flag without writing the handle. *)
Lemma flag_is_set_before_the_handle :
  let w := world_after asked in
  let w' := world_after (asked ++ [StartReply 2 clarifying_reply]) in
  run_events (boot None false None) asked = Some w
  /\ isStreaming (st w) = true
  /\ streamId (st w) = None
  /\ ~ set_together w
  /\ step w (StartReply 2 clarifying_reply) = Some w'
  /\ isStreaming (st w') = false
  /\ streamId (st w') = streamId (st w).
Proof.
  intros w w'.
  split; [vm_compute; reflexivity|]. split; [vm_compute; reflexivity|].
  split; [vm_compute; reflexivity|].
  split.
  - intros [H _]. apply H; vm_compute; reflexivity.
  - split; [vm_compute; reflexivity|]. split; vm_compute; reflexivity.
Qed.

(** *** A reply that names no stream *)

Lemma calmer_stalled (w w' : world) :
  calmer w w' -> send_disabled (ui w') = send_disabled (ui w) ->
  stalled w -> stalled w'.
Proof.
  unfold calmer, stalled, in_flight, fewer_calls, quieter.
  intros (A1 & _ & _ & _ & [A5 _] & [A6 _]) Hd (S1 & S2 & S3).
  split; [congruence|]. split; [congruence | lia].
Qed.

Lemma stalled_awaits_nothing (w : world) :
  stalled w ->
  (forall id c, lookup id (pending (rt w)) = Some c -> in_flight_call (id, c) = false)
  /\ (forall id e, lookup id (timers (rt w)) <> Some (TPoll e)).
Proof.
  intros (_ & _ & S3). unfold in_flight in S3. split.
  - intros id c L. destruct (in_flight_call (id, c)) eqn:E; [|reflexivity].
    pose proof (count_drop_lt in_flight_call id _ c L E). lia.
  - intros id e L.
    pose proof (count_drop_lt in_flight_timer id _ (TPoll e) L eq_refl). lia.
Qed.

Lemma send_on_session_fold (msgs : list message) (w : world) :
  send_disabled
    (ui (fold_left (fun w m => snd (addMessage (msg_role m) (msg_content m) w)) msgs w))
  = send_disabled (ui w).
Proof.
  revert w. induction msgs as [|m t IH]; intros w; [reflexivity|].
  cbn [fold_left]. rewrite IH. reflexivity.
Qed.

Lemma step_stalled (w : world) (ev : event) (w' : world) :
  stalled w -> step w ev = Some w' -> stalled w'.
Proof.
  intros S H. pose proof (stalled_awaits_nothing w S) as [Np Nt].
  assert (Gate : forall x, isStreaming (st x) = true -> sendMessage x = x).
  { intros x Hx. apply sendMessage_gate_closed. right. exact Hx. }
  destruct ev; simpl in H.
  - inversion H; subst. exact S.
  - inversion H; subst. rewrite (Gate w (proj1 S)). exact S.
  - destruct (nth_error (suggestions (ui w)) n); [|discriminate].
    inversion H; subst. unfold click_chip. rewrite Gate; [exact S | exact (proj1 S)].
  - inversion H; subst.
    apply (calmer_stalled w); [apply calmer_startNewChat | | exact S].
    unfold startNewChat, loadSuggestions, showWelcome, notify.
    destruct (truthy (sessionId (st w))); reflexivity.
  - inversion H; subst.
    apply (calmer_stalled w); [apply calmer_loadSuggestions | reflexivity | exact S].
  - destruct (answer id w) as [[c w0]|] eqn:A; [|discriminate].
    destruct c; try discriminate.
    apply answer_spec in A. destruct A as [Hl _].
    specialize (Np _ _ Hl). discriminate.
  - destruct (answer id w) as [[c w0]|] eqn:A; [|discriminate].
    destruct c; try discriminate.
    apply answer_spec in A. destruct A as [Hl _].
    specialize (Np _ _ Hl). discriminate.
  - destruct (answer id w) as [[c w0]|] eqn:A; [|discriminate].
    destruct c; try discriminate.
    apply answer_spec in A. destruct A as [Hl _].
    specialize (Np _ _ Hl). discriminate.
  - destruct (answer id w) as [[c w0]|] eqn:A; [|discriminate].
    destruct c; try discriminate.
    apply answer_spec in A. destruct A as [Hl _].
    specialize (Np _ _ Hl). discriminate.
  - destruct (answer id w) as [[c w0]|] eqn:A; [|discriminate].
    destruct c; try discriminate. inversion H; subst.
    apply answer_spec in A. destruct A as [Hl ->].
    apply (calmer_stalled w); [|  | exact S].
    + eapply calmer_trans; [apply calmer_answered | apply calmer_on_suggestions].
    + unfold on_suggestions, renderSuggestions. destruct r as [[|x l]|]; reflexivity.
  - destruct (answer id w) as [[c w0]|] eqn:A; [|discriminate].
    destruct c; try discriminate. inversion H; subst.
    apply answer_spec in A. destruct A as [Hl ->].
    apply (calmer_stalled w); [|  | exact S].
    + eapply calmer_trans; [apply calmer_answered | apply calmer_on_session].
    + unfold on_session. destruct r as [msgs|]; [|reflexivity].
      rewrite send_on_session_fold. reflexivity.
  - destruct (lookup id (timers (rt w))) as [[e|]|] eqn:L; [| |discriminate].
    + exfalso. exact (Nt id e L).
    + inversion H; subst.
      apply (calmer_stalled w); [| reflexivity | exact S].
      eapply calmer_trans; [apply calmer_expired|]. apply calmer_core. reflexivity.
Qed.

Lemma run_stalled (evs : list event) (w w' : world) :
  stalled w -> run_events w evs = Some w' -> stalled w'.
Proof.
  revert w. induction evs as [|ev rest IH]; intros w S H; simpl in H.
  - inversion H; subst. exact S.
  - destruct (step w ev) as [w1|] eqn:E; [|discriminate].
    exact (IH w1 (step_stalled w ev w1 S E) H).
Qed.

(** C1. The code at a [chat_start] reply that has a body but names no
    stream: the missing identifier is adopted as the handle, the first
    poll finds no handle and sends nothing, so none of the three actions
    happens: no message, no error, no request. The turn is not ended
    either: the flag stays set and the send button disabled while
    nothing is awaited, and no later event changes that. *)
Theorem reply_without_stream_has_no_outcome :
  let w := world_after asked in
  let w' := world_after (asked ++ [StartReply 2 reply_without_stream]) in
  step w (StartReply 2 reply_without_stream) = Some w'
  /\ ~ exactly_one (clarification_shown w w') (error_surfaced w w')
                   (streaming_started w w')
  /\ messages (st w') = messages (st w)
  /\ alerts (rt w') = alerts (rt w)
  /\ calls (rt w') = calls (rt w)
  /\ isStreaming (st w') = true
  /\ send_disabled (ui w') = true
  /\ filter in_flight_call (pending (rt w')) = []
  /\ timers (rt w') = []
  /\ forall evs w'', run_events w' evs = Some w'' ->
       isStreaming (st w'') = true /\ send_disabled (ui w'') = true
       /\ in_flight w'' = 0.
Proof.
  intros w w'.
  assert (Hm : messages (st w') = messages (st w)) by (vm_compute; reflexivity).
  assert (Ha : alerts (rt w') = alerts (rt w)) by (vm_compute; reflexivity).
  assert (Hc : calls (rt w') = calls (rt w)) by (vm_compute; reflexivity).
  split; [vm_compute; reflexivity|].
  split.
  - intros [[[q Hq] _] | [[_ [[msg [Hmsg _]] _]] | [_ [_ [e He]]]]].
    + rewrite Hm in Hq. exact (app_one_neq _ _ Hq).
    + rewrite Ha in Hmsg. exact (app_one_neq _ _ Hmsg).
    + rewrite Hc in He. exact (app_one_neq _ _ He).
  - split; [exact Hm|]. split; [exact Ha|]. split; [exact Hc|].
    split; [vm_compute; reflexivity|]. split; [vm_compute; reflexivity|].
    split; [vm_compute; reflexivity|]. split; [vm_compute; reflexivity|].
    intros evs w'' R. apply (run_stalled evs w'); [|exact R].
    vm_compute. repeat split; reflexivity.
Qed.

(** *** A stream that ends with an error *)






(** *** The watermark invariant *)

Lemma climbs_raise (lo hi hi' : N) (l : list (option N)) :
  climbs lo hi l -> (hi <= hi')%N -> climbs lo hi' l.
Proof.
  revert lo. induction l as [|[n|] t IH]; simpl; intros lo H Hh.
  - lia.
  - destruct H as [H1 H2]. split; [exact H1 | exact (IH n H2 Hh)].
  - exact H.
Qed.

Lemma climbs_snoc (lo hi : N) (l : list (option N)) :
  climbs lo hi l -> climbs lo hi (l ++ [Some hi]).
Proof.
  revert lo. induction l as [|[n|] t IH]; simpl; intros lo H.
  - split; [exact H | lia].
  - destruct H as [H1 H2]. split; [exact H1 | exact (IH n H2)].
  - exact H.
Qed.

Lemma climbs_nondecreasing (lo hi : N) (l : list (option N)) :
  climbs lo hi l -> nondecreasing_from lo l.
Proof.
  revert lo. induction l as [|[n|] t IH]; simpl; intros lo H; auto.
  destruct H as [H1 H2]. split; [exact H1 | exact (IH n H2)].
Qed.

Lemma nondecreasing_lower (lo lo' : N) (l : list (option N)) :
  (lo' <= lo)%N -> nondecreasing_from lo l -> nondecreasing_from lo' l.
Proof.
  destruct l as [|[n|] t]; simpl; auto. intros H [H1 H2]. split; [lia | exact H2].
Qed.

Lemma watermark_calmer (e : nat) (w w' : world) :
  get_env e w' = get_env e w -> watermark e w' = watermark e w.
Proof. unfold watermark. intros ->. reflexivity. Qed.

Lemma loop_calmer_inv (e : nat) (w w' : world) :
  loop_calmer e w w' -> loop_inv e w -> loop_inv e w'.
Proof.
  unfold loop_calmer, loop_inv. intros (A1 & A2 & A3 & A4) (I1 & I2).
  rewrite (watermark_calmer e w w' A1), A1, A2.
  split; [exact I1|].
  destruct (sent e (calls (rt w))) as [|first t]; [|exact I2].
  destruct I2 as (J1 & J2 & J3). split; [exact J1|]. split.
  - intros id H. exact (J2 id (A3 id H)).
  - intros id H. exact (J3 id (A4 id H)).
Qed.

Lemma calmer_loop_calmer (e : nat) (w w' : world) : calmer w w' -> loop_calmer e w w'.
Proof.
  unfold calmer, loop_calmer, fewer_calls, quieter, get_env.
  intros (A1 & A2 & A3 & A4 & [A5 A5'] & [A6 A6']).
  rewrite A3. split; [reflexivity|]. split; [apply A4|]. split.
  - intros id H. apply A5'; [exact H | reflexivity].
  - intros id H. apply A6'. exact H.
Qed.

Lemma loop_calmer_trans (e : nat) (w1 w2 w3 : world) :
  loop_calmer e w1 w2 -> loop_calmer e w2 w3 -> loop_calmer e w1 w3.
Proof.
  unfold loop_calmer. intros (A1 & A2 & A3 & A4) (B1 & B2 & B3 & B4).
  split; [congruence|]. split; [congruence|]. split; eauto.
Qed.

Lemma in_snoc_other {A : Type} (l : list A) (x y : A) :
  In x (l ++ [y]) -> x <> y -> In x l.
Proof.
  intros H Hn. apply in_app_or in H. destruct H as [H|[H|[]]]; [exact H|].
  congruence.
Qed.

Lemma sendMessage_loop_calmer (e : nat) (w : world) :
  loop_calmer e w (sendMessage w).
Proof.
  destruct (sendMessage_view w) as [E | (A1 & A2 & A3 & A4 & A5 & [id A6] & (m & s & A7))].
  - rewrite E. apply calmer_loop_calmer, calmer_refl.
  - unfold loop_calmer, get_env. rewrite A4, A5, A6, A7, sent_app. simpl.
    rewrite app_nil_r. split; [reflexivity|]. split; [reflexivity|]. split; [|auto].
    intros i H. apply in_snoc_other in H; [exact H | discriminate].
Qed.

Lemma finishStreaming_loop_calmer (e : nat) (m : text) (w : world) :
  loop_calmer e w (finishStreaming m w).
Proof.
  destruct (finishStreaming_view m w) as (B1 & B2 & B3 & [id B4] & B5 & [B6 B6']).
  unfold loop_calmer, get_env. rewrite B3, B4, B5, sent_app. simpl.
  rewrite app_nil_r. split; [reflexivity|]. split; [reflexivity|]. split.
  - intros i H. apply in_snoc_other in H; [exact H | discriminate].
  - intros i H. exact (B6' i e H).
Qed.

(** A request of the loop [e] carries its watermark. *)
Lemma poll_loop_inv (e e' : nat) (w : world) :
  loop_inv e w -> loop_inv e (poll e' w) /\ get_env e (poll e' w) = get_env e w.
Proof.
  intros (I1 & I2).
  destruct (poll_view e' w) as (B1 & B2 & B3 & B4).
  assert (G : get_env e (poll e' w) = get_env e w)
    by (unfold get_env; rewrite B2; reflexivity).
  split; [|exact G].
  unfold loop_inv. rewrite (watermark_calmer e _ _ G), G, B3.
  split; [exact I1|].
  destruct B4 as [[B4 B5]|[[id B4] B5]]; rewrite B4, B5; [exact I2|].
  rewrite sent_app. simpl.
  destruct (Nat.eqb e' e) eqn:E.
  - apply Nat.eqb_eq in E. subst e'.
    destruct (lastLength (get_env e w)) as [cur|] eqn:L; [|contradiction].
    assert (W : watermark e w = cur) by (unfold watermark; rewrite L; reflexivity).
    destruct (sent e (calls (rt w))) as [|first t]; simpl.
    + destruct I2 as (J1 & _ & _). rewrite W in J1. subst cur.
      split; [reflexivity|]. rewrite W. simpl. lia.
    + destruct I2 as [J1 J2]. split; [exact J1|].
      rewrite W in *. apply climbs_snoc. exact J2.
  - rewrite app_nil_r.
    destruct (sent e (calls (rt w))) as [|first t]; [|exact I2].
    destruct I2 as (J1 & J2 & J3). split; [exact J1|]. split; [|exact J3].
    intros i H. apply in_snoc_other in H; [exact (J2 i H)|].
    intros Heq. inversion Heq; subst. rewrite Nat.eqb_refl in E. discriminate.
Qed.

Lemma nth_app_default (e : nat) (l : list poll_env) :
  nth e (l ++ [Env (Some 0%N) None]) (Env (Some 0%N) None)
  = nth e l (Env (Some 0%N) None).
Proof.
  destruct (Nat.lt_ge_cases e (List.length l)) as [L|L].
  - apply app_nth1. exact L.
  - rewrite (nth_overflow l _ L).
    destruct (Nat.eq_dec e (List.length l)) as [->|N].
    + apply nth_middle.
    + apply nth_overflow. rewrite length_app. simpl. lia.
Qed.

Lemma on_chat_start_loop_inv (e : nat) (r : option start_data) (w : world) :
  loop_inv e w ->
  loop_inv e (on_chat_start r w) /\ get_env e (on_chat_start r w) = get_env e w.
Proof.
  intros I.
  destruct (on_chat_start_view r w)
    as [[m E] | [(B1 & B2 & B3) | (B1 & B2 & B3 & B4)]].
  - rewrite E. pose proof (finishStreaming_loop_calmer e m w) as C.
    split; [exact (loop_calmer_inv e _ _ C I) | apply C].
  - assert (C : loop_calmer e w (on_chat_start r w)).
    { unfold loop_calmer, get_env. rewrite B3. auto. }
    split; [exact (loop_calmer_inv e _ _ C I) | apply C].
  - assert (G : get_env e (on_chat_start r w) = get_env e w).
    { unfold get_env. rewrite B2. apply nth_app_default. }
    split; [|exact G].
    destruct I as (I1 & I2).
    unfold loop_inv. rewrite (watermark_calmer e _ _ G), G, B3.
    split; [exact I1|].
    destruct B4 as [[B4 B5]|[[id B4] B5]]; rewrite B4, B5; [exact I2|].
    rewrite sent_app. simpl.
    destruct (Nat.eqb (List.length (envs (rt w))) e) eqn:E.
    + apply Nat.eqb_eq in E.
      assert (W : watermark e w = 0%N).
      { unfold watermark. rewrite get_env_beyond by lia. reflexivity. }
      rewrite W in *.
      destruct (sent e (calls (rt w))) as [|first t]; simpl.
      * split; [reflexivity | simpl; lia].
      * destruct I2 as [J1 J2]. split; [exact J1|].
        apply climbs_snoc. exact J2.
    + rewrite app_nil_r.
      destruct (sent e (calls (rt w))) as [|first t]; [|exact I2].
      destruct I2 as (J1 & J2 & J3). split; [exact J1|]. split; [|exact J3].
      intros i H. apply in_snoc_other in H; [exact (J2 i H)|].
      intros Heq. inversion Heq; subst. rewrite Nat.eqb_refl in E. discriminate.
Qed.

Lemma on_poll_loop_inv (e e0 : nat) (data : poll_data) (w : world) :
  loop_inv e w ->
  sent e (calls (rt w)) <> [] \/ e0 <> e ->
  let w' := on_poll e0 (Some data) w in
  if Nat.eqb e0 e && delta data then
    forall n, text_length data = Some n -> (watermark e w <= n)%N ->
              loop_inv e w' /\ (watermark e w' <= n)%N
  else loop_inv e w' /\ watermark e w' = watermark e w.
Proof.
  intros (I1 & I2) Hs w'. subst w'.
  destruct (on_poll_view e0 data w) as (V1 & V2 & V3 & V4 & V5 & V6).
  set (w' := on_poll e0 (Some data) w) in *.
  assert (Hsent : sent e (calls (rt w')) = sent e (calls (rt w))).
  { destruct (done data).
    - destruct V6 as (_ & _ & _ & (q & a & B) & _). rewrite B, sent_app. simpl.
      apply app_nil_r.
    - destruct V6 as (_ & _ & _ & B & _). rewrite B. reflexivity. }
  assert (Hpend : forall id, In (id, CPoll e) (pending (rt w')) ->
                             In (id, CPoll e) (pending (rt w))).
  { destruct (done data).
    - destruct V6 as (_ & _ & [i B] & _). rewrite B. intros id H.
      apply in_snoc_other in H; [exact H | discriminate].
    - destruct V6 as (_ & _ & B & _). rewrite B. auto. }
  assert (Htim : e0 <> e -> forall id, In (id, TPoll e) (timers (rt w')) ->
                                       In (id, TPoll e) (timers (rt w))).
  { intros Hne. destruct (done data).
    - destruct V6 as (_ & _ & _ & _ & B). rewrite B. auto.
    - destruct V6 as (_ & _ & _ & _ & [i B]). rewrite B. intros id H.
      apply in_snoc_other in H; [exact H|]. intros Heq. inversion Heq. congruence. }
  assert (Keep : get_env e w' = get_env e w -> sent e (calls (rt w)) <> [] \/ e0 <> e ->
                 loop_inv e w' /\ watermark e w' = watermark e w).
  { intros G Hs'. split; [|apply watermark_calmer; exact G].
    unfold loop_inv. rewrite (watermark_calmer e _ _ G), G, Hsent.
    split; [exact I1|].
    destruct (sent e (calls (rt w))) as [|first t]; [|exact I2].
    destruct Hs' as [Hs'|Hs']; [contradiction|].
    destruct I2 as (J1 & J2 & J3). split; [exact J1|]. split.
    - intros id H. exact (J2 id (Hpend id H)).
    - intros id H. exact (J3 id (Htim Hs' id H)). }
  destruct (Nat.eqb e0 e) eqn:E; simpl.
  - apply Nat.eqb_eq in E. subst e0.
    destruct (delta data) eqn:D.
    + intros n Hn Hle.
      destruct Hs as [Hs|Hs]; [|contradiction].
      destruct V3 as [V3|[_ V3]].
      * assert (W : watermark e w' = watermark e w)
          by (unfold watermark; rewrite V3; reflexivity).
        split; [|lia].
        unfold loop_inv. rewrite W, V3, Hsent. split; [exact I1|].
        destruct (sent e (calls (rt w))) as [|first t]; [contradiction | exact I2].
      * assert (W : watermark e w' = n)
          by (unfold watermark; rewrite V3, Hn; reflexivity).
        split; [|lia].
        unfold loop_inv. rewrite W, V3, Hn, Hsent. split; [discriminate|].
        destruct (sent e (calls (rt w))) as [|first t]; [contradiction|].
        destruct I2 as [J1 J2]. split; [exact J1|].
        apply (climbs_raise _ _ _ _ J2 Hle).
    + apply Keep; [apply V4; reflexivity | exact Hs].
  - apply Nat.eqb_neq in E.
    apply Keep; [apply V2; congruence | right; exact E].
Qed.

Lemma awaited_has_sent (e id : nat) (w : world) :
  loop_inv e w ->
  In (id, CPoll e) (pending (rt w)) \/ In (id, TPoll e) (timers (rt w)) ->
  sent e (calls (rt w)) <> [].
Proof.
  intros (I1 & I2) H Hs. rewrite Hs in I2. destruct I2 as (_ & J2 & J3).
  destruct H as [H|H]; [exact (J2 id H) | exact (J3 id H)].
Qed.

Lemma step_loop_inv (e : nat) (w : world) (ev : event) (w' : world) :
  loop_inv e w -> step w ev = Some w' ->
  match report e w ev with
  | [] => loop_inv e w' /\ watermark e w' = watermark e w
  | x :: _ => forall n, x = Some n -> (watermark e w <= n)%N ->
                        loop_inv e w' /\ (watermark e w' <= n)%N
  end.
Proof.
  intros I H.
  assert (Calm : forall x, loop_calmer e w x ->
                           loop_inv e x /\ watermark e x = watermark e w).
  { intros x C. split; [exact (loop_calmer_inv e w x C I)|].
    apply watermark_calmer. apply C. }
  destruct ev; simpl in H; try (simpl report).
  - (* Edit *) inversion H; subst. apply Calm, calmer_loop_calmer, calmer_core.
    reflexivity.
  - (* Submit *) inversion H; subst. apply Calm, sendMessage_loop_calmer.
  - (* ClickChip *)
    destruct (nth_error (suggestions (ui w)) n); [|discriminate].
    inversion H; subst. apply Calm. unfold click_chip.
    eapply loop_calmer_trans; [|apply sendMessage_loop_calmer].
    apply calmer_loop_calmer, calmer_core. reflexivity.
  - (* NewChat *) inversion H; subst.
    apply Calm, calmer_loop_calmer, calmer_startNewChat.
  - (* ContextChange *) inversion H; subst.
    apply Calm, calmer_loop_calmer, calmer_loadSuggestions.
  - (* StartReply *)
    destruct (answer id w) as [[c w0]|] eqn:A; [|discriminate].
    destruct c; try discriminate. inversion H; subst.
    apply answer_spec in A. destruct A as [Hl ->].
    destruct (Calm _ (calmer_loop_calmer e _ _ (calmer_answered id w))) as [I0 W0].
    destruct (on_chat_start_loop_inv e r _ I0) as [I1 G1].
    split; [exact I1|]. rewrite <- W0. apply watermark_calmer. exact G1.
  - (* StartFail *)
    destruct (answer id w) as [[c w0]|] eqn:A; [|discriminate].
    destruct c; try discriminate. inversion H; subst.
    apply answer_spec in A. destruct A as [Hl ->].
    apply Calm. eapply loop_calmer_trans;
      [apply calmer_loop_calmer, calmer_answered | apply finishStreaming_loop_calmer].
  - (* PollReply *)
    destruct (answer id w) as [[c w0]|] eqn:A; [|discriminate].
    destruct c as [|e0| |]; try discriminate. inversion H; subst.
    apply answer_spec in A. destruct A as [Hl ->].
    pose proof (calmer_loop_calmer e _ _ (calmer_answered id w)) as C0.
    destruct (Calm _ C0) as [I0 W0].
    unfold report. rewrite Hl.
    destruct r as [data|].
    + assert (Hs : sent e (calls (rt
                     (upd_rt (fun x => set_pending (drop id (pending x)) x) w))) <> []
                   \/ e0 <> e).
      { destruct (Nat.eq_dec e0 e) as [->|N]; [left|right; exact N].
        simpl. apply (awaited_has_sent e id w I). left. apply lookup_in. exact Hl. }
      pose proof (on_poll_loop_inv e e0 data _ I0 Hs) as P. cbv zeta in P.
      destruct (Nat.eqb e0 e && delta data).
      * intros n Hn Hle. apply P; [exact Hn | rewrite W0; exact Hle].
      * destruct P as [P1 P2]. split; [exact P1 | congruence].
    + apply Calm. eapply loop_calmer_trans; [exact C0|].
      apply finishStreaming_loop_calmer.
  - (* PollFail *)
    destruct (answer id w) as [[c w0]|] eqn:A; [|discriminate].
    destruct c; try discriminate. inversion H; subst.
    apply answer_spec in A. destruct A as [Hl ->].
    apply Calm. eapply loop_calmer_trans;
      [apply calmer_loop_calmer, calmer_answered | apply finishStreaming_loop_calmer].
  - (* SuggestReply *)
    destruct (answer id w) as [[c w0]|] eqn:A; [|discriminate].
    destruct c; try discriminate. inversion H; subst.
    apply answer_spec in A. destruct A as [Hl ->].
    apply Calm, calmer_loop_calmer.
    eapply calmer_trans; [apply calmer_answered | apply calmer_on_suggestions].
  - (* SessionReply *)
    destruct (answer id w) as [[c w0]|] eqn:A; [|discriminate].
    destruct c; try discriminate. inversion H; subst.
    apply answer_spec in A. destruct A as [Hl ->].
    apply Calm, calmer_loop_calmer.
    eapply calmer_trans; [apply calmer_answered | apply calmer_on_session].
  - (* Expire *)
    destruct (lookup id (timers (rt w))) as [[e0|]|] eqn:L; [| |discriminate];
      inversion H; subst.
    + destruct (Calm _ (calmer_loop_calmer e _ _ (calmer_expired id w))) as [I0 W0].
      destruct (poll_loop_inv e e0 _ I0) as [I1 G1].
      split; [exact I1|]. rewrite <- W0. apply watermark_calmer. exact G1.
    + apply Calm, calmer_loop_calmer.
      eapply calmer_trans; [apply calmer_expired|]. apply calmer_core. reflexivity.
Qed.

Lemma report_cases (e : nat) (w : world) (ev : event) :
  report e w ev = [] \/ exists x, report e w ev = [x].
Proof.
  unfold report. destruct ev; auto. destruct r as [data|]; auto.
  destruct (lookup id (pending (rt w))) as [[| e' | |]|]; auto.
  destruct (Nat.eqb e' e && delta data); eauto.
Qed.

Lemma run_loop_inv (e : nat) (evs : list event) (w w' : world) :
  loop_inv e w ->
  nondecreasing_from (watermark e w) (reports e w evs) ->
  run_events w evs = Some w' ->
  loop_inv e w'.
Proof.
  revert w. induction evs as [|ev rest IH]; intros w I Hr H; simpl in *.
  - inversion H; subst. exact I.
  - destruct (step w ev) as [w1|] eqn:S; [|discriminate].
    pose proof (step_loop_inv e w ev w1 I S) as P.
    destruct (report_cases e w ev) as [R|[x R]]; rewrite R in *; simpl in Hr.
    + destruct P as [I1 W1]. apply (IH w1 I1); [rewrite W1; exact Hr | exact H].
    + destruct x as [n|]; [|contradiction]. destruct Hr as [Hle Hr].
      destruct (P n eq_refl Hle) as [I1 W1].
      apply (IH w1 I1); [|exact H].
      exact (nondecreasing_lower n _ _ W1 Hr).
Qed.

Lemma boot_calmer (active : text) (saved_open : bool) (saved_session : text) :
  calmer blank (boot active saved_open saved_session).
Proof.
  unfold boot. cbv zeta.
  set (w1 := showWelcome _).
  assert (G1 : calmer blank w1) by (apply calmer_core; reflexivity).
  set (w2 := if saved_open then updateContext w1 else w1).
  assert (G2 : calmer blank w2).
  { subst w2. destruct saved_open; [|exact G1].
    eapply calmer_trans; [exact G1 | apply calmer_loadSuggestions]. }
  set (w3 := if truthy saved_session && negb (truthy (sessionId (st w2)))
             then upd_st (set_sessionId saved_session) w2 else w2).
  assert (G3 : calmer blank w3).
  { subst w3.
    destruct (truthy saved_session && negb (truthy (sessionId (st w2)))); [|exact G2].
    eapply calmer_trans; [exact G2|]. apply calmer_core. reflexivity. }
  set (w4 := loadSuggestions None None w3).
  assert (G4 : calmer blank w4)
    by (eapply calmer_trans; [exact G3 | apply calmer_loadSuggestions]).
  destruct (truthy (sessionId (st w4))); [|exact G4].
  eapply calmer_trans; [exact G4|].
  unfold calmer, loadSession, issue. simpl.
  (split; [reflexivity|]); (split; [reflexivity|]); (split; [reflexivity|]).
  split; [|split; [|apply quieter_refl]].
  - intros e. rewrite sent_app. simpl. apply app_nil_r.
  - apply fewer_suggest. reflexivity.
Qed.

Lemma boot_loop_inv (e : nat) (active : text) (saved_open : bool) (saved_session : text) :
  loop_inv e (boot active saved_open saved_session)
  /\ watermark e (boot active saved_open saved_session) = 0%N.
Proof.
  pose proof (calmer_loop_calmer e _ _ (boot_calmer active saved_open saved_session)) as C.
  assert (I : loop_inv e blank).
  { unfold loop_inv, watermark, get_env. simpl. destruct e; simpl;
      (split; [discriminate|]); repeat split; auto. }
  split; [exact (loop_calmer_inv e _ _ C I)|].
  rewrite (watermark_calmer e blank _ (proj1 C)).
  unfold watermark, get_env. simpl. destruct e; reflexivity.
Qed.

(** C5. Along any sequence of events from the widget's start, for every
    polling loop: when the lengths reported to it by replies with a truthy
    [delta] are numbers none of which is smaller than an earlier one, the
    [last_length] values the loop sends start at 0 and never decrease. *)
Theorem watermark_never_decreases
    (active : text) (saved_open : bool) (saved_session : text)
    (evs : list event) (w : world) (e : nat) :
  run_events (boot active saved_open saved_session) evs = Some w ->
  nondecreasing_from 0 (reports e (boot active saved_open saved_session) evs) ->
  watermark_ok (sent e (calls (rt w))).
Proof.
  intros H Hr.
  destruct (boot_loop_inv e active saved_open saved_session) as [I W].
  rewrite <- W in Hr.
  pose proof (run_loop_inv e evs _ w I Hr H) as (I1 & I2).
  unfold watermark_ok.
  destruct (sent e (calls (rt w))) as [|first t]; [exact Logic.I|].
  destruct I2 as [J1 J2]. split; [exact J1|].
  exact (climbs_nondecreasing _ _ _ J2).
Qed.

Lemma watermark_never_decreases_witness :
  nondecreasing_from 0 (reports 0 (boot None false None) scenario_A)
  /\ sent 0 (calls (rt (world_after scenario_A)))
     = [Some 0%N; Some 7%N; Some 23%N]
  /\ watermark_ok (sent 0 (calls (rt (world_after scenario_A)))).
Proof.
  assert (H : run_events (boot None false None) scenario_A
              = Some (world_after scenario_A)) by (vm_compute; reflexivity).
  assert (Hr : nondecreasing_from 0 (reports 0 (boot None false None) scenario_A)).
  { vm_compute. repeat split; discriminate. }
  split; [exact Hr|]. split; [vm_compute; reflexivity|].
  exact (watermark_never_decreases None false None scenario_A _ 0 H Hr).
Defined.

(** *** The renderer on plain text *)

#[local] Transparent renderMarkdown escapeHtml.

Lemma no_match_first (ml : bool) (r : regex) (q : char -> bool) :
  first_class r = Some q ->
  forall (x : mstate) (k : mstate -> option mstate),
    match ahead x with [] => True | c :: _ => q c = false end ->
    Regex.run ml r x k = None.
Proof.
  induction r as [|p|a IHa b IHb|a IHa b IHb|g a IHa|i a IHa| |];
    simpl; intros Hq x k Hx; try discriminate.
  - inversion Hq; subst. destruct (ahead x) as [|c t]; [reflexivity|].
    rewrite Hx. reflexivity.
  - destruct a; try discriminate;
      try (apply IHa; [exact Hq | exact Hx]).
    simpl. destruct (at_bol ml x); [|reflexivity]. apply IHb; [exact Hq | exact Hx].
  - apply IHa; [exact Hq | exact Hx].
Qed.

(** A pass whose pattern must begin with a unit the text does not
    contain leaves the text as it is. *)
Lemma replace_no_trigger (ml : bool) (r : regex) (f : found -> jsstring)
    (q : char -> bool) :
  first_class r = Some q ->
  forall (s before : jsstring),
    forallb (fun c => negb (q c)) s = true ->
    replace_from ml r f 0 before s = s.
Proof.
  intros Hq s. induction s as [|c t IH]; intros before Hs; simpl.
  - unfold match_here. rewrite (no_match_first ml r q Hq); [reflexivity | exact Logic.I].
  - simpl in Hs. apply andb_true_iff in Hs. destruct Hs as [Hc Ht].
    unfold match_here. rewrite (no_match_first ml r q Hq).
    + rewrite IH by exact Ht. reflexivity.
    + simpl. destruct (q c); [discriminate | reflexivity].
Qed.

(** A pass anchored at the start of a line leaves a single line as it
    is, when the line's first unit is not one the pattern begins with. *)
Lemma replace_anchored (r : regex) (f : found -> jsstring) (q : char -> bool) :
  first_class r = Some q ->
  forall (s before : jsstring),
    forallb (fun c => negb (is_line_terminator c)) s = true ->
    match before with
    | [] => match s with [] => True | c :: _ => q c = false end
    | c0 :: _ => is_line_terminator c0 = false
    end ->
    replace_from true (Seq Bol r) f 0 before s = s.
Proof.
  intros Hq s. induction s as [|c t IH]; intros before Hs Hb; simpl.
  - unfold match_here. simpl. destruct before as [|c0 b0]; simpl.
    + rewrite (no_match_first true r q Hq); [reflexivity | exact Logic.I].
    + unfold at_bol. simpl. rewrite Hb. reflexivity.
  - simpl in Hs. apply andb_true_iff in Hs. destruct Hs as [Hc Ht].
    apply negb_true_iff in Hc.
    assert (M : match_here true (Seq Bol r) before (c :: t) = None).
    { unfold match_here. simpl. destruct before as [|c0 b0]; simpl.
      - unfold at_bol. simpl. apply (no_match_first true r q Hq). exact Hb.
      - unfold at_bol. simpl. rewrite Hb. reflexivity. }
    rewrite M. rewrite IH; [reflexivity | exact Ht | exact Hc].
Qed.

Lemma quiet_parts (c : char) :
  quiet c = true ->
  char_eqb (C "`") c = false /\ char_eqb (C "|") c = false
  /\ char_eqb (C "*") c = false /\ char_eqb (C "[") c = false
  /\ char_eqb (C "<") c = false /\ char_eqb NL c = false
  /\ is_line_terminator c = false.
Proof.
  unfold quiet, calm. intros H.
  apply andb_true_iff in H. destruct H as [H1 H2].
  apply negb_true_iff in H1, H2.
  apply orb_false_iff in H1. destruct H1 as [H1 Hlt].
  apply orb_false_iff in H1. destruct H1 as [H1 Hbr].
  apply orb_false_iff in H1. destruct H1 as [H1 Hstar].
  apply orb_false_iff in H1. destruct H1 as [Hbt Hpipe].
  assert (Hnl : char_eqb c NL = false).
  { unfold is_line_terminator in Hlt.
    apply orb_false_iff in Hlt. destruct Hlt as [Hlt _].
    apply orb_false_iff in Hlt. destruct Hlt as [Hlt _].
    apply orb_false_iff in Hlt. destruct Hlt as [Hlt _]. exact Hlt. }
  unfold char_eqb in *.
  rewrite (N.eqb_sym (C "`") c), (N.eqb_sym (C "|") c), (N.eqb_sym (C "*") c),
    (N.eqb_sym (C "[") c), (N.eqb_sym (C "<") c), (N.eqb_sym NL c).
  repeat split; assumption.
Qed.

Lemma forallb_impl {A : Type} (p q : A -> bool) (l : list A) :
  (forall a, p a = true -> q a = true) -> forallb p l = true -> forallb q l = true.
Proof.
  intros H. induction l as [|a t IH]; simpl; [auto|].
  intros Hl. apply andb_true_iff in Hl. destruct Hl as [Ha Ht].
  rewrite (H a Ha), (IH Ht). reflexivity.
Qed.

Ltac quiet_pass :=
  match goal with
  | Hq : forallb quiet ?h = true |- _ =>
      apply (forallb_impl quiet); [|exact Hq];
      let c := fresh "c" in let Hc := fresh "Hc" in
      intros c Hc; apply quiet_parts in Hc;
      destruct Hc as (? & ? & ? & ? & ? & ? & ?);
      apply negb_true_iff; assumption
  end.

(** On markup without a unit any pattern starts with, every pass is the
    identity. *)
Lemma passes_keep_quiet_markup (html : jsstring) :
  forallb quiet html = true ->
  opens_nothing html = true ->
  fold_left (fun h pass => pass h) passes html = html.
Proof.
  intros Hq Ho.
  assert (Hlt : forallb (fun c => negb (is_line_terminator c)) html = true) by quiet_pass.
  assert (Hhead : forall q : char -> bool,
             (forall c, q c = true ->
                        (char_eqb c (C "#") || char_eqb c (C "-")
                         || char_eqb c 8226%N || is_digit c
                         || char_eqb c (C ">"))%bool = true) ->
             match html with [] => True | c :: _ => q c = false end).
  { intros q Hqc. destruct html as [|c t]; [exact Logic.I|].
    unfold opens_nothing, opens_no_block in Ho.
    apply andb_true_iff in Ho. destruct Ho as [Ho1 Ho2].
    apply negb_true_iff in Ho1, Ho2.
    destruct (q c) eqn:E; [|reflexivity].
    specialize (Hqc c E). rewrite Ho1, Ho2 in Hqc. discriminate. }
  unfold passes. simpl.
  unfold pass_fence, pass_inline, pass_table, pass_h3, pass_h2, pass_bold,
    pass_italic, pass_ul_item, pass_li_run, pass_ol_item, pass_quote, pass_hr,
    pass_link, pass_paragraph, pass_break, pass_open_block, pass_close_block,
    replace_all.
  rewrite (replace_no_trigger false re_fence _ (char_eqb (C "`")) eq_refl) by quiet_pass.
  rewrite (replace_no_trigger false re_inline _ (char_eqb (C "`")) eq_refl) by quiet_pass.
  rewrite (replace_no_trigger false re_table _ (char_eqb (C "|")) eq_refl) by quiet_pass.
  change re_h3 with (Seq Bol (Cat [Str "### "; Group 1 (Plus true Dot); Eol])).
  rewrite (replace_anchored (Cat [Str "### "; Group 1 (Plus true Dot); Eol]) _ (char_eqb (C "#")) eq_refl);
    [|exact Hlt | apply Hhead; intros c Hc; unfold char_eqb in *;
                  rewrite N.eqb_sym in Hc; rewrite Hc; reflexivity].
  change re_h2 with (Seq Bol (Cat [Str "## "; Group 1 (Plus true Dot); Eol])).
  rewrite (replace_anchored (Cat [Str "## "; Group 1 (Plus true Dot); Eol]) _ (char_eqb (C "#")) eq_refl);
    [|exact Hlt | apply Hhead; intros c Hc; unfold char_eqb in *;
                  rewrite N.eqb_sym in Hc; rewrite Hc; reflexivity].
  rewrite (replace_no_trigger false re_bold _ (char_eqb (C "*")) eq_refl) by quiet_pass.
  rewrite (replace_no_trigger false re_italic _ (char_eqb (C "*")) eq_refl) by quiet_pass.
  change re_ul_item with
    (Seq Bol (Cat [Chr (fun c => char_eqb c (C "-") || char_eqb c 8226%N);
                   Lit1 (C " "); Group 1 (Plus true Dot); Eol])).
  rewrite (replace_anchored (Cat [Chr (fun c => char_eqb c (C "-") || char_eqb c 8226%N);
                   Lit1 (C " "); Group 1 (Plus true Dot); Eol]) _ (fun c => char_eqb c (C "-") || char_eqb c 8226%N) eq_refl);
    [|exact Hlt | apply Hhead; intros c Hc;
                  apply orb_true_iff in Hc; destruct Hc as [Hc|Hc]; rewrite Hc;
                  rewrite ?orb_true_r; reflexivity].
  rewrite (replace_no_trigger false re_li_run _ (char_eqb (C "<")) eq_refl) by quiet_pass.
  change re_ol_item with
    (Seq Bol (Cat [Plus true (Chr is_digit); Lit1 (C "."); Lit1 (C " ");
                   Group 1 (Plus true Dot); Eol])).
  rewrite (replace_anchored (Cat [Plus true (Chr is_digit); Lit1 (C "."); Lit1 (C " ");
                   Group 1 (Plus true Dot); Eol]) _ is_digit eq_refl);
    [|exact Hlt | apply Hhead; intros c Hc; rewrite Hc;
                  rewrite ?orb_true_r; reflexivity].
  change re_quote with (Seq Bol (Cat [Str "> "; Group 1 (Plus true Dot); Eol])).
  rewrite (replace_anchored (Cat [Str "> "; Group 1 (Plus true Dot); Eol]) _ (char_eqb (C ">")) eq_refl);
    [|exact Hlt | apply Hhead; intros c Hc; unfold char_eqb in *;
                  rewrite N.eqb_sym in Hc; rewrite Hc;
                  rewrite ?orb_true_r; reflexivity].
  change re_hr with (Seq Bol (Cat [Str "--"; Plus true (Lit1 (C "-")); Eol])).
  rewrite (replace_anchored (Cat [Str "--"; Plus true (Lit1 (C "-")); Eol]) _ (char_eqb (C "-")) eq_refl);
    [|exact Hlt | apply Hhead; intros c Hc; unfold char_eqb in *;
                  rewrite N.eqb_sym in Hc; rewrite Hc;
                  rewrite ?orb_true_r; reflexivity].
  rewrite (replace_no_trigger false re_link _ (char_eqb (C "[")) eq_refl) by quiet_pass.
  rewrite (replace_no_trigger false re_nlnl _ (char_eqb NL) eq_refl) by quiet_pass.
  rewrite (replace_no_trigger false re_nl _ (char_eqb NL) eq_refl) by quiet_pass.
  rewrite (replace_no_trigger false re_open_block _ (char_eqb (C "<")) eq_refl) by quiet_pass.
  rewrite (replace_no_trigger false re_close_block _ (char_eqb (C "<")) eq_refl) by quiet_pass.
  reflexivity.
Qed.

Lemma escapeHtml_app (a b : jsstring) :
  escapeHtml (a ++ b) = escapeHtml a ++ escapeHtml b.
Proof. unfold escapeHtml. apply flat_map_app. Qed.

Lemma escape_char_quiet (c : char) :
  calm c = true -> forallb quiet (escape_char c) = true.
Proof.
  intros Hc. unfold escape_char.
  destruct (char_eqb c (C "&")); [reflexivity|].
  destruct (char_eqb c (C "<")) eqn:E; [reflexivity|].
  destruct (char_eqb c (C ">")); [reflexivity|].
  destruct (char_eqb c 160%N); [reflexivity|].
  simpl. unfold quiet. rewrite Hc, E. reflexivity.
Qed.

Lemma escapeHtml_quiet (s : jsstring) :
  forallb calm s = true -> forallb quiet (escapeHtml s) = true.
Proof.
  induction s as [|c t IH]; simpl; [reflexivity|].
  intros H. apply andb_true_iff in H. destruct H as [Hc Ht].
  rewrite forallb_app, (escape_char_quiet c Hc), (IH Ht). reflexivity.
Qed.

Lemma escapeHtml_opens_nothing (s : jsstring) :
  opens_no_block s = true -> opens_nothing (escapeHtml s) = true.
Proof.
  destruct s as [|c t]; [reflexivity|]. simpl. unfold escape_char.
  destruct (char_eqb c (C "&")); [reflexivity|].
  destruct (char_eqb c (C "<")); [reflexivity|].
  destruct (char_eqb c (C ">")) eqn:E; [reflexivity|].
  destruct (char_eqb c 160%N); [reflexivity|].
  intros H. unfold opens_nothing. simpl. rewrite H, E. reflexivity.
Qed.

Lemma escapeHtml_nonempty (s : jsstring) : s <> [] -> escapeHtml s <> [].
Proof.
  destruct s as [|c t]; [contradiction|]. intros _. simpl. unfold escape_char.
  destruct (char_eqb c (C "&")); [discriminate|].
  destruct (char_eqb c (C "<")); [discriminate|].
  destruct (char_eqb c (C ">")); [discriminate|].
  destruct (char_eqb c 160%N); discriminate.
Qed.

(** The render of plain text is the escaped text. *)
Lemma renderMarkdown_plain (s : jsstring) :
  forallb calm s = true -> opens_no_block s = true ->
  renderMarkdown s = escapeHtml s.
Proof.
  intros Hc Ho. destruct s as [|c t]; [reflexivity|].
  unfold renderMarkdown.
  apply passes_keep_quiet_markup;
    [apply escapeHtml_quiet; exact Hc | apply escapeHtml_opens_nothing; exact Ho].
Qed.

(** *** Matching with more text behind *)

Lemma run_cong (ml : bool) (r : regex) :
  forall (x : mstate) (k1 k2 : mstate -> option mstate),
    (forall y, lands ml r x y -> k1 y = k2 y) ->
    Regex.run ml r x k1 = Regex.run ml r x k2.
Proof.
  induction r as [|p|a IHa b IHb|a IHa b IHb|g a IHa|i a IHa| |];
    intros x k1 k2 H; cbn [Regex.run].
  - apply H. constructor.
  - destruct (ahead x) as [|c t] eqn:E; [reflexivity|].
    destruct (p c) eqn:P; [|reflexivity].
    apply H. apply lands_chr; assumption.
  - apply IHa. intros y Hy. apply IHb. intros z Hz. apply H.
    exact (lands_seq ml a b x y z Hy Hz).
  - rewrite (IHa x k1 k2), (IHb x k1 k2); [reflexivity| |];
      intros y Hy; apply H; [apply lands_alt_r | apply lands_alt_l]; exact Hy.
  - generalize (S (List.length (ahead x))). intros n. revert x H.
    induction n as [|n IHn]; intros x H; cbn [star_loop].
    + apply H. constructor.
    + rewrite (H x (lands_star_stop ml g a x)).
      match goal with
      | |- (if g then orelse ?u _ else orelse _ ?u)
           = (if g then orelse ?v _ else orelse _ ?v) =>
          assert (E : u = v)
      end.
      { apply IHa. intros y Hy.
        destruct (Nat.ltb (List.length (ahead y)) (List.length (ahead x)));
          [|reflexivity].
        apply IHn. intros z Hz. apply H.
        exact (lands_star_more ml g a x y z Hy Hz). }
      rewrite E. reflexivity.
  - apply IHa. intros y Hy. apply H. apply lands_group. exact Hy.
  - destruct (at_bol ml x) eqn:E; [|reflexivity]. apply H. constructor. exact E.
  - destruct (at_eol ml x) eqn:E; [|reflexivity]. apply H. constructor. exact E.
Qed.

Lemma lands_ahead (ml : bool) (r : regex) (x y : mstate) :
  lands ml r x y -> exists w, ahead x = w ++ ahead y.
Proof.
  induction 1.
  - exists []. reflexivity.
  - exists [c]. simpl. assumption.
  - destruct IHlands1 as [w1 E1], IHlands2 as [w2 E2].
    exists (w1 ++ w2). rewrite E1, E2, app_assoc. reflexivity.
  - assumption.
  - assumption.
  - exists []. reflexivity.
  - destruct IHlands1 as [w1 E1], IHlands2 as [w2 E2].
    exists (w1 ++ w2). rewrite E1, E2, app_assoc. reflexivity.
  - assumption.
  - exists []. reflexivity.
  - exists []. reflexivity.
Qed.

Lemma lands_shorter (ml : bool) (r : regex) (x y : mstate) :
  lands ml r x y -> List.length (ahead y) <= List.length (ahead x).
Proof.
  intros H. destruct (lands_ahead ml r x y H) as [w E].
  rewrite E, length_app. lia.
Qed.

Lemma run_fail (ml : bool) (r : regex) :
  forall x, Regex.run ml r x (fun _ => None) = None.
Proof.
  induction r as [|p|a IHa b IHb|a IHa b IHb|g a IHa|i a IHa| |];
    intros x; cbn [Regex.run].
  - reflexivity.
  - destruct (ahead x) as [|c t]; [reflexivity|]. destruct (p c); reflexivity.
  - rewrite (run_cong ml a x _ (fun _ => None)); [apply IHa|].
    intros y _. apply IHb.
  - rewrite IHa, IHb. reflexivity.
  - generalize (S (List.length (ahead x))). intros n. revert x.
    induction n as [|n IHn]; intros x; cbn [star_loop]; [reflexivity|].
    rewrite (run_cong ml a x _ (fun _ => None)).
    + rewrite IHa. destruct g; reflexivity.
    + intros y _. destruct (Nat.ltb _ _); [apply IHn | reflexivity].
  - apply IHa.
  - destruct (at_bol ml x); reflexivity.
  - destruct (at_eol ml x); reflexivity.
Qed.

(** A match attempt that starts with less than [n] units ahead fails
    when what follows fails on every such state. *)
Lemma run_none (ml : bool) (r : regex) (n : nat) (z : mstate)
    (k : mstate -> option mstate) :
  List.length (ahead z) < n ->
  (forall z', List.length (ahead z') < n -> k z' = None) ->
  Regex.run ml r z k = None.
Proof.
  intros Hz Hk. rewrite (run_cong ml r z k (fun _ => None)); [apply run_fail|].
  intros y Hy. apply Hk. pose proof (lands_shorter ml r z y Hy). lia.
Qed.

Lemma star_fuel (ml : bool) (a : regex) (g : bool) (k : mstate -> option mstate) :
  forall (n m : nat) (x : mstate),
    List.length (ahead x) < n -> List.length (ahead x) < m ->
    star_loop (Regex.run ml a) g k n x = star_loop (Regex.run ml a) g k m x.
Proof.
  induction n as [|n IHn]; intros m x Hn Hm; [lia|].
  destruct m as [|m]; [lia|]. cbn [star_loop].
  match goal with
  | |- (if g then orelse ?u _ else orelse _ ?u)
       = (if g then orelse ?v _ else orelse _ ?v) =>
      assert (E : u = v)
  end.
  { apply run_cong. intros y _.
    destruct (Nat.ltb (List.length (ahead y)) (List.length (ahead x))) eqn:L;
      [|reflexivity].
    apply Nat.ltb_lt in L. apply IHn; lia. }
  rewrite E. reflexivity.
Qed.

Lemma option_map_orelse (f : mstate -> mstate) (a b : option mstate) :
  option_map f (orelse a b) = orelse (option_map f a) (option_map f b).
Proof. destruct a; reflexivity. Qed.

Lemma between_ext (D : jsstring) (x y : mstate) :
  between (ext D x) (ext D y) = between x y.
Proof.
  unfold between, ext. cbn [ahead]. rewrite !length_app.
  replace (List.length (ahead x) + List.length D - (List.length (ahead y) + List.length D))
    with (List.length (ahead x) - List.length (ahead y)) by lia.
  rewrite firstn_app.
  replace (List.length (ahead x) - List.length (ahead y) - List.length (ahead x))
    with 0 by lia.
  cbn [firstn]. apply app_nil_r.
Qed.

(** A match attempt sees the text [D] behind its input only by running
    into it: when what follows treats a state and the same state with
    [D] behind alike, and fails inside [D], so does the pattern. *)
Lemma run_ext (ml : bool) (D : jsstring) (r : regex) :
  no_eol r = true \/ eol_safe ml D = true ->
  forall (x : mstate) (k k' : mstate -> option mstate),
    (forall y, k' (ext D y) = option_map (ext D) (k y)) ->
    (forall z, List.length (ahead z) < List.length D -> k' z = None) ->
    Regex.run ml r (ext D x) k' = option_map (ext D) (Regex.run ml r x k).
Proof.
  induction r as [|p|a IHa b IHb|a IHa b IHb|g a IHa|i a IHa| |];
    intros He x k k' H1 H2; cbn [Regex.run].
  - apply H1.
  - unfold ext at 1. cbn [ahead passed caps].
    destruct (ahead x) as [|c t] eqn:E; cbn [app].
    + destruct D as [|d D']; [reflexivity|].
      destruct (p d); [|reflexivity]. apply H2. simpl. lia.
    + destruct (p c); [|reflexivity].
      rewrite <- (H1 (MState (c :: passed x) t (caps x))). reflexivity.
  - assert (Ha : no_eol a = true \/ eol_safe ml D = true)
      by (destruct He as [He|He]; [left; simpl in He; apply andb_true_iff in He; tauto | right; exact He]).
    assert (Hb : no_eol b = true \/ eol_safe ml D = true)
      by (destruct He as [He|He]; [left; simpl in He; apply andb_true_iff in He; tauto | right; exact He]).
    apply (IHa Ha).
    + intros y. apply (IHb Hb); assumption.
    + intros z Hz. apply (run_none ml b (List.length D)); assumption.
  - assert (Ha : no_eol a = true \/ eol_safe ml D = true)
      by (destruct He as [He|He]; [left; simpl in He; apply andb_true_iff in He; tauto | right; exact He]).
    assert (Hb : no_eol b = true \/ eol_safe ml D = true)
      by (destruct He as [He|He]; [left; simpl in He; apply andb_true_iff in He; tauto | right; exact He]).
    rewrite (IHa Ha x k k' H1 H2), (IHb Hb x k k' H1 H2).
    symmetry. apply option_map_orelse.
  - assert (Ha : no_eol a = true \/ eol_safe ml D = true)
      by (destruct He as [He|He]; [left; exact He | right; exact He]).
    assert (Same : forall n y,
               star_loop (Regex.run ml a) g k' n (ext D y)
               = option_map (ext D) (star_loop (Regex.run ml a) g k n y)).
    { induction n as [|n IHn]; intros y; cbn [star_loop]; [apply H1|].
      rewrite (IHa Ha y
                 (fun y0 => if Nat.ltb (List.length (ahead y0)) (List.length (ahead y))
                            then star_loop (Regex.run ml a) g k n y0 else None)).
      - rewrite H1. destruct g; symmetry; apply option_map_orelse.
      - intros y0.
        assert (L : Nat.ltb (List.length (ahead (ext D y0))) (List.length (ahead (ext D y)))
                    = Nat.ltb (List.length (ahead y0)) (List.length (ahead y))).
        { unfold ext. cbn [ahead]. rewrite !length_app.
          destruct (Nat.ltb (List.length (ahead y0)) (List.length (ahead y))) eqn:L;
            [apply Nat.ltb_lt; apply Nat.ltb_lt in L; lia
            | apply Nat.ltb_ge; apply Nat.ltb_ge in L; lia]. }
        rewrite L.
        destruct (Nat.ltb (List.length (ahead y0)) (List.length (ahead y)));
          [apply IHn | reflexivity].
      - intros z Hz. destruct (Nat.ltb _ _); [|reflexivity].
        clear - Hz H2. revert z Hz. induction n as [|n IHn]; intros z Hz; cbn [star_loop].
        + apply H2. exact Hz.
        + rewrite (H2 z Hz).
          rewrite (run_none ml a (List.length D) z); [destruct g; reflexivity | exact Hz |].
          intros z' Hz'. destruct (Nat.ltb _ _); [apply IHn; exact Hz' | reflexivity]. }
    rewrite Same. f_equal. apply star_fuel.
    + unfold ext. cbn [ahead]. rewrite length_app. lia.
    + lia.
  - assert (Ha : no_eol a = true \/ eol_safe ml D = true)
      by (destruct He as [He|He]; [left; exact He | right; exact He]).
    apply (IHa Ha).
    + intros y. rewrite between_ext.
      change (set_cap i (between x y) (ext D y)) with (ext D (set_cap i (between x y) y)).
      apply H1.
    + intros z Hz. apply H2. exact Hz.
  - change (at_bol ml (ext D x)) with (at_bol ml x).
    destruct (at_bol ml x); [apply H1 | reflexivity].
  - destruct He as [He|He]; [discriminate|].
    assert (E : at_eol ml (ext D x) = at_eol ml x).
    { unfold at_eol, ext. cbn [ahead]. destruct (ahead x) as [|c t]; [|reflexivity].
      cbn [app]. destruct D as [|d D']; [reflexivity | exact He]. }
    rewrite E. destruct (at_eol ml x); [apply H1 | reflexivity].
Qed.

Lemma existsb_app_l {A : Type} (f : A -> bool) (l1 l2 : list A) :
  existsb f l1 = true -> existsb f (l1 ++ l2) = true.
Proof. intros H. rewrite existsb_app, H. reflexivity. Qed.

Lemma existsb_app_r {A : Type} (f : A -> bool) (l1 l2 : list A) :
  existsb f l2 = true -> existsb f (l1 ++ l2) = true.
Proof. intros H. rewrite existsb_app, H. apply orb_true_r. Qed.

(** What a match of [r] ends with: nothing taken, or a last unit of one
    of the classes of [last_set]. *)
Lemma lands_last (ml : bool) (r : regex) (x y : mstate) :
  lands ml r x y ->
  (nullable r = true /\ ahead y = ahead x)
  \/ exists w c, ahead x = w ++ c :: ahead y
                 /\ existsb (fun p => p c) (last_set r) = true.
Proof.
  induction 1; cbn [nullable last_set].
  - left. auto.
  - right. exists [], c. cbn [app existsb ahead]. rewrite H0. auto.
  - destruct IHlands2 as [[N2 E2] | (w2 & c2 & E2 & P2)].
    + destruct IHlands1 as [[N1 E1] | (w1 & c1 & E1 & P1)].
      * left. rewrite N1, N2. split; [reflexivity | congruence].
      * right. exists w1, c1. rewrite E2, N2. split; [exact E1|].
        apply existsb_app_r. exact P1.
    + right. destruct (lands_ahead ml a x y H) as [w1 E1].
      exists (w1 ++ w2), c2. rewrite E1, E2, <- app_assoc.
      split; [reflexivity | apply existsb_app_l; exact P2].
  - destruct IHlands as [[N E] | (w & c & E & P)].
    + left. rewrite N. auto.
    + right. exists w, c. split; [exact E | apply existsb_app_l; exact P].
  - destruct IHlands as [[N E] | (w & c & E & P)].
    + left. rewrite N, orb_true_r. auto.
    + right. exists w, c. split; [exact E | apply existsb_app_r; exact P].
  - left. auto.
  - destruct IHlands2 as [[N2 E2] | (w2 & c2 & E2 & P2)].
    + destruct IHlands1 as [[N1 E1] | (w1 & c1 & E1 & P1)].
      * left. split; [reflexivity | congruence].
      * right. exists w1, c1. rewrite E2. auto.
    + right. destruct (lands_ahead ml a x y H) as [w1 E1].
      exists (w1 ++ w2), c2. rewrite E1, E2, <- app_assoc. auto.
  - destruct IHlands as [[N E] | (w & c & E & P)].
    + left. auto.
    + right. exists w, c. auto.
  - left. auto.
  - left. auto.
Qed.

(** The units a match of [r] takes are of the classes of [all_set]. *)
Lemma lands_all (ml : bool) (r : regex) (x y : mstate) :
  lands ml r x y ->
  exists w, ahead x = w ++ ahead y
            /\ forallb (fun c => existsb (fun p => p c) (all_set r)) w = true.
Proof.
  assert (M : forall (ps qs : list (char -> bool)) (w : jsstring),
             (forall c, existsb (fun p => p c) ps = true ->
                        existsb (fun p => p c) qs = true) ->
             forallb (fun c => existsb (fun p => p c) ps) w = true ->
             forallb (fun c => existsb (fun p => p c) qs) w = true).
  { intros ps qs w Hi. induction w as [|c t IH]; [reflexivity|]. cbn [forallb].
    intros Hw. apply andb_true_iff in Hw. destruct Hw as [Hc Ht].
    rewrite (Hi c Hc), (IH Ht). reflexivity. }
  induction 1; cbn [all_set] in *.
  - exists []. auto.
  - exists [c]. cbn [app forallb existsb ahead]. rewrite H0. auto.
  - destruct IHlands1 as (w1 & E1 & P1), IHlands2 as (w2 & E2 & P2).
    exists (w1 ++ w2). rewrite E1, E2, <- app_assoc. split; [reflexivity|].
    rewrite forallb_app. apply andb_true_iff. split.
    + apply (M (all_set a)); [intros c; apply existsb_app_l | exact P1].
    + apply (M (all_set b)); [intros c; apply existsb_app_r | exact P2].
  - destruct IHlands as (w & E & P). exists w. split; [exact E|].
    apply (M (all_set a)); [intros c; apply existsb_app_l | exact P].
  - destruct IHlands as (w & E & P). exists w. split; [exact E|].
    apply (M (all_set b)); [intros c; apply existsb_app_r | exact P].
  - exists []. auto.
  - destruct IHlands1 as (w1 & E1 & P1), IHlands2 as (w2 & E2 & P2).
    exists (w1 ++ w2). rewrite E1, E2, <- app_assoc. split; [reflexivity|].
    rewrite forallb_app, P1, P2. reflexivity.
  - assumption.
  - exists []. auto.
  - exists []. auto.
Qed.

Lemma tail_of_both (l1 l2 m1 m2 : jsstring) :
  l1 ++ l2 = m1 ++ m2 -> List.length m2 <= List.length l2 ->
  exists u, l2 = u ++ m2.
Proof.
  intros E L. apply app_eq_app in E. destruct E as [l [[E1 E2] | [E1 E2]]].
  - assert (l = []).
    { apply (f_equal (@List.length char)) in E2. rewrite length_app in E2.
      destruct l; [reflexivity | simpl in E2; lia]. }
    subst l. exists []. rewrite E2. reflexivity.
  - exists l. exact E2.
Qed.

Lemma avoids_in (ps : list (char -> bool)) (D u v : jsstring) (c : char) :
  avoids ps D = true -> D = u ++ c :: v ->
  existsb (fun p => p c) ps = false.
Proof.
  unfold avoids. intros H ->. rewrite forallb_app in H.
  apply andb_true_iff in H. destruct H as [_ H]. cbn [forallb] in H.
  apply andb_true_iff in H. destruct H as [H _]. apply negb_true_iff in H. exact H.
Qed.

Lemma guard_ext (D : jsstring) (k : mstate -> option mstate) (y : mstate) :
  guard D k (ext D y) = k (ext D y).
Proof.
  unfold guard, ext. cbn [ahead]. rewrite length_app.
  replace (Nat.leb (List.length D) (List.length (ahead y) + List.length D)) with true
    by (symmetry; apply Nat.leb_le; lia).
  reflexivity.
Qed.

Lemma guard_inside (D : jsstring) (k : mstate -> option mstate) (z : mstate) :
  List.length (ahead z) < List.length D -> guard D k z = None.
Proof.
  intros H. unfold guard.
  replace (Nat.leb (List.length D) (List.length (ahead z))) with false
    by (symmetry; apply Nat.leb_gt; exact H).
  reflexivity.
Qed.

(** What a successful match attempt went through. *)
Lemma run_sound (ml : bool) (r : regex) :
  forall (x : mstate) (k : mstate -> option mstate) (z : mstate),
    Regex.run ml r x k = Some z ->
    exists y, lands ml r x y /\ k y = Some z.
Proof.
  induction r as [|p|a IHa b IHb|a IHa b IHb|g a IHa|i a IHa| |];
    intros x k z H; cbn [Regex.run] in H.
  - exists x. split; [constructor | exact H].
  - destruct (ahead x) as [|c t] eqn:E; [discriminate|].
    destruct (p c) eqn:P; [|discriminate].
    eexists. split; [apply lands_chr; eassumption | exact H].
  - apply IHa in H. destruct H as (y & Hy & H).
    apply IHb in H. destruct H as (y' & Hy' & H).
    exists y'. split; [exact (lands_seq ml a b x y y' Hy Hy') | exact H].
  - destruct (Regex.run ml a x k) as [z0|] eqn:Ea; cbn [orelse] in H.
    + rewrite <- H in *. apply IHa in Ea. destruct Ea as (y & Hy & Hk).
      exists y. split; [apply lands_alt_l; exact Hy | exact Hk].
    + apply IHb in H. destruct H as (y & Hy & Hk).
      exists y. split; [apply lands_alt_r; exact Hy | exact Hk].
  - revert H. generalize (S (List.length (ahead x))). intros n. revert x.
    induction n as [|n IHn]; intros x H; cbn [star_loop] in H.
    + exists x. split; [constructor | exact H].
    + match type of H with
      | (if g then orelse ?u _ else orelse _ ?u) = _ =>
          assert (C : u = Some z \/ k x = Some z)
      end.
      { destruct g.
        - match type of H with orelse ?u _ = _ => destruct u end;
            cbn [orelse] in H; auto.
        - destruct (k x); cbn [orelse] in H; auto. }
      destruct C as [C|C].
      * apply IHa in C. destruct C as (y & Hy & C).
        destruct (Nat.ltb _ _); [|discriminate].
        apply IHn in C. destruct C as (y' & Hy' & C).
        exists y'. split; [exact (lands_star_more ml g a x y y' Hy Hy') | exact C].
      * exists x. split; [constructor | exact C].
  - apply IHa in H. destruct H as (y & Hy & H).
    eexists. split; [apply lands_group; exact Hy | exact H].
  - destruct (at_bol ml x) eqn:E; [|discriminate].
    exists x. split; [constructor; exact E | exact H].
  - destruct (at_eol ml x) eqn:E; [|discriminate].
    exists x. split; [constructor; exact E | exact H].
Qed.

Lemma match_lands (ml : bool) (r : regex) (before after : jsstring) (y : mstate) :
  match_here ml r before after = Some y ->
  lands ml r (MState before after []) y.
Proof.
  unfold match_here. intros H. apply run_sound in H.
  destruct H as (y' & Hy & E). inversion E; subst. exact Hy.
Qed.

(** Where no match can end inside [D], a match attempt with [D] behind
    the input is the attempt without it. *)
Lemma match_ext (ml : bool) (r : regex) (D : jsstring)
    (before after : jsstring) :
  no_eol r = true \/ eol_safe ml D = true ->
  (forall y, lands ml r (MState before (after ++ D) []) y ->
             List.length D <= List.length (ahead y)) ->
  match_here ml r before (after ++ D)
  = option_map (ext D) (match_here ml r before after).
Proof.
  intros He Hl. unfold match_here.
  change (MState before (after ++ D) []) with (ext D (MState before after [])).
  rewrite (run_cong ml r _ Some (guard D Some)).
  - apply (run_ext ml D r He).
    + intros y. apply guard_ext.
    + intros z Hz. apply guard_inside. exact Hz.
  - intros y Hy. unfold guard.
    replace (Nat.leb (List.length D) (List.length (ahead y))) with true
      by (symmetry; apply Nat.leb_le; apply Hl; exact Hy).
    reflexivity.
Qed.

Lemma match_none (ml : bool) (r : regex) (before after : jsstring) :
  (forall y, ~ lands ml r (MState before after []) y) ->
  match_here ml r before after = None.
Proof.
  intros H. unfold match_here.
  rewrite (run_cong ml r _ Some (fun _ => None)); [apply run_fail|].
  intros y Hy. destruct (H y Hy).
Qed.

Lemma between_shorter (x y : mstate) :
  List.length (between x y) <= List.length (ahead x).
Proof. unfold between. rewrite length_firstn. lia. Qed.

(** The pass with [D] behind the text: when every match attempt in the
    text is blind to [D] and none starts inside [D], the pass leaves [D]
    where it is. *)
Lemma replace_ext (ml : bool) (r : regex) (f : found -> jsstring) (D : jsstring) :
  forall (H before : jsstring) (skip : nat),
    (forall p a, H = p ++ a ->
       match_here ml r (rev p ++ before) (a ++ D)
       = option_map (ext D) (match_here ml r (rev p ++ before) a)) ->
    (forall d1 d2, D = d1 ++ d2 -> d1 <> [] ->
       match_here ml r (rev d1 ++ rev H ++ before) d2 = None) ->
    skip <= List.length H ->
    replace_from ml r f skip before (H ++ D)
    = replace_from ml r f skip before H ++ D.
Proof.
  assert (Inside : forall (D' pre : jsstring) (before : jsstring),
             D = pre ++ D' -> pre <> [] ->
             (forall d1 d2, D = d1 ++ d2 -> d1 <> [] ->
                match_here ml r (rev d1 ++ before) d2 = None) ->
             replace_from ml r f 0 (rev pre ++ before) D' = D').
  { induction D' as [|d t IH]; intros pre before E Hp Hb.
    - cbn [replace_from]. rewrite (Hb pre [] E Hp). reflexivity.
    - cbn [replace_from]. rewrite (Hb pre (d :: t) E Hp). f_equal.
      replace (d :: rev pre ++ before) with (rev (pre ++ [d]) ++ before)
        by (rewrite rev_app_distr; reflexivity).
      apply IH; [rewrite <- app_assoc; exact E | | exact Hb].
      destruct pre; discriminate. }
  induction H as [|c t IH]; intros before skip Ha Hb Hs.
  - assert (skip = 0) by (simpl in Hs; lia). subst skip. cbn [app].
    specialize (Ha [] [] eq_refl). cbn [rev app] in Ha, Hb.
    destruct D as [|d D']; [symmetry; apply app_nil_r|].
    cbn [replace_from]. cbn [app] in Ha. rewrite Ha.
    assert (In' : replace_from ml r f 0 (d :: before) D' = D').
    { apply (Inside D' [d] before eq_refl); [discriminate|]. intros d1 d2 E1 N1.
      exact (Hb d1 d2 E1 N1). }
    destruct (match_here ml r before []) as [y|] eqn:M; cbn [option_map].
    + assert (Ay : ahead y = []).
      { pose proof (lands_shorter ml r _ y (match_lands ml r _ _ y M)) as L.
        cbn [ahead List.length] in L. destruct (ahead y); [reflexivity | simpl in L; lia]. }
      unfold between, ext. cbn [ahead caps]. rewrite Ay. cbn [app].
      rewrite Nat.sub_diag. cbn [firstn List.length Nat.sub]. rewrite In'.
      rewrite app_nil_r. reflexivity.
    + rewrite In'. reflexivity.
  - cbn [app]. destruct skip as [|n].
    + cbn [replace_from].
      pose proof (Ha [] (c :: t) eq_refl) as M0. cbn [rev app] in M0. rewrite M0.
      assert (Ha' : forall p a, t = p ++ a ->
                match_here ml r (rev p ++ c :: before) (a ++ D)
                = option_map (ext D) (match_here ml r (rev p ++ c :: before) a)).
      { intros p a E. specialize (Ha (c :: p) a). cbn [rev app] in Ha.
        rewrite <- app_assoc in Ha. apply Ha. rewrite E. reflexivity. }
      assert (Hb' : forall d1 d2, D = d1 ++ d2 -> d1 <> [] ->
                match_here ml r (rev d1 ++ rev t ++ c :: before) d2 = None).
      { intros d1 d2 E N. specialize (Hb d1 d2 E N). cbn [rev] in Hb.
        rewrite <- app_assoc in Hb. exact Hb. }
      destruct (match_here ml r before (c :: t)) as [y|] eqn:M; cbn [option_map].
      * change (MState before (c :: t ++ D) []) with (ext D (MState before (c :: t) [])).
        rewrite between_ext. change (caps (ext D y)) with (caps y).
        rewrite <- app_assoc. f_equal.
        pose proof (between_shorter (MState before (c :: t) []) y) as L.
        cbn [ahead List.length] in L.
        destruct (List.length (between (MState before (c :: t) []) y)) as [|m].
        -- cbn [app]. f_equal. apply IH; [exact Ha' | exact Hb' | lia].
        -- apply IH; [exact Ha' | exact Hb' | lia].
      * cbn [app]. f_equal. apply IH; [exact Ha' | exact Hb' | lia].
    + cbn [replace_from]. apply IH; [| |simpl in Hs; lia].
      * intros p a E. specialize (Ha (c :: p) a). cbn [rev app] in Ha.
        rewrite <- app_assoc in Ha. apply Ha. rewrite E. reflexivity.
      * intros d1 d2 E N. specialize (Hb d1 d2 E N). cbn [rev] in Hb.
        rewrite <- app_assoc in Hb. exact Hb.
Qed.

(** A pass whose matches end with a unit that [D] does not have leaves
    [D], behind any text, where it is. *)
Lemma pass_keeps_tail (r : regex) (f : found -> jsstring) (D : jsstring) :
  no_eol r = true ->
  nullable r = false ->
  avoids (last_set r) D = true ->
  forall H, replace_all false r f (H ++ D) = replace_all false r f H ++ D.
Proof.
  intros He Hn Ha H. unfold replace_all.
  apply replace_ext; [| |lia].
  - intros p a _. apply match_ext; [left; exact He|].
    intros y Hy. apply lands_last in Hy.
    destruct Hy as [[N _] | (w & c & E & P)]; [congruence|].
    cbn [ahead] in E.
    destruct (Nat.le_gt_cases (List.length D) (List.length (ahead y))) as [L|L];
      [exact L|].
    destruct (tail_of_both a D w (c :: ahead y) E) as [u Eu]; [simpl; lia|].
    rewrite (avoids_in _ D u (ahead y) c Ha Eu) in P. discriminate.
  - intros d1 d2 E _. apply match_none. intros y Hy. apply lands_last in Hy.
    destruct Hy as [[N _] | (w & c & E' & P)]; [congruence|].
    cbn [ahead] in E'. rewrite E', app_assoc in E.
    rewrite (avoids_in _ D (d1 ++ w) (ahead y) c Ha E) in P. discriminate.
Qed.

(** A pass anchored at the start of a line, whose matches stay on their
    line, leaves a last line that it does not match, behind any text,
    where it is. *)
Lemma line_pass_keeps_tail (r : regex) (f : found -> jsstring)
    (q : char -> bool) (D : jsstring) :
  existsb (fun p => p NL) (all_set r) = false ->
  first_class r = Some q ->
  forallb (fun c => negb (is_line_terminator c)) D = true ->
  match D with [] => True | c :: _ => q c = false end ->
  forall H, replace_all true (Seq Bol r) f (H ++ NL :: D)
            = replace_all true (Seq Bol r) f H ++ NL :: D.
Proof.
  intros Hall Hq Hlt Hfirst H. unfold replace_all.
  apply replace_ext; [| |lia].
  - intros p a _. apply match_ext; [right; reflexivity|].
    intros y Hy. apply lands_all in Hy. destruct Hy as (w & E & P).
    cbn [ahead all_set app] in E, P.
    destruct (Nat.le_gt_cases (List.length (NL :: D)) (List.length (ahead y))) as [L|L];
      [exact L|]. exfalso.
    change (a ++ NL :: D) with (a ++ [NL] ++ D) in E. rewrite app_assoc in E.
    destruct (tail_of_both (a ++ [NL]) D w (ahead y) E) as [u Eu];
      [simpl in L; lia|].
    rewrite Eu, app_assoc in E. apply app_inv_tail in E. rewrite <- E in P.
    rewrite !forallb_app in P. cbn [forallb] in P.
    rewrite Hall in P. rewrite andb_false_r in P. discriminate.
  - intros d1 d2 E N. destruct d1 as [|d0 d1']; [contradiction|].
    inversion E; subst d0. unfold match_here. cbn [Regex.run].
    destruct d1' as [|e d1''] using rev_ind.
    + cbn [app] in *. subst d2.
      destruct (at_bol true _); [|reflexivity].
      apply (no_match_first true r q Hq). cbn [ahead]. exact Hfirst.
    + cbn [rev]. rewrite rev_app_distr. cbn [rev app].
      unfold at_bol. cbn [passed].
      assert (Le : is_line_terminator e = false).
      { subst D. rewrite !forallb_app in Hlt. cbn [forallb] in Hlt.
        apply andb_true_iff in Hlt. destruct Hlt as [Hlt _].
        apply andb_true_iff in Hlt. destruct Hlt as [_ Hlt].
        apply andb_true_iff in Hlt. destruct Hlt as [Hlt _].
        apply negb_true_iff in Hlt. exact Hlt. }
      rewrite Le. reflexivity.
Qed.

(** *** The passes, with text behind a line feed *)

Lemma still_parts (c : char) :
  still c = true ->
  char_eqb (C "`") c = false /\ char_eqb (C "|") c = false
  /\ char_eqb (C "*") c = false /\ char_eqb (C ")") c = false
  /\ char_eqb (C "<") c = false /\ char_eqb (C ">") c = false
  /\ char_eqb NL c = false /\ is_line_terminator c = false.
Proof.
  unfold still, settled. intros H.
  apply andb_true_iff in H. destruct H as [H1 H2].
  apply negb_true_iff in H1, H2.
  apply orb_false_iff in H2. destruct H2 as [Hlt Hgt].
  apply orb_false_iff in H1. destruct H1 as [H1 Hterm].
  apply orb_false_iff in H1. destruct H1 as [H1 Hpar].
  apply orb_false_iff in H1. destruct H1 as [H1 Hstar].
  apply orb_false_iff in H1. destruct H1 as [Hbt Hpipe].
  assert (Hnl : char_eqb c NL = false).
  { unfold is_line_terminator in Hterm.
    apply orb_false_iff in Hterm. destruct Hterm as [Hterm _].
    apply orb_false_iff in Hterm. destruct Hterm as [Hterm _].
    apply orb_false_iff in Hterm. destruct Hterm as [Hterm _]. exact Hterm. }
  unfold char_eqb in *.
  rewrite (N.eqb_sym (C "`") c), (N.eqb_sym (C "|") c), (N.eqb_sym (C "*") c),
    (N.eqb_sym (C ")") c), (N.eqb_sym (C "<") c), (N.eqb_sym (C ">") c),
    (N.eqb_sym NL c).
  repeat split; assumption.
Qed.

Lemma avoids_app (ps : list (char -> bool)) (a b : jsstring) :
  avoids ps (a ++ b) = avoids ps a && avoids ps b.
Proof. unfold avoids. apply forallb_app. Qed.

Lemma avoids_still (ps : list (char -> bool)) (D : jsstring) :
  (forall c, still c = true -> existsb (fun p => p c) ps = false) ->
  forallb still D = true -> avoids ps D = true.
Proof.
  intros H. unfold avoids. induction D as [|d t IH]; [reflexivity|].
  cbn [forallb]. intros Hd. apply andb_true_iff in Hd. destruct Hd as [Hd Ht].
  rewrite (H d Hd), (IH Ht). reflexivity.
Qed.

Ltac still_avoids :=
  let c := fresh "c" in let Hc := fresh "Hc" in
  intros c Hc; apply still_parts in Hc;
  destruct Hc as (? & ? & ? & ? & ? & ? & ? & ?);
  cbn [existsb];
  repeat match goal with
         | H : ?x = false |- context [?x] => rewrite H
         end;
  reflexivity.

Lemma fence_ends : last_set re_fence = [char_eqb (C "`")].
Proof. reflexivity. Qed.
Lemma inline_ends : last_set re_inline = [char_eqb (C "`")].
Proof. reflexivity. Qed.
Lemma table_ends_with :
  last_set re_table
  = [char_eqb NL; char_eqb (C "|"); char_eqb NL; char_eqb (C "|")].
Proof. reflexivity. Qed.
Lemma bold_ends : last_set re_bold = [char_eqb (C "*")].
Proof. reflexivity. Qed.
Lemma italic_ends : last_set re_italic = [char_eqb (C "*")].
Proof. reflexivity. Qed.
Lemma li_run_ends :
  last_set re_li_run
  = [char_eqb NL; char_eqb (C ">"); char_eqb NL; char_eqb (C ">")].
Proof. reflexivity. Qed.
Lemma link_ends : last_set re_link = [char_eqb (C ")")].
Proof. reflexivity. Qed.
Lemma nlnl_ends : last_set re_nlnl = [char_eqb NL].
Proof. reflexivity. Qed.
Lemma nl_ends : last_set re_nl = [char_eqb NL].
Proof. reflexivity. Qed.
Lemma close_block_ends : last_set re_close_block = [char_eqb (C ">")].
Proof. reflexivity. Qed.

(** The passes whose matches end with a unit that still markup does not
    have. *)
Lemma closing_pass_keeps_still (r : regex) (f : found -> jsstring)
    (ps : list (char -> bool)) (D : jsstring) :
  no_eol r = true -> nullable r = false -> last_set r = ps ->
  (forall c, still c = true -> existsb (fun p => p c) ps = false) ->
  forallb still D = true ->
  forall H, replace_all false r f (H ++ D) = replace_all false r f H ++ D.
Proof.
  intros He Hn Hl Hp Hd. apply pass_keeps_tail; [exact He | exact Hn|].
  rewrite Hl. apply avoids_still; assumption.
Qed.

(** What the parts of a pattern went through. *)
Lemma lands_seq_inv (ml : bool) (a b : regex) (x z : mstate) :
  lands ml (Seq a b) x z -> exists y, lands ml a x y /\ lands ml b y z.
Proof. intros H. inversion H; subst. eauto. Qed.

Lemma lands_chr_inv (ml : bool) (p : char -> bool) (x y : mstate) :
  lands ml (Chr p) x y -> exists c, ahead x = c :: ahead y /\ p c = true.
Proof. intros H. inversion H; subst. exists c. auto. Qed.

Lemma lands_eps_inv (ml : bool) (x y : mstate) : lands ml Eps x y -> y = x.
Proof. intros H. inversion H; subst. reflexivity. Qed.

Lemma lands_alt_inv (ml : bool) (a b : regex) (x y : mstate) :
  lands ml (Alt a b) x y -> lands ml a x y \/ lands ml b x y.
Proof. intros H. inversion H; subst; auto. Qed.

Lemma lands_group_inv (ml : bool) (i : nat) (a : regex) (x y : mstate) :
  lands ml (Group i a) x y ->
  exists y0, lands ml a x y0 /\ y = set_cap i (between x y0) y0.
Proof. intros H. inversion H; subst. eauto. Qed.

(** The last round of a repetition. *)
Lemma lands_star_last (ml : bool) (g : bool) (a : regex) (y z : mstate) :
  lands ml (Star g a) y z ->
  y = z \/ exists y', lands ml a y' z /\ exists w, ahead y = w ++ ahead y'.
Proof.
  intros H. remember (Star g a) as r eqn:E. revert E.
  induction H; intros E; inversion E; subst.
  - left. reflexivity.
  - right. destruct (IHlands2 eq_refl) as [-> | (y' & Hy' & w & Ew)].
    + exists x. split; [exact H | exists []; reflexivity].
    + exists y'. split; [exact Hy'|].
      destruct (lands_ahead ml a x y H) as [w0 E0].
      exists (w0 ++ w). rewrite E0, Ew, app_assoc. reflexivity.
Qed.

Lemma lands_plus_last (ml : bool) (g : bool) (a : regex) (x z : mstate) :
  lands ml (Plus g a) x z ->
  exists y', lands ml a y' z /\ exists w, ahead x = w ++ ahead y'.
Proof.
  unfold Plus. intros H. apply lands_seq_inv in H. destruct H as (y & Ha & Hs).
  apply lands_star_last in Hs. destruct Hs as [<- | (y' & Hy' & w & Ew)].
  - exists x. split; [exact Ha | exists []; reflexivity].
  - exists y'. split; [exact Hy'|].
    destruct (lands_ahead ml a x y Ha) as [w0 E0].
    exists (w0 ++ w). rewrite E0, Ew, app_assoc. reflexivity.
Qed.

Lemma lands_lits (ml : bool) (s : jsstring) :
  forall x y, lands ml (Lits s) x y -> ahead x = s ++ ahead y.
Proof.
  induction s as [|c t IH]; intros x y H.
  - apply lands_eps_inv in H. subst. reflexivity.
  - destruct t as [|c' t'].
    + apply lands_chr_inv in H. destruct H as (c0 & E & P).
      apply N.eqb_eq in P. subst c0. exact E.
    + change (Lits (c :: c' :: t')) with (Seq (Lit1 c) (Lits (c' :: t'))) in H.
      apply lands_seq_inv in H. destruct H as (y0 & H1 & H2).
      apply lands_chr_inv in H1. destruct H1 as (c0 & E & P).
      apply N.eqb_eq in P. subst c0. rewrite E, (IH _ _ H2). reflexivity.
Qed.

Lemma nonnull_at_end (ml : bool) (r : regex) (before : jsstring) :
  nullable r = false -> match_here ml r before [] = None.
Proof.
  intros Hn. apply match_none. intros y Hy. apply lands_last in Hy.
  destruct Hy as [[N _] | (w & c & E & _)]; [congruence|].
  cbn [ahead] in E. destruct w; discriminate.
Qed.

(** **** The table pass *)

(** A match of the table pattern ends with a pipe, or with a pipe and a
    line feed. *)
Lemma table_landing (x y : mstate) :
  lands false re_table x y ->
  exists w, ahead x = w ++ C "|" :: ahead y
            \/ ahead x = w ++ C "|" :: NL :: ahead y.
Proof.
  unfold re_table. intros H.
  apply lands_group_inv in H. destruct H as (y0 & H & ->).
  change (ahead (set_cap 1 (between x y0) y0)) with (ahead y0).
  apply lands_plus_last in H. destruct H as (x' & H & w0 & E0).
  unfold Cat in H. cbn [fold_right] in H.
  apply lands_seq_inv in H. destruct H as (y1 & H1 & H).
  apply lands_seq_inv in H. destruct H as (y2 & H2 & H).
  apply lands_seq_inv in H. destruct H as (y3 & H3 & H).
  apply lands_seq_inv in H. destruct H as (y4 & H4 & H).
  apply lands_eps_inv in H. subst y4.
  destruct (lands_ahead _ _ _ _ H1) as [w1 E1].
  destruct (lands_ahead _ _ _ _ H2) as [w2 E2].
  apply lands_chr_inv in H3. destruct H3 as (c3 & E3 & P3).
  apply N.eqb_eq in P3. subst c3.
  exists (w0 ++ w1 ++ w2).
  unfold Opt in H4. apply lands_alt_inv in H4. destruct H4 as [H4|H4].
  - right. apply lands_chr_inv in H4. destruct H4 as (c4 & E4 & P4).
    apply N.eqb_eq in P4. subst c4.
    rewrite E0, E1, E2, E3, E4, <- !app_assoc. reflexivity.
  - left. apply lands_eps_inv in H4. subst y0.
    rewrite E0, E1, E2, E3, <- !app_assoc. reflexivity.
Qed.

Lemma last_of_both {A : Type} (a b : list A) (x y : A) :
  a ++ [x] = b ++ [y] -> a = b /\ x = y.
Proof. intros H. apply app_inj_tail in H. exact H. Qed.

Lemma ends_row_last (a : jsstring) (c : char) :
  ends_row (a ++ [c]) = char_eqb c (C "|").
Proof. unfold ends_row. rewrite rev_app_distr. reflexivity. Qed.

Lemma ends_row_app (a b : jsstring) : b <> [] -> ends_row (a ++ b) = ends_row b.
Proof.
  destruct b as [|c t] using rev_ind; [contradiction|]. intros _.
  rewrite app_assoc, !ends_row_last. reflexivity.
Qed.

(** A line feed behind a text that does not end a table row is not part
    of a table. *)
Lemma table_keeps_line_feed (X : jsstring) :
  ends_row X = false -> pass_table (X ++ [NL]) = pass_table X ++ [NL].
Proof.
  intros Hx. unfold pass_table, replace_all.
  apply replace_ext; [| |lia].
  - intros p a E. apply match_ext; [left; reflexivity|].
    intros y Hy. cbn [List.length].
    destruct (ahead y) as [|c0 t0] eqn:Ay; [exfalso | simpl; lia].
    apply table_landing in Hy. rewrite Ay in Hy. cbn [ahead] in Hy.
    destruct Hy as [w [Hw|Hw]].
    + apply last_of_both in Hw. destruct Hw as [_ Hw]. discriminate.
    + change (w ++ [C "|"; NL]) with (w ++ [C "|"] ++ [NL]) in Hw.
      rewrite app_assoc in Hw. apply last_of_both in Hw. destruct Hw as [Hw _].
      subst a X. rewrite app_assoc, ends_row_last in Hx. discriminate.
  - intros d1 d2 E N. destruct d1 as [|d0 d1']; [contradiction|].
    inversion E. destruct d1'; [|discriminate]. cbn [app] in *. subst.
    apply nonnull_at_end. reflexivity.
Qed.

(** **** What a pass leaves at the end of a text *)

Lemma replace_past_end (ml : bool) (r : regex) (f : found -> jsstring) :
  (forall bef, match_here ml r bef [] = None) ->
  forall (s before : jsstring) (skip : nat),
    List.length s <= skip -> replace_from ml r f skip before s = [].
Proof.
  intros Hend s. induction s as [|c t IH]; intros before skip L.
  - destruct skip; cbn [replace_from]; [rewrite Hend|]; reflexivity.
  - destruct skip as [|n]; [simpl in L; lia|]. cbn [replace_from].
    apply IH. simpl in L. lia.
Qed.

Lemma replace_from_cons (ml : bool) (r : regex) (f : found -> jsstring)
    (before : jsstring) (c : char) (t : jsstring) :
  replace_from ml r f 0 before (c :: t)
  = match match_here ml r before (c :: t) with
    | Some y =>
        f (Found (between (MState before (c :: t) []) y) (caps y)) ++
        match List.length (between (MState before (c :: t) []) y) with
        | O => c :: replace_from ml r f 0 (c :: before) t
        | S n => replace_from ml r f n (c :: before) t
        end
    | None => c :: replace_from ml r f 0 (c :: before) t
    end.
Proof. reflexivity. Qed.

(** The last unit [c0] of a text is copied by a pass, or is the last
    unit of its last match. *)
Lemma tail_shape (ml : bool) (r : regex) (f : found -> jsstring) (c0 : char) :
  (forall bef, match_here ml r bef [] = None) ->
  forall (s before : jsstring) (skip : nat),
    skip <= List.length s ->
    (exists Y, replace_from ml r f skip before (s ++ [c0]) = Y ++ [c0])
    \/ (exists Y bef a y,
          replace_from ml r f skip before (s ++ [c0])
          = Y ++ f (Found (a ++ [c0]) (caps y))
          /\ match_here ml r bef (a ++ [c0]) = Some y
          /\ ahead y = []).
Proof.
  intros Hend.
  assert (Whole : forall bef after y,
             match_here ml r bef after = Some y ->
             List.length after
             <= List.length (between (MState bef after []) y) ->
             ahead y = [] /\ between (MState bef after []) y = after).
  { intros bef after y M L.
    pose proof (lands_shorter ml r _ y (match_lands ml r _ _ y M)) as Ls.
    unfold between in *. cbn [ahead] in *. rewrite length_firstn in L.
    assert (Z : List.length (ahead y) = 0) by lia.
    split; [destruct (ahead y); [reflexivity | discriminate]|].
    rewrite Z, Nat.sub_0_r. apply firstn_all. }
  induction s as [|c t IH]; intros before skip Hs.
  - assert (skip = 0) by (simpl in Hs; lia). subst skip. cbn [app].
    rewrite replace_from_cons.
    destruct (match_here ml r before [c0]) as [y|] eqn:M.
    + destruct (List.length (between (MState before [c0] []) y)) as [|n] eqn:Lw.
      * left. rewrite (replace_past_end ml r f Hend [] (c0 :: before)) by (simpl; lia).
        eexists. reflexivity.
      * right. destruct (Whole _ _ _ M) as [Ay Ew]; [rewrite Lw; simpl; lia|].
        exists [], before, [], y. cbn [app]. rewrite Ew.
        rewrite (replace_past_end ml r f Hend) by (simpl; lia).
        rewrite app_nil_r. auto.
    + left. rewrite (replace_past_end ml r f Hend [] (c0 :: before)) by (simpl; lia).
      exists []. reflexivity.
  - destruct skip as [|n].
    + cbn [app]. rewrite replace_from_cons.
      destruct (match_here ml r before (c :: t ++ [c0])) as [y|] eqn:M.
      * destruct (List.length (between (MState before (c :: t ++ [c0]) []) y))
          as [|n] eqn:Lw.
        -- destruct (IH (c :: before) 0) as [[Y E] | (Y & bef & a & y' & E & My & Ay)];
             [lia | |]; rewrite E.
           ++ left. eexists (_ ++ c :: Y). rewrite <- app_assoc. reflexivity.
           ++ right. exists (f (Found (between (MState before (c :: t ++ [c0]) []) y) (caps y))
                             ++ c :: Y), bef, a, y'.
              rewrite <- app_assoc. auto.
        -- destruct (Nat.le_gt_cases n (List.length t)) as [Ln|Ln].
           ++ destruct (IH (c :: before) n Ln)
                as [[Y E] | (Y & bef & a & y' & E & My & Ay)]; rewrite E.
              ** left. eexists (_ ++ Y). rewrite <- app_assoc. reflexivity.
              ** right. exists (f (Found (between (MState before (c :: t ++ [c0]) []) y) (caps y))
                                ++ Y), bef, a, y'.
                 rewrite <- app_assoc. auto.
           ++ right. destruct (Whole _ _ _ M) as [Ay Ew].
              { rewrite Lw. cbn [List.length]. rewrite length_app. simpl. lia. }
              exists [], before, (c :: t), y. cbn [app]. rewrite Ew.
              rewrite (replace_past_end ml r f Hend)
                by (rewrite length_app; simpl; lia).
              rewrite app_nil_r. auto.
      * destruct (IH (c :: before) 0) as [[Y E] | (Y & bef & a & y' & E & My & Ay)];
          [lia | |]; rewrite E.
        -- left. exists (c :: Y). reflexivity.
        -- right. exists (c :: Y), bef, a, y'. auto.
    + cbn [app replace_from]. apply IH. simpl in Hs. lia.
Qed.

(** A pass whose replacements do not end with a pipe makes no text end
    with a pipe that did not. *)
Lemma pass_keeps_end (r : regex) (f : found -> jsstring) :
  nullable r = false ->
  (forall Y m, ends_row (Y ++ f m) = false) ->
  forall X, ends_row X = false -> ends_row (replace_all false r f X) = false.
Proof.
  intros Hn Hf X Hx. unfold replace_all.
  destruct X as [|c0 s] using rev_ind.
  - cbn [replace_from]. rewrite nonnull_at_end by exact Hn. reflexivity.
  - rewrite ends_row_last in Hx.
    destruct (tail_shape false r f c0 (fun bef => nonnull_at_end false r bef Hn)
                s [] 0 (Nat.le_0_l _))
      as [[Y E] | (Y & bef & a & y & E & _)]; rewrite E.
    + rewrite ends_row_last. exact Hx.
    + apply Hf.
Qed.

Lemma fence_keeps_end (X : jsstring) :
  ends_row X = false -> ends_row (pass_fence X) = false.
Proof.
  apply pass_keeps_end; [reflexivity|]. intros Y m.
  rewrite !app_assoc. apply ends_row_app. discriminate.
Qed.

Lemma inline_keeps_end (X : jsstring) :
  ends_row X = false -> ends_row (pass_inline X) = false.
Proof.
  apply pass_keeps_end; [reflexivity|]. intros Y m.
  rewrite !app_assoc. apply ends_row_app. discriminate.
Qed.

(** **** The list pass *)

Lemma group_is_whole (ml : bool) (i : nat) (a : regex)
    (before after : jsstring) (y : mstate) :
  match_here ml (Group i a) before after = Some y ->
  get_cap i (caps y) = between (MState before after []) y.
Proof.
  intros M. apply match_lands in M. apply lands_group_inv in M.
  destruct M as (y0 & _ & ->). cbn [set_cap caps get_cap].
  rewrite Nat.eqb_refl. reflexivity.
Qed.

(** After the list pass a text that ended with a line feed ends with
    that line feed, or with the line feed and the end of a list. *)
Lemma li_run_tail (X : jsstring) :
  exists Z L, pass_li_run (X ++ [NL]) = Z ++ NL :: L
              /\ (L = [] \/ L = lit "</ul>").
Proof.
  unfold pass_li_run, replace_all.
  destruct (tail_shape false re_li_run
              (fun m => lit "<ul>" ++ grp 1 m ++ lit "</ul>") NL
              (fun bef => nonnull_at_end false re_li_run bef eq_refl)
              X [] 0 (Nat.le_0_l _))
    as [[Y E] | (Y & bef & a & y & E & M & Ay)]; rewrite E.
  - exists Y, []. auto.
  - exists (Y ++ lit "<ul>" ++ a), (lit "</ul>"). split; [|auto].
    unfold grp. cbn [groups].
    rewrite (group_is_whole false 1 _ bef (a ++ [NL]) y M).
    unfold between. cbn [ahead]. rewrite Ay. cbn [List.length].
    rewrite Nat.sub_0_r, firstn_all, <- !app_assoc. reflexivity.
Qed.

(** **** The paragraph and line break passes *)

Lemma paragraph_tail (X : jsstring) :
  ends_with NL (pass_paragraph (X ++ [NL]))
  \/ ends_with (C ">") (pass_paragraph (X ++ [NL])).
Proof.
  unfold pass_paragraph, replace_all.
  destruct (tail_shape false re_nlnl (fun _ => lit "</p><p>") NL
              (fun bef => nonnull_at_end false re_nlnl bef eq_refl)
              X [] 0 (Nat.le_0_l _))
    as [[Y E] | (Y & bef & a & y & E & M & Ay)]; rewrite E.
  - left. exists Y. reflexivity.
  - right. exists (Y ++ lit "</p><p"). rewrite <- app_assoc. reflexivity.
Qed.

(** The line break pass rewrites each line feed where it stands. *)
Lemma pass_break_flat (s : jsstring) :
  pass_break s
  = flat_map (fun c => if char_eqb NL c then lit "<br>" else [c]) s.
Proof.
  unfold pass_break, replace_all.
  assert (G : forall before,
             replace_from false re_nl (fun _ => lit "<br>") 0 before s
             = flat_map (fun c => if char_eqb NL c then lit "<br>" else [c]) s);
    [|apply G].
  induction s as [|c t IH]; intros before; [reflexivity|].
  cbn [replace_from flat_map]. unfold match_here, re_nl, Lit1.
  cbn [Regex.run ahead passed caps].
  destruct (char_eqb NL c).
  - unfold between. cbn [ahead List.length caps].
    replace (S (List.length t) - List.length t) with 1 by lia.
    cbn [firstn List.length]. rewrite IH. reflexivity.
  - rewrite IH. reflexivity.
Qed.

Lemma pass_break_tail (A : jsstring) :
  ends_with NL A \/ ends_with (C ">") A -> ends_with (C ">") (pass_break A).
Proof.
  intros [[A' ->] | [A' ->]]; rewrite pass_break_flat, flat_map_app.
  - exists (flat_map (fun c => if char_eqb NL c then lit "<br>" else [c]) A'
            ++ lit "<br").
    cbn [flat_map]. change (char_eqb NL NL) with true. cbv iota.
    rewrite <- !app_assoc. reflexivity.
  - eexists. cbn [flat_map]. change (char_eqb NL (C ">")) with false. cbv iota.
    reflexivity.
Qed.

(** **** The pass that opens blocks *)

Lemma class_excludes (ps : list (char -> bool)) (c : char) (w : jsstring) :
  forallb (fun x => existsb (fun p => p x) ps) w = true ->
  existsb (fun p => p c) ps = false ->
  ~ In c w.
Proof.
  intros Hw Hc Hin. rewrite forallb_forall in Hw.
  rewrite (Hw c Hin) in Hc. discriminate.
Qed.

Lemma still_has (D : jsstring) (c : char) :
  forallb still D = true -> In c D -> still c = true.
Proof. intros H Hin. rewrite forallb_forall in H. exact (H c Hin). Qed.

Lemma open_block_keeps_still (H D : jsstring) :
  ends_with (C ">") H ->
  forallb still D = true ->
  pass_open_block (H ++ D) = pass_open_block H ++ D.
Proof.
  intros [H' ->] Hd. unfold pass_open_block, replace_all.
  apply replace_ext; [| |lia].
  - intros p a E. apply match_ext; [left; reflexivity|].
    intros y Hy.
    destruct (Nat.le_gt_cases (List.length D) (List.length (ahead y))) as [L|L];
      [exact L|]. exfalso.
    unfold re_open_block, Cat in Hy. cbn [fold_right] in Hy.
    apply lands_seq_inv in Hy. destruct Hy as (y1 & H1 & Hy).
    apply lands_seq_inv in Hy. destruct Hy as (y2 & H2 & Hy).
    apply lands_eps_inv in Hy. subst y2.
    apply lands_lits in H1. cbn [ahead] in H1.
    apply lands_all in H2. destruct H2 as (w & E2 & P2).
    rewrite E2 in H1.
    change (lit "<p><" ++ w ++ ahead y) with ((lit "<p><" ++ w) ++ ahead y) in H1.
    destruct (tail_of_both a D _ (ahead y) H1) as [u Eu]; [lia|].
    assert (Nu : u <> []).
    { intros ->. rewrite Eu in L. simpl in L. lia. }
    rewrite Eu, app_assoc in H1. apply app_inv_tail in H1.
    assert (Ult : ~ In (C "<") u).
    { intros Hin. assert (S : still (C "<") = true)
        by (apply (still_has D); [exact Hd | rewrite Eu; apply in_or_app; auto]).
      discriminate. }
    assert (Wgt : ~ In (C ">") w)
      by (apply (class_excludes _ _ _ P2); reflexivity).
    destruct a as [|a0 a1] using rev_ind.
    + cbn [app] in H1. subst u. apply Ult. left. reflexivity.
    + clear IHa1. rewrite app_assoc in E. apply last_of_both in E.
      destruct E as [_ <-]. rewrite <- app_assoc in H1. cbn [app] in H1.
      destruct a1 as [|x1 [|x2 [|x3 a2]]]; cbn [app] in H1.
      * inversion H1.
      * inversion H1.
      * inversion H1; subst. apply Ult. left. reflexivity.
      * inversion H1; subst. destruct a2 as [|x4 a3]; cbn [app] in *.
        -- match goal with E : _ :: _ = _ :: _ |- _ => inversion E end.
        -- match goal with E : _ :: _ = _ :: _ |- _ => inversion E; subst end.
           apply Wgt. apply in_or_app. right. left. reflexivity.
  - intros d1 d2 E _. unfold match_here.
    apply (no_match_first false re_open_block (char_eqb (C "<")) eq_refl).
    cbn [ahead]. destruct d2 as [|c t]; [exact Logic.I|].
    assert (S : still c = true)
      by (apply (still_has D); [exact Hd | rewrite E; apply in_or_app; right; left; reflexivity]).
    apply still_parts in S. apply S.
Qed.

(** **** The passes anchored at the start of a line *)

Lemma opens_nothing_head (s : jsstring) (q : char -> bool) :
  opens_nothing s = true ->
  (forall c, q c = true ->
             (char_eqb c (C "#") || char_eqb c (C "-") || char_eqb c 8226%N
              || is_digit c || char_eqb c (C ">"))%bool = true) ->
  match s with [] => True | c :: _ => q c = false end.
Proof.
  intros Ho Hq. destruct s as [|c t]; [exact Logic.I|].
  unfold opens_nothing, opens_no_block in Ho.
  apply andb_true_iff in Ho. destruct Ho as [Ho1 Ho2].
  apply negb_true_iff in Ho1, Ho2.
  destruct (q c) eqn:E; [|reflexivity].
  specialize (Hq c E). rewrite Ho1, Ho2 in Hq. discriminate.
Qed.

Lemma line_passes_keep (Tl : jsstring) :
  forallb (fun c => negb (is_line_terminator c)) Tl = true ->
  opens_nothing Tl = true ->
  forall X,
    pass_h3 (X ++ NL :: Tl) = pass_h3 X ++ NL :: Tl
    /\ pass_h2 (X ++ NL :: Tl) = pass_h2 X ++ NL :: Tl
    /\ pass_ul_item (X ++ NL :: Tl) = pass_ul_item X ++ NL :: Tl
    /\ pass_ol_item (X ++ NL :: Tl) = pass_ol_item X ++ NL :: Tl
    /\ pass_quote (X ++ NL :: Tl) = pass_quote X ++ NL :: Tl
    /\ pass_hr (X ++ NL :: Tl) = pass_hr X ++ NL :: Tl.
Proof.
  intros Hlt Ho X.
  unfold pass_h3, pass_h2, pass_ul_item, pass_ol_item, pass_quote, pass_hr.
  repeat split.
  - change re_h3 with (Seq Bol (Cat [Str "### "; Group 1 (Plus true Dot); Eol])).
    apply (line_pass_keeps_tail _ _ (char_eqb (C "#"))); try reflexivity; [exact Hlt|].
    apply (opens_nothing_head _ _ Ho). intros c Hc. unfold char_eqb in *.
    rewrite N.eqb_sym in Hc. rewrite Hc. reflexivity.
  - change re_h2 with (Seq Bol (Cat [Str "## "; Group 1 (Plus true Dot); Eol])).
    apply (line_pass_keeps_tail _ _ (char_eqb (C "#"))); try reflexivity; [exact Hlt|].
    apply (opens_nothing_head _ _ Ho). intros c Hc. unfold char_eqb in *.
    rewrite N.eqb_sym in Hc. rewrite Hc. reflexivity.
  - change re_ul_item with
      (Seq Bol (Cat [Chr (fun c => char_eqb c (C "-") || char_eqb c 8226%N);
                     Lit1 (C " "); Group 1 (Plus true Dot); Eol])).
    apply (line_pass_keeps_tail _ _ (fun c => char_eqb c (C "-") || char_eqb c 8226%N));
      try reflexivity; [exact Hlt|].
    apply (opens_nothing_head _ _ Ho). intros c Hc.
    apply orb_true_iff in Hc. destruct Hc as [Hc|Hc]; rewrite Hc;
      rewrite ?orb_true_r; reflexivity.
  - change re_ol_item with
      (Seq Bol (Cat [Plus true (Chr is_digit); Lit1 (C "."); Lit1 (C " ");
                     Group 1 (Plus true Dot); Eol])).
    apply (line_pass_keeps_tail _ _ is_digit); try reflexivity; [exact Hlt|].
    apply (opens_nothing_head _ _ Ho). intros c Hc. rewrite Hc.
    rewrite ?orb_true_r. reflexivity.
  - change re_quote with (Seq Bol (Cat [Str "> "; Group 1 (Plus true Dot); Eol])).
    apply (line_pass_keeps_tail _ _ (char_eqb (C ">"))); try reflexivity; [exact Hlt|].
    apply (opens_nothing_head _ _ Ho). intros c Hc. unfold char_eqb in *.
    rewrite N.eqb_sym in Hc. rewrite Hc. rewrite ?orb_true_r. reflexivity.
  - change re_hr with (Seq Bol (Cat [Str "--"; Plus true (Lit1 (C "-")); Eol])).
    apply (line_pass_keeps_tail _ _ (char_eqb (C "-"))); try reflexivity; [exact Hlt|].
    apply (opens_nothing_head _ _ Ho). intros c Hc. unfold char_eqb in *.
    rewrite N.eqb_sym in Hc. rewrite Hc. rewrite ?orb_true_r. reflexivity.
Qed.

Lemma still_no_terminator (D : jsstring) :
  forallb still D = true ->
  forallb (fun c => negb (is_line_terminator c)) D = true.
Proof.
  apply forallb_impl. intros c Hc. apply still_parts in Hc.
  apply negb_true_iff. apply Hc.
Qed.

Lemma still_cons (c : char) (D : jsstring) :
  still c = true -> forallb still D = true -> forallb still (c :: D) = true.
Proof. intros H1 H2. cbn [forallb]. rewrite H1, H2. reflexivity. Qed.

(** The passes whose matches end with a unit that neither a line feed
    nor still markup is. *)
Lemma closing_pass_keeps_line (r : regex) (f : found -> jsstring)
    (ps : list (char -> bool)) (S D : jsstring) :
  no_eol r = true -> nullable r = false -> last_set r = ps ->
  (forall c, still c = true -> existsb (fun p => p c) ps = false) ->
  avoids ps S = true ->
  forallb still D = true ->
  forall H, replace_all false r f (H ++ S ++ D) = replace_all false r f H ++ S ++ D.
Proof.
  intros He Hn Hl Hp Hs Hd. apply pass_keeps_tail; [exact He | exact Hn|].
  rewrite Hl, avoids_app, Hs. apply avoids_still; assumption.
Qed.

(** All the passes, on a line feed behind a text that does not end a
    table row, with still markup behind it: the markup stays behind. *)
Lemma passes_keep_still (X D : jsstring) :
  ends_row X = false ->
  forallb still D = true ->
  opens_nothing D = true ->
  fold_left (fun h pass => pass h) passes (X ++ [NL] ++ D)
  = fold_left (fun h pass => pass h) passes (X ++ [NL]) ++ D.
Proof.
  intros Hx Hd Ho.
  pose proof (still_no_terminator D Hd) as Hlt.
  unfold passes. cbn [fold_left].
  (* the code passes *)
  assert (F : forall S, avoids [char_eqb (C "`")] S = true ->
              forall Y, pass_fence (Y ++ S ++ D) = pass_fence Y ++ S ++ D).
  { intros S HS. apply (closing_pass_keeps_line re_fence _ _ S D eq_refl eq_refl fence_ends);
      [still_avoids | exact HS | exact Hd]. }
  assert (F0 : forall Y S, avoids [char_eqb (C "`")] S = true ->
               pass_fence (Y ++ S) = pass_fence Y ++ S).
  { intros Y S HS. apply (pass_keeps_tail re_fence _ S eq_refl eq_refl).
    rewrite fence_ends. exact HS. }
  rewrite (F [NL] eq_refl), (F0 X [NL] eq_refl).
  apply fence_keeps_end in Hx.
  generalize dependent (pass_fence X). clear X F F0. intros X Hx.
  assert (F : forall S, avoids [char_eqb (C "`")] S = true ->
              forall Y, pass_inline (Y ++ S ++ D) = pass_inline Y ++ S ++ D).
  { intros S HS. apply (closing_pass_keeps_line re_inline _ _ S D eq_refl eq_refl inline_ends);
      [still_avoids | exact HS | exact Hd]. }
  assert (F0 : forall Y S, avoids [char_eqb (C "`")] S = true ->
               pass_inline (Y ++ S) = pass_inline Y ++ S).
  { intros Y S HS. apply (pass_keeps_tail re_inline _ S eq_refl eq_refl).
    rewrite inline_ends. exact HS. }
  rewrite (F [NL] eq_refl), (F0 X [NL] eq_refl).
  apply inline_keeps_end in Hx.
  generalize dependent (pass_inline X). clear X F F0. intros X Hx.
  (* the table pass *)
  assert (T : pass_table (X ++ [NL] ++ D) = pass_table (X ++ [NL]) ++ D).
  { rewrite app_assoc.
    apply (closing_pass_keeps_still re_table _ _ D eq_refl eq_refl table_ends_with);
      [still_avoids | exact Hd]. }
  rewrite T, (table_keeps_line_feed X Hx). clear T Hx.
  generalize (pass_table X). clear X. intros X.
  rewrite <- app_assoc. cbn [app].
  (* headings *)
  destruct (line_passes_keep D Hlt Ho) with (X := X) as (L3 & _).
  destruct (line_passes_keep [] eq_refl eq_refl) with (X := X) as (L3' & _).
  rewrite L3, L3'. generalize (pass_h3 X). clear X L3 L3'. intros X.
  destruct (line_passes_keep D Hlt Ho) with (X := X) as (_ & L2 & _).
  destruct (line_passes_keep [] eq_refl eq_refl) with (X := X) as (_ & L2' & _).
  rewrite L2, L2'. generalize (pass_h2 X). clear X L2 L2'. intros X.
  (* bold and italic *)
  assert (F : forall S, avoids [char_eqb (C "*")] S = true ->
              forall Y, pass_bold (Y ++ S ++ D) = pass_bold Y ++ S ++ D).
  { intros S HS. apply (closing_pass_keeps_line re_bold _ _ S D eq_refl eq_refl bold_ends);
      [still_avoids | exact HS | exact Hd]. }
  assert (F0 : forall Y S, avoids [char_eqb (C "*")] S = true ->
               pass_bold (Y ++ S) = pass_bold Y ++ S).
  { intros Y S HS. apply (pass_keeps_tail re_bold _ S eq_refl eq_refl).
    rewrite bold_ends. exact HS. }
  rewrite (F [NL] eq_refl), (F0 X [NL] eq_refl).
  generalize (pass_bold X). clear X F F0. intros X.
  assert (F : forall S, avoids [char_eqb (C "*")] S = true ->
              forall Y, pass_italic (Y ++ S ++ D) = pass_italic Y ++ S ++ D).
  { intros S HS. apply (closing_pass_keeps_line re_italic _ _ S D eq_refl eq_refl italic_ends);
      [still_avoids | exact HS | exact Hd]. }
  assert (F0 : forall Y S, avoids [char_eqb (C "*")] S = true ->
               pass_italic (Y ++ S) = pass_italic Y ++ S).
  { intros Y S HS. apply (pass_keeps_tail re_italic _ S eq_refl eq_refl).
    rewrite italic_ends. exact HS. }
  rewrite (F [NL] eq_refl), (F0 X [NL] eq_refl).
  generalize (pass_italic X). clear X F F0. intros X.
  cbn [app].
  (* list items *)
  destruct (line_passes_keep D Hlt Ho) with (X := X) as (_ & _ & Lu & _).
  destruct (line_passes_keep [] eq_refl eq_refl) with (X := X) as (_ & _ & Lu' & _).
  rewrite Lu, Lu'. generalize (pass_ul_item X). clear X Lu Lu'. intros X.
  assert (T : pass_li_run (X ++ NL :: D) = pass_li_run (X ++ [NL]) ++ D).
  { change (X ++ NL :: D) with (X ++ [NL] ++ D). rewrite app_assoc.
    apply (closing_pass_keeps_still re_li_run _ _ D eq_refl eq_refl li_run_ends);
      [still_avoids | exact Hd]. }
  rewrite T. clear T.
  destruct (li_run_tail X) as (Z & L & EL & HL). rewrite EL. clear X EL.
  rewrite <- app_assoc. cbn [app].
  assert (Llt : forallb (fun c => negb (is_line_terminator c)) (L ++ D) = true).
  { rewrite forallb_app, Hlt, andb_true_r. destruct HL as [-> | ->]; reflexivity. }
  assert (Llt' : forallb (fun c => negb (is_line_terminator c)) L = true)
    by (destruct HL as [-> | ->]; reflexivity).
  assert (Lo : opens_nothing (L ++ D) = true)
    by (destruct HL as [-> | ->]; [exact Ho | reflexivity]).
  assert (Lo' : opens_nothing L = true) by (destruct HL as [-> | ->]; reflexivity).
  destruct (line_passes_keep (L ++ D) Llt Lo) with (X := Z) as (_ & _ & _ & K1 & _).
  destruct (line_passes_keep L Llt' Lo') with (X := Z) as (_ & _ & _ & K1' & _).
  rewrite K1, K1'. generalize (pass_ol_item Z). clear Z K1 K1'. intros Z.
  destruct (line_passes_keep (L ++ D) Llt Lo) with (X := Z) as (_ & _ & _ & _ & K2 & _).
  destruct (line_passes_keep L Llt' Lo') with (X := Z) as (_ & _ & _ & _ & K2' & _).
  rewrite K2, K2'. generalize (pass_quote Z). clear Z K2 K2'. intros Z.
  destruct (line_passes_keep (L ++ D) Llt Lo) with (X := Z) as (_ & _ & _ & _ & _ & K3).
  destruct (line_passes_keep L Llt' Lo') with (X := Z) as (_ & _ & _ & _ & _ & K3').
  rewrite K3, K3'. generalize (pass_hr Z). clear Z K3 K3'. intros Z.
  (* links *)
  assert (ALs : avoids [char_eqb (C ")")] (NL :: L) = true)
    by (destruct HL as [-> | ->]; reflexivity).
  assert (F : pass_link (Z ++ NL :: L ++ D) = pass_link Z ++ NL :: L ++ D).
  { change (Z ++ NL :: L ++ D) with (Z ++ (NL :: L) ++ D).
    apply (closing_pass_keeps_line re_link _ _ (NL :: L) D eq_refl eq_refl link_ends);
      [still_avoids | exact ALs | exact Hd]. }
  assert (F0 : pass_link (Z ++ NL :: L) = pass_link Z ++ NL :: L).
  { apply (pass_keeps_tail re_link _ (NL :: L) eq_refl eq_refl).
    rewrite link_ends. exact ALs. }
  rewrite F, F0. generalize (pass_link Z). clear Z F F0. intros Z.
  (* paragraphs and line breaks *)
  assert (P : pass_paragraph (Z ++ NL :: L ++ D) = pass_paragraph (Z ++ NL :: L) ++ D).
  { change (Z ++ NL :: L ++ D) with (Z ++ (NL :: L) ++ D). rewrite app_assoc.
    apply (closing_pass_keeps_still re_nlnl _ _ D eq_refl eq_refl nlnl_ends);
      [still_avoids | exact Hd]. }
  rewrite P. clear P.
  assert (Pt : ends_with NL (pass_paragraph (Z ++ NL :: L))
               \/ ends_with (C ">") (pass_paragraph (Z ++ NL :: L))).
  { destruct HL as [-> | ->].
    - apply paragraph_tail.
    - right. change (Z ++ NL :: lit "</ul>") with (Z ++ [NL] ++ lit "</ul>").
      rewrite app_assoc.
      unfold pass_paragraph.
      rewrite (pass_keeps_tail re_nlnl _ (lit "</ul>") eq_refl eq_refl eq_refl).
      eexists (_ ++ lit "</ul"). rewrite <- app_assoc. reflexivity. }
  generalize dependent (pass_paragraph (Z ++ NL :: L)). clear Z. intros A Pt.
  assert (B : pass_break (A ++ D) = pass_break A ++ D).
  { apply (closing_pass_keeps_still re_nl _ _ D eq_refl eq_refl nl_ends);
      [still_avoids | exact Hd]. }
  rewrite B. clear B. apply pass_break_tail in Pt.
  generalize dependent (pass_break A). clear A. intros A Pt.
  (* blocks *)
  rewrite (open_block_keeps_still A D Pt Hd).
  generalize (pass_open_block A). clear A Pt. intros A.
  apply (closing_pass_keeps_still re_close_block _ _ D eq_refl eq_refl close_block_ends);
    [still_avoids | exact Hd].
Qed.

Lemma escape_char_still (c : char) :
  settled c = true -> forallb still (escape_char c) = true.
Proof.
  intros Hc. unfold escape_char.
  destruct (char_eqb c (C "&")); [reflexivity|].
  destruct (char_eqb c (C "<")) eqn:E1; [reflexivity|].
  destruct (char_eqb c (C ">")) eqn:E2; [reflexivity|].
  destruct (char_eqb c 160%N); [reflexivity|].
  cbn [forallb]. unfold still. rewrite Hc, E1, E2. reflexivity.
Qed.

Lemma escapeHtml_still (s : jsstring) :
  forallb settled s = true -> forallb still (escapeHtml s) = true.
Proof.
  induction s as [|c t IH]; [reflexivity|]. cbn [forallb]. intros H.
  apply andb_true_iff in H. destruct H as [Hc Ht].
  change (escapeHtml (c :: t)) with (escape_char c ++ escapeHtml t).
  rewrite forallb_app, (escape_char_still c Hc), (IH Ht). reflexivity.
Qed.

Lemma escapeHtml_keeps_end (s : jsstring) :
  ends_row s = false -> ends_row (escapeHtml s) = false.
Proof.
  destruct s as [|c t] using rev_ind; [reflexivity|].
  rewrite ends_row_last, escapeHtml_app. intros Hc.
  rewrite ends_row_app.
  - cbn [escapeHtml flat_map]. rewrite app_nil_r. unfold escape_char.
    destruct (char_eqb c (C "&")); [reflexivity|].
    destruct (char_eqb c (C "<")); [reflexivity|].
    destruct (char_eqb c (C ">")); [reflexivity|].
    destruct (char_eqb c 160%N); [reflexivity|].
    exact Hc.
  - apply escapeHtml_nonempty. discriminate.
Qed.

(** Behind a line feed that does not follow the end of a table row, text
    that completes nothing is rendered as itself, escaped, and the render
    of the text before it stays as it is. *)
Lemma render_behind_line_feed (T D : jsstring) :
  ends_row T = false ->
  forallb settled D = true -> opens_no_block D = true ->
  renderMarkdown (T ++ [NL] ++ D) = renderMarkdown (T ++ [NL]) ++ escapeHtml D.
Proof.
  intros Hr Hs Ho.
  assert (R : forall s, s <> [] ->
              renderMarkdown s
              = fold_left (fun html pass => pass html) passes (escapeHtml s))
    by (intros [|c t] N; [contradiction | reflexivity]).
  rewrite (R (T ++ [NL] ++ D)), (R (T ++ [NL]));
    try (destruct T; discriminate).
  rewrite !escapeHtml_app. change (escapeHtml [NL]) with [NL].
  apply passes_keep_still;
    [apply escapeHtml_keeps_end; exact Hr | apply escapeHtml_still; exact Hs
    | apply escapeHtml_opens_nothing; exact Ho].
Qed.

(** C4, as the code has it. The render is a function of the text alone,
    and it grows with the text in these cases. On plain text (no
    backtick, pipe, asterisk, opening bracket or line terminator, and a
    first unit that opens no heading, list item or rule) the render of
    [T] followed by [D] is the render of [T] followed by [D] escaped. And
    for every text [T], whatever tables, headings, lists and code blocks
    it has: when [D] holds no backtick, pipe, asterisk, closing
    parenthesis or line terminator and opens no heading, list item or
    rule, the render of [T], a line feed and [D] is the render of [T]
    and the line feed, unchanged, followed by [D] escaped, provided [T]
    does not end with a pipe; and behind a blank line the same holds
    with no condition on [T]. *)
Theorem render_grows_with_plain_text (T D : jsstring) :
  (forallb calm (T ++ D) = true -> opens_no_block (T ++ D) = true ->
   renderMarkdown (T ++ D) = renderMarkdown T ++ escapeHtml D
   /\ is_prefix (renderMarkdown T) (renderMarkdown (T ++ D)))
  /\ (forallb settled D = true -> opens_no_block D = true ->
      (ends_row T = false ->
       renderMarkdown (T ++ [NL] ++ D) = renderMarkdown (T ++ [NL]) ++ escapeHtml D
       /\ is_prefix (renderMarkdown (T ++ [NL])) (renderMarkdown (T ++ [NL] ++ D)))
      /\ renderMarkdown (T ++ [NL; NL] ++ D)
         = renderMarkdown (T ++ [NL; NL]) ++ escapeHtml D
      /\ is_prefix (renderMarkdown (T ++ [NL; NL]))
                   (renderMarkdown (T ++ [NL; NL] ++ D))).
Proof.
  split.
  - intros Hc Ho.
    assert (E : renderMarkdown (T ++ D) = renderMarkdown T ++ escapeHtml D).
    { rewrite (renderMarkdown_plain (T ++ D) Hc Ho), escapeHtml_app.
      rewrite forallb_app in Hc. apply andb_true_iff in Hc. destruct Hc as [HT HD].
      destruct T as [|c t]; [reflexivity|].
      rewrite (renderMarkdown_plain (c :: t) HT Ho). reflexivity. }
    split; [exact E|]. exists (escapeHtml D). exact E.
  - intros Hs Ho. split.
    + intros Hr. pose proof (render_behind_line_feed T D Hr Hs Ho) as E.
      split; [exact E|]. exists (escapeHtml D). exact E.
    + assert (E : renderMarkdown (T ++ [NL; NL] ++ D)
                  = renderMarkdown (T ++ [NL; NL]) ++ escapeHtml D).
      { change (T ++ [NL; NL] ++ D) with (T ++ [NL] ++ [NL] ++ D).
        change (T ++ [NL; NL]) with (T ++ [NL] ++ [NL]).
        rewrite !app_assoc. rewrite <- (app_assoc (T ++ [NL]) [NL] D).
        apply render_behind_line_feed; [apply ends_row_last | exact Hs | exact Ho]. }
      split; [exact E|]. exists (escapeHtml D). exact E.
Qed.

Lemma render_grows_with_plain_text_witness :
  (renderMarkdown (lit "Today's" ++ lit " sales: 100 & more")
   = renderMarkdown (lit "Today's") ++ escapeHtml (lit " sales: 100 & more"))
  /\ renderMarkdown (report_text ++ [NL] ++ lit "Total: 100 [1] & more")
     = renderMarkdown (report_text ++ [NL]) ++ lit "Total: 100 [1] &amp; more"
  /\ renderMarkdown (report_text ++ [NL; NL] ++ lit "Total: 100 [1] & more")
     = renderMarkdown (report_text ++ [NL; NL]) ++ lit "Total: 100 [1] &amp; more"
  /\ occurs (lit "<h2>Sales</h2>") (renderMarkdown (report_text ++ [NL])) = true
  /\ occurs (lit "<table><tr><th>item</th><th>qty</th></tr><tr><td>tea</td><td>100</td></tr></table>")
            (renderMarkdown (report_text ++ [NL])) = true
  /\ occurs (lit "<ul><li>first <code>x</code></li>")
            (renderMarkdown (report_text ++ [NL])) = true
  /\ occurs (lit "<pre><code>a = 1<br></code></pre>")
            (renderMarkdown (report_text ++ [NL])) = true.
Proof.
  destruct (render_grows_with_plain_text (lit "Today's") (lit " sales: 100 & more"))
    as [P _].
  destruct (render_grows_with_plain_text report_text (lit "Total: 100 [1] & more"))
    as [_ Q].
  destruct (Q eq_refl eq_refl) as (Q1 & Q2 & _).
  split; [apply P; reflexivity|].
  split; [apply Q1; reflexivity|].
  split; [exact Q2|].
  vm_compute. repeat split; reflexivity.
Defined.

(** The claim C4 as stated fails: structure of the render of [T] can be
    gone from the render of [T] with text appended. While a code fence is
    open, a line in it is rendered as a heading; once the fence is closed
    the heading is code text. A closing [**] likewise turns an emphasis
    rendered earlier into part of a bold span. And behind a table row
    that ends a heading line, the table takes the line feed, so that a
    word appended behind the line feed is drawn into the heading. *)
Lemma render_is_not_monotonic :
  let T := lit "```" ++ [NL] ++ lit "## H" ++ [NL] in
  let D := lit "```" in
  let T2 := lit "## Q1 |a|b|" ++ [NL] ++ lit "|1|2|" in
  renderMarkdown T = lit "```<br><h2>H</h2><br>"
  /\ renderMarkdown (T ++ D) = lit "<pre><code>## H<br></code></pre>"
  /\ occurs (lit "<h2>H</h2>") (renderMarkdown T) = true
  /\ occurs (lit "<h2") (renderMarkdown (T ++ D)) = false
  /\ ~ is_prefix (renderMarkdown T) (renderMarkdown (T ++ D))
  /\ renderMarkdown (lit "**a* b*") = lit "<em>*a</em> b*"
  /\ renderMarkdown (lit "**a* b*" ++ lit "*") = lit "<strong>a* b</strong>"
  /\ ends_row T2 = true
  /\ renderMarkdown (T2 ++ [NL])
     = lit "<h2>Q1 <table><tr><th>a</th><th>b</th></tr><tr><td>1</td><td>2</td></tr></table></h2>"
  /\ renderMarkdown (T2 ++ [NL] ++ lit "more")
     = lit "<h2>Q1 <table><tr><th>a</th><th>b</th></tr><tr><td>1</td><td>2</td></tr></table>more</h2>"
  /\ ~ is_prefix (renderMarkdown (T2 ++ [NL])) (renderMarkdown (T2 ++ [NL] ++ lit "more")).
Proof.
  intros T D T2.
  assert (E1 : renderMarkdown T = lit "```<br><h2>H</h2><br>") by (vm_compute; reflexivity).
  assert (E2 : renderMarkdown (T ++ D) = lit "<pre><code>## H<br></code></pre>")
    by (vm_compute; reflexivity).
  assert (E3 : renderMarkdown (T2 ++ [NL])
               = lit "<h2>Q1 <table><tr><th>a</th><th>b</th></tr><tr><td>1</td><td>2</td></tr></table></h2>")
    by (vm_compute; reflexivity).
  assert (E4 : renderMarkdown (T2 ++ [NL] ++ lit "more")
               = lit "<h2>Q1 <table><tr><th>a</th><th>b</th></tr><tr><td>1</td><td>2</td></tr></table>more</h2>")
    by (vm_compute; reflexivity).
  split; [exact E1|]. split; [exact E2|].
  split; [vm_compute; reflexivity|]. split; [vm_compute; reflexivity|].
  split; [intros [rest H]; rewrite E1, E2 in H; vm_compute in H; discriminate|].
  split; [vm_compute; reflexivity|]. split; [vm_compute; reflexivity|].
  split; [reflexivity|]. split; [exact E3|]. split; [exact E4|].
  intros [rest H]. rewrite E3, E4 in H. vm_compute in H. discriminate.
Qed.

(** *** Code in the renderer *)


Lemma replace_step_none (ml : bool) (r : regex) (f : found -> jsstring)
    (before : jsstring) (c : char) (t : jsstring) :
  match_here ml r before (c :: t) = None ->
  replace_from ml r f 0 before (c :: t) = c :: replace_from ml r f 0 (c :: before) t.
Proof. intros H. simpl. rewrite H. reflexivity. Qed.

Lemma replace_quiet_prefix (ml : bool) (r : regex) (f : found -> jsstring)
    (q : char -> bool) :
  first_class r = Some q ->
  forall (pre before post : jsstring),
    forallb (fun c => negb (q c)) pre = true ->
    replace_from ml r f 0 before (pre ++ post)
    = pre ++ replace_from ml r f 0 (rev pre ++ before) post.
Proof.
  intros Hq pre. induction pre as [|c t IH]; intros before post Hp; [reflexivity|].
  simpl in Hp. apply andb_true_iff in Hp. destruct Hp as [Hc Ht].
  change ((c :: t) ++ post) with (c :: (t ++ post)).
  rewrite replace_step_none.
  - rewrite IH by exact Ht. simpl. rewrite <- app_assoc. reflexivity.
  - unfold match_here. apply (no_match_first ml r q Hq). simpl.
    destruct (q c); [discriminate | reflexivity].
Qed.

Lemma replace_skip_all (ml : bool) (r : regex) (f : found -> jsstring)
    (t before : jsstring) :
  match_here ml r (rev t ++ before) [] = None ->
  replace_from ml r f (List.length t) before t = [].
Proof.
  revert before. induction t as [|c t IH]; intros before H; simpl in *.
  - rewrite H. reflexivity.
  - apply IH. rewrite <- app_assoc in H. exact H.
Qed.

(** A greedy run over units of one class takes them all when the rest of
    the pattern then matches. *)
Lemma star_greedy_all (p : char -> bool)
    (body : mstate -> (mstate -> option mstate) -> option mstate)
    (k : mstate -> option mstate) (z : mstate) :
  (forall x k', body x k' =
                match ahead x with
                | [] => None
                | c :: t => if p c then k' (MState (c :: passed x) t (caps x))
                            else None
                end) ->
  forall (pre post pas : jsstring) (cs : list (nat * jsstring)) (n : nat),
    forallb p pre = true ->
    match post with [] => True | c :: _ => p c = false end ->
    List.length pre < n ->
    k (MState (rev pre ++ pas) post cs) = Some z ->
    star_loop body true k n (MState pas (pre ++ post) cs) = Some z.
Proof.
  intros Hbody pre.
  induction pre as [|c t IH]; intros post pas cs n Hp Hpost Hn Hk.
  - destruct n as [|n']; [simpl in Hn; lia|].
    cbn [star_loop app]. rewrite Hbody. cbn [ahead].
    destruct post as [|d post']; simpl in *.
    + exact Hk.
    + rewrite Hpost. simpl. exact Hk.
  - destruct n as [|n']; [simpl in Hn; lia|].
    simpl in Hp. apply andb_true_iff in Hp. destruct Hp as [Hc Ht].
    cbn [star_loop app]. rewrite Hbody. cbn [ahead passed caps]. rewrite Hc.
    assert (L : Nat.ltb (List.length (t ++ post)) (List.length (c :: t ++ post)) = true)
      by (apply Nat.ltb_lt; simpl; lia).
    rewrite L.
    rewrite (IH post (c :: pas) cs n' Ht Hpost); [reflexivity | simpl in Hn; lia |].
    simpl in Hk. rewrite <- app_assoc in Hk. exact Hk.
Qed.

Lemma firstn_all_but (a b : jsstring) :
  firstn (List.length (a ++ b) - List.length b) (a ++ b) = a.
Proof.
  rewrite length_app. replace (List.length a + List.length b - List.length b)
    with (List.length a) by lia.
  rewrite firstn_app, Nat.sub_diag, firstn_all. simpl. apply app_nil_r.
Qed.




Lemma replace_whole_match (ml : bool) (r : regex) (f : found -> jsstring)
    (s : jsstring) (y : mstate) :
  s <> [] ->
  match_here ml r [] s = Some y ->
  ahead y = [] ->
  (forall before, match_here ml r before [] = None) ->
  replace_from ml r f 0 [] s = f (Found s (caps y)).
Proof.
  intros Hs Hy Hah Hend. destruct s as [|c t]; [contradiction|].
  cbn [replace_from]. rewrite Hy. unfold between. cbn [ahead]. rewrite Hah.
  cbn [List.length]. rewrite Nat.sub_0_r.
  change (firstn (S (List.length t)) (c :: t)) with (c :: firstn (List.length t) t).
  rewrite firstn_all. cbn [List.length].
  rewrite replace_skip_all by apply Hend. apply app_nil_r.
Qed.

Lemma run_lit (ml : bool) (a : char) (x : mstate) (k : mstate -> option mstate) :
  Regex.run ml (Lit1 a) x k =
  match ahead x with
  | c :: t => if char_eqb a c then k (MState (c :: passed x) t (caps x)) else None
  | [] => None
  end.
Proof. reflexivity. Qed.


Ltac tagged_quiet :=
  rewrite !forallb_app; apply andb_true_iff; split; [reflexivity|];
  apply andb_true_iff; split; [quiet_pass | reflexivity].










(** * Sharing, the panel, the renderer's elements, and what every run keeps *)

(** ** Sharing a reply *)

Lemma in_range_iff (lo hi c : char) :
  in_range lo hi c = true <-> (lo <= c /\ c <= hi)%N.
Proof.
  unfold in_range. rewrite andb_true_iff, !N.leb_le. tauto.
Qed.

Lemma hex_digit_unreserved (n : N) :
  (n < 16)%N -> Share.uri_unreserved (Share.hex_digit n) = true.
Proof.
  intros H. unfold Share.hex_digit, Share.uri_unreserved.
  destruct (n <? 10)%N eqn:E.
  - apply N.ltb_lt in E.
    assert (D : is_digit (48 + n)%N = true)
      by (unfold is_digit; apply in_range_iff; lia).
    rewrite D, orb_true_r. reflexivity.
  - apply N.ltb_ge in E.
    assert (D : Share.is_alpha (55 + n)%N = true).
    { unfold Share.is_alpha. apply orb_true_iff. left. apply in_range_iff. lia. }
    rewrite D. reflexivity.
Qed.

Lemma percent_safe (octet : N) :
  (octet < 256)%N -> forallb uri_safe (Share.percent octet) = true.
Proof.
  intros H. unfold Share.percent, uri_safe. cbn [forallb].
  rewrite (hex_digit_unreserved (octet / 16)), (hex_digit_unreserved (octet mod 16)).
  - reflexivity.
  - apply N.mod_lt. discriminate.
  - apply N.Div0.div_lt_upper_bound. lia.
Qed.

Lemma utf8_octets (cp : N) :
  (cp < 1114112)%N -> Forall (fun o => (o < 256)%N) (Share.utf8 cp).
Proof.
  intros H. unfold Share.utf8.
  assert (M : forall a, (128 + a mod 64 < 256)%N).
  { intros a. pose proof (N.mod_lt a 64). lia. }
  destruct (cp <? 128)%N eqn:E1; [apply N.ltb_lt in E1; repeat constructor; lia|].
  destruct (cp <? 2048)%N eqn:E2.
  { apply N.ltb_lt in E2. repeat constructor; [|apply M].
    assert (cp / 64 < 32)%N by (apply N.Div0.div_lt_upper_bound; lia). lia. }
  destruct (cp <? 65536)%N eqn:E3.
  { apply N.ltb_lt in E3. repeat constructor; try apply M.
    assert (cp / 4096 < 16)%N by (apply N.Div0.div_lt_upper_bound; lia). lia. }
  repeat constructor; try apply M.
  assert (cp / 262144 < 5)%N by (apply N.Div0.div_lt_upper_bound; lia). lia.
Qed.

Lemma utf8_length (cp : N) :
  List.length (Share.utf8 cp) <= 4
  /\ ((cp < 65536)%N -> List.length (Share.utf8 cp) <= 3).
Proof.
  unfold Share.utf8.
  destruct (cp <? 128)%N; [simpl; lia|].
  destruct (cp <? 2048)%N; [simpl; lia|].
  destruct (cp <? 65536)%N eqn:E; [simpl; lia|].
  apply N.ltb_ge in E. simpl. split; [lia|]. intros H. lia.
Qed.

Lemma escape_safe (cp : N) :
  (cp < 1114112)%N ->
  forallb uri_safe (Share.escape cp) = true
  /\ List.length (Share.escape cp) = 3 * List.length (Share.utf8 cp).
Proof.
  intros H. unfold Share.escape.
  pose proof (utf8_octets cp H) as O.
  induction O as [|o l Ho Hl IH]; [split; reflexivity|].
  destruct IH as [IH1 IH2]. cbn [flat_map]. split.
  - rewrite forallb_app, (percent_safe o Ho), IH1. reflexivity.
  - rewrite length_app, IH2. simpl. lia.
Qed.

Lemma surrogates (c : char) :
  (Share.is_high_surrogate c = true -> Share.is_low_surrogate c = false
                                       /\ Share.uri_unreserved c = false)
  /\ (Share.is_low_surrogate c = true -> Share.uri_unreserved c = false).
Proof.
  assert (U : (128 <= c)%N -> Share.uri_unreserved c = false).
  { intros H. unfold Share.uri_unreserved, Share.is_alpha, is_digit, in_range, char_eqb.
    simpl.
    repeat match goal with
           | |- context [N.leb c ?k] =>
               replace (N.leb c k) with false by (symmetry; apply N.leb_gt; lia)
           | |- context [N.eqb c ?k] =>
               replace (N.eqb c k) with false by (symmetry; apply N.eqb_neq; lia)
           end.
    rewrite ?andb_false_r. reflexivity. }
  unfold Share.is_high_surrogate, Share.is_low_surrogate. split.
  - intros H. apply in_range_iff in H. split; [|apply U; lia].
    destruct (in_range 56320 57343 c)%N eqn:E; [|reflexivity].
    apply in_range_iff in E. lia.
  - intros H. apply in_range_iff in H. apply U. lia.
Qed.

Lemma code_point_bound (hi lo : char) :
  Share.is_high_surrogate hi = true -> Share.is_low_surrogate lo = true ->
  (Share.code_point hi lo < 1114112)%N.
Proof.
  unfold Share.is_high_surrogate, Share.is_low_surrogate, Share.code_point.
  intros H L. apply in_range_iff in H. apply in_range_iff in L. lia.
Qed.

Lemma uri_unreserved_safe (c : char) :
  Share.uri_unreserved c = true -> uri_safe c = true.
Proof. intros H. unfold uri_safe. rewrite H. reflexivity. Qed.

(** What [encodeURIComponent] returns holds only unreserved units and
    escapes, at most nine units for each unit of the text; and it throws
    exactly on a text with a lone surrogate. *)
Lemma encode_safe (n : nat) :
  forall s, List.length s <= n -> code_units s ->
    match Share.encodeURIComponent s with
    | Some e => well_paired s = true
                /\ forallb uri_safe e = true
                /\ List.length e <= 9 * List.length s
    | None => well_paired s = false
    end.
Proof.
  induction n as [|n IH]; intros s Hn Hs.
  - destruct s; [simpl; auto | simpl in Hn; lia].
  - destruct s as [|c t]; [simpl; auto|].
    inversion Hs as [|? ? Hc Ht]; subst.
    assert (Lt : List.length t <= n) by (simpl in Hn; lia).
    cbn [Share.encodeURIComponent well_paired].
    destruct (Share.uri_unreserved c) eqn:U.
    + assert (L : Share.is_low_surrogate c = false).
      { destruct (Share.is_low_surrogate c) eqn:E; [|reflexivity].
        apply (proj2 (surrogates c)) in E. congruence. }
      assert (H : Share.is_high_surrogate c = false).
      { destruct (Share.is_high_surrogate c) eqn:E; [|reflexivity].
        apply (proj1 (surrogates c)) in E. destruct E. congruence. }
      rewrite L, H. specialize (IH t Lt Ht).
      destruct (Share.encodeURIComponent t) as [e|]; simpl; [|exact IH].
      destruct IH as (I1 & I2 & I3).
      rewrite (uri_unreserved_safe c U), I2. repeat split; auto. lia.
    + destruct (Share.is_low_surrogate c) eqn:L; [reflexivity|].
      destruct (Share.is_high_surrogate c) eqn:H.
      * destruct t as [|d t']; [reflexivity|].
        destruct (Share.is_low_surrogate d) eqn:Ld; [|reflexivity].
        inversion Ht as [|? ? Hd Ht']; subst.
        assert (Lt' : List.length t' <= n) by (simpl in Lt; lia).
        specialize (IH t' Lt' Ht').
        destruct (Share.encodeURIComponent t') as [e|]; simpl; [|exact IH].
        destruct IH as (I1 & I2 & I3).
        pose proof (code_point_bound c d H Ld) as B.
        destruct (escape_safe _ B) as [E1 E2].
        pose proof (proj1 (utf8_length (Share.code_point c d))) as E3.
        rewrite forallb_app, E1, I2, length_app, E2.
        repeat split; auto. lia.
      * specialize (IH t Lt Ht).
        destruct (Share.encodeURIComponent t) as [e|]; simpl; [|exact IH].
        destruct IH as (I1 & I2 & I3).
        assert (B : (c < 1114112)%N) by lia.
        destruct (escape_safe _ B) as [E1 E2].
        pose proof (proj2 (utf8_length c) Hc) as E3.
        rewrite forallb_app, E1, I2, length_app, E2.
        repeat split; auto. lia.
Qed.

Lemma encode_lone_surrogate (n : nat) :
  forall a c d r, List.length a <= n ->
    Share.is_high_surrogate c = true -> Share.is_low_surrogate d = false ->
    Share.encodeURIComponent (a ++ c :: d :: r) = None.
Proof.
  induction n as [|n IH]; intros a c d r Hn Hc Hd.
  - destruct a; [|simpl in Hn; lia].
    destruct (proj1 (surrogates c) Hc) as [L U].
    cbn [app Share.encodeURIComponent]. rewrite U, L, Hc, Hd. reflexivity.
  - destruct a as [|x a].
    + apply (IH []); [simpl; lia | exact Hc | exact Hd].
    + cbn [app Share.encodeURIComponent].
      assert (La : List.length a <= n) by (simpl in Hn; lia).
      destruct (Share.uri_unreserved x); [rewrite IH by assumption; reflexivity|].
      destruct (Share.is_low_surrogate x); [reflexivity|].
      destruct (Share.is_high_surrogate x).
      * destruct a as [|y a']; cbn [app].
        -- destruct (proj1 (surrogates c) Hc) as [L _]. rewrite L. reflexivity.
        -- destruct (Share.is_low_surrogate y); [|reflexivity].
           rewrite IH; [reflexivity | simpl in La; lia | exact Hc | exact Hd].
      * rewrite IH by assumption. reflexivity.
Qed.

Lemma firstn_snoc {A : Type} (l : list A) (n : nat) (a : A) :
  nth_error l n = Some a -> firstn (S n) l = firstn n l ++ [a].
Proof.
  revert n. induction l as [|x t IH]; intros [|n] H; simpl in *; try discriminate.
  - inversion H; reflexivity.
  - rewrite <- IH by exact H. reflexivity.
Qed.

Lemma truncated_length (s : jsstring) : List.length (Share.truncated s) <= 1803.
Proof.
  unfold Share.truncated, substring0.
  destruct (Nat.ltb 1800 (List.length s)) eqn:E.
  - rewrite length_app, length_firstn. simpl List.length at 2. lia.
  - apply Nat.ltb_ge in E. lia.
Qed.

Lemma truncated_units (s : jsstring) : code_units s -> code_units (Share.truncated s).
Proof.
  unfold Share.truncated, substring0, code_units. intros H.
  destruct (Nat.ltb 1800 (List.length s)); [|exact H].
  apply Forall_app. split; [|repeat constructor].
  generalize 1800. induction H as [|x l Hx Hl IH]; intros [|n]; simpl;
    constructor; auto.
Qed.

Lemma truncated_short (s : jsstring) :
  List.length s <= 1800 -> Share.truncated s = s.
Proof.
  intros H. unfold Share.truncated.
  replace (Nat.ltb 1800 (List.length s)) with false; [reflexivity|].
  symmetry. apply Nat.ltb_ge. exact H.
Qed.

Lemma encode_truncated (s : jsstring) :
  code_units s ->
  match Share.encodeURIComponent (Share.truncated s) with
  | Some e => well_paired (Share.truncated s) = true
              /\ forallb uri_safe e = true /\ List.length e <= 9 * 1803
  | None => well_paired (Share.truncated s) = false
  end.
Proof.
  intros H.
  pose proof (encode_safe _ _ (Nat.le_refl _) (truncated_units s H)) as E.
  pose proof (truncated_length s) as L.
  destruct (Share.encodeURIComponent (Share.truncated s)); [|exact E].
  destruct E as (E1 & E2 & E3). repeat split; auto. lia.
Qed.

(** X1. [shareViaWhatsApp] does nothing for a missing or empty text.
    For any other text it either throws a URIError, and then the text
    cut at 1800 units holds a surrogate without its partner, or opens
    in a new tab, with noopener and noreferrer, the address
    https://wa.me/?text= followed by unreserved units and percent
    escapes only, at most 9 * 1803 of them. A well-paired text of at
    most 1800 units is always shared, and encoded whole. *)
Theorem whatsapp_link_is_well_formed (t : text) :
  code_units (text_str t) ->
  (truthy t = false -> Share.shareViaWhatsApp t = Share.Nothing)
  /\ (truthy t = true ->
      (well_paired (Share.truncated (text_str t)) = false
       /\ Share.shareViaWhatsApp t = Share.URIError)
      \/ exists e,
           Share.shareViaWhatsApp t
           = Share.Open (lit "https://wa.me/?text=" ++ e) (lit "_blank")
                        (lit "noopener,noreferrer")
           /\ forallb uri_safe e = true
           /\ List.length e <= 9 * 1803)
  /\ (truthy t = true -> List.length (text_str t) <= 1800 ->
      well_paired (text_str t) = true ->
      exists e, Share.encodeURIComponent (text_str t) = Some e
                /\ Share.shareViaWhatsApp t
                   = Share.Open (lit "https://wa.me/?text=" ++ e) (lit "_blank")
                                (lit "noopener,noreferrer")).
Proof.
  intros H. unfold Share.shareViaWhatsApp.
  split; [intros T; rewrite T; reflexivity|]. split.
  - intros T. rewrite T. cbn [negb].
    pose proof (encode_truncated _ H) as E.
    destruct (Share.encodeURIComponent (Share.truncated (text_str t))) as [e|].
    + right. exists e. destruct E as (_ & E2 & E3). auto.
    + left. auto.
  - intros T L W. rewrite T. cbn [negb]. rewrite (truncated_short _ L).
    pose proof (encode_safe _ _ (Nat.le_refl _) H) as E.
    destruct (Share.encodeURIComponent (text_str t)) as [e|].
    + exists e. auto.
    + congruence.
Qed.

Lemma whatsapp_link_is_well_formed_witness :
  code_units (lit "Sales: 100 & up")
  /\ exists e,
       Share.shareViaWhatsApp (Some (lit "Sales: 100 & up"))
       = Share.Open (lit "https://wa.me/?text=" ++ e) (lit "_blank")
                    (lit "noopener,noreferrer")
       /\ e = lit "Sales%3A%20100%20%26%20up".
Proof.
  assert (U : code_units (text_str (Some (lit "Sales: 100 & up"))))
    by (repeat constructor).
  split; [exact U|].
  destruct (whatsapp_link_is_well_formed (Some (lit "Sales: 100 & up")) U)
    as (_ & _ & H).
  destruct (H eq_refl) as (e & He & Hs); [simpl; lia | reflexivity |].
  exists e. split; [exact Hs|].
  vm_compute in He. injection He as He. symmetry. exact He.
Defined.

(** X2. A text of more than 1800 units whose 1800th unit is the first
    half of a surrogate pair is cut through the pair: [shareViaWhatsApp]
    and [shareViaEmail] both throw a URIError and share nothing, even
    when the text itself is well paired. *)
Theorem cut_through_a_pair_throws (s : jsstring) (c : char) :
  1800 < List.length s ->
  nth_error s 1799 = Some c ->
  Share.is_high_surrogate c = true ->
  Share.shareViaWhatsApp (Some s) = Share.URIError
  /\ Share.shareViaEmail (Some s) = Share.URIError.
Proof.
  intros L N H.
  assert (T : truthy (Some s) = true) by (destruct s; [simpl in L; lia | reflexivity]).
  assert (E : Share.encodeURIComponent (Share.truncated s) = None).
  { unfold Share.truncated, substring0.
    replace (Nat.ltb 1800 (List.length s)) with true
      by (symmetry; apply Nat.ltb_lt; exact L).
    change 1800 with (S 1799). rewrite (firstn_snoc s 1799 c N), <- app_assoc.
    apply (encode_lone_surrogate _ _ c _ _ (Nat.le_refl _) H). reflexivity. }
  unfold Share.shareViaWhatsApp, Share.shareViaEmail.
  rewrite T. cbn [negb text_str]. rewrite E.
  split; [reflexivity|].
  destruct (Share.encodeURIComponent (tr "Business Insight from AskERP")); reflexivity.
Qed.

Lemma cut_through_a_pair_throws_witness :
  let s := repeat 97%N 1799 ++ [55357%N; 56832%N] in
  well_paired s = true
  /\ Share.shareViaWhatsApp (Some s) = Share.URIError
  /\ Share.shareViaEmail (Some s) = Share.URIError.
Proof.
  intros s. split; [vm_compute; reflexivity|].
  apply (cut_through_a_pair_throws s 55357%N).
  - apply Nat.ltb_lt. vm_compute. reflexivity.
  - vm_compute. reflexivity.
  - vm_compute. reflexivity.
Defined.

Lemma uri_safe_is_no_delimiter (c : char) :
  uri_safe c = true ->
  negb (char_eqb c (C "&") || char_eqb c (C "?") || char_eqb c (C "=")
        || char_eqb c (C "#")) = true.
Proof.
  intros H. apply negb_true_iff.
  destruct (char_eqb c (C "&")) eqn:E1;
    [apply N.eqb_eq in E1; subst; vm_compute in H; discriminate|].
  destruct (char_eqb c (C "?")) eqn:E2;
    [apply N.eqb_eq in E2; subst; vm_compute in H; discriminate|].
  destruct (char_eqb c (C "=")) eqn:E3;
    [apply N.eqb_eq in E3; subst; vm_compute in H; discriminate|].
  destruct (char_eqb c (C "#")) eqn:E4;
    [apply N.eqb_eq in E4; subst; vm_compute in H; discriminate|].
  reflexivity.
Qed.

(** X3. [shareViaEmail] of a text that is not empty either throws a
    URIError or navigates to a mailto address with the fixed subject and
    a body that holds none of the units &, ?, = and #, so that the
    shared text adds no field to the address; the body is at most
    9 * 1803 units long. *)
Theorem email_body_adds_no_field (t : text) :
  code_units (text_str t) ->
  truthy t = true ->
  Share.shareViaEmail t = Share.URIError
  \/ exists e,
       Share.shareViaEmail t
       = Share.Navigate
           (lit "mailto:?subject=Business%20Insight%20from%20AskERP&body=" ++ e)
       /\ forallb (fun c => negb (char_eqb c (C "&") || char_eqb c (C "?")
                                  || char_eqb c (C "=") || char_eqb c (C "#"))) e
          = true
       /\ List.length e <= 9 * 1803.
Proof.
  intros H T. unfold Share.shareViaEmail. rewrite T. cbn [negb].
  assert (S : Share.encodeURIComponent (tr "Business Insight from AskERP")
              = Some (lit "Business%20Insight%20from%20AskERP"))
    by (vm_compute; reflexivity).
  rewrite S.
  pose proof (encode_truncated _ H) as E.
  destruct (Share.encodeURIComponent (Share.truncated (text_str t))) as [e|];
    [|left; reflexivity].
  right. exists e. destruct E as (_ & E2 & E3).
  split; [|split; [|exact E3]].
  - reflexivity.
  - apply (forallb_impl uri_safe); [apply uri_safe_is_no_delimiter | exact E2].
Qed.

Lemma email_body_adds_no_field_witness :
  exists e,
    Share.shareViaEmail (Some (lit "a&cc=x@y.z"))
    = Share.Navigate
        (lit "mailto:?subject=Business%20Insight%20from%20AskERP&body=" ++ e)
    /\ e = lit "a%26cc%3Dx%40y.z".
Proof.
  destruct (email_body_adds_no_field (Some (lit "a&cc=x@y.z")))
    as [H|(e & He & _)].
  - repeat constructor.
  - reflexivity.
  - vm_compute in H. discriminate.
  - exists e. split; [exact He|].
    vm_compute in He. injection He as He. symmetry. exact He.
Defined.

Lemma feedback_queue (n : nat) :
  Nat.iter (S n) Share.showCopyFeedback Share.copy_button
  = Share.Button Share.CheckIcon true (Share.CopyIcon :: repeat Share.CheckIcon n).
Proof.
  induction n as [|n IH]; [reflexivity|].
  change (Nat.iter (S (S n)) Share.showCopyFeedback Share.copy_button)
    with (Share.showCopyFeedback
            (Nat.iter (S n) Share.showCopyFeedback Share.copy_button)).
  rewrite IH. unfold Share.showCopyFeedback. cbn [Share.restores Share.shown].
  f_equal. simpl. rewrite <- repeat_cons. reflexivity.
Qed.

Lemma feedback_drains (n : nat) (g : Share.glyph) (s : bool) :
  Nat.iter (S n) Share.feedback_expires
    (Share.Button g s (repeat Share.CheckIcon (S n)))
  = Share.Button Share.CheckIcon false [].
Proof.
  revert g s. induction n as [|n IH]; intros g s; [reflexivity|].
  rewrite Nat.iter_succ_r.
  change (Share.feedback_expires (Share.Button g s (repeat Share.CheckIcon (S (S n)))))
    with (Share.Button Share.CheckIcon false (repeat Share.CheckIcon (S n))).
  apply IH.
Qed.

(** X4. When a copy button gets its feedback more than once before the
    first feedback timer fires, every later call of [showCopyFeedback]
    keeps the check mark as the content to put back: once all the
    timers have fired the success class is gone but the button shows
    the check mark, not the copy icon. After a single feedback the copy
    icon is back. *)
Theorem repeated_copy_leaves_the_check_mark (n : nat) :
  let clicked := Nat.iter (S n) Share.showCopyFeedback Share.copy_button in
  let settled := Nat.iter (S n) Share.feedback_expires clicked in
  Share.restores settled = []
  /\ Share.success settled = false
  /\ Share.shown settled = match n with
                           | O => Share.CopyIcon
                           | S _ => Share.CheckIcon
                           end.
Proof.
  cbv zeta. rewrite feedback_queue. rewrite Nat.iter_succ_r.
  change (Share.feedback_expires
            (Share.Button Share.CheckIcon true (Share.CopyIcon :: repeat Share.CheckIcon n)))
    with (Share.Button Share.CopyIcon false (repeat Share.CheckIcon n)).
  destruct n as [|n]; [repeat split|].
  rewrite feedback_drains. repeat split.
Qed.

(** ** The page the user is on *)

Lemma truthy_text_str (t : text) : truthy t = true -> text_str t <> [].
Proof. destruct t as [[|c s]|]; simpl; intros H; discriminate. Qed.

(** X5. Whatever the route, the label [detectContext] returns is not
    empty, so the header always shows that label: the fallback
    [Ask me anything] of [updateContext] is never displayed. *)
Theorem header_never_falls_back (route : option (list jsstring)) :
  Context.label (Context.detectContext route) <> []
  /\ Context.header_text route = Context.label (Context.detectContext route).
Proof.
  assert (H : Context.label (Context.detectContext route) <> []).
  { unfold Context.detectContext.
    destruct route as [[|view r]|]; try discriminate.
    set (d := Context.item 1 (view :: r)). set (n := Context.item 2 (view :: r)).
    destruct (Context.same_string view (lit "Form") && truthy d && truthy n) eqn:E1.
    { apply andb_true_iff in E1. destruct E1 as [E1 _].
      apply andb_true_iff in E1. destruct E1 as [_ E1].
      cbn [Context.label]. intros H. apply app_eq_nil in H.
      exact (truthy_text_str d E1 (proj1 H)). }
    destruct (Context.same_string view (lit "List") && truthy d) eqn:E2.
    { apply andb_true_iff in E2. destruct E2 as [_ E2].
      cbn [Context.label]. intros H. apply app_eq_nil in H.
      exact (truthy_text_str d E2 (proj1 H)). }
    destruct (Context.same_string view (lit "Report") && truthy d); [discriminate|].
    destruct (Context.same_string view (lit "modules")); [discriminate|].
    cbn [Context.label]. destruct (truthy d) eqn:E; [|discriminate].
    exact (truthy_text_str d E). }
  split; [exact H|]. unfold Context.header_text. cbv zeta.
  destruct (Context.label (Context.detectContext route)); [contradiction | reflexivity].
Qed.

(** ** The panel *)

Lemma contains_add_same (t : string) (l : Panel.classes) :
  Panel.contains t (Panel.add t l) = true.
Proof.
  unfold Panel.add. destruct (Panel.contains t l) eqn:E; [exact E|].
  unfold Panel.contains. rewrite existsb_app. simpl.
  rewrite String.eqb_refl, orb_true_r. reflexivity.
Qed.

Lemma contains_add_other (t u : string) (l : Panel.classes) :
  String.eqb t u = false ->
  Panel.contains t (Panel.add u l) = Panel.contains t l.
Proof.
  intros H. unfold Panel.add. destruct (Panel.contains u l); [reflexivity|].
  unfold Panel.contains. rewrite existsb_app. simpl. rewrite H.
  rewrite !orb_false_r. reflexivity.
Qed.

Lemma contains_remove_same (t : string) (l : Panel.classes) :
  Panel.contains t (Panel.remove t l) = false.
Proof.
  unfold Panel.contains, Panel.remove.
  induction l as [|x r IH]; simpl; [reflexivity|].
  destruct (String.eqb t x) eqn:E; simpl; [exact IH|]. rewrite E, IH. reflexivity.
Qed.

Lemma contains_remove_other (t u : string) (l : Panel.classes) :
  String.eqb t u = false ->
  Panel.contains t (Panel.remove u l) = Panel.contains t l.
Proof.
  intros H. unfold Panel.contains, Panel.remove.
  induction l as [|x r IH]; simpl; [reflexivity|].
  destruct (String.eqb u x) eqn:E; simpl.
  - apply String.eqb_eq in E. subst x. rewrite H. exact IH.
  - rewrite IH. reflexivity.
Qed.

Ltac classes :=
  repeat first
    [ rewrite contains_add_same
    | rewrite contains_remove_same
    | rewrite contains_add_other by reflexivity
    | rewrite contains_remove_other by reflexivity ].

Lemma saveState_mirrors (p : Panel.page) : mirrors p -> mirrors (Panel.saveState p).
Proof. unfold Panel.saveState. destruct (Panel.writable p); auto. Qed.

Lemma openPanel_mirrors (p : Panel.page) : mirrors p -> mirrors (Panel.openPanel p).
Proof.
  intros (A & B & C & D). unfold Panel.openPanel. apply saveState_mirrors.
  unfold mirrors. simpl. classes. auto.
Qed.

Lemma closePanel_mirrors (p : Panel.page) : mirrors p -> mirrors (Panel.closePanel p).
Proof.
  intros (A & B & C & D). unfold Panel.closePanel. apply saveState_mirrors.
  unfold mirrors. simpl. classes. repeat split; auto. discriminate.
Qed.

Lemma toggleFullscreen_mirrors (p : Panel.page) :
  mirrors p -> mirrors (Panel.toggleFullscreen p).
Proof.
  intros (A & B & C & D). unfold Panel.toggleFullscreen. apply saveState_mirrors.
  unfold mirrors, Panel.toggle. simpl.
  destruct (Panel.isFullscreen p); simpl; classes; auto.
Qed.

Lemma togglePanel_mirrors (p : Panel.page) : mirrors p -> mirrors (Panel.togglePanel p).
Proof.
  intros H. unfold Panel.togglePanel.
  destruct (Panel.isOpen p); [apply closePanel_mirrors | apply openPanel_mirrors]; exact H.
Qed.

Lemma on_engine_mirrors (f : world -> world) (p : Panel.page) :
  mirrors p -> mirrors (Panel.on_engine f p).
Proof. auto. Qed.

Lemma restoreState_mirrors (p : Panel.page) : mirrors p -> mirrors (Panel.restoreState p).
Proof.
  intros H. unfold Panel.restoreState.
  destruct (Panel.storage p) as [| |s]; try exact H.
  set (q := if Panel.saved_isOpen s then _ else p).
  assert (Q : mirrors q).
  { subst q. destruct (Panel.saved_isOpen s); [|exact H].
    pose proof (openPanel_mirrors p H) as (A & B & C & D).
    destruct (Panel.saved_isFullscreen s); [|repeat split; assumption].
    unfold mirrors. simpl. classes. auto. }
  destruct (truthy (Panel.saved_sessionId s) && negb (truthy (sessionId (st (Panel.engine q)))));
    [apply on_engine_mirrors|]; exact Q.
Qed.

Lemma init_mirrors (active : text) (store : Panel.stored) (can_write : bool) :
  mirrors (Panel.init active store can_write).
Proof.
  unfold Panel.init. cbv zeta.
  set (p0 := Panel.Page _ _ _ _ _ _ _ _).
  assert (H0 : mirrors p0) by (unfold mirrors; simpl; auto).
  pose proof (restoreState_mirrors p0 H0) as H1.
  set (p1 := Panel.restoreState p0) in *.
  pose proof (on_engine_mirrors (loadSuggestions None None) p1 H1) as H2.
  destruct (truthy _); [apply on_engine_mirrors|]; exact H2.
Qed.

Lemma act_mirrors (p p' : Panel.page) (a : Panel.action) :
  mirrors p -> Panel.act p a = Some p' -> mirrors p'.
Proof.
  intros H E. destruct a; simpl in E.
  - inversion E; subst. apply togglePanel_mirrors, H.
  - inversion E; subst. apply togglePanel_mirrors, H.
  - inversion E; subst. apply closePanel_mirrors, H.
  - inversion E; subst. apply toggleFullscreen_mirrors, H.
  - inversion E; subst. destruct (Panel.enabled p); [apply togglePanel_mirrors|]; exact H.
  - destruct (step (Panel.engine p) ev); [|discriminate].
    inversion E; subst. apply on_engine_mirrors, H.
Qed.

(** X6. After [init] and any sequence of clicks on the launcher and on
    the minimize, close and maximize buttons, of the keyboard shortcut
    and of events of the chat, the classes agree with the flags of
    [state]: the panel has [askerp-open] exactly when [isOpen], the
    launcher has [askerp-hidden] exactly when [isOpen], the panel has
    [askerp-fullscreen] exactly when [isFullscreen], and the launcher
    does not pulse while the panel is open. *)
Theorem classes_mirror_the_flags
    (active : text) (store : Panel.stored) (can_write : bool)
    (l : list Panel.action) (p : Panel.page) :
  Panel.run_actions (Panel.init active store can_write) l = Some p ->
  Panel.contains "askerp-open" (Panel.panel p) = Panel.isOpen p
  /\ Panel.contains "askerp-hidden" (Panel.launcher p) = Panel.isOpen p
  /\ Panel.contains "askerp-fullscreen" (Panel.panel p) = Panel.isFullscreen p
  /\ (Panel.isOpen p = true -> Panel.contains "askerp-pulse" (Panel.launcher p) = false).
Proof.
  intros H. change (mirrors p).
  pose proof (init_mirrors active store can_write) as M.
  revert H M. generalize (Panel.init active store can_write).
  induction l as [|a rest IH]; intros q H M; simpl in H.
  - inversion H; subst. exact M.
  - destruct (Panel.act q a) as [q'|] eqn:E; [|discriminate].
    exact (IH q' H (act_mirrors q q' a M E)).
Qed.

Lemma classes_mirror_the_flags_witness :
  exists p,
    Panel.run_actions (Panel.init None Panel.Empty true)
      [Panel.ClickLauncher; Panel.ClickMaximize; Panel.Shortcut; Panel.ClickLauncher]
    = Some p
    /\ Panel.isOpen p = true /\ Panel.isFullscreen p = false
    /\ Panel.contains "askerp-open" (Panel.panel p) = true
    /\ Panel.contains "askerp-fullscreen" (Panel.panel p) = false.
Proof.
  eexists. split; [vm_compute; reflexivity|].
  split; [reflexivity|]. split; [reflexivity|].
  match goal with
  | |- Panel.contains _ (Panel.panel ?p) = _ /\ _ =>
      destruct (classes_mirror_the_flags None Panel.Empty true
                  [Panel.ClickLauncher; Panel.ClickMaximize; Panel.Shortcut;
                   Panel.ClickLauncher] p) as (A & _ & Cc & _);
        [vm_compute; reflexivity|]
  end.
  split; [exact A | exact Cc].
Defined.



(** ** The screen context *)

Lemma greedy_run_consumes (p : char -> bool)
    (body : mstate -> (mstate -> option mstate) -> option mstate) :
  (forall x k', body x k' =
                match ahead x with
                | [] => None
                | c :: t => if p c then k' (MState (c :: passed x) t (caps x))
                            else None
                end) ->
  forall n x y,
    star_loop body true Some n x = Some y ->
    List.length (ahead y) <= List.length (ahead x).
Proof.
  intros Hbody. induction n as [|n IH]; intros x y H.
  - simpl in H. inversion H; subst. lia.
  - cbn [star_loop] in H. rewrite Hbody in H.
    destruct (ahead x) as [|c t] eqn:E.
    + simpl in H. inversion H; subst. rewrite E. simpl. lia.
    + destruct (p c).
      * cbn [ahead] in H.
        replace (Nat.ltb (List.length t) (List.length (c :: t))) with true in H
          by (symmetry; apply Nat.ltb_lt; simpl; lia).
        destruct (star_loop body true Some n (MState (c :: passed x) t (caps x)))
          as [z|] eqn:S.
        -- simpl in H. inversion H; subst. apply IH in S. simpl in *. lia.
        -- simpl in H. inversion H; subst. rewrite E. simpl. lia.
      * simpl in H. inversion H; subst. rewrite E. simpl. lia.
Qed.

Lemma greedy_run_succeeds
    (body : mstate -> (mstate -> option mstate) -> option mstate)
    (n : nat) (x : mstate) :
  star_loop body true Some n x <> None.
Proof.
  destruct n as [|n]; simpl; [discriminate|].
  destruct (body x _); discriminate.
Qed.

Lemma squeezed_has_no_space (s : jsstring) :
  forall skip before,
    forallb (fun c => negb (is_space c))
      (replace_from false Screen.re_spaces (fun _ => lit "_") skip before s) = true.
Proof.
  induction s as [|c t IH]; intros skip before.
  - destruct skip; reflexivity.
  - destruct skip as [|n]; [|simpl; apply IH].
    cbn [replace_from]. unfold match_here, Screen.re_spaces, Plus.
    cbn [Regex.run ahead passed caps].
    destruct (is_space c) eqn:Sp.
    + match goal with
      | |- context [star_loop ?b true Some ?n ?x] =>
          destruct (star_loop b true Some n x) as [y|] eqn:Hs
      end.
      * apply (greedy_run_consumes is_space) in Hs; [|intros x k'; reflexivity].
        cbn [ahead] in Hs.
        unfold between. cbn [ahead List.length].
        rewrite forallb_app. cbn [lit list_ascii_of_string map forallb].
        replace (S (List.length t) - List.length (ahead y))
          with (S (List.length t - List.length (ahead y))) by lia.
        cbn [firstn List.length]. apply IH.
      * exfalso. exact (greedy_run_succeeds _ _ _ Hs).
    + cbn [forallb]. rewrite Sp. simpl. apply IH.
Qed.

(** X20. The [screen_context] argument [loadSuggestions] computes holds
    no white space, whatever the route and whatever [toLowerCase]
    returns; it is [dashboard] when the page has no doctype. *)
Theorem screen_context_has_no_space
    (toLowerCase : jsstring -> jsstring) (route : option (list jsstring)) :
  forallb (fun c => negb (is_space c)) (Screen.screen_context toLowerCase route) = true
  /\ (Context.doctype (Context.detectContext route) = None ->
      Screen.screen_context toLowerCase route = lit "dashboard").
Proof.
  unfold Screen.screen_context. cbv zeta. split.
  - destruct (truthy (Context.doctype (Context.detectContext route)));
      [apply squeezed_has_no_space | reflexivity].
  - intros ->. reflexivity.
Qed.

(** *** Escaping *)

Lemma escape_char_cases (c : char) :
  (c = C "&" /\ escape_char c = lit "&amp;")
  \/ (c = C "<" /\ escape_char c = lit "&lt;")
  \/ (c = C ">" /\ escape_char c = lit "&gt;")
  \/ (c = 160%N /\ escape_char c = lit "&nbsp;")
  \/ (c <> C "&" /\ escape_char c = [c]).
Proof.
  unfold escape_char, char_eqb.
  destruct (N.eqb c (C "&")) eqn:E1; [apply N.eqb_eq in E1; auto|].
  destruct (N.eqb c (C "<")) eqn:E2; [apply N.eqb_eq in E2; auto|].
  destruct (N.eqb c (C ">")) eqn:E3; [apply N.eqb_eq in E3; auto|].
  destruct (N.eqb c 160%N) eqn:E4; [apply N.eqb_eq in E4; auto 6|].
  apply N.eqb_neq in E1. auto 6.
Qed.

Lemma escapeHtml_injective (a b : jsstring) :
  escapeHtml a = escapeHtml b -> a = b.
Proof.
  unfold escapeHtml. revert b. induction a as [|x a IH]; intros [|y b] H.
  - reflexivity.
  - exfalso. cbn [flat_map] in H.
    destruct (escape_char_cases y) as [[_ E]|[[_ E]|[[_ E]|[[_ E]|[_ E]]]]];
      rewrite E in H; discriminate.
  - exfalso. cbn [flat_map] in H.
    destruct (escape_char_cases x) as [[_ E]|[[_ E]|[[_ E]|[[_ E]|[_ E]]]]];
      rewrite E in H; discriminate.
  - cbn [flat_map] in H.
    destruct (escape_char_cases x) as [[X E]|[[X E]|[[X E]|[[X E]|[X E]]]]];
      destruct (escape_char_cases y) as [[Y F]|[[Y F]|[[Y F]|[[Y F]|[Y F]]]]];
      rewrite E, F in H; simpl in H;
      try discriminate;
      try (injection H as H; f_equal; [congruence | apply IH; exact H]);
      try (injection H as H1 H; f_equal; [exact H1 | apply IH; exact H]);
      try (injection H as H1 H; exfalso; apply Y; symmetry; exact H1);
      try (injection H as H1 H; exfalso; apply X; exact H1).
Qed.

Lemma escape_char_inert (c : char) : inert (escape_char c) = true.
Proof.
  unfold escape_char.
  destruct (char_eqb c (C "&")); [reflexivity|].
  destruct (char_eqb c (C "<")) eqn:E1; [reflexivity|].
  destruct (char_eqb c (C ">")) eqn:E2; [reflexivity|].
  destruct (char_eqb c 160%N); [reflexivity|].
  unfold inert. simpl. rewrite E1, E2. reflexivity.
Qed.

Lemma escapeHtml_inert (s : jsstring) : inert (escapeHtml s) = true.
Proof.
  unfold inert, escapeHtml. induction s as [|c t IH]; [reflexivity|].
  cbn [flat_map]. rewrite forallb_app, IH, andb_true_r. apply escape_char_inert.
Qed.

(** X8. [escapeHtml] leaves no unit that opens or closes a tag, and no
    two texts have the same escaped form. *)
Theorem escaping_is_inert_and_faithful :
  (forall s, inert (escapeHtml s) = true)
  /\ (forall a b, escapeHtml a = escapeHtml b -> a = b).
Proof.
  split; [exact escapeHtml_inert | exact escapeHtml_injective].
Qed.

(** ** Headings and links in the renderer *)

Lemma lits_match (ml : bool) (m : jsstring) :
  forall (pas rest : jsstring) (cs : list (nat * jsstring))
         (k : mstate -> option mstate),
    Regex.run ml (Lits m) (MState pas (m ++ rest) cs) k
    = k (MState (rev m ++ pas) rest cs).
Proof.
  induction m as [|c t IH]; intros pas rest cs k; [reflexivity|].
  destruct t as [|d t'].
  - cbn [Lits app]. rewrite run_lit. cbn [ahead passed caps].
    unfold char_eqb. rewrite N.eqb_refl. reflexivity.
  - change (Lits (c :: d :: t')) with (Seq (Lit1 c) (Lits (d :: t'))).
    cbn [Regex.run]. rewrite run_lit. cbn [ahead passed caps app].
    unfold char_eqb at 1. rewrite N.eqb_refl.
    change (d :: t' ++ rest) with ((d :: t') ++ rest). rewrite IH.
    cbn [rev]. rewrite <- !app_assoc. reflexivity.
Qed.

Lemma lits_need_input (ml : bool) (c : char) (m pas : jsstring)
    (cs : list (nat * jsstring)) (k : mstate -> option mstate) :
  Regex.run ml (Lits (c :: m)) (MState pas [] cs) k = None.
Proof. destruct m; reflexivity. Qed.

Lemma star_greedy_end (p : char -> bool)
    (body : mstate -> (mstate -> option mstate) -> option mstate)
    (k : mstate -> option mstate) (z : mstate) :
  (forall x k', body x k' =
                match ahead x with
                | [] => None
                | c :: t => if p c then k' (MState (c :: passed x) t (caps x))
                            else None
                end) ->
  forall (pre pas : jsstring) (cs : list (nat * jsstring)) (n : nat),
    forallb p pre = true ->
    List.length pre < n ->
    k (MState (rev pre ++ pas) [] cs) = Some z ->
    star_loop body true k n (MState pas pre cs) = Some z.
Proof.
  intros Hbody pre pas cs n Hp Hn Hk.
  pose proof (star_greedy_all p body k z Hbody pre [] pas cs n Hp Logic.I Hn Hk) as G.
  rewrite app_nil_r in G. exact G.
Qed.

(** A line pattern (a marker at the start of a line, then the rest of
    the line, captured) matches a whole single line that starts with the
    marker. *)
Lemma line_matches (m : jsstring) (c : char) (t : jsstring) :
  forallb (fun x => negb (is_line_terminator x)) (c :: t) = true ->
  exists y,
    match_here true (Cat [Bol; Lits m; Group 1 (Plus true Dot); Eol]) []
               (m ++ c :: t) = Some y
    /\ ahead y = []
    /\ get_cap 1 (caps y) = c :: t.
Proof.
  intros H. simpl in H. apply andb_true_iff in H. destruct H as [Hc Ht].
  eexists. unfold match_here, Cat, Plus, Dot.
  cbn [fold_right Regex.run at_bol passed]. rewrite lits_match.
  cbn [Regex.run ahead passed caps]. rewrite Hc. split.
  - apply (star_greedy_end (fun x => negb (is_line_terminator x))).
    + intros x k'. reflexivity.
    + exact Ht.
    + simpl. lia.
    + cbn [ahead passed caps set_cap Regex.run at_eol]. reflexivity.
  - split; [reflexivity|].
    cbn [caps get_cap Nat.eqb]. unfold between. cbn [ahead List.length].
    rewrite Nat.sub_0_r. rewrite app_nil_r.
    change (firstn (S (List.length t)) (c :: t)) with (c :: firstn (List.length t) t).
    rewrite firstn_all. reflexivity.
Qed.

Lemma line_pass (m0 : char) (m : jsstring) (f : found -> jsstring)
    (c : char) (t : jsstring) :
  forallb (fun x => negb (is_line_terminator x)) (c :: t) = true ->
  exists cs,
    replace_all true (Cat [Bol; Lits (m0 :: m); Group 1 (Plus true Dot); Eol]) f
                ((m0 :: m) ++ c :: t)
    = f (Found ((m0 :: m) ++ c :: t) cs)
    /\ get_cap 1 cs = c :: t.
Proof.
  intros H. destruct (line_matches (m0 :: m) c t H) as (y & Hy & Hah & Hcap).
  exists (caps y). split; [|exact Hcap].
  unfold replace_all. apply (replace_whole_match true _ f _ y); try assumption.
  - discriminate.
  - intros before. unfold match_here, Cat. cbn [fold_right Regex.run].
    destruct (at_bol true _); [|reflexivity]. apply lits_need_input.
Qed.

(** A pass whose pattern begins with [<] and matches at neither of the
    two tags of an element with quiet content leaves the element as it
    is. *)
Lemma element_pass_keeps (r : regex) (f : found -> jsstring) (a b : jsstring) :
  first_class r = Some (char_eqb (C "<")) ->
  forallb (fun c => negb (char_eqb (C "<") c)) a = true ->
  forallb (fun c => negb (char_eqb (C "<") c)) b = true ->
  (forall before, match_here false r before (C "<" :: a ++ C "<" :: b) = None) ->
  (forall before, match_here false r before (C "<" :: b) = None) ->
  replace_from false r f 0 [] (C "<" :: a ++ C "<" :: b) = C "<" :: a ++ C "<" :: b.
Proof.
  intros Hf Ha Hb H1 H2.
  rewrite replace_step_none by apply H1.
  rewrite (replace_quiet_prefix false r f (char_eqb (C "<")) Hf) by exact Ha.
  rewrite replace_step_none by apply H2.
  rewrite (replace_no_trigger false r f (char_eqb (C "<")) Hf) by exact Hb.
  reflexivity.
Qed.

Lemma quiet_no_lt (s : jsstring) :
  forallb quiet s = true -> forallb (fun c => negb (char_eqb (C "<") c)) s = true.
Proof. intros Hq. quiet_pass. Qed.

(** After its own pass, a heading of quiet markup goes through every
    later pass unchanged. *)
Lemma heading_survives (n : char) (eb : jsstring) :
  forallb quiet eb = true ->
  (n = C "2" \/ n = C "3") ->
  let html := lit "<h" ++ [n] ++ lit ">" ++ eb ++ lit "</h" ++ [n] ++ lit ">" in
  fold_left (fun h pass => pass h)
    [pass_bold; pass_italic; pass_ul_item; pass_li_run; pass_ol_item;
     pass_quote; pass_hr; pass_link; pass_paragraph; pass_break;
     pass_open_block; pass_close_block] html
  = html.
Proof.
  intros Hq Hn html.
  assert (Shape : html = C "<" :: (C "h" :: n :: C ">" :: eb) ++ C "<" :: (C "/" :: C "h" :: n :: [C ">"]))
    by reflexivity.
  assert (Hn' : forall q : char -> bool, q (C "2") = false -> q (C "3") = false ->
                                         q n = false)
    by (intros q Q2 Q3; destruct Hn; subst; assumption).
  assert (Hall : forall q : char -> bool,
             q (C "<") = false -> q (C "h") = false -> q (C ">") = false ->
             q (C "/") = false -> q (C "2") = false -> q (C "3") = false ->
             (forall c, quiet c = true -> q c = false) ->
             forallb (fun c => negb (q c)) html = true).
  { intros q Q1 Q2 Q3 Q4 Q5 Q6 Qq. rewrite Shape.
    cbn [forallb app]. rewrite forallb_app. cbn [forallb].
    rewrite Q1, Q2, Q3, Q4, (Hn' q Q5 Q6). cbn [negb andb].
    rewrite andb_true_r. apply (forallb_impl quiet); [|exact Hq].
    intros c Hc. rewrite (Qq c Hc). reflexivity. }
  assert (Hlt : forallb (fun c => negb (is_line_terminator c)) html = true).
  { apply Hall; try reflexivity. intros c Hc. apply quiet_parts in Hc. apply Hc. }
  assert (Ha : forallb (fun c => negb (char_eqb (C "<") c)) (C "h" :: n :: C ">" :: eb) = true).
  { cbn [forallb]. rewrite (Hn' (char_eqb (C "<"))) by reflexivity.
    cbn [negb andb]. apply quiet_no_lt. exact Hq. }
  assert (Hb : forallb (fun c => negb (char_eqb (C "<") c)) (C "/" :: C "h" :: n :: [C ">"]) = true).
  { cbn [forallb]. rewrite (Hn' (char_eqb (C "<"))) by reflexivity. reflexivity. }
  cbn [fold_left].
  unfold pass_bold, pass_italic, pass_ul_item, pass_li_run, pass_ol_item, pass_quote,
    pass_hr, pass_link, pass_paragraph, pass_break, pass_open_block,
    pass_close_block, replace_all.
  rewrite (replace_no_trigger false re_bold _ (char_eqb (C "*")) eq_refl)
    by (apply Hall; try reflexivity; intros c Hc; apply quiet_parts in Hc; apply Hc).
  rewrite (replace_no_trigger false re_italic _ (char_eqb (C "*")) eq_refl)
    by (apply Hall; try reflexivity; intros c Hc; apply quiet_parts in Hc; apply Hc).
  change re_ul_item with
    (Seq Bol (Cat [Chr (fun c => char_eqb c (C "-") || char_eqb c 8226%N);
                   Lit1 (C " "); Group 1 (Plus true Dot); Eol])).
  rewrite (replace_anchored
             (Cat [Chr (fun c => char_eqb c (C "-") || char_eqb c 8226%N);
                   Lit1 (C " "); Group 1 (Plus true Dot); Eol])
             _ (fun c => char_eqb c (C "-") || char_eqb c 8226%N) eq_refl);
    [|exact Hlt | reflexivity].
  rewrite Shape at 1.
  rewrite (element_pass_keeps re_li_run _ _ _ eq_refl Ha Hb);
    [|intros before; reflexivity
     |intros before; destruct Hn; subst n; reflexivity].
  rewrite <- Shape.
  change re_ol_item with
    (Seq Bol (Cat [Plus true (Chr is_digit); Lit1 (C "."); Lit1 (C " ");
                   Group 1 (Plus true Dot); Eol])).
  rewrite (replace_anchored
             (Cat [Plus true (Chr is_digit); Lit1 (C "."); Lit1 (C " ");
                   Group 1 (Plus true Dot); Eol])
             _ is_digit eq_refl); [|exact Hlt | reflexivity].
  change re_quote with (Seq Bol (Cat [Str "> "; Group 1 (Plus true Dot); Eol])).
  rewrite (replace_anchored (Cat [Str "> "; Group 1 (Plus true Dot); Eol])
             _ (char_eqb (C ">")) eq_refl); [|exact Hlt | reflexivity].
  change re_hr with (Seq Bol (Cat [Str "--"; Plus true (Lit1 (C "-")); Eol])).
  rewrite (replace_anchored (Cat [Str "--"; Plus true (Lit1 (C "-")); Eol])
             _ (char_eqb (C "-")) eq_refl); [|exact Hlt | reflexivity].
  rewrite (replace_no_trigger false re_link _ (char_eqb (C "[")) eq_refl)
    by (apply Hall; try reflexivity; intros c Hc; apply quiet_parts in Hc; apply Hc).
  rewrite (replace_no_trigger false re_nlnl _ (char_eqb NL) eq_refl)
    by (apply Hall; try reflexivity; intros c Hc; apply quiet_parts in Hc; apply Hc).
  rewrite (replace_no_trigger false re_nl _ (char_eqb NL) eq_refl)
    by (apply Hall; try reflexivity; intros c Hc; apply quiet_parts in Hc; apply Hc).
  rewrite Shape at 1.
  rewrite (element_pass_keeps re_open_block _ _ _ eq_refl Ha Hb);
    [|intros before; reflexivity | intros before; reflexivity].
  rewrite (element_pass_keeps re_close_block _ _ _ eq_refl Ha Hb);
    [|intros before; reflexivity
     |intros before; destruct Hn; subst n; reflexivity].
  symmetry. exact Shape.
Qed.

Lemma quiet_line (s : jsstring) :
  forallb quiet s = true ->
  forallb (fun c => negb (is_line_terminator c)) s = true.
Proof. intros Hq. quiet_pass. Qed.

Lemma marked_line_plain (m eb : jsstring) (q : char -> bool) :
  forallb (fun c => negb (q c)) m = true ->
  (forall c, quiet c = true -> q c = false) ->
  forallb quiet eb = true ->
  forallb (fun c => negb (q c)) (m ++ eb) = true.
Proof.
  intros Hm Hq He. rewrite forallb_app, Hm. simpl.
  apply (forallb_impl quiet); [|exact He].
  intros c Hc. rewrite (Hq c Hc). reflexivity.
Qed.

(** The first three passes leave a marked line of quiet markup alone. *)
Lemma code_and_table_passes_skip (m eb : jsstring) :
  forallb quiet eb = true ->
  forallb (fun c => negb (char_eqb (C "`") c)) m = true ->
  forallb (fun c => negb (char_eqb (C "|") c)) m = true ->
  pass_table (pass_inline (pass_fence (m ++ eb))) = m ++ eb.
Proof.
  intros Hq H1 H2. unfold pass_fence, pass_inline, pass_table, replace_all.
  rewrite (replace_no_trigger false re_fence _ (char_eqb (C "`")) eq_refl)
    by (apply marked_line_plain; [exact H1 | | exact Hq];
        intros c Hc; apply quiet_parts in Hc; apply Hc).
  rewrite (replace_no_trigger false re_inline _ (char_eqb (C "`")) eq_refl)
    by (apply marked_line_plain; [exact H1 | | exact Hq];
        intros c Hc; apply quiet_parts in Hc; apply Hc).
  rewrite (replace_no_trigger false re_table _ (char_eqb (C "|")) eq_refl)
    by (apply marked_line_plain; [exact H2 | | exact Hq];
        intros c Hc; apply quiet_parts in Hc; apply Hc).
  reflexivity.
Qed.

Lemma h3_pass_skips_h2 (eb : jsstring) :
  forallb quiet eb = true ->
  pass_h3 (lit "## " ++ eb) = lit "## " ++ eb.
Proof.
  intros Hq. unfold pass_h3, replace_all.
  change (lit "## " ++ eb) with (C "#" :: (C "#" :: C " " :: eb)).
  rewrite replace_step_none by reflexivity.
  change re_h3 with (Seq Bol (Cat [Str "### "; Group 1 (Plus true Dot); Eol])).
  rewrite (replace_anchored (Cat [Str "### "; Group 1 (Plus true Dot); Eol])
             _ (char_eqb (C "#")) eq_refl); [reflexivity | | reflexivity].
  cbn [forallb]. apply quiet_line in Hq. rewrite Hq. reflexivity.
Qed.

Lemma h2_pass_wraps (eb : jsstring) :
  eb <> [] -> forallb quiet eb = true ->
  pass_h2 (lit "## " ++ eb) = lit "<h2>" ++ eb ++ lit "</h2>".
Proof.
  intros Hne Hq. destruct eb as [|c t]; [contradiction|].
  unfold pass_h2.
  change re_h2 with (Cat [Bol; Lits (C "#" :: lit "# "); Group 1 (Plus true Dot); Eol]).
  destruct (line_pass (C "#") (lit "# ")
              (fun m => lit "<h2>" ++ grp 1 m ++ lit "</h2>") c t (quiet_line _ Hq))
    as (cs & E & Hcap).
  change (lit "## " ++ c :: t) with ((C "#" :: lit "# ") ++ c :: t).
  rewrite E. unfold grp. cbn [groups]. rewrite Hcap. reflexivity.
Qed.

Lemma h3_pass_wraps (eb : jsstring) :
  eb <> [] -> forallb quiet eb = true ->
  pass_h3 (lit "### " ++ eb) = lit "<h3>" ++ eb ++ lit "</h3>".
Proof.
  intros Hne Hq. destruct eb as [|c t]; [contradiction|].
  unfold pass_h3.
  change re_h3 with (Cat [Bol; Lits (C "#" :: lit "## "); Group 1 (Plus true Dot); Eol]).
  destruct (line_pass (C "#") (lit "## ")
              (fun m => lit "<h3>" ++ grp 1 m ++ lit "</h3>") c t (quiet_line _ Hq))
    as (cs & E & Hcap).
  change (lit "### " ++ c :: t) with ((C "#" :: lit "## ") ++ c :: t).
  rewrite E. unfold grp. cbn [groups]. rewrite Hcap. reflexivity.
Qed.

Lemma h2_pass_skips_h3 (eb : jsstring) :
  forallb quiet eb = true ->
  pass_h2 (lit "<h3>" ++ eb ++ lit "</h3>") = lit "<h3>" ++ eb ++ lit "</h3>".
Proof.
  intros Hq. unfold pass_h2, replace_all.
  change re_h2 with (Seq Bol (Cat [Str "## "; Group 1 (Plus true Dot); Eol])).
  rewrite (replace_anchored (Cat [Str "## "; Group 1 (Plus true Dot); Eol])
             _ (char_eqb (C "#")) eq_refl); [reflexivity | | reflexivity].
  tagged_quiet.
Qed.

(** X17. A one-line message made of [## ] or [### ] and a text that is
    not empty and has no backquote, bar, star, opening bracket or line
    break is rendered as one [h2], respectively [h3], element around
    the escaped text, and nothing else: no paragraph wraps it. *)
Theorem heading_is_rendered (T : jsstring) :
  T <> [] ->
  forallb calm T = true ->
  renderMarkdown (lit "## " ++ T) = lit "<h2>" ++ escapeHtml T ++ lit "</h2>"
  /\ renderMarkdown (lit "### " ++ T) = lit "<h3>" ++ escapeHtml T ++ lit "</h3>".
Proof.
  intros Hne Hc.
  pose proof (escapeHtml_quiet T Hc) as Hq.
  pose proof (escapeHtml_nonempty T Hne) as Hne'.
  split.
  - change (renderMarkdown (lit "## " ++ T))
      with (fold_left (fun html pass => pass html) passes (escapeHtml (lit "## " ++ T))).
    rewrite escapeHtml_app. change (escapeHtml (lit "## ")) with (lit "## ").
    unfold passes. cbn [fold_left].
    rewrite (code_and_table_passes_skip (lit "## ") _ Hq eq_refl eq_refl).
    rewrite (h3_pass_skips_h2 _ Hq), (h2_pass_wraps _ Hne' Hq).
    exact (heading_survives (C "2") _ Hq (or_introl eq_refl)).
  - change (renderMarkdown (lit "### " ++ T))
      with (fold_left (fun html pass => pass html) passes (escapeHtml (lit "### " ++ T))).
    rewrite escapeHtml_app. change (escapeHtml (lit "### ")) with (lit "### ").
    unfold passes. cbn [fold_left].
    rewrite (code_and_table_passes_skip (lit "### ") _ Hq eq_refl eq_refl).
    rewrite (h3_pass_wraps _ Hne' Hq), (h2_pass_skips_h3 _ Hq).
    exact (heading_survives (C "3") _ Hq (or_intror eq_refl)).
Qed.

Lemma heading_is_rendered_witness :
  renderMarkdown (lit "## " ++ lit "Sales & returns (Q1)")
  = lit "<h2>Sales &amp; returns (Q1)</h2>"
  /\ renderMarkdown (lit "### " ++ lit "Sales & returns (Q1)")
     = lit "<h3>Sales &amp; returns (Q1)</h3>".
Proof.
  apply (heading_is_rendered (lit "Sales & returns (Q1)"));
    [discriminate | vm_compute; reflexivity].
Defined.

(** *** Links *)

Lemma link_matches (c1 : char) (t1 : jsstring) (c2 : char) (t2 : jsstring) :
  without (C "]") (c1 :: t1) = true ->
  without (C ")") (c2 :: t2) = true ->
  exists y,
    match_here false re_link []
      (C "[" :: (c1 :: t1) ++ C "]" :: C "(" :: (c2 :: t2) ++ [C ")"]) = Some y
    /\ ahead y = []
    /\ get_cap 1 (caps y) = c1 :: t1
    /\ get_cap 2 (caps y) = c2 :: t2.
Proof.
  unfold without. intros H1 H2. simpl in H1, H2.
  apply andb_true_iff in H1. destruct H1 as [Hc1 Ht1].
  apply andb_true_iff in H2. destruct H2 as [Hc2 Ht2].
  eexists. unfold match_here, re_link, Cat, Plus, NotChr, Lit1.
  cbn [fold_right Regex.run ahead passed caps].
  change (char_eqb (C "[") (C "[")) with true. cbv iota.
  cbn [app]. cbn [Regex.run ahead passed caps]. rewrite Hc1.
  split.
  - apply (star_greedy_all (fun x => negb (char_eqb x (C "]")))).
    + intros x k'. reflexivity.
    + exact Ht1.
    + reflexivity.
    + rewrite length_app. simpl. lia.
    + cbn [ahead passed caps set_cap].
      change (char_eqb (C "]") (C "]")) with true. cbv iota.
      cbn [ahead passed caps set_cap].
      change (char_eqb (C "(") (C "(")) with true. cbv iota.
      cbn [ahead passed caps app]. rewrite Hc2.
      apply (star_greedy_all (fun x => negb (char_eqb x (C ")")))).
      * intros x k'. reflexivity.
      * exact Ht2.
      * reflexivity.
      * rewrite length_app. simpl. lia.
      * cbn [ahead passed caps set_cap].
        change (char_eqb (C ")") (C ")")) with true. cbv iota. reflexivity.
  - split; [reflexivity|].
    cbn [caps get_cap Nat.eqb]. unfold between. cbn [ahead]. split.
    + change (c1 :: t1 ++ C "]" :: C "(" :: c2 :: t2 ++ [C ")"])
        with ((c1 :: t1) ++ (C "]" :: C "(" :: c2 :: t2 ++ [C ")"])).
      apply firstn_all_but.
    + change (c2 :: t2 ++ [C ")"]) with ((c2 :: t2) ++ [C ")"]).
      apply firstn_all_but.
Qed.

Lemma escape_char_without (c x : char) :
  without c (lit "&amp;") = true -> without c (lit "&lt;") = true ->
  without c (lit "&gt;") = true -> without c (lit "&nbsp;") = true ->
  negb (char_eqb x c) = true ->
  without c (escape_char x) = true.
Proof.
  intros A1 A2 A3 A4 Hx. unfold escape_char.
  destruct (char_eqb x (C "&")); [exact A1|].
  destruct (char_eqb x (C "<")); [exact A2|].
  destruct (char_eqb x (C ">")); [exact A3|].
  destruct (char_eqb x 160%N); [exact A4|].
  unfold without. simpl. rewrite Hx. reflexivity.
Qed.

Lemma escapeHtml_without (c : char) (s : jsstring) :
  without c (lit "&amp;") = true -> without c (lit "&lt;") = true ->
  without c (lit "&gt;") = true -> without c (lit "&nbsp;") = true ->
  without c s = true -> without c (escapeHtml s) = true.
Proof.
  intros A1 A2 A3 A4. unfold without, escapeHtml.
  induction s as [|x t IH]; [reflexivity|]. cbn [forallb flat_map].
  intros H. apply andb_true_iff in H. destruct H as [Hx Ht].
  rewrite forallb_app, (IH Ht), andb_true_r.
  exact (escape_char_without c x A1 A2 A3 A4 Hx).
Qed.

Lemma link_pass_wraps (el eu : jsstring) :
  el <> [] -> eu <> [] ->
  without (C "]") el = true -> without (C ")") eu = true ->
  pass_link (C "[" :: el ++ C "]" :: C "(" :: eu ++ [C ")"]) = anchor eu el.
Proof.
  intros N1 N2 H1 H2.
  destruct el as [|c1 t1]; [contradiction|]. destruct eu as [|c2 t2]; [contradiction|].
  destruct (link_matches c1 t1 c2 t2 H1 H2) as (y & Hy & Hah & Hc1 & Hc2).
  unfold pass_link, replace_all.
  rewrite (replace_whole_match false re_link _ _ y); try assumption.
  - unfold grp. cbn [groups]. rewrite Hc1, Hc2. reflexivity.
  - discriminate.
  - intros before. reflexivity.
Qed.

Lemma link_text_plain (el eu : jsstring) (q : char -> bool) :
  forallb quiet el = true -> forallb quiet eu = true ->
  q (C "[") = false -> q (C "]") = false -> q (C "(") = false -> q (C ")") = false ->
  (forall c, quiet c = true -> q c = false) ->
  forallb (fun c => negb (q c)) (C "[" :: el ++ C "]" :: C "(" :: eu ++ [C ")"]) = true.
Proof.
  intros Hl Hu Q1 Q2 Q3 Q4 Qq.
  assert (F : forall s, forallb quiet s = true -> forallb (fun c => negb (q c)) s = true).
  { intros s Hs. apply (forallb_impl quiet); [|exact Hs].
    intros c Hc. rewrite (Qq c Hc). reflexivity. }
  cbn [forallb]. rewrite forallb_app. cbn [forallb]. rewrite forallb_app. cbn [forallb].
  rewrite Q1, Q2, Q3, Q4, (F el Hl), (F eu Hu). reflexivity.
Qed.

Lemma anchor_plain (el eu : jsstring) (q : char -> bool) :
  forallb quiet el = true -> forallb quiet eu = true ->
  forallb (fun c => negb (q c)) (lit "<a href= target=_blank rel=noopener></a>") = true ->
  q QUOTE = false ->
  (forall c, quiet c = true -> q c = false) ->
  forallb (fun c => negb (q c)) (anchor eu el) = true.
Proof.
  intros Hl Hu Q Qd Qq.
  assert (F : forall s, forallb quiet s = true -> forallb (fun c => negb (q c)) s = true).
  { intros s Hs. apply (forallb_impl quiet); [|exact Hs].
    intros c Hc. rewrite (Qq c Hc). reflexivity. }
  assert (K : forall s,
             (forall c, In c s ->
                        In c (QUOTE :: lit "<a href= target=_blank rel=noopener></a>")) ->
             forallb (fun c => negb (q c)) s = true).
  { intros s Hs. apply forallb_forall. intros c Hc.
    destruct (Hs c Hc) as [H|H].
    - subst c. rewrite Qd. reflexivity.
    - rewrite forallb_forall in Q. exact (Q c H). }
  unfold anchor. rewrite !forallb_app, (F el Hl), (F eu Hu).
  repeat (rewrite K
            by (intros c Hc; vm_compute in Hc;
                repeat (destruct Hc as [Hc|Hc];
                        [subst c; vm_compute; repeat first [left; reflexivity | right]|]);
                contradiction)).
  reflexivity.
Qed.

(** X18. A one-line message [[label](address)], where label and address
    are not empty and have no backquote, bar, star, opening bracket or
    line break, the label no closing bracket and the address no closing
    parenthesis, is rendered as one anchor that opens in a new tab with
    [rel=noopener]. Its [href] is the escaped address as it stands: the
    scheme is not checked, and a double quote in the address, which
    [escapeHtml] leaves alone, ends the attribute. *)
Theorem link_is_rendered (label address : jsstring) :
  label <> [] -> address <> [] ->
  forallb calm label = true -> forallb calm address = true ->
  without (C "]") label = true -> without (C ")") address = true ->
  renderMarkdown (lit "[" ++ label ++ lit "](" ++ address ++ lit ")")
  = anchor (escapeHtml address) (escapeHtml label).
Proof.
  intros N1 N2 C1 C2 W1 W2.
  pose proof (escapeHtml_quiet _ C1) as Ql. pose proof (escapeHtml_quiet _ C2) as Qu.
  pose proof (escapeHtml_nonempty _ N1) as Nl. pose proof (escapeHtml_nonempty _ N2) as Nu.
  pose proof (escapeHtml_without (C "]") label eq_refl eq_refl eq_refl eq_refl W1) as Wl.
  pose proof (escapeHtml_without (C ")") address eq_refl eq_refl eq_refl eq_refl W2) as Wu.
  set (el := escapeHtml label) in *. set (eu := escapeHtml address) in *.
  change (renderMarkdown (lit "[" ++ label ++ lit "](" ++ address ++ lit ")"))
    with (fold_left (fun html pass => pass html) passes
            (escapeHtml (C "[" :: label ++ C "]" :: C "(" :: address ++ [C ")"]))).
  assert (E : escapeHtml (C "[" :: label ++ C "]" :: C "(" :: address ++ [C ")"])
              = C "[" :: el ++ C "]" :: C "(" :: eu ++ [C ")"]).
  { change (C "[" :: label ++ C "]" :: C "(" :: address ++ [C ")"])
      with ([C "["] ++ label ++ lit "](" ++ address ++ [C ")"]).
    rewrite !escapeHtml_app. reflexivity. }
  rewrite E. clear E.
  set (html := C "[" :: el ++ C "]" :: C "(" :: eu ++ [C ")"]).
  assert (P : forall q : char -> bool,
             q (C "[") = false -> q (C "]") = false -> q (C "(") = false ->
             q (C ")") = false -> (forall c, quiet c = true -> q c = false) ->
             forallb (fun c => negb (q c)) html = true)
    by (intros q; apply link_text_plain; assumption).
  assert (Hlt : forallb (fun c => negb (is_line_terminator c)) html = true).
  { apply P; try reflexivity. intros c Hc. apply quiet_parts in Hc. apply Hc. }
  unfold passes. cbn [fold_left].
  unfold pass_fence, pass_inline, pass_table, pass_h3, pass_h2, pass_bold,
    pass_italic, pass_ul_item, pass_li_run, pass_ol_item, pass_quote, pass_hr,
    replace_all.
  rewrite (replace_no_trigger false re_fence _ (char_eqb (C "`")) eq_refl)
    by (apply P; try reflexivity; intros c Hc; apply quiet_parts in Hc; apply Hc).
  rewrite (replace_no_trigger false re_inline _ (char_eqb (C "`")) eq_refl)
    by (apply P; try reflexivity; intros c Hc; apply quiet_parts in Hc; apply Hc).
  rewrite (replace_no_trigger false re_table _ (char_eqb (C "|")) eq_refl)
    by (apply P; try reflexivity; intros c Hc; apply quiet_parts in Hc; apply Hc).
  change re_h3 with (Seq Bol (Cat [Str "### "; Group 1 (Plus true Dot); Eol])).
  rewrite (replace_anchored (Cat [Str "### "; Group 1 (Plus true Dot); Eol])
             _ (char_eqb (C "#")) eq_refl); [|exact Hlt | reflexivity].
  change re_h2 with (Seq Bol (Cat [Str "## "; Group 1 (Plus true Dot); Eol])).
  rewrite (replace_anchored (Cat [Str "## "; Group 1 (Plus true Dot); Eol])
             _ (char_eqb (C "#")) eq_refl); [|exact Hlt | reflexivity].
  rewrite (replace_no_trigger false re_bold _ (char_eqb (C "*")) eq_refl)
    by (apply P; try reflexivity; intros c Hc; apply quiet_parts in Hc; apply Hc).
  rewrite (replace_no_trigger false re_italic _ (char_eqb (C "*")) eq_refl)
    by (apply P; try reflexivity; intros c Hc; apply quiet_parts in Hc; apply Hc).
  change re_ul_item with
    (Seq Bol (Cat [Chr (fun c => char_eqb c (C "-") || char_eqb c 8226%N);
                   Lit1 (C " "); Group 1 (Plus true Dot); Eol])).
  rewrite (replace_anchored
             (Cat [Chr (fun c => char_eqb c (C "-") || char_eqb c 8226%N);
                   Lit1 (C " "); Group 1 (Plus true Dot); Eol])
             _ (fun c => char_eqb c (C "-") || char_eqb c 8226%N) eq_refl);
    [|exact Hlt | reflexivity].
  rewrite (replace_no_trigger false re_li_run _ (char_eqb (C "<")) eq_refl)
    by (apply P; try reflexivity; intros c Hc; apply quiet_parts in Hc; apply Hc).
  change re_ol_item with
    (Seq Bol (Cat [Plus true (Chr is_digit); Lit1 (C "."); Lit1 (C " ");
                   Group 1 (Plus true Dot); Eol])).
  rewrite (replace_anchored
             (Cat [Plus true (Chr is_digit); Lit1 (C "."); Lit1 (C " ");
                   Group 1 (Plus true Dot); Eol])
             _ is_digit eq_refl); [|exact Hlt | reflexivity].
  change re_quote with (Seq Bol (Cat [Str "> "; Group 1 (Plus true Dot); Eol])).
  rewrite (replace_anchored (Cat [Str "> "; Group 1 (Plus true Dot); Eol])
             _ (char_eqb (C ">")) eq_refl); [|exact Hlt | reflexivity].
  change re_hr with (Seq Bol (Cat [Str "--"; Plus true (Lit1 (C "-")); Eol])).
  rewrite (replace_anchored (Cat [Str "--"; Plus true (Lit1 (C "-")); Eol])
             _ (char_eqb (C "-")) eq_refl); [|exact Hlt | reflexivity].
  subst html. rewrite (link_pass_wraps el eu Nl Nu Wl Wu).
  unfold pass_paragraph, pass_break, pass_open_block, pass_close_block, replace_all.
  rewrite (replace_no_trigger false re_nlnl _ (char_eqb NL) eq_refl)
    by (apply anchor_plain; try assumption; try reflexivity;
        intros c Hc; apply quiet_parts in Hc; apply Hc).
  rewrite (replace_no_trigger false re_nl _ (char_eqb NL) eq_refl)
    by (apply anchor_plain; try assumption; try reflexivity;
        intros c Hc; apply quiet_parts in Hc; apply Hc).
  assert (Shape : anchor eu el
                  = C "<" :: (lit "a href=" ++ [QUOTE] ++ eu ++ [QUOTE]
                              ++ lit " target=" ++ [QUOTE] ++ lit "_blank" ++ [QUOTE]
                              ++ lit " rel=" ++ [QUOTE] ++ lit "noopener" ++ [QUOTE]
                              ++ lit ">" ++ el)
                    ++ C "<" :: lit "/a>").
  { unfold anchor. cbn [lit list_ascii_of_string map app]. rewrite <- !app_assoc.
    cbn [app]. repeat (f_equal; try rewrite <- !app_assoc; cbn [app]). }
  assert (Ha : forallb (fun c => negb (char_eqb (C "<") c))
                 (lit "a href=" ++ [QUOTE] ++ eu ++ [QUOTE]
                  ++ lit " target=" ++ [QUOTE] ++ lit "_blank" ++ [QUOTE]
                  ++ lit " rel=" ++ [QUOTE] ++ lit "noopener" ++ [QUOTE]
                  ++ lit ">" ++ el) = true).
  { rewrite !forallb_app.
    rewrite (quiet_no_lt _ Ql), (quiet_no_lt _ Qu). reflexivity. }
  rewrite Shape.
  rewrite (element_pass_keeps re_open_block _ _ (lit "/a>") eq_refl Ha eq_refl);
    [|intros before; reflexivity | intros before; reflexivity].
  rewrite (element_pass_keeps re_close_block _ _ (lit "/a>") eq_refl Ha eq_refl);
    [|intros before; reflexivity | intros before; reflexivity].
  reflexivity.
Qed.

Lemma link_is_rendered_witness :
  let address := lit "https://erp.example/" ++ [QUOTE] ++ lit " onclick=" ++ [QUOTE] ++ lit "go" in
  renderMarkdown (lit "[" ++ lit "the report" ++ lit "](" ++ address ++ lit ")")
  = lit "<a href=" ++ [QUOTE] ++ lit "https://erp.example/" ++ [QUOTE]
    ++ lit " onclick=" ++ [QUOTE] ++ lit "go" ++ [QUOTE]
    ++ lit " target=" ++ [QUOTE] ++ lit "_blank" ++ [QUOTE]
    ++ lit " rel=" ++ [QUOTE] ++ lit "noopener" ++ [QUOTE]
    ++ lit ">the report</a>".
Proof.
  intros address.
  rewrite (link_is_rendered (lit "the report") address);
    [vm_compute; reflexivity | discriminate | discriminate
     | vm_compute; reflexivity | vm_compute; reflexivity
     | vm_compute; reflexivity | vm_compute; reflexivity].
Defined.

(** ** What every reachable world keeps *)

Lemma reachable_ind (P : world -> Prop) :
  (forall active saved_open saved_session, P (boot active saved_open saved_session)) ->
  (forall w ev w', gate_inv w -> P w -> step w ev = Some w' -> P w') ->
  forall active saved_open saved_session evs w,
    run_events (boot active saved_open saved_session) evs = Some w -> P w.
Proof.
  intros Hb Hs active saved_open saved_session evs.
  pose proof (boot_gate_inv active saved_open saved_session) as G.
  pose proof (Hb active saved_open saved_session) as B.
  revert G B. generalize (boot active saved_open saved_session).
  induction evs as [|ev rest IH]; intros w0 G B w H; simpl in H.
  - inversion H; subst. exact B.
  - destruct (step w0 ev) as [w1|] eqn:S; [|discriminate].
    apply (IH w1); [exact (step_gate_inv w0 ev w1 G S) | exact (Hs w0 ev w1 G B S) | exact H].
Qed.

(** *** The messages container and the send button *)

Arguments how_many : simpl never.

Lemma how_many_nil {A : Type} (f : A -> bool) : how_many f [] = 0.
Proof. reflexivity. Qed.

Lemma how_many_app {A : Type} (f : A -> bool) (l : list A) (x : A) :
  how_many f (l ++ [x]) = how_many f l + (if f x then 1 else 0).
Proof.
  unfold how_many. rewrite filter_app, length_app. simpl. destruct (f x); reflexivity.
Qed.

Lemma how_many_cons {A : Type} (f : A -> bool) (l : list A) (x : A) :
  how_many f (x :: l) = (if f x then 1 else 0) + how_many f l.
Proof. unfold how_many. simpl. destruct (f x); reflexivity. Qed.

Lemma how_many_typing_gone (l : list child) :
  how_many is_typing (filter (fun c => negb (is_typing c)) l) = 0.
Proof.
  induction l as [|c t IH]; [reflexivity|]. simpl.
  destruct c; simpl; rewrite ?how_many_cons; simpl; exact IH.
Qed.

Lemma how_many_welcome_kept (l : list child) :
  how_many is_welcome (filter (fun c => negb (is_typing c)) l) = how_many is_welcome l.
Proof.
  induction l as [|c t IH]; [reflexivity|]. simpl.
  destruct c; simpl; rewrite ?how_many_cons; simpl; rewrite ?IH; reflexivity.
Qed.

Lemma how_many_msg_kept (l : list child) :
  how_many is_msg (filter (fun c => negb (is_typing c)) l) = how_many is_msg l.
Proof.
  induction l as [|c t IH]; [reflexivity|]. simpl.
  destruct c; simpl; rewrite ?how_many_cons; simpl; rewrite ?IH; reflexivity.
Qed.

Lemma how_many_typing_rw (l : list child) :
  how_many is_typing (remove_welcome l) = how_many is_typing l.
Proof.
  induction l as [|c t IH]; [reflexivity|].
  destruct c; simpl; rewrite ?how_many_cons; simpl; rewrite ?IH; reflexivity.
Qed.

Lemma how_many_msg_rw (l : list child) :
  how_many is_msg (remove_welcome l) = how_many is_msg l.
Proof.
  induction l as [|c t IH]; [reflexivity|].
  destruct c; simpl; rewrite ?how_many_cons; simpl; rewrite ?IH; reflexivity.
Qed.

Lemma how_many_welcome_rw (l : list child) :
  how_many is_welcome (remove_welcome l) = Nat.pred (how_many is_welcome l).
Proof.
  induction l as [|c t IH]; [reflexivity|].
  destruct c; simpl; rewrite ?how_many_cons; simpl; rewrite ?IH; reflexivity.
Qed.

Ltac counted :=
  repeat first
    [ rewrite how_many_app | rewrite how_many_typing_gone
    | rewrite how_many_welcome_kept | rewrite how_many_msg_kept
    | rewrite how_many_typing_rw | rewrite how_many_msg_rw
    | rewrite how_many_welcome_rw | rewrite how_many_nil
    | rewrite how_many_cons ];
  cbn [is_typing is_welcome is_msg].

Ltac tidy_goal :=
  unfold tidy in *; simpl in *;
  repeat match goal with H : _ /\ _ |- _ => destruct H end;
  repeat match goal with H : ?a = ?a -> _ |- _ => specialize (H eq_refl) end;
  counted;
  repeat split; try discriminate; intros;
  repeat match goal with H : ?P -> _, H' : ?P |- _ => specialize (H H') end;
  try lia.

Lemma tidy_frame (d d' : dom) :
  children d' = children d -> typingIndicator d' = typingIndicator d ->
  tidy d -> tidy d'.
Proof. unfold tidy. intros -> ->. auto. Qed.

Lemma removeTyping_tidy (w : world) :
  tidy (ui w) ->
  tidy (ui (removeTyping w))
  /\ typingIndicator (ui (removeTyping w)) = None
  /\ send_disabled (ui (removeTyping w)) = send_disabled (ui w)
  /\ st (removeTyping w) = st w.
Proof.
  intros T. open_all w. unfold removeTyping. cbn [ui typingIndicator] in *.
  destruct ti; simpl.
  - split; [|auto]. tidy_goal.
  - split; [|auto]. exact T.
Qed.

Lemma showTyping_tidy (s : text) (w : world) :
  tidy (ui w) ->
  tidy (ui (showTyping s w))
  /\ send_disabled (ui (showTyping s w)) = send_disabled (ui w)
  /\ st (showTyping s w) = st w.
Proof.
  intros T. open_all w. unfold showTyping, removeTyping. simpl in *.
  destruct ti; simpl; (split; [|auto]); tidy_goal.
Qed.

Lemma addMessage_tidy (r : role) (c : text) (w : world) :
  tidy (ui w) ->
  let w' := snd (addMessage r c w) in
  tidy (ui w')
  /\ typingIndicator (ui w') = typingIndicator (ui w)
  /\ send_disabled (ui w') = send_disabled (ui w)
  /\ isStreaming (st w') = isStreaming (st w).
Proof.
  intros T. open_all w. unfold addMessage. simpl in *.
  split; [|auto]. tidy_goal.
Qed.

Lemma finishStreaming_shows (m : text) (w : world) :
  tidy (ui w) -> shows (finishStreaming m w).
Proof.
  intros T. open_all w.
  unfold finishStreaming, removeTyping, showError, loadSuggestions, clearTimeout,
    setTimeout, issue, shows, face_inv.
  destruct ti, pt, (truthy m); simpl; (split; [auto|]); tidy_goal.
Qed.

Lemma sendMessage_shows (w : world) : shows w -> shows (sendMessage w).
Proof.
  intros S. unfold sendMessage.
  destruct (negb (nonempty (trim (input_value (ui w)))) || isStreaming (st w));
    [exact S|].
  destruct S as [_ T]. open_all w.
  unfold showTyping, removeTyping, addMessage, issue, shows, face_inv.
  destruct ti; simpl; (split; [split; [reflexivity | discriminate]|]); tidy_goal.
Qed.

Lemma poll_shows (e : nat) (w : world) : shows w -> shows (poll e w).
Proof.
  intros S. unfold poll. destruct (negb (truthy (streamId (st w)))); exact S.
Qed.

Lemma on_chat_start_shows (r : option start_data) (w : world) :
  shows w -> shows (on_chat_start r w).
Proof.
  intros S. unfold on_chat_start.
  destruct r as [data|]; [|apply finishStreaming_shows, S].
  destruct (needs_clarification data).
  { destruct S as [_ T]. open_all w.
    unfold removeTyping, addMessage, showClarificationChips, shows, face_inv.
    destruct ti, (clarification_options data); simpl;
      (split; [split; auto|]); tidy_goal. }
  destruct (budget_exceeded data); [apply finishStreaming_shows, S|].
  destruct (truthy (start_error data)); [apply finishStreaming_shows, S|].
  unfold startPolling. apply poll_shows. exact S.
Qed.

Lemma show_tool_status_shows (data : poll_data) (w : world) :
  isStreaming (st w) = true -> shows w ->
  let w' := show_tool_status data w in
  shows w' /\ isStreaming (st w') = true.
Proof.
  intros Hs [[F _] T]. unfold show_tool_status.
  destruct (truthy (tool_status data) && negb (done data)).
  - destruct (showTyping_tidy (tool_status data) w T) as (T' & D & E).
    unfold shows, face_inv. rewrite D, E, Hs.
    split; [split; [split; [congruence | discriminate] | exact T'] | reflexivity].
  - split; [split; [split; [exact F | congruence] | exact T] | exact Hs].
Qed.

Lemma set_env_ui (e : nat) (v : poll_env) (w : world) :
  ui (set_env e v w) = ui w /\ st (set_env e v w) = st w.
Proof. split; reflexivity. Qed.

Lemma set_html_tidy (b : option nat) (h : jsstring) (w : world) :
  children (ui (set_html b h w)) = children (ui w)
  /\ typingIndicator (ui (set_html b h w)) = typingIndicator (ui w)
  /\ send_disabled (ui (set_html b h w)) = send_disabled (ui w)
  /\ st (set_html b h w) = st w.
Proof. destruct b; repeat split; reflexivity. Qed.

Lemma append_new_text_shows (e : nat) (data : poll_data) (w : world) :
  isStreaming (st w) = true -> shows w ->
  let w' := append_new_text e data w in
  shows w' /\ isStreaming (st w') = true.
Proof.
  intros Hs S. unfold append_new_text.
  destruct (delta data); [|split; assumption]. cbv zeta.
  destruct S as [[F _] T].
  destruct (removeTyping_tidy w T) as (T1 & I1 & D1 & E1).
  set (w1 := removeTyping w) in *.
  set (w2 := match assistantBubble (get_env e w1) with
             | Some _ => w1
             | None => _ end).
  assert (S2 : tidy (ui w2) /\ send_disabled (ui w2) = send_disabled (ui w1)
               /\ isStreaming (st w2) = isStreaming (st w1)).
  { subst w2. destruct (assistantBubble (get_env e w1)); [auto|].
    destruct (addMessage_tidy assistant (Some []) w1 T1) as (A & _ & B & Cc).
    destruct (addMessage assistant (Some []) w1) as [b w0]. simpl in *. auto. }
  destruct S2 as (T2 & D2 & E2).
  set (w3 := set_html _ _ w2).
  destruct (set_html_tidy (assistantBubble (get_env e w2))
              (renderMarkdown_arg (text_of data)) w2) as (A3 & B3 & D3 & E3).
  fold w3 in A3, B3, D3, E3.
  unfold shows, face_inv. cbn [ui st set_env upd_rt].
  rewrite D3, D2, D1, E3, E2, E1, Hs.
  split; [split; [split; [exact (eq_trans F Hs) | discriminate]|] | reflexivity].
  exact (tidy_frame _ _ A3 B3 T2).
Qed.

Lemma settle_message_tidy (e : nat) (data : poll_data) (w : world) :
  tidy (ui w) ->
  tidy (ui (settle_message e data w))
  /\ typingIndicator (ui (settle_message e data w)) = typingIndicator (ui w).
Proof.
  intros T. unfold settle_message.
  destruct (truthy (poll_error data)), (assistantBubble (get_env e w)),
    (truthy (text_of data)); auto;
    try (destruct (addMessage_tidy assistant (poll_error data) w T) as (A & B & _); auto);
    try (destruct (addMessage_tidy assistant (text_of data) w T) as (A & B & _); auto).
Qed.

Lemma stream_done_shows (e : nat) (data : poll_data) (w : world) :
  tidy (ui w) -> shows (stream_done e data w).
Proof.
  intros T. unfold stream_done. cbv zeta.
  destruct (removeTyping_tidy w T) as (T1 & I1 & _).
  destruct (settle_message_tidy e data (removeTyping w) T1) as (T2 & I2).
  set (w2 := settle_message e data (removeTyping w)) in *.
  unfold refresh_suggestions, loadSuggestions, issue, shows, face_inv. simpl.
  split; [split; [reflexivity | intros _; congruence]|]. exact T2.
Qed.

Lemma on_poll_shows (e : nat) (r : option poll_data) (w : world) :
  isStreaming (st w) = true -> shows w -> shows (on_poll e r w).
Proof.
  intros Hs S. unfold on_poll.
  destruct r as [data|]; [|apply finishStreaming_shows, S]. cbv zeta.
  destruct (show_tool_status_shows data w Hs S) as [S1 Hs1].
  destruct (append_new_text_shows e data _ Hs1 S1) as [S2 Hs2].
  destruct (done data); [apply stream_done_shows, S2|].
  unfold continue_polling, setTimeout. exact S2.
Qed.

Lemma startNewChat_shows (w : world) : shows w -> shows (startNewChat w).
Proof.
  intros [F T]. open_all w.
  unfold startNewChat, showWelcome, loadSuggestions, notify, issue, shows, face_inv in *.
  simpl in *. destruct (truthy sid); simpl in *; (split; [exact F|]); tidy_goal.
Qed.

Lemma on_session_fold_shows (msgs : list message) (w : world) :
  shows w ->
  shows (fold_left (fun w m => snd (addMessage (msg_role m) (msg_content m) w)) msgs w).
Proof.
  revert w. induction msgs as [|m t IH]; intros w S; cbn [fold_left]; [exact S|].
  apply IH. destruct S as [[F1 F2] T].
  destruct (addMessage_tidy (msg_role m) (msg_content m) w T) as (A & B & Cc & D).
  unfold shows, face_inv. rewrite B, Cc, D. auto.
Qed.

Lemma on_session_shows (r : option (list message)) (w : world) :
  shows w -> shows (on_session r w).
Proof.
  intros S. unfold on_session. destruct r as [msgs|]; [|exact S].
  apply on_session_fold_shows. destruct S as [F T]. split; [exact F|].
  open_all w. tidy_goal.
Qed.

Lemma on_suggestions_shows (r : option (list suggestion)) (w : world) :
  shows w -> shows (on_suggestions r w).
Proof.
  intros S. unfold on_suggestions, renderSuggestions.
  destruct r as [[|x l]|]; exact S.
Qed.

Lemma boot_shows (active : text) (saved_open : bool) (saved_session : text) :
  shows (boot active saved_open saved_session).
Proof.
  unfold boot, updateContext, loadSession, loadSuggestions, showWelcome, issue,
    shows, face_inv, or_else.
  destruct (truthy active), saved_open, (truthy saved_session) eqn:E; simpl;
    rewrite ?E; simpl;
    repeat match goal with |- context [if ?c then _ else _] => destruct c end;
    simpl; (split; [auto|]); tidy_goal.
Qed.

Lemma step_shows (w : world) (ev : event) (w' : world) :
  gate_inv w -> shows w -> step w ev = Some w' -> shows w'.
Proof.
  intros G S H. destruct ev; simpl in H.
  - inversion H; subst. exact S.
  - inversion H; subst. apply sendMessage_shows, S.
  - destruct (nth_error (suggestions (ui w)) n); [|discriminate].
    inversion H; subst. unfold click_chip. apply sendMessage_shows. exact S.
  - inversion H; subst. apply startNewChat_shows, S.
  - inversion H; subst. exact S.
  - destruct (answer id w) as [[c w0]|] eqn:A; [|discriminate].
    destruct c; try discriminate. inversion H; subst.
    apply answer_spec in A. destruct A as [_ ->].
    apply on_chat_start_shows. exact S.
  - destruct (answer id w) as [[c w0]|] eqn:A; [|discriminate].
    destruct c; try discriminate. inversion H; subst.
    apply answer_spec in A. destruct A as [_ ->].
    apply finishStreaming_shows, S.
  - destruct (answer id w) as [[c w0]|] eqn:A; [|discriminate].
    destruct c; try discriminate. inversion H; subst.
    apply answer_spec in A. destruct A as [Hl ->].
    destruct (answered_in_flight id (CPoll loop) w G Hl eq_refl) as (_ & Hs & _).
    apply on_poll_shows; [exact Hs | exact S].
  - destruct (answer id w) as [[c w0]|] eqn:A; [|discriminate].
    destruct c; try discriminate. inversion H; subst.
    apply answer_spec in A. destruct A as [_ ->].
    apply finishStreaming_shows, S.
  - destruct (answer id w) as [[c w0]|] eqn:A; [|discriminate].
    destruct c; try discriminate. inversion H; subst.
    apply answer_spec in A. destruct A as [_ ->].
    apply on_suggestions_shows. exact S.
  - destruct (answer id w) as [[c w0]|] eqn:A; [|discriminate].
    destruct c; try discriminate. inversion H; subst.
    apply answer_spec in A. destruct A as [_ ->].
    apply on_session_shows. exact S.
  - destruct (lookup id (timers (rt w))) as [[e|]|]; [| |discriminate];
      inversion H; subst.
    + apply poll_shows. exact S.
    + exact S.
Qed.

Lemma reachable_shows (active : text) (saved_open : bool) (saved_session : text)
    (evs : list event) (w : world) :
  run_events (boot active saved_open saved_session) evs = Some w -> shows w.
Proof.
  apply (reachable_ind shows); [apply boot_shows | apply step_shows].
Qed.


(** *** What is sent to the backend *)

Lemma core_rt (w w' : world) : core w' = core w -> rt w' = rt w.
Proof. unfold core. intros H. injection H as _ _ R. exact R. Qed.

Lemma sends_ok_frame (w w' : world) :
  calls (rt w') = calls (rt w) -> sends_ok w -> sends_ok w'.
Proof. unfold sends_ok. intros ->. auto. Qed.

Lemma sends_ok_more (w w' : world) (r : request) :
  calls (rt w') = calls (rt w) ++ [r] -> well_formed r = true ->
  sends_ok w -> sends_ok w'.
Proof.
  unfold sends_ok. intros -> Hr H. rewrite forallb_app, H. simpl. rewrite Hr. reflexivity.
Qed.

Lemma sound_or_else (q : text) : sound (or_else q None) = true.
Proof. destruct q as [[|c s]|]; reflexivity. Qed.

Lemma firstn_nonempty (n : nat) (c : char) (s : jsstring) :
  nonempty (firstn (S n) (c :: s)) = true.
Proof. reflexivity. Qed.

Lemma loadSuggestions_sends (q a : text) (w : world) :
  sends_ok w -> sends_ok (loadSuggestions q a w).
Proof.
  apply (sends_ok_more w _
           (get_suggestions (or_else q None)
              (if truthy a then Some (substring0 300 (text_str a)) else None)));
    [reflexivity|].
  cbn [well_formed]. rewrite sound_or_else.
  destruct a as [[|c s]|]; try reflexivity.
  cbn [truthy text_str sound substring0].
  rewrite (firstn_nonempty 299). cbn [andb].
  apply Nat.leb_le. apply firstn_le_length.
Qed.

Lemma finishStreaming_sends (m : text) (w : world) :
  sends_ok w -> sends_ok (finishStreaming m w).
Proof.
  intros H. destruct (finishStreaming_view m w) as (_ & _ & _ & _ & E & _).
  exact (sends_ok_more w _ _ E eq_refl H).
Qed.

Lemma poll_sends (e : nat) (w : world) : sends_ok w -> sends_ok (poll e w).
Proof.
  intros H. unfold poll. destruct (truthy (streamId (st w))) eqn:E; [|exact H].
  cbn [negb]. apply (sends_ok_more w _ (stream_poll e (streamId (st w))
                                          (lastLength (get_env e w))));
    [reflexivity | exact E | exact H].
Qed.

Lemma sendMessage_sends (w : world) : sends_ok w -> sends_ok (sendMessage w).
Proof.
  intros H. unfold sendMessage.
  destruct (nonempty (trim (input_value (ui w)))) eqn:E; [|exact H].
  destruct (isStreaming (st w)); [exact H|]. cbn [negb orb]. cbv zeta.
  eapply sends_ok_more; [unfold issue; cbn [rt upd_rt calls]; reflexivity | | ].
  - cbn [well_formed]. rewrite E, sound_or_else. reflexivity.
  - eapply sends_ok_frame; [|exact H].
    open_all w. unfold showTyping, removeTyping. destruct ti; reflexivity.
Qed.

Lemma on_chat_start_sends (r : option start_data) (w : world) :
  sends_ok w -> sends_ok (on_chat_start r w).
Proof.
  intros H. unfold on_chat_start.
  destruct r as [data|]; [|apply finishStreaming_sends, H].
  destruct (needs_clarification data).
  { eapply sends_ok_frame; [|exact H]. open_all w.
    unfold removeTyping, showClarificationChips.
    destruct ti, (clarification_options data); reflexivity. }
  destruct (budget_exceeded data); [apply finishStreaming_sends, H|].
  destruct (truthy (start_error data)); [apply finishStreaming_sends, H|].
  unfold startPolling. apply poll_sends. exact H.
Qed.

Lemma on_poll_sends (e : nat) (r : option poll_data) (w : world) :
  sends_ok w -> sends_ok (on_poll e r w).
Proof.
  intros H. unfold on_poll.
  destruct r as [data|]; [|apply finishStreaming_sends, H]. cbv zeta.
  set (w1 := show_tool_status data w).
  assert (H1 : sends_ok w1).
  { eapply sends_ok_frame; [|exact H].
    subst w1. rewrite (core_rt _ _ (show_tool_status_core data w)). reflexivity. }
  destruct (append_new_text_view e data w1) as ((_ & _ & _ & _ & A5 & _) & _).
  set (w2 := append_new_text e data w1) in *.
  assert (H2 : sends_ok w2) by (exact (sends_ok_frame w1 w2 A5 H1)).
  destruct (done data).
  - unfold stream_done, refresh_suggestions. cbv zeta.
    apply loadSuggestions_sends. eapply sends_ok_frame; [|exact H2].
    cbn [rt upd_ui upd_st].
    rewrite (core_rt _ _ (settle_message_core e data (removeTyping w2))).
    rewrite (core_rt _ _ (core_removeTyping w2)). reflexivity.
  - eapply sends_ok_frame; [|exact H2]. reflexivity.
Qed.

Lemma startNewChat_sends (w : world) : sends_ok w -> sends_ok (startNewChat w).
Proof.
  intros H. unfold startNewChat. cbv zeta. apply loadSuggestions_sends.
  unfold showWelcome.
  destruct (truthy (sessionId (st w))) eqn:E.
  - eapply sends_ok_more; [reflexivity | exact E | exact H].
  - exact H.
Qed.

Lemma on_session_sends (r : option (list message)) (w : world) :
  sends_ok w -> sends_ok (on_session r w).
Proof.
  intros H. eapply sends_ok_frame; [|exact H].
  unfold on_session. destruct r as [msgs|]; [|reflexivity].
  cbv zeta.
  rewrite (core_rt _ _ (core_on_session_fold msgs (upd_ui (set_children []) w))).
  reflexivity.
Qed.

Lemma on_suggestions_sends (r : option (list suggestion)) (w : world) :
  sends_ok w -> sends_ok (on_suggestions r w).
Proof.
  intros H. eapply sends_ok_frame; [|exact H].
  unfold on_suggestions, renderSuggestions. destruct r as [[|x l]|]; reflexivity.
Qed.

Lemma boot_sends (active : text) (saved_open : bool) (saved_session : text) :
  sends_ok (boot active saved_open saved_session).
Proof.
  unfold boot. cbv zeta.
  set (w1 := showWelcome _).
  assert (H1 : sends_ok w1) by reflexivity.
  set (w2 := if saved_open then updateContext w1 else w1).
  assert (H2 : sends_ok w2).
  { subst w2. destruct saved_open; [apply loadSuggestions_sends|]; exact H1. }
  set (w3 := if truthy saved_session && negb (truthy (sessionId (st w2)))
             then upd_st (set_sessionId saved_session) w2 else w2).
  assert (H3 : sends_ok w3).
  { subst w3.
    destruct (truthy saved_session && negb (truthy (sessionId (st w2)))); exact H2. }
  pose proof (loadSuggestions_sends None None w3 H3) as H4.
  set (w4 := loadSuggestions None None w3) in *.
  destruct (truthy (sessionId (st w4))) eqn:E; [|exact H4].
  apply (sends_ok_more w4 _ (get_session (sessionId (st w4))));
    [reflexivity | exact E | exact H4].
Qed.

Lemma step_sends (w : world) (ev : event) (w' : world) :
  gate_inv w -> sends_ok w -> step w ev = Some w' -> sends_ok w'.
Proof.
  intros _ S H. destruct ev; simpl in H.
  - inversion H; subst. exact S.
  - inversion H; subst. apply sendMessage_sends, S.
  - destruct (nth_error (suggestions (ui w)) n); [|discriminate].
    inversion H; subst. unfold click_chip. apply sendMessage_sends. exact S.
  - inversion H; subst. apply startNewChat_sends, S.
  - inversion H; subst. apply loadSuggestions_sends, S.
  - destruct (answer id w) as [[c w0]|] eqn:A; [|discriminate].
    destruct c; try discriminate. inversion H; subst.
    apply answer_spec in A. destruct A as [_ ->].
    apply on_chat_start_sends. exact S.
  - destruct (answer id w) as [[c w0]|] eqn:A; [|discriminate].
    destruct c; try discriminate. inversion H; subst.
    apply answer_spec in A. destruct A as [_ ->].
    apply finishStreaming_sends, S.
  - destruct (answer id w) as [[c w0]|] eqn:A; [|discriminate].
    destruct c; try discriminate. inversion H; subst.
    apply answer_spec in A. destruct A as [_ ->].
    apply on_poll_sends. exact S.
  - destruct (answer id w) as [[c w0]|] eqn:A; [|discriminate].
    destruct c; try discriminate. inversion H; subst.
    apply answer_spec in A. destruct A as [_ ->].
    apply finishStreaming_sends, S.
  - destruct (answer id w) as [[c w0]|] eqn:A; [|discriminate].
    destruct c; try discriminate. inversion H; subst.
    apply answer_spec in A. destruct A as [_ ->].
    apply on_suggestions_sends. exact S.
  - destruct (answer id w) as [[c w0]|] eqn:A; [|discriminate].
    destruct c; try discriminate. inversion H; subst.
    apply answer_spec in A. destruct A as [_ ->].
    apply on_session_sends. exact S.
  - destruct (lookup id (timers (rt w))) as [[e|]|]; [| |discriminate];
      inversion H; subst.
    + apply poll_sends. exact S.
    + exact S.
Qed.

Lemma reachable_sends (active : text) (saved_open : bool) (saved_session : text)
    (evs : list event) (w : world) :
  run_events (boot active saved_open saved_session) evs = Some w -> sends_ok w.
Proof.
  apply (reachable_ind sends_ok); [apply boot_sends | apply step_sends].
Qed.


(** *** Identifiers of calls and timers *)

Lemma fresh_traffic (r r' : runtime) : traffic r' = traffic r -> fresh r -> fresh r'.
Proof.
  unfold traffic, fresh. intros H. injection H as -> -> ->. auto.
Qed.

Lemma NoDup_snoc (l : list nat) (n : nat) :
  NoDup l -> (forall x, In x l -> x < n) -> NoDup (l ++ [n]).
Proof.
  intros H B. induction H as [|a l Ha Hl IH]; simpl.
  - constructor; [intros []|constructor].
  - constructor.
    + intros Hin. apply in_app_or in Hin. destruct Hin as [Hin|[Hin|[]]].
      * contradiction.
      * specialize (B a (or_introl eq_refl)). lia.
    + apply IH. intros x Hx. apply B. right. exact Hx.
Qed.

Lemma ids_below {A : Type} (l : list (nat * A)) (n : nat) :
  (forall id a, In (id, a) l -> id < n) -> forall x, In x (map fst l) -> x < n.
Proof.
  intros H x Hx. apply in_map_iff in Hx. destruct Hx as [[id a] [E Hin]].
  simpl in E. subst. exact (H _ _ Hin).
Qed.

Lemma NoDup_drop {A : Type} (id : nat) (l : list (nat * A)) :
  NoDup (map fst l) -> NoDup (map fst (drop id l)).
Proof.
  unfold drop. induction l as [|[j a] t IH]; simpl; [auto|].
  intros H. inversion H as [|? ? Hj Ht]; subst.
  destruct (negb (Nat.eqb j id)); simpl; [|auto].
  constructor; [|auto]. intros Hin. apply Hj.
  apply in_map_iff in Hin. destruct Hin as [[k b] [E Hin]]. simpl in E. subst.
  apply filter_In in Hin. apply in_map_iff. exists (j, b). tauto.
Qed.

Lemma fresh_add_call (r : runtime) (c : call) (q : list request) :
  fresh r ->
  fresh (Runtime (envs r) (pending r ++ [(next_id r, c)]) (timers r)
                 (S (next_id r)) q (alerts r)).
Proof.
  intros (A & B & Cc & D). unfold fresh. simpl. repeat split.
  - intros id c' H. apply in_app_or in H. destruct H as [H|[H|[]]].
    + specialize (A _ _ H). lia.
    + inversion H; subst. lia.
  - intros id t H. specialize (B _ _ H). lia.
  - rewrite map_app. simpl. apply NoDup_snoc; [exact Cc | exact (ids_below _ _ A)].
  - exact D.
Qed.

Lemma fresh_add_timer (r : runtime) (t : timer) :
  fresh r ->
  fresh (Runtime (envs r) (pending r) (timers r ++ [(next_id r, t)])
                 (S (next_id r)) (calls r) (alerts r)).
Proof.
  intros (A & B & Cc & D). unfold fresh. simpl. repeat split.
  - intros id c H. specialize (A _ _ H). lia.
  - intros id t' H. apply in_app_or in H. destruct H as [H|[H|[]]].
    + specialize (B _ _ H). lia.
    + inversion H; subst. lia.
  - exact Cc.
  - rewrite map_app. simpl. apply NoDup_snoc; [exact D | exact (ids_below _ _ B)].
Qed.

Lemma fresh_drop_timer (r : runtime) (id : nat) :
  fresh r -> fresh (set_timers (drop id (timers r)) r).
Proof.
  intros (A & B & Cc & D). unfold fresh. simpl. repeat split; auto.
  - intros i t H. apply in_drop in H. exact (B _ _ H).
  - apply NoDup_drop. exact D.
Qed.

Lemma fresh_drop_call (r : runtime) (id : nat) :
  fresh r -> fresh (set_pending (drop id (pending r)) r).
Proof.
  intros (A & B & Cc & D). unfold fresh. simpl. repeat split; auto.
  - intros i t H. apply in_drop in H. exact (A _ _ H).
  - apply NoDup_drop. exact Cc.
Qed.

Lemma fresh_issue (q : request) (c : call) (w : world) :
  fresh (rt w) -> fresh (rt (issue q c w)).
Proof. apply fresh_add_call. Qed.

Lemma fresh_setTimeout (t : timer) (w : world) :
  fresh (rt w) -> fresh (rt (snd (setTimeout t w))).
Proof. apply fresh_add_timer. Qed.

Lemma fresh_loadSuggestions (q a : text) (w : world) :
  fresh (rt w) -> fresh (rt (loadSuggestions q a w)).
Proof. apply fresh_issue. Qed.

Lemma fresh_finishStreaming (m : text) (w : world) :
  fresh (rt w) -> fresh (rt (finishStreaming m w)).
Proof.
  intros H. unfold finishStreaming. cbv zeta. apply fresh_loadSuggestions.
  set (w1 := upd_ui (set_send_disabled false) _).
  assert (H1 : fresh (rt w1)).
  { subst w1. cbn [rt upd_ui upd_st].
    rewrite (core_rt _ _ (core_removeTyping w)). exact H. }
  set (w2 := match pollTimer (st w1) with Some id => _ | None => w1 end).
  assert (H2 : fresh (rt w2)).
  { subst w2. destruct (pollTimer (st w1)); [|exact H1].
    apply (fresh_drop_timer (rt w1)). exact H1. }
  destruct (truthy m); [|exact H2].
  unfold showError. cbv zeta. apply fresh_setTimeout.
  apply (fresh_traffic (rt w2)); [reflexivity | exact H2].
Qed.

Lemma fresh_poll (e : nat) (w : world) : fresh (rt w) -> fresh (rt (poll e w)).
Proof.
  intros H. unfold poll. destruct (negb (truthy (streamId (st w)))); [exact H|].
  apply fresh_issue. exact H.
Qed.

Lemma fresh_sendMessage (w : world) : fresh (rt w) -> fresh (rt (sendMessage w)).
Proof.
  intros H. unfold sendMessage.
  destruct (negb (nonempty (trim (input_value (ui w)))) || isStreaming (st w));
    [exact H|]. cbv zeta. apply fresh_issue. cbn [rt upd_ui upd_st].
  rewrite (core_rt _ _ (core_showTyping None _)). exact H.
Qed.

Lemma fresh_on_chat_start (r : option start_data) (w : world) :
  fresh (rt w) -> fresh (rt (on_chat_start r w)).
Proof.
  intros H. unfold on_chat_start.
  destruct r as [data|]; [|apply fresh_finishStreaming, H].
  destruct (needs_clarification data).
  { apply (fresh_traffic (rt w)); [|exact H]. open_all w.
    unfold removeTyping, showClarificationChips.
    destruct ti, (clarification_options data); reflexivity. }
  destruct (budget_exceeded data); [apply fresh_finishStreaming, H|].
  destruct (truthy (start_error data)); [apply fresh_finishStreaming, H|].
  unfold startPolling. cbv zeta. apply fresh_poll.
  apply (fresh_traffic (rt w)); [reflexivity | exact H].
Qed.

Lemma traffic_append_new_text (e : nat) (data : poll_data) (w : world) :
  traffic (rt (append_new_text e data w)) = traffic (rt w).
Proof.
  unfold append_new_text. destruct (delta data); [|reflexivity]. cbv zeta.
  set (w1 := removeTyping w).
  assert (T1 : traffic (rt w1) = traffic (rt w))
    by (subst w1; rewrite (core_rt _ _ (core_removeTyping w)); reflexivity).
  set (w2 := match assistantBubble (get_env e w1) with
             | Some _ => w1
             | None => _ end).
  assert (T2 : traffic (rt w2) = traffic (rt w1)).
  { subst w2. destruct (assistantBubble (get_env e w1)); reflexivity. }
  set (w3 := set_html _ _ w2).
  assert (T3 : traffic (rt w3) = traffic (rt w2)).
  { subst w3. rewrite (core_rt _ _ (core_set_html _ _ w2)). reflexivity. }
  change (traffic (rt w3) = traffic (rt w)). congruence.
Qed.

Lemma fresh_on_poll (e : nat) (r : option poll_data) (w : world) :
  fresh (rt w) -> fresh (rt (on_poll e r w)).
Proof.
  intros H. unfold on_poll.
  destruct r as [data|]; [|apply fresh_finishStreaming, H]. cbv zeta.
  set (w1 := show_tool_status data w).
  assert (H1 : fresh (rt w1)).
  { subst w1. rewrite (core_rt _ _ (show_tool_status_core data w)). exact H. }
  pose proof (fresh_traffic _ _ (traffic_append_new_text e data w1) H1) as H2.
  set (w2 := append_new_text e data w1) in *.
  destruct (done data).
  - unfold stream_done, refresh_suggestions. cbv zeta. apply fresh_loadSuggestions.
    cbn [rt upd_ui upd_st].
    rewrite (core_rt _ _ (settle_message_core e data (removeTyping w2))).
    rewrite (core_rt _ _ (core_removeTyping w2)). exact H2.
  - change (rt (continue_polling e w2)) with (rt (snd (setTimeout (TPoll e) w2))).
    apply fresh_setTimeout. exact H2.
Qed.

Lemma fresh_startNewChat (w : world) : fresh (rt w) -> fresh (rt (startNewChat w)).
Proof.
  intros H. unfold startNewChat. cbv zeta. apply fresh_loadSuggestions.
  unfold showWelcome. cbn [rt upd_ui upd_st].
  destruct (truthy (sessionId (st w))); [|exact H].
  apply (fresh_traffic (rt w)); [reflexivity | exact H].
Qed.

Lemma fresh_on_session (r : option (list message)) (w : world) :
  fresh (rt w) -> fresh (rt (on_session r w)).
Proof.
  intros H. unfold on_session. destruct r as [msgs|]; [|exact H]. cbv zeta.
  rewrite (core_rt _ _ (core_on_session_fold msgs (upd_ui (set_children []) w))).
  exact H.
Qed.

Lemma fresh_on_suggestions (r : option (list suggestion)) (w : world) :
  fresh (rt w) -> fresh (rt (on_suggestions r w)).
Proof.
  intros H. unfold on_suggestions, renderSuggestions.
  destruct r as [[|x l]|]; exact H.
Qed.

Lemma fresh_boot (active : text) (saved_open : bool) (saved_session : text) :
  fresh (rt (boot active saved_open saved_session)).
Proof.
  unfold boot. cbv zeta.
  set (w1 := showWelcome _).
  assert (H1 : fresh (rt w1)).
  { unfold fresh. simpl.
    split; [intros ? ? []|]. split; [intros ? ? []|]. split; constructor. }
  set (w2 := if saved_open then updateContext w1 else w1).
  assert (H2 : fresh (rt w2)).
  { subst w2. destruct saved_open; [apply fresh_loadSuggestions|]; exact H1. }
  set (w3 := if truthy saved_session && negb (truthy (sessionId (st w2)))
             then upd_st (set_sessionId saved_session) w2 else w2).
  assert (H3 : fresh (rt w3)).
  { subst w3.
    destruct (truthy saved_session && negb (truthy (sessionId (st w2)))); exact H2. }
  pose proof (fresh_loadSuggestions None None w3 H3) as H4.
  set (w4 := loadSuggestions None None w3) in *.
  destruct (truthy (sessionId (st w4))); [|exact H4].
  apply fresh_issue. exact H4.
Qed.

Lemma step_fresh (w : world) (ev : event) (w' : world) :
  gate_inv w -> fresh (rt w) -> step w ev = Some w' -> fresh (rt w').
Proof.
  intros _ S H. destruct ev; simpl in H.
  - inversion H; subst. exact S.
  - inversion H; subst. apply fresh_sendMessage, S.
  - destruct (nth_error (suggestions (ui w)) n); [|discriminate].
    inversion H; subst. unfold click_chip. apply fresh_sendMessage. exact S.
  - inversion H; subst. apply fresh_startNewChat, S.
  - inversion H; subst. apply fresh_loadSuggestions, S.
  - destruct (answer id w) as [[c w0]|] eqn:A; [|discriminate].
    destruct c; try discriminate. inversion H; subst.
    apply answer_spec in A. destruct A as [_ ->].
    apply fresh_on_chat_start. apply (fresh_drop_call (rt w)). exact S.
  - destruct (answer id w) as [[c w0]|] eqn:A; [|discriminate].
    destruct c; try discriminate. inversion H; subst.
    apply answer_spec in A. destruct A as [_ ->].
    apply fresh_finishStreaming. apply (fresh_drop_call (rt w)). exact S.
  - destruct (answer id w) as [[c w0]|] eqn:A; [|discriminate].
    destruct c; try discriminate. inversion H; subst.
    apply answer_spec in A. destruct A as [_ ->].
    apply fresh_on_poll. apply (fresh_drop_call (rt w)). exact S.
  - destruct (answer id w) as [[c w0]|] eqn:A; [|discriminate].
    destruct c; try discriminate. inversion H; subst.
    apply answer_spec in A. destruct A as [_ ->].
    apply fresh_finishStreaming. apply (fresh_drop_call (rt w)). exact S.
  - destruct (answer id w) as [[c w0]|] eqn:A; [|discriminate].
    destruct c; try discriminate. inversion H; subst.
    apply answer_spec in A. destruct A as [_ ->].
    apply fresh_on_suggestions. apply (fresh_drop_call (rt w)). exact S.
  - destruct (answer id w) as [[c w0]|] eqn:A; [|discriminate].
    destruct c; try discriminate. inversion H; subst.
    apply answer_spec in A. destruct A as [_ ->].
    apply fresh_on_session. apply (fresh_drop_call (rt w)). exact S.
  - destruct (lookup id (timers (rt w))) as [[e|]|]; [| |discriminate];
      inversion H; subst.
    + apply fresh_poll. apply (fresh_drop_timer (rt w)). exact S.
    + apply (fresh_drop_timer (rt w)). exact S.
Qed.

Lemma reachable_fresh (active : text) (saved_open : bool) (saved_session : text)
    (evs : list event) (w : world) :
  run_events (boot active saved_open saved_session) evs = Some w -> fresh (rt w).
Proof.
  apply (reachable_ind (fun w => fresh (rt w))); [apply fresh_boot | apply step_fresh].
Qed.

(** *** A live stream handle *)

Lemma drop_absent {A : Type} (id : nat) (l : list (nat * A)) :
  ~ In id (map fst l) -> drop id l = l.
Proof.
  unfold drop. induction l as [|[j a] t IH]; simpl; [reflexivity|].
  intros H. destruct (Nat.eqb j id) eqn:E.
  - apply Nat.eqb_eq in E. subst. exfalso. apply H. left. reflexivity.
  - simpl. rewrite IH; [reflexivity|]. intros Hin. apply H. right. exact Hin.
Qed.

Lemma count_drop_other {A : Type} (f : nat * A -> bool) (id : nat)
    (l : list (nat * A)) (a : A) :
  NoDup (map fst l) -> lookup id l = Some a -> f (id, a) = false ->
  List.length (filter f (drop id l)) = List.length (filter f l).
Proof.
  induction l as [|[j b] t IH]; simpl; [discriminate|].
  intros N L F. inversion N as [|? ? Hj Ht]; subst.
  destruct (Nat.eqb j id) eqn:E.
  - apply Nat.eqb_eq in E. subst j. inversion L; subst b.
    rewrite F. change (filter (fun p : nat * A => negb (Nat.eqb (fst p) id)) t)
      with (drop id t).
    rewrite (drop_absent id t Hj). reflexivity.
  - change (filter (fun p : nat * A => negb (Nat.eqb (fst p) id)) t)
      with (drop id t).
    cbn [negb filter]. destruct (f (j, b)); cbn [List.length];
      rewrite (IH Ht L F); reflexivity.
Qed.

Lemma in_flight_loadSuggestions (q a : text) (w : world) :
  in_flight (loadSuggestions q a w) = in_flight w
  /\ streamId (st (loadSuggestions q a w)) = streamId (st w).
Proof.
  unfold in_flight, loadSuggestions, issue. simpl.
  rewrite count_calls_app. split; [lia | reflexivity].
Qed.

Lemma live_quiet (w w' : world) :
  in_flight w' = in_flight w -> streamId (st w') = streamId (st w) ->
  live w -> live w'.
Proof. unfold live. intros -> ->. auto. Qed.

Lemma live_idle (w : world) : streamId (st w) = None -> live w.
Proof. unfold live. intros ->. discriminate. Qed.

Lemma finishStreaming_live (m : text) (w : world) : live (finishStreaming m w).
Proof.
  destruct (finishStreaming_view m w) as (_ & E & _). apply live_idle. exact E.
Qed.

Lemma poll_live (e : nat) (w : world) : in_flight w = 0 -> live (poll e w).
Proof.
  intros H0. unfold live, poll.
  destruct (truthy (streamId (st w))) eqn:E; cbn [negb]; [|congruence].
  intros _. unfold in_flight, issue in *. simpl. rewrite count_calls_app. lia.
Qed.

Lemma on_chat_start_live (r : option start_data) (w : world) :
  in_flight w = 0 -> streamId (st w) = None -> live (on_chat_start r w).
Proof.
  intros H0 Hn. unfold on_chat_start.
  destruct r as [data|]; [|apply finishStreaming_live].
  destruct (needs_clarification data).
  { apply live_idle. rewrite <- Hn. open_all w.
    unfold removeTyping, showClarificationChips.
    destruct ti, (clarification_options data); reflexivity. }
  destruct (budget_exceeded data); [apply finishStreaming_live|].
  destruct (truthy (start_error data)); [apply finishStreaming_live|].
  unfold startPolling. cbv zeta. apply poll_live. exact H0.
Qed.

Lemma on_poll_live (e : nat) (r : option poll_data) (w : world) :
  in_flight w = 0 -> live (on_poll e r w).
Proof.
  intros H0. destruct r as [data|]; [|apply finishStreaming_live].
  destruct (on_poll_view e data w) as (_ & _ & _ & _ & _ & V).
  destruct (done data).
  - destruct V as (_ & B2 & _). apply live_idle. exact B2.
  - destruct V as (_ & _ & B3 & _ & [id B5]). intros _.
    unfold in_flight in *. rewrite B3, B5, count_timers_app. lia.
Qed.

Lemma sendMessage_live (w : world) : gate_inv w -> live w -> live (sendMessage w).
Proof.
  intros (_ & G2 & _) L.
  destruct (sendMessage_view w) as [E | (A1 & _ & A3 & _)]; [rewrite E; exact L|].
  apply live_idle. rewrite A3. exact (proj1 (G2 A1)).
Qed.

Lemma startNewChat_live (w : world) : live w -> live (startNewChat w).
Proof.
  apply live_quiet.
  - unfold startNewChat. cbv zeta.
    rewrite (proj1 (in_flight_loadSuggestions None None _)).
    unfold in_flight, showWelcome, notify.
    destruct (truthy (sessionId (st w))); reflexivity.
  - destruct (poll_needs_a_handle 0 w) as (_ & E & _). exact E.
Qed.

Lemma answered_quiet (id : nat) (c : call) (w : world) :
  fresh (rt w) -> lookup id (pending (rt w)) = Some c ->
  in_flight_call (id, c) = false ->
  in_flight (upd_rt (fun x => set_pending (drop id (pending x)) x) w) = in_flight w.
Proof.
  intros (_ & _ & N & _) L F. unfold in_flight. simpl.
  rewrite (count_drop_other in_flight_call id _ c N L F). reflexivity.
Qed.

Lemma step_live (w : world) (ev : event) (w' : world) :
  gate_inv w -> fresh (rt w) /\ live w -> step w ev = Some w' -> live w'.
Proof.
  intros G [F L] H. destruct ev; simpl in H.
  - inversion H; subst. exact L.
  - inversion H; subst. apply sendMessage_live; assumption.
  - destruct (nth_error (suggestions (ui w)) n); [|discriminate].
    inversion H; subst. unfold click_chip. apply sendMessage_live.
    + eapply calmer_gate_inv; [|exact G]. apply calmer_core. reflexivity.
    + exact L.
  - inversion H; subst. apply startNewChat_live, L.
  - inversion H; subst.
    destruct (in_flight_loadSuggestions None None w) as [A B].
    exact (live_quiet _ _ A B L).
  - destruct (answer id w) as [[c w0]|] eqn:A; [|discriminate].
    destruct c; try discriminate. inversion H; subst.
    apply answer_spec in A. destruct A as [Hl ->].
    destruct (answered_in_flight id CStart w G Hl eq_refl) as (H0 & Hs & Hn).
    apply on_chat_start_live; auto.
  - destruct (answer id w) as [[c w0]|] eqn:A; [|discriminate].
    destruct c; try discriminate. inversion H; subst.
    apply finishStreaming_live.
  - destruct (answer id w) as [[c w0]|] eqn:A; [|discriminate].
    destruct c; try discriminate. inversion H; subst.
    apply answer_spec in A. destruct A as [Hl ->].
    destruct (answered_in_flight id (CPoll loop) w G Hl eq_refl) as (H0 & Hs & Hn).
    apply on_poll_live. exact H0.
  - destruct (answer id w) as [[c w0]|] eqn:A; [|discriminate].
    destruct c; try discriminate. inversion H; subst.
    apply finishStreaming_live.
  - destruct (answer id w) as [[c w0]|] eqn:A; [|discriminate].
    destruct c; try discriminate. inversion H; subst.
    apply answer_spec in A. destruct A as [Hl ->].
    pose proof (answered_quiet id CSuggest w F Hl eq_refl) as Q.
    eapply live_quiet; [| |eapply live_quiet; [exact Q | reflexivity | exact L]].
    + unfold on_suggestions, renderSuggestions. destruct r as [[|x l]|]; reflexivity.
    + unfold on_suggestions, renderSuggestions. destruct r as [[|x l]|]; reflexivity.
  - destruct (answer id w) as [[c w0]|] eqn:A; [|discriminate].
    destruct c; try discriminate. inversion H; subst.
    apply answer_spec in A. destruct A as [Hl ->].
    pose proof (answered_quiet id CSession w F Hl eq_refl) as Q.
    set (w0 := upd_rt _ w) in *.
    pose proof (calmer_on_session r w0) as (_ & B & _).
    eapply live_quiet; [|exact B|eapply live_quiet; [exact Q | reflexivity | exact L]].
    unfold in_flight, on_session. destruct r as [msgs|]; [|reflexivity]. cbv zeta.
    rewrite (core_rt _ _ (core_on_session_fold msgs (upd_ui (set_children []) w0))).
    reflexivity.
  - destruct (lookup id (timers (rt w))) as [[e|]|] eqn:Lk; [| |discriminate];
      inversion H; subst.
    + pose proof (count_drop_lt in_flight_timer id (timers (rt w)) (TPoll e) Lk eq_refl) as Hlt.
      destruct G as (G1 & _).
      apply poll_live. unfold in_flight, expired in *. simpl. lia.
    + destruct F as (_ & _ & _ & N).
      apply (live_quiet w); [|reflexivity|exact L].
      unfold in_flight, expired. simpl.
      rewrite (count_drop_other in_flight_timer id _ THide N Lk eq_refl). reflexivity.
Qed.

Lemma boot_live (active : text) (saved_open : bool) (saved_session : text) :
  live (boot active saved_open saved_session).
Proof.
  apply live_idle.
  pose proof (boot_gate_inv active saved_open saved_session) as (_ & G2 & _).
  apply G2.
  unfold boot, updateContext, loadSession, loadSuggestions, showWelcome, issue.
  cbv zeta.
  repeat match goal with |- context [if ?c then _ else _] => destruct c end;
    reflexivity.
Qed.

Lemma reachable_live (active : text) (saved_open : bool) (saved_session : text)
    (evs : list event) (w : world) :
  run_events (boot active saved_open saved_session) evs = Some w ->
  fresh (rt w) /\ live w.
Proof.
  apply (reachable_ind (fun w => fresh (rt w) /\ live w)).
  - intros a o s. split; [apply fresh_boot | apply boot_live].
  - intros w0 ev w1 G [F L] S. split.
    + exact (step_fresh w0 ev w1 G F S).
    + exact (step_live w0 ev w1 G (conj F L) S).
Qed.

(** *** The error banner *)

Lemma hands_out_refl (w : world) : hands_out w w.
Proof. unfold hands_out. auto. Qed.

Lemma hands_out_trans (w1 w2 w3 : world) :
  hands_out w1 w2 -> hands_out w2 w3 -> hands_out w1 w3.
Proof.
  unfold hands_out. intros (A1 & A2 & A3 & A4) (B1 & B2 & B3 & B4).
  repeat split; try congruence. lia.
Qed.

Lemma hands_out_keeps (w w' : world) :
  hands_out w w' -> poll_timer_ok w /\ banner_goes w ->
  poll_timer_ok w' /\ banner_goes w'.
Proof.
  unfold hands_out, poll_timer_ok, banner_goes.
  intros (A1 & A2 & A3 & A4) [P B]. rewrite A1, A2, A3. split; [|exact B].
  intros i Hi. destruct (P i Hi) as [P1 P2]. split; [lia | exact P2].
Qed.

Lemma hands_out_removeTyping (w : world) : hands_out w (removeTyping w).
Proof. open_all w. unfold removeTyping, hands_out. destruct ti; simpl; auto. Qed.

Lemma hands_out_showTyping (s : text) (w : world) : hands_out w (showTyping s w).
Proof.
  open_all w. unfold showTyping, removeTyping, hands_out. destruct ti; simpl; auto.
Qed.

Lemma hands_out_addMessage (r : role) (c : text) (w : world) :
  hands_out w (snd (addMessage r c w)).
Proof. unfold hands_out. simpl. auto. Qed.

Lemma hands_out_loadSuggestions (q a : text) (w : world) :
  hands_out w (loadSuggestions q a w).
Proof. unfold hands_out, loadSuggestions, issue. simpl. auto. Qed.

Lemma hands_out_poll (e : nat) (w : world) : hands_out w (poll e w).
Proof.
  unfold poll. destruct (negb (truthy (streamId (st w)))); [apply hands_out_refl|].
  unfold hands_out, issue. simpl. auto.
Qed.

Lemma hands_out_sendMessage (w : world) : hands_out w (sendMessage w).
Proof.
  unfold sendMessage.
  destruct (negb (nonempty (trim (input_value (ui w)))) || isStreaming (st w));
    [apply hands_out_refl|].
  open_all w. unfold showTyping, removeTyping, addMessage, issue, hands_out.
  destruct ti; simpl; auto.
Qed.

Lemma hands_out_startNewChat (w : world) : hands_out w (startNewChat w).
Proof.
  open_all w. unfold startNewChat, showWelcome, loadSuggestions, notify, issue, hands_out.
  simpl. destruct (truthy sid); simpl; auto.
Qed.

Lemma hands_out_on_session (r : option (list message)) (w : world) :
  hands_out w (on_session r w).
Proof.
  unfold on_session. destruct r as [msgs|]; [|apply hands_out_refl]. cbv zeta.
  apply (hands_out_trans _ (upd_ui (set_children []) w)); [unfold hands_out; simpl; auto|].
  generalize (upd_ui (set_children []) w).
  induction msgs as [|m t IH]; intros w0; cbn [fold_left]; [apply hands_out_refl|].
  eapply hands_out_trans; [apply hands_out_addMessage | apply IH].
Qed.

Lemma hands_out_on_suggestions (r : option (list suggestion)) (w : world) :
  hands_out w (on_suggestions r w).
Proof.
  unfold on_suggestions, renderSuggestions, hands_out.
  destruct r as [[|x l]|]; simpl; auto.
Qed.

Lemma hands_out_append_new_text (e : nat) (data : poll_data) (w : world) :
  hands_out w (append_new_text e data w).
Proof.
  unfold append_new_text. destruct (delta data); [|apply hands_out_refl]. cbv zeta.
  pose proof (hands_out_removeTyping w) as H1.
  set (w1 := removeTyping w) in *.
  set (w2 := match assistantBubble (get_env e w1) with
             | Some _ => w1
             | None => _ end).
  assert (H2 : hands_out w1 w2).
  { subst w2. destruct (assistantBubble (get_env e w1)); [apply hands_out_refl|].
    unfold hands_out. simpl. auto. }
  set (w3 := set_html _ _ w2).
  assert (H3 : hands_out w2 w3).
  { subst w3. destruct (assistantBubble (get_env e w2)); unfold hands_out; simpl; auto. }
  eapply hands_out_trans; [exact H1|]. eapply hands_out_trans; [exact H2|].
  eapply hands_out_trans; [exact H3|]. unfold hands_out. simpl. auto.
Qed.

Lemma hands_out_stream_done (e : nat) (data : poll_data) (w : world) :
  hands_out w (stream_done e data w).
Proof.
  unfold stream_done, refresh_suggestions. cbv zeta.
  eapply hands_out_trans; [|apply hands_out_loadSuggestions].
  eapply hands_out_trans; [apply hands_out_removeTyping|].
  set (w1 := removeTyping w).
  assert (H : hands_out w1 (settle_message e data w1)).
  { unfold settle_message.
    destruct (truthy (poll_error data)), (assistantBubble (get_env e w1)),
      (truthy (text_of data)); try apply hands_out_refl;
      try apply hands_out_addMessage; unfold hands_out; simpl; auto. }
  eapply hands_out_trans; [exact H|]. unfold hands_out. simpl. auto.
Qed.

Lemma alarm_more_timers (w w' : world) (t : timer) :
  timers (rt w') = timers (rt w) ++ [(next_id (rt w), t)] ->
  next_id (rt w') = S (next_id (rt w)) ->
  pollTimer (st w') = pollTimer (st w) ->
  (error_visible (ui w') = true -> error_visible (ui w) = true \/ t = THide) ->
  fresh (rt w) -> poll_timer_ok w /\ banner_goes w ->
  poll_timer_ok w' /\ banner_goes w'.
Proof.
  unfold poll_timer_ok, banner_goes. intros Ht Hn Hp Hv (_ & F2 & _) [P B].
  rewrite Ht, Hn, Hp. split.
  - intros i Hi. destruct (P i Hi) as [P1 P2]. split; [lia|].
    intros Hin. apply in_app_or in Hin. destruct Hin as [Hin|[Hin|[]]]; [auto|].
    inversion Hin. lia.
  - intros V. destruct (Hv V) as [V' | ->].
    + destruct (B V') as [id Hid]. exists id. apply in_or_app. auto.
    + exists (next_id (rt w)). apply in_or_app. right. left. reflexivity.
Qed.

Lemma in_drop_other {A : Type} (id j : nat) (a : A) (l : list (nat * A)) :
  In (j, a) l -> j <> id -> In (j, a) (drop id l).
Proof.
  intros H N. unfold drop. apply filter_In. split; [exact H|].
  simpl. apply negb_true_iff. apply Nat.eqb_neq. exact N.
Qed.

Lemma finishStreaming_alarm (m : text) (w : world) :
  alarm_inv w -> alarm_inv (finishStreaming m w).
Proof.
  intros (F & P & B). split; [apply fresh_finishStreaming; exact F|].
  unfold finishStreaming. cbv zeta.
  eapply hands_out_keeps; [apply hands_out_loadSuggestions|].
  set (w1 := upd_ui (set_send_disabled false) _).
  assert (H1 : hands_out w w1).
  { subst w1. eapply hands_out_trans; [apply hands_out_removeTyping|].
    unfold hands_out. simpl. auto. }
  destruct (hands_out_keeps w w1 H1 (conj P B)) as [P1 B1].
  assert (F1 : fresh (rt w1)).
  { subst w1. cbn [rt upd_ui upd_st]. rewrite (core_rt _ _ (core_removeTyping w)). exact F. }
  set (w2 := match pollTimer (st w1) with Some id => _ | None => w1 end).
  assert (H2 : fresh (rt w2) /\ poll_timer_ok w2 /\ banner_goes w2).
  { subst w2. destruct (pollTimer (st w1)) as [i|] eqn:E; [|auto].
    split; [apply (fresh_drop_timer (rt w1)); exact F1|]. split.
    - intros j Hj. discriminate.
    - intros V. destruct (B1 V) as [id Hid]. exists id.
      unfold clearTimeout. simpl. apply in_drop_other; [exact Hid|].
      intros ->. exact (proj2 (P1 i E) Hid). }
  destruct H2 as (F2 & P2 & B2).
  destruct (truthy m); [|auto].
  unfold showError. cbv zeta.
  apply (alarm_more_timers w2 _ THide); try reflexivity; auto.
Qed.


Lemma continue_polling_alarm (e : nat) (w : world) :
  alarm_inv w -> alarm_inv (continue_polling e w).
Proof.
  intros (F & P & B). split.
  - change (rt (continue_polling e w)) with (rt (snd (setTimeout (TPoll e) w))).
    apply fresh_setTimeout. exact F.
  - unfold continue_polling, setTimeout, poll_timer_ok, banner_goes. simpl. split.
    + intros i Hi. inversion Hi; subst. split; [lia|].
      intros Hin. apply in_app_or in Hin. destruct Hin as [Hin|[Hin|[]]].
      * destruct F as (_ & F2 & _). specialize (F2 _ _ Hin). lia.
      * discriminate.
    + intros V. destruct (B V) as [id Hid]. exists id. apply in_or_app. auto.
Qed.

Lemma hands_out_alarm (w w' : world) :
  hands_out w w' -> fresh (rt w') -> alarm_inv w -> alarm_inv w'.
Proof.
  intros H F' (F & P & B). split; [exact F'|]. exact (hands_out_keeps w w' H (conj P B)).
Qed.

Lemma on_chat_start_alarm (r : option start_data) (w : world) :
  alarm_inv w -> alarm_inv (on_chat_start r w).
Proof.
  intros A.
  assert (F' : fresh (rt (on_chat_start r w))) by (apply fresh_on_chat_start, A).
  revert F'. unfold on_chat_start.
  destruct r as [data|]; [|intros _; apply finishStreaming_alarm, A].
  destruct (needs_clarification data).
  { intros F'. apply (hands_out_alarm w); [|exact F' | exact A].
    open_all w. unfold removeTyping, addMessage, showClarificationChips, hands_out.
    destruct ti, (clarification_options data); simpl; auto. }
  destruct (budget_exceeded data); [intros _; apply finishStreaming_alarm, A|].
  destruct (truthy (start_error data)); [intros _; apply finishStreaming_alarm, A|].
  intros F'. apply (hands_out_alarm w); [|exact F' | exact A].
  unfold startPolling. cbv zeta.
  eapply hands_out_trans; [|apply hands_out_poll]. unfold hands_out. simpl. auto.
Qed.

Lemma on_poll_alarm (e : nat) (r : option poll_data) (w : world) :
  alarm_inv w -> alarm_inv (on_poll e r w).
Proof.
  intros A.
  assert (F' : fresh (rt (on_poll e r w))) by (apply fresh_on_poll, A).
  revert F'. unfold on_poll.
  destruct r as [data|]; [|intros _; apply finishStreaming_alarm, A]. cbv zeta.
  set (w1 := show_tool_status data w).
  assert (H1 : hands_out w w1).
  { subst w1. unfold show_tool_status.
    destruct (truthy (tool_status data) && negb (done data));
      [apply hands_out_showTyping | apply hands_out_refl]. }
  pose proof (hands_out_append_new_text e data w1) as H2.
  set (w2 := append_new_text e data w1) in *.
  pose proof (hands_out_trans _ _ _ H1 H2) as H.
  destruct (done data).
  - intros F'. apply (hands_out_alarm w); [|exact F' | exact A].
    eapply hands_out_trans; [exact H | apply hands_out_stream_done].
  - intros _. apply continue_polling_alarm.
    apply (hands_out_alarm w); [exact H| |exact A].
    apply (fresh_traffic (rt w1)).
    + apply traffic_append_new_text.
    + subst w1. rewrite (core_rt _ _ (show_tool_status_core data w)). apply A.
Qed.

Lemma lookup_unique {A : Type} (id : nat) (l : list (nat * A)) (a b : A) :
  NoDup (map fst l) -> lookup id l = Some a -> In (id, b) l -> a = b.
Proof.
  induction l as [|[j c] t IH]; simpl; [discriminate|].
  intros N L Hin. inversion N as [|? ? Hj Ht]; subst.
  destruct (Nat.eqb j id) eqn:E.
  - apply Nat.eqb_eq in E. subst j. inversion L; subst c.
    destruct Hin as [Hin|Hin]; [inversion Hin; reflexivity|].
    exfalso. apply Hj. apply in_map_iff. exists (id, b). auto.
  - destruct Hin as [Hin|Hin]; [inversion Hin; subst; rewrite Nat.eqb_refl in E; discriminate|].
    exact (IH Ht L Hin).
Qed.

Lemma expired_alarm (id : nat) (t : timer) (w : world) :
  lookup id (timers (rt w)) = Some t ->
  alarm_inv w ->
  fresh (rt (expired id w)) /\ poll_timer_ok (expired id w)
  /\ (t <> THide -> banner_goes (expired id w)).
Proof.
  intros L (F & P & B). split; [apply (fresh_drop_timer (rt w)); exact F|]. split.
  - intros i Hi. destruct (P i Hi) as [P1 P2]. split; [exact P1|].
    intros Hin. apply P2. exact (in_drop _ _ _ Hin).
  - intros Ht V. destruct (B V) as [j Hj]. exists j.
    unfold expired. simpl. apply in_drop_other; [exact Hj|].
    intros ->. destruct F as (_ & _ & _ & N).
    apply Ht. exact (lookup_unique id _ t THide N L Hj).
Qed.

Lemma answered_alarm (id : nat) (w : world) :
  alarm_inv w -> alarm_inv (upd_rt (fun x => set_pending (drop id (pending x)) x) w).
Proof.
  intros (F & P & B). split; [apply (fresh_drop_call (rt w)); exact F|].
  split; [exact P | exact B].
Qed.

Lemma boot_alarm (active : text) (saved_open : bool) (saved_session : text) :
  alarm_inv (boot active saved_open saved_session).
Proof.
  split; [apply fresh_boot|].
  assert (H : error_visible (ui (boot active saved_open saved_session)) = false
              /\ pollTimer (st (boot active saved_open saved_session)) = None).
  { unfold boot, updateContext, loadSession, loadSuggestions, showWelcome, issue.
    cbv zeta.
    repeat match goal with |- context [if ?c then _ else _] => destruct c end;
      split; reflexivity. }
  destruct H as [H1 H2]. split.
  - intros i Hi. congruence.
  - intros V. congruence.
Qed.

Lemma step_alarm (w : world) (ev : event) (w' : world) :
  gate_inv w -> alarm_inv w -> step w ev = Some w' -> alarm_inv w'.
Proof.
  intros G A H.
  pose proof (step_fresh w ev w' G (proj1 A) H) as F'.
  destruct ev; simpl in H.
  - inversion H; subst. apply (hands_out_alarm w); [|exact F' | exact A].
    unfold hands_out. simpl. auto.
  - inversion H; subst.
    apply (hands_out_alarm w); [apply hands_out_sendMessage | exact F' | exact A].
  - destruct (nth_error (suggestions (ui w)) n); [|discriminate].
    inversion H; subst. apply (hands_out_alarm w); [|exact F' | exact A].
    unfold click_chip.
    eapply hands_out_trans; [|apply hands_out_sendMessage]. unfold hands_out. simpl. auto.
  - inversion H; subst.
    apply (hands_out_alarm w); [apply hands_out_startNewChat | exact F' | exact A].
  - inversion H; subst.
    apply (hands_out_alarm w); [apply hands_out_loadSuggestions | exact F' | exact A].
  - destruct (answer id w) as [[c w0]|] eqn:E; [|discriminate].
    destruct c; try discriminate. inversion H; subst.
    apply answer_spec in E. destruct E as [_ ->].
    apply on_chat_start_alarm, answered_alarm, A.
  - destruct (answer id w) as [[c w0]|] eqn:E; [|discriminate].
    destruct c; try discriminate. inversion H; subst.
    apply answer_spec in E. destruct E as [_ ->].
    apply finishStreaming_alarm, answered_alarm, A.
  - destruct (answer id w) as [[c w0]|] eqn:E; [|discriminate].
    destruct c; try discriminate. inversion H; subst.
    apply answer_spec in E. destruct E as [_ ->].
    apply on_poll_alarm, answered_alarm, A.
  - destruct (answer id w) as [[c w0]|] eqn:E; [|discriminate].
    destruct c; try discriminate. inversion H; subst.
    apply answer_spec in E. destruct E as [_ ->].
    apply finishStreaming_alarm, answered_alarm, A.
  - destruct (answer id w) as [[c w0]|] eqn:E; [|discriminate].
    destruct c; try discriminate. inversion H; subst.
    apply answer_spec in E. destruct E as [_ ->].
    apply (hands_out_alarm _ _ (hands_out_on_suggestions r _) F').
    apply answered_alarm, A.
  - destruct (answer id w) as [[c w0]|] eqn:E; [|discriminate].
    destruct c; try discriminate. inversion H; subst.
    apply answer_spec in E. destruct E as [_ ->].
    apply (hands_out_alarm _ _ (hands_out_on_session r _) F').
    apply answered_alarm, A.
  - destruct (lookup id (timers (rt w))) as [[e|]|] eqn:L; [| |discriminate];
      inversion H; subst.
    + destruct (expired_alarm id (TPoll e) w L A) as (F1 & P1 & B1).
      apply (hands_out_alarm (expired id w)); [apply hands_out_poll | exact F'|].
      split; [exact F1|]. split; [exact P1|]. apply B1. discriminate.
    + destruct (expired_alarm id THide w L A) as (F1 & P1 & _).
      split; [exact F1|]. split; [exact P1|]. intros V. discriminate.
Qed.

Lemma reachable_alarm (active : text) (saved_open : bool) (saved_session : text)
    (evs : list event) (w : world) :
  run_events (boot active saved_open saved_session) evs = Some w -> alarm_inv w.
Proof.
  apply (reachable_ind alarm_inv); [apply boot_alarm | apply step_alarm].
Qed.

(** X19. Whatever happens, while the error banner is shown a timer that
    hides it is pending, and the banner is hidden when that timer
    fires: no cancelled poll timer takes the hiding timer with it. *)
Theorem error_banner_is_taken_down
    (active : text) (saved_open : bool) (saved_session : text)
    (evs : list event) (w : world) :
  run_events (boot active saved_open saved_session) evs = Some w ->
  error_visible (ui w) = true ->
  exists id, lookup id (timers (rt w)) = Some THide
             /\ exists w', step w (Expire id) = Some w'
                           /\ error_visible (ui w') = false.
Proof.
  intros H V. destruct (reachable_alarm _ _ _ _ _ H) as (F & _ & B).
  destruct (B V) as [id Hid]. exists id.
  assert (L : lookup id (timers (rt w)) = Some THide).
  { destruct F as (_ & _ & _ & N).
    destruct (lookup id (timers (rt w))) as [t|] eqn:E.
    - f_equal. exact (lookup_unique id _ t THide N E Hid).
    - exfalso. clear - E Hid. induction (timers (rt w)) as [|[j c] l IH]; [contradiction|].
      simpl in E. destruct (Nat.eqb j id) eqn:Ej; [discriminate|].
      destruct Hid as [Hid|Hid]; [inversion Hid; subst; rewrite Nat.eqb_refl in Ej; discriminate|].
      exact (IH Hid E). }
  split; [exact L|]. eexists. split; [simpl; rewrite L; reflexivity | reflexivity].
Qed.

Lemma error_banner_is_taken_down_witness :
  exists w,
    run_events (boot None false None) (asked ++ [StartFail 2 None]) = Some w
    /\ error_visible (ui w) = true
    /\ exists id, lookup id (timers (rt w)) = Some THide.
Proof.
  eexists. split; [vm_compute; reflexivity|]. split; [reflexivity|].
  match goal with
  | |- exists id, lookup id (timers (rt ?w)) = _ =>
      destruct (error_banner_is_taken_down None false None
                  (asked ++ [StartFail 2 None]) w) as (id & L & _);
        [vm_compute; reflexivity | reflexivity | exists id; exact L]
  end.
Defined.


(** *** What a user typed *)

Lemma nth_error_update_at {A : Type} (f : A -> A) (l : list A) (i j : nat) :
  nth_error (update_at i f l) j
  = if Nat.eqb j i then option_map f (nth_error l j) else nth_error l j.
Proof.
  revert i j. induction l as [|a t IH]; intros i j.
  - destruct i, j; simpl; try reflexivity. destruct (Nat.eqb j i); reflexivity.
  - destruct i, j; simpl; try reflexivity. apply IH.
Qed.

Lemma bubbles_ok_frame (w w' : world) :
  bubbles (ui w') = bubbles (ui w) -> envs (rt w') = envs (rt w) ->
  bubbles_ok w -> bubbles_ok w'.
Proof.
  unfold bubbles_ok, get_env. intros -> ->. auto.
Qed.

Lemma addMessage_bubbles (r : role) (c : text) (w : world) :
  bubbles_ok w ->
  let w' := snd (addMessage r c w) in
  bubbles_ok w'
  /\ envs (rt w') = envs (rt w)
  /\ exists b, nth_error (bubbles (ui w')) (fst (addMessage r c w)) = Some b
               /\ b_role b = r.
Proof.
  intros [U A]. unfold addMessage, bubbles_ok, get_env. simpl. split; [split|].
  - intros i b H Hr.
    destruct (Nat.lt_ge_cases i (List.length (bubbles (ui w)))) as [L|L].
    + rewrite nth_error_app1 in H by exact L. exact (U i b H Hr).
    + rewrite nth_error_app2 in H by exact L.
      destruct (i - List.length (bubbles (ui w))) as [|k]; simpl in H.
      * inversion H; subst. simpl in *. subst r. simpl. apply escapeHtml_inert.
      * destruct k; discriminate.
  - intros e i H. destruct (A e i H) as (b & Hb & Hr). exists b. split; [|exact Hr].
    rewrite nth_error_app1; [exact Hb|]. apply nth_error_Some. congruence.
  - split; [reflexivity|]. eexists. split.
    + rewrite nth_error_app2 by lia. rewrite Nat.sub_diag. reflexivity.
    + reflexivity.
Qed.

Lemma set_html_bubbles (e : nat) (h : jsstring) (w : world) :
  bubbles_ok w -> bubbles_ok (set_html (assistantBubble (get_env e w)) h w).
Proof.
  intros [U A]. destruct (assistantBubble (get_env e w)) as [i|] eqn:E; [|split; assumption].
  destruct (A e i E) as (b0 & Hb0 & Hr0).
  unfold set_html, bubbles_ok, get_env. simpl. split.
  - intros j b H Hr. rewrite nth_error_update_at in H.
    destruct (Nat.eqb j i) eqn:Ej.
    + apply Nat.eqb_eq in Ej. subst j. rewrite Hb0 in H. simpl in H.
      inversion H; subst. simpl in Hr. congruence.
    + exact (U j b H Hr).
  - intros e' j H. destruct (A e' j H) as (b & Hb & Hr).
    rewrite nth_error_update_at. destruct (Nat.eqb j i).
    + rewrite Hb. simpl. eexists. split; [reflexivity|]. exact Hr.
    + exists b. auto.
Qed.

Lemma add_actions_bubbles (i : nat) (t : text) (w : world) :
  bubbles_ok w -> bubbles_ok (add_actions i t w).
Proof.
  intros [U A]. unfold add_actions, bubbles_ok, get_env. simpl. split.
  - intros j b H Hr. rewrite nth_error_update_at in H.
    destruct (Nat.eqb j i); [|exact (U j b H Hr)].
    destruct (nth_error (bubbles (ui w)) j) as [b1|] eqn:E; [|discriminate].
    simpl in H. inversion H; subst.
    destruct (b_actions b1); simpl in *; exact (U j b1 E Hr).
  - intros e' j H. destruct (A e' j H) as (b & Hb & Hr).
    rewrite nth_error_update_at. destruct (Nat.eqb j i).
    + rewrite Hb. simpl. eexists. split; [reflexivity|].
      destruct (b_actions b); exact Hr.
    + exists b. auto.
Qed.

Lemma get_env_update (e e' : nat) (v : poll_env) (w : world) :
  get_env e' (set_env e v w) = get_env e' w
  \/ get_env e' (set_env e v w) = v.
Proof.
  unfold get_env, set_env. simpl.
  destruct (Nat.eq_dec e' e) as [->|N].
  - destruct (Nat.lt_ge_cases e (List.length (envs (rt w)))) as [L|L].
    + right. apply nth_update_at_same. exact L.
    + left. rewrite !nth_overflow; [reflexivity | exact L |].
      rewrite length_update_at. exact L.
  - left. apply nth_update_at_other. exact N.
Qed.

Lemma set_env_bubbles (e : nat) (v : poll_env) (w : world) :
  bubbles_ok w ->
  (forall i, assistantBubble v = Some i ->
             exists b, nth_error (bubbles (ui w)) i = Some b /\ b_role b = assistant) ->
  bubbles_ok (set_env e v w).
Proof.
  intros [U A] Hv. split; [exact U|].
  intros e' i H. destruct (get_env_update e e' v w) as [E|E]; rewrite E in H.
  - exact (A e' i H).
  - exact (Hv i H).
Qed.

Lemma removeTyping_bubbles (w : world) : bubbles_ok w -> bubbles_ok (removeTyping w).
Proof.
  apply bubbles_ok_frame; open_all w; unfold removeTyping; destruct ti; reflexivity.
Qed.

Lemma showTyping_bubbles (s : text) (w : world) :
  bubbles_ok w -> bubbles_ok (showTyping s w).
Proof.
  apply bubbles_ok_frame; open_all w; unfold showTyping, removeTyping;
    destruct ti; reflexivity.
Qed.

Lemma append_new_text_bubbles (e : nat) (data : poll_data) (w : world) :
  bubbles_ok w -> bubbles_ok (append_new_text e data w).
Proof.
  intros H. unfold append_new_text. destruct (delta data); [|exact H]. cbv zeta.
  pose proof (removeTyping_bubbles w H) as H1.
  set (w1 := removeTyping w) in *.
  set (w2 := match assistantBubble (get_env e w1) with
             | Some _ => w1
             | None => _ end).
  assert (H2 : bubbles_ok w2).
  { subst w2. destruct (assistantBubble (get_env e w1)); [exact H1|].
    destruct (addMessage_bubbles assistant (Some []) w1 H1) as (B & _ & Hb).
    destruct (addMessage assistant (Some []) w1) as [b w0]. simpl in *.
    apply set_env_bubbles; [exact B|].
    intros i Hi. simpl in Hi. inversion Hi; subst. exact Hb. }
  pose proof (set_html_bubbles e (renderMarkdown_arg (text_of data)) w2 H2) as H3.
  set (w3 := set_html _ _ w2) in *.
  apply set_env_bubbles; [exact H3|].
  intros i Hi. simpl in Hi. exact (proj2 H3 e i Hi).
Qed.

Lemma settle_message_bubbles (e : nat) (data : poll_data) (w : world) :
  bubbles_ok w -> bubbles_ok (settle_message e data w).
Proof.
  intros H. unfold settle_message.
  destruct (truthy (poll_error data)), (assistantBubble (get_env e w)),
    (truthy (text_of data)); try exact H;
    try (apply add_actions_bubbles; exact H);
    try (exact (proj1 (addMessage_bubbles assistant (poll_error data) w H)));
    exact (proj1 (addMessage_bubbles assistant (text_of data) w H)).
Qed.

Lemma loadSuggestions_bubbles (q a : text) (w : world) :
  bubbles_ok w -> bubbles_ok (loadSuggestions q a w).
Proof. apply bubbles_ok_frame; reflexivity. Qed.

Lemma finishStreaming_bubbles (m : text) (w : world) :
  bubbles_ok w -> bubbles_ok (finishStreaming m w).
Proof.
  apply bubbles_ok_frame.
  - open_all w. unfold finishStreaming, removeTyping, showError, loadSuggestions,
      clearTimeout, setTimeout, issue.
    destruct ti, pt, (truthy m); reflexivity.
  - exact (proj1 (proj2 (proj2 (finishStreaming_view m w)))).
Qed.

Lemma poll_bubbles (e : nat) (w : world) : bubbles_ok w -> bubbles_ok (poll e w).
Proof.
  apply bubbles_ok_frame; unfold poll;
    destruct (negb (truthy (streamId (st w)))); reflexivity.
Qed.

Lemma sendMessage_bubbles (w : world) : bubbles_ok w -> bubbles_ok (sendMessage w).
Proof.
  intros H. unfold sendMessage.
  destruct (negb (nonempty (trim (input_value (ui w)))) || isStreaming (st w));
    [exact H|]. cbv zeta.
  pose proof (proj1 (addMessage_bubbles user (Some (trim (input_value (ui w)))) w H)) as H1.
  set (w1 := snd (addMessage _ _ w)) in *.
  eapply bubbles_ok_frame; [| |apply (showTyping_bubbles None); eapply bubbles_ok_frame;
                                [| |exact H1]]; reflexivity.
Qed.

Lemma startPolling_bubbles (w : world) : bubbles_ok w -> bubbles_ok (startPolling w).
Proof.
  intros [U A]. unfold startPolling. cbv zeta. apply poll_bubbles.
  split; [exact U|]. intros e i H. unfold get_env in H. simpl in H.
  destruct (Nat.lt_ge_cases e (List.length (envs (rt w)))) as [L|L].
  - rewrite app_nth1 in H by exact L. exact (A e i H).
  - rewrite app_nth2 in H by exact L.
    destruct (e - List.length (envs (rt w))) as [|[|k]]; simpl in H; discriminate.
Qed.

Lemma on_chat_start_bubbles (r : option start_data) (w : world) :
  bubbles_ok w -> bubbles_ok (on_chat_start r w).
Proof.
  intros H. unfold on_chat_start.
  destruct r as [data|]; [|apply finishStreaming_bubbles, H].
  destruct (needs_clarification data).
  { cbv zeta.
    set (w1 := upd_st _ (upd_ui _ (upd_st _ (removeTyping w)))).
    assert (H1 : bubbles_ok w1).
    { eapply bubbles_ok_frame; [| |apply removeTyping_bubbles; exact H]; reflexivity. }
    pose proof (proj1 (addMessage_bubbles assistant (clarification_question data) w1 H1)) as H2.
    destruct (clarification_options data); [|exact H2].
    eapply bubbles_ok_frame; [| |exact H2]; reflexivity. }
  destruct (budget_exceeded data); [apply finishStreaming_bubbles, H|].
  destruct (truthy (start_error data)); [apply finishStreaming_bubbles, H|].
  cbv zeta. apply startPolling_bubbles.
  eapply bubbles_ok_frame; [| |exact H]; reflexivity.
Qed.

Lemma on_poll_bubbles (e : nat) (r : option poll_data) (w : world) :
  bubbles_ok w -> bubbles_ok (on_poll e r w).
Proof.
  intros H. unfold on_poll.
  destruct r as [data|]; [|apply finishStreaming_bubbles, H]. cbv zeta.
  assert (H1 : bubbles_ok (show_tool_status data w)).
  { unfold show_tool_status.
    destruct (truthy (tool_status data) && negb (done data));
      [apply showTyping_bubbles|]; exact H. }
  pose proof (append_new_text_bubbles e data _ H1) as H2.
  set (w2 := append_new_text e data _) in *.
  destruct (done data).
  - unfold stream_done, refresh_suggestions. cbv zeta. apply loadSuggestions_bubbles.
    eapply bubbles_ok_frame;
      [| |apply (settle_message_bubbles e data); apply removeTyping_bubbles; exact H2];
      reflexivity.
  - eapply bubbles_ok_frame; [| |exact H2]; reflexivity.
Qed.

Lemma startNewChat_bubbles (w : world) : bubbles_ok w -> bubbles_ok (startNewChat w).
Proof.
  apply bubbles_ok_frame.
  - unfold startNewChat, showWelcome, loadSuggestions, notify, issue.
    destruct (truthy (sessionId (st w))); reflexivity.
  - destruct (poll_needs_a_handle 0 w) as (_ & _ & _ & E & _). exact E.
Qed.

Lemma on_session_bubbles (r : option (list message)) (w : world) :
  bubbles_ok w -> bubbles_ok (on_session r w).
Proof.
  intros H. unfold on_session. destruct r as [msgs|]; [|exact H]. cbv zeta.
  assert (H0 : bubbles_ok (upd_ui (set_children []) w))
    by (eapply bubbles_ok_frame; [| |exact H]; reflexivity).
  revert H0. generalize (upd_ui (set_children []) w).
  induction msgs as [|m t IH]; intros w0 H0; cbn [fold_left]; [exact H0|].
  apply IH. exact (proj1 (addMessage_bubbles (msg_role m) (msg_content m) w0 H0)).
Qed.

Lemma on_suggestions_bubbles (r : option (list suggestion)) (w : world) :
  bubbles_ok w -> bubbles_ok (on_suggestions r w).
Proof.
  apply bubbles_ok_frame; unfold on_suggestions, renderSuggestions;
    destruct r as [[|x l]|]; reflexivity.
Qed.

Lemma boot_bubbles (active : text) (saved_open : bool) (saved_session : text) :
  bubbles_ok (boot active saved_open saved_session).
Proof.
  apply (bubbles_ok_frame blank).
  - unfold boot, updateContext, loadSession, loadSuggestions, showWelcome, issue.
    cbv zeta.
    repeat match goal with |- context [if ?c then _ else _] => destruct c end;
      reflexivity.
  - unfold boot, updateContext, loadSession, loadSuggestions, showWelcome, issue.
    cbv zeta.
    repeat match goal with |- context [if ?c then _ else _] => destruct c end;
      reflexivity.
  - split.
    + intros [|i] b H; discriminate.
    + intros [|e] i H; discriminate.
Qed.

Lemma step_bubbles (w : world) (ev : event) (w' : world) :
  gate_inv w -> bubbles_ok w -> step w ev = Some w' -> bubbles_ok w'.
Proof.
  intros _ S H.
  assert (An : forall id c w0, answer id w = Some (c, w0) -> bubbles_ok w0).
  { intros id c w0 A. apply answer_spec in A. destruct A as [_ ->].
    eapply bubbles_ok_frame; [| |exact S]; reflexivity. }
  destruct ev; simpl in H.
  - inversion H; subst. eapply bubbles_ok_frame; [| |exact S]; reflexivity.
  - inversion H; subst. apply sendMessage_bubbles, S.
  - destruct (nth_error (suggestions (ui w)) n); [|discriminate].
    inversion H; subst. unfold click_chip. apply sendMessage_bubbles.
    eapply bubbles_ok_frame; [| |exact S]; reflexivity.
  - inversion H; subst. apply startNewChat_bubbles, S.
  - inversion H; subst. apply loadSuggestions_bubbles, S.
  - destruct (answer id w) as [[c w0]|] eqn:A; [|discriminate].
    destruct c; try discriminate. inversion H; subst.
    apply on_chat_start_bubbles. exact (An _ _ _ A).
  - destruct (answer id w) as [[c w0]|] eqn:A; [|discriminate].
    destruct c; try discriminate. inversion H; subst.
    apply finishStreaming_bubbles. exact (An _ _ _ A).
  - destruct (answer id w) as [[c w0]|] eqn:A; [|discriminate].
    destruct c; try discriminate. inversion H; subst.
    apply on_poll_bubbles. exact (An _ _ _ A).
  - destruct (answer id w) as [[c w0]|] eqn:A; [|discriminate].
    destruct c; try discriminate. inversion H; subst.
    apply finishStreaming_bubbles. exact (An _ _ _ A).
  - destruct (answer id w) as [[c w0]|] eqn:A; [|discriminate].
    destruct c; try discriminate. inversion H; subst.
    apply on_suggestions_bubbles. exact (An _ _ _ A).
  - destruct (answer id w) as [[c w0]|] eqn:A; [|discriminate].
    destruct c; try discriminate. inversion H; subst.
    apply on_session_bubbles. exact (An _ _ _ A).
  - destruct (lookup id (timers (rt w))) as [[e|]|]; [| |discriminate];
      inversion H; subst.
    + apply poll_bubbles. eapply bubbles_ok_frame; [| |exact S]; reflexivity.
    + eapply bubbles_ok_frame; [| |exact S]; reflexivity.
Qed.

Lemma reachable_bubbles (active : text) (saved_open : bool) (saved_session : text)
    (evs : list event) (w : world) :
  run_events (boot active saved_open saved_session) evs = Some w -> bubbles_ok w.
Proof.
  apply (reachable_ind bubbles_ok); [apply boot_bubbles | apply step_bubbles].
Qed.

(** *** The properties *)

Lemma how_many_none {A : Type} (f : A -> bool) (l : list A) (x : A) :
  how_many f l = 0 -> In x l -> f x = false.
Proof.
  unfold how_many. intros H Hin. destruct (f x) eqn:E; [|reflexivity].
  assert (Hf : In x (filter f l)) by (apply filter_In; auto).
  destruct (filter f l); [contradiction | discriminate].
Qed.

Lemma how_many_some {A : Type} (f : A -> bool) (l : list A) (x : A) :
  In x l -> f x = true -> 1 <= how_many f l.
Proof.
  unfold how_many. intros Hin E.
  assert (Hf : In x (filter f l)) by (apply filter_In; auto).
  destruct (filter f l); [contradiction | simpl; lia].
Qed.

(** X9. In every world the widget can reach, the send button is
    disabled exactly while a turn is in flight. *)
Theorem send_button_follows_the_turn
    (active : text) (saved_open : bool) (saved_session : text)
    (evs : list event) (w : world) :
  run_events (boot active saved_open saved_session) evs = Some w ->
  send_disabled (ui w) = isStreaming (st w).
Proof.
  intros H. exact (proj1 (proj1 (reachable_shows _ _ _ _ _ H))).
Qed.

Lemma send_button_follows_the_turn_witness :
  send_disabled (ui (world_after streaming_A)) = true
  /\ send_disabled (ui (world_after scenario_A)) = false.
Proof.
  split.
  - rewrite (send_button_follows_the_turn None false None streaming_A);
      vm_compute; reflexivity.
  - rewrite (send_button_follows_the_turn None false None scenario_A);
      vm_compute; reflexivity.
Defined.

(** X10. In every world the widget can reach, the messages container
    holds at most one typing indicator, and none outside a turn. *)
Theorem one_typing_indicator
    (active : text) (saved_open : bool) (saved_session : text)
    (evs : list event) (w : world) :
  run_events (boot active saved_open saved_session) evs = Some w ->
  how_many is_typing (children (ui w)) <= 1
  /\ (isStreaming (st w) = false -> ~ In Typing (children (ui w))).
Proof.
  intros H. destruct (reachable_shows _ _ _ _ _ H) as [[_ F] (T1 & T2 & _)].
  split; [exact T1|]. intros Hs Hin.
  pose proof (how_many_none is_typing _ Typing (T2 (F Hs)) Hin). discriminate.
Qed.

Lemma one_typing_indicator_witness :
  how_many is_typing (children (ui (world_after asked))) = 1
  /\ ~ In Typing (children (ui (world_after scenario_A))).
Proof.
  split; [vm_compute; reflexivity|].
  apply (one_typing_indicator None false None scenario_A); vm_compute; reflexivity.
Defined.

(** X11. In every world the widget can reach, the welcome card is shown
    at most once and never beside a message. *)
Theorem welcome_only_in_an_empty_chat
    (active : text) (saved_open : bool) (saved_session : text)
    (evs : list event) (w : world) :
  run_events (boot active saved_open saved_session) evs = Some w ->
  how_many is_welcome (children (ui w)) <= 1
  /\ (In Welcome (children (ui w)) -> forall b, ~ In (Msg b) (children (ui w))).
Proof.
  intros H. destruct (reachable_shows _ _ _ _ _ H) as [_ (_ & _ & T3 & T4)].
  split; [exact T3|]. intros Hw b Hb.
  pose proof (how_many_some is_welcome _ Welcome Hw eq_refl) as H1.
  assert (E : how_many is_welcome (children (ui w)) = 1) by lia.
  pose proof (how_many_none is_msg _ (Msg b) (T4 E) Hb). discriminate.
Qed.

Lemma welcome_only_in_an_empty_chat_witness :
  children (ui (world_after scenario_D)) = [Msg 1]
  /\ ~ In Welcome (children (ui (world_after scenario_D))).
Proof.
  split; [vm_compute; reflexivity|]. intros Hw.
  destruct (welcome_only_in_an_empty_chat None false None scenario_D
              (world_after scenario_D)) as [_ W]; [vm_compute; reflexivity|].
  apply (W Hw 1). vm_compute. auto.
Defined.

(** X12. Whatever happens, the widget never sends an empty message, and
    never polls, loads or closes without an identifier. *)
Theorem requests_name_what_they_ask_for
    (active : text) (saved_open : bool) (saved_session : text)
    (evs : list event) (w : world) :
  run_events (boot active saved_open saved_session) evs = Some w ->
  (forall m s, In (chat_start m s) (calls (rt w)) ->
               m <> [] /\ (s = None \/ truthy s = true))
  /\ (forall e sid n, In (stream_poll e sid n) (calls (rt w)) -> truthy sid = true)
  /\ (forall s, In (get_session s) (calls (rt w)) -> truthy s = true)
  /\ (forall s, In (close_session s) (calls (rt w)) -> truthy s = true).
Proof.
  intros H. pose proof (reachable_sends _ _ _ _ _ H) as S.
  unfold sends_ok in S. rewrite forallb_forall in S.
  split; [|split; [|split]].
  - intros m s Hin. specialize (S _ Hin). cbn [well_formed] in S.
    apply andb_true_iff in S. destruct S as [S1 S2]. split.
    + destruct m; [discriminate | discriminate].
    + destruct s as [[|c t]|]; [discriminate | right; reflexivity | left; reflexivity].
  - intros e sid n Hin. exact (S _ Hin).
  - intros s Hin. exact (S _ Hin).
  - intros s Hin. exact (S _ Hin).
Qed.

Lemma requests_name_what_they_ask_for_witness :
  In (chat_start (lit "What are today's sales?") None)
     (calls (rt (world_after scenario_A)))
  /\ lit "What are today's sales?" <> [].
Proof.
  assert (Hin : In (chat_start (lit "What are today's sales?") None)
                   (calls (rt (world_after scenario_A))))
    by (vm_compute; repeat first [left; reflexivity | right]).
  split; [exact Hin|].
  destruct (requests_name_what_they_ask_for None false None scenario_A
              (world_after scenario_A)) as [Hc _]; [vm_compute; reflexivity|].
  exact (proj1 (Hc _ _ Hin)).
Defined.

(** X13. Whatever happens, a suggestions request carries at most the
    first 300 units of the last response, and each of its two texts is
    null or a string that is not empty. *)
Theorem suggestion_context_is_bounded
    (active : text) (saved_open : bool) (saved_session : text)
    (evs : list event) (w : world) :
  run_events (boot active saved_open saved_session) evs = Some w ->
  forall q a, In (get_suggestions q a) (calls (rt w)) ->
    List.length (text_str a) <= 300 /\ sound q = true /\ sound a = true.
Proof.
  intros H q a Hin. pose proof (reachable_sends _ _ _ _ _ H) as S.
  unfold sends_ok in S. rewrite forallb_forall in S.
  specialize (S _ Hin). cbn [well_formed] in S.
  apply andb_true_iff in S. destruct S as [S S3].
  apply andb_true_iff in S. destruct S as [S1 S2].
  apply Nat.leb_le in S3. auto.
Qed.

Lemma suggestion_context_is_bounded_witness :
  In (get_suggestions (Some (lit "What are today's sales?")) None)
     (calls (rt (world_after scenario_A)))
  /\ sound (Some (lit "What are today's sales?")) = true.
Proof.
  assert (Hin : In (get_suggestions (Some (lit "What are today's sales?")) None)
                   (calls (rt (world_after scenario_A))))
    by (vm_compute; repeat first [left; reflexivity | right]).
  split; [exact Hin|].
  assert (R : run_events (boot None false None) scenario_A
              = Some (world_after scenario_A)) by (vm_compute; reflexivity).
  exact (proj1 (proj2 (suggestion_context_is_bounded None false None scenario_A
                         (world_after scenario_A) R _ _ Hin))).
Defined.

(** X14. Whatever happens, at most one submission, poll request or poll
    timer is outstanding at a time, and none while no turn is in
    flight. *)
Theorem one_request_at_a_time
    (active : text) (saved_open : bool) (saved_session : text)
    (evs : list event) (w : world) :
  run_events (boot active saved_open saved_session) evs = Some w ->
  in_flight w <= 1 /\ (isStreaming (st w) = false -> in_flight w = 0).
Proof.
  intros H.
  pose proof (run_gate_inv evs _ w (boot_gate_inv active saved_open saved_session) H)
    as (G1 & G2 & _).
  split; [exact G1|]. intros Hs. exact (proj2 (G2 Hs)).
Qed.

Lemma one_request_at_a_time_witness :
  in_flight (world_after streaming_A) = 1
  /\ in_flight (world_after scenario_A) = 0.
Proof.
  split; [vm_compute; reflexivity|].
  apply (one_request_at_a_time None false None scenario_A); vm_compute; reflexivity.
Defined.

(** X15. Whatever happens, while the stream handle is set exactly one
    poll request or poll timer is outstanding: the stream is neither
    polled twice at once nor left without a poll to come. *)
Theorem live_stream_is_polled
    (active : text) (saved_open : bool) (saved_session : text)
    (evs : list event) (w : world) :
  run_events (boot active saved_open saved_session) evs = Some w ->
  truthy (streamId (st w)) = true ->
  in_flight w = 1 /\ existsb awaits_start (pending (rt w)) = false.
Proof.
  intros H T. destruct (reachable_live _ _ _ _ _ H) as [_ L].
  split; [exact (L T)|].
  pose proof (run_gate_inv evs _ w (boot_gate_inv active saved_open saved_session) H)
    as (_ & _ & G3).
  destruct (existsb awaits_start (pending (rt w))); [|reflexivity].
  rewrite (G3 eq_refl) in T. discriminate.
Qed.

Lemma live_stream_is_polled_witness :
  streamId (st (world_after scenario_D)) = Some (lit "s1")
  /\ timers (rt (world_after scenario_D)) = [(5, TPoll 0)]
  /\ in_flight (world_after scenario_D) = 1.
Proof.
  split; [vm_compute; reflexivity|]. split; [vm_compute; reflexivity|].
  apply (live_stream_is_polled None false None scenario_D); vm_compute; reflexivity.
Defined.

(** X16. Whatever happens, the bubble of a user message holds no unit
    that opens or closes a tag: what a user typed, and what a loaded
    session says a user typed, is shown as text and never as markup. *)
Theorem user_text_is_never_markup
    (active : text) (saved_open : bool) (saved_session : text)
    (evs : list event) (w : world) :
  run_events (boot active saved_open saved_session) evs = Some w ->
  forall i b, nth_error (bubbles (ui w)) i = Some b -> b_role b = user ->
    inert (b_html b) = true.
Proof.
  intros H. exact (proj1 (reachable_bubbles _ _ _ _ _ H)).
Qed.

Lemma user_text_is_never_markup_witness :
  let evs := [Edit (lit "<img src=x onerror=alert(1)>"); Submit] in
  exists b, nth_error (bubbles (ui (world_after evs))) 0 = Some b
            /\ b_html b = lit "&lt;img src=x onerror=alert(1)&gt;"
            /\ inert (b_html b) = true.
Proof.
  intros evs. eexists. split; [vm_compute; reflexivity|]. split; [reflexivity|].
  apply (user_text_is_never_markup None false None evs (world_after evs) eq_refl 0);
    reflexivity.
Defined.
